(* ===== verification/_CoqProject ===== *)
-Q . S2P
Prelude.v
GoStrings.v
Cluster.v
Slots.v
Topology.v
ClusterNodes.v
Fake.v
FakeProofs.v
API.v
DeepCopy.v
ResourceBuilders.v
ResourceProofs.v
Platform.v
Controller.v
Reconcile.v
TestBed.v
StatusProofs.v
ScaleInProofs.v
Termination.v
Lifecycle.v
Formation.v
SteadyState.v
SlotMover.v
ScaleOutProofs.v
Drain.v
Converge.v
Passes.v
Hazards.v
Ownership.v
Attach.v
ScaleUp.v
System.v
Limits.v
Operation.v
Settle.v
Quiet.v
Shortfall.v
GoRedis.v
RedisBed.v
Clients.v
GoRedisProofs.v
ObserveProofs.v
KeySpace.v
LiveScaling.v
PodExec.v
Main.v
