(* ===== verification/Prelude.v ===== *)
(** * A verification development for the ValkeyCluster operator

    The repository is a Kubernetes operator, in Go, that runs Valkey clusters:
    one StatefulSet per shard, hash slots spread over the shards' primaries,
    and a reconciler that forms, repairs, grows, shrinks and tears down the
    cluster.  This library translates the operator's own code into Rocq
    functions and proves what makes it correct.

    ** The program and the files that model it

    - [internal/slots/slots.go]: the even split of the 16384 slots: [Slots].
    - [internal/topology/topology.go]: [Decide], the single next action:
      [Topology].
    - [internal/cluster/admin.go]: the cluster data and the interface
      [ClusterAdmin] between the reconciler and a live cluster: [Cluster] (the
      interface is a type class over a world).
    - [internal/cluster/fake.go]: the in-memory implementation: [Fake] (Module
      [Fake]), with its invariants in [FakeProofs].
    - [internal/cluster/goredis.go]: the production implementation: the parsers
      in [ClusterNodes], the methods in [GoRedis] (Module [Admin]), the proofs
      in [GoRedisProofs] (the slot mover), [ObserveProofs] (observation and
      repair) and [KeySpace] (the slot mover as an implementation of an abstract
      keyspace).  [Clients] has the methods once more with the client objects
      they create, cache and close, and proves that nothing else differs.
    - [internal/cluster/exec.go]: commands in pods: [PodExec], with [NewAdmin],
      which puts the production [Admin] on them.
    - [api/v1alpha1/valkeycluster_types.go]: the custom resource, with its
      validation markers as a predicate: [API].
    - [api/v1alpha1/zz_generated.deepcopy.go]: the deep copies, on a heap of Go
      values with pointers and slices: [DeepCopy].
    - [cmd/main.go], [groupversion_info.go], [SetupWithManager]: flags, options,
      scheme and start-up of the process, with the reconciler it builds and
      registers: [Main].
    - [internal/resources/builders.go]: names, labels, [valkey.conf], Service,
      ConfigMap, StatefulSet: [ResourceBuilders], proofs in [ResourceProofs].
    - [internal/controller/status.go], [resources.go], [membership.go]:
      observation, status, owned objects, replica attachment: [Controller].
    - [internal/controller/scaling.go], [reconcile.go],
      [valkeycluster_controller.go]: scale-out, scale-in, teardown and the
      reconcile loop: [Reconcile].

    The proofs about the reconciler are in [StatusProofs] (indexes, summary,
    conditions, status), [ScaleInProofs], [ScaleOutProofs], [Formation],
    [SteadyState] (the membership step), [Lifecycle] (objects, gates, deletion),
    [Termination], [Drain] and [Converge] (a whole scale-in, pass after pass).
    A whole pass is reduced to the one action it takes in [Passes]; on it rest
    [ScaleUp] (a whole scale-out, and the imbalance it leaves), [Hazards] (a gap
    that scale-out never fills), and the operator as a transition system:
    [Ownership] (how each operation moves slots and members), [Attach] (where
    members and replicas end up), [System] (the invariant, what every plan does
    to it, and how much of a scale-in is left), [Limits] (where the guarantees
    end: a departing shard that does not answer, replicas lowered below an
    owner), [Operation] (the steps of operator, user and environment, and the
    invariant in every reachable world), [Settle] (from every reachable world
    the declared topology is reached and kept), [Quiet] (whole passes over a
    cluster that has the declared shape) and [Shortfall] (what an interrupted
    scale-out leaves behind).  [SlotMover] is the interface that scaling relies
    on; the fake cluster ([ScaleOutProofs]) and the production [Admin]
    ([LiveScaling]) are its instances, as they are of [ReportsFormed]
    ([StatusProofs]), what the planner relies on when the status says Ready.
    [GoStrings] holds the functions of the Go standard library that the code
    uses on strings and numbers.  This file, [Prelude], holds machine integers,
    errors, the effect monad with its proof rules, and shared list lemmas.

    ** How state, effects and errors are modelled

    A Go method that acts on the outside is a function in the monad [M W]: from
    a world [W] to a result and a new world.  A Go error is a value of [error],
    and a call that returns one gives a [result].  [bindE] is the idiom
    [if err != nil { return err }], [wrapE] is [fmt.Errorf] with [%w].  The
    computation has no result ([None]) only when a loop that Go does not bound
    exhausts its fuel.  Integers are [Z], with the wrap-around written out
    ([wrap64], [wrap32]) where an operation can leave its width.  Go maps are
    [gmap]s; where the iteration order of a map matters it is asked of the
    world.

    Code that is not in the repository is an argument: class [Platform] (the
    API server through controller-runtime, the clock, SHA-256, map iteration
    order; laws in [PlatformLaws]), class [Redis] (the commands of go-redis;
    laws in [DataPlane], [RepairPlane], [HashSlots], [AnsweringRedis] and
    [AnsweringRepair] and, for servers that can execute what
    they are asked, [LiveRedis]), classes [ClientGo] and [CtrlRuntime] (the
    exec transport and the manager), and [GoLib] with [LibCopy] (the library
    types inside the custom resource and their copies; laws in [LibLaws]).
    [TestBed], [RedisBed] and [Live] of [KeySpace] are executable worlds that
    satisfy these laws, so that every hypothesis is met by a concrete world and
    the theorems can be evaluated.

    ** What is proved

    - Slots and planning: [Distribute] partitions the slots, the counts are
      balanced; [Decide] follows its documented precedence, has nothing to do
      exactly on a converged cluster, and its counts close the gap.
    - Operation: from the creation of the resource on, whatever passes, edits
      of the spec, readiness changes and failovers come in whatever order, no slot is
      lost, every slot owner is a running pod and the only owner of its shard,
      and every pass succeeds.  Two kinds of edit are excluded, because they do
      harm: lowering the replicas below a pod that owns slots (the pod is
      scaled away and forgotten), and raising the shards in the middle of a
      scale-in (a shard without slots between shards that have some is never
      filled, and no further pass changes anything).
    - Settling: from every world so reached, once the edits stop and the pods
      come up, finitely many passes lead to the declared topology (members,
      owners, replicas, StatefulSets, phase Ready), and no later pass leaves it.
    - Scale-in: a departing shard is not deleted while one of its pods that
      answers owns slots (against the interface [OwnerView], discharged by the
      in-memory world); and it is deleted, with whatever slots it owns, when none
      of its pods answers.
      Repeated passes of [Reconcile] on the in-memory cluster complete every
      scale-in, after one pass per batch of slots and one more; on healthy
      Valkey servers driven by the production [Admin] a departing shard is
      drained in one visit per batch, and no key is lost.
    - Scale-out: a new shard gets exactly its share, on every [SlotMover]: the
      fake cluster, and healthy Valkey servers driven by the production
      [Admin], where every key ends up on the owner of its slot; one pass of
      [Reconcile] completes a scale-out from the first shards to all of them and
      publishes Ready; but with fewer new shards than old ones some old primary
      keeps all it had and the planner does not notice, and a shard that an
      interrupted scale-out left short of its share is never filled up.
    - Formation: from an empty cluster one pass of [formCluster] reaches the
      declared topology, for every size.
    - Steady state: over a cluster in the declared shape a whole pass leaves the
      cluster alone, and every later one leaves the API server as it is, too,
      the clock aside.
    - Termination: every pass of [Reconcile] returns.
    - Status: what is published is truthful and agrees with the plan, the
      scale-in that overrides it included;
      conditions are kept one per type; it satisfies the schema of the resource
      (widths, keys of the lists, format of the reasons).
    - Lifecycle: StatefulSets keep their immutable fields; the cluster is not
      touched before the pods are ready; an unstable cluster is repaired first,
      except that a scale-in in progress goes first; deletion reclaims exactly
      the volumes of the instance.
    - Data: the slot mover loses no key however it ends, and hands a slot over
      only when it is empty on the source; it terminates; on healthy servers it
      succeeds and refines the abstract hand-over of slots; the repair loses no
      key but takes at most 1000 of a slot off a server; every client that a
      method creates is closed when it returns.
    - Parsing: the parsers read back every text of the documented CLUSTER NODES
      format; IPv6 addresses are not parsed.
    - Resources: names identify pods, the rendered configuration says what the
      spec asks for, the objects of a shard fit together, and scaling never
      changes a pod template.
    - The fake cluster keeps its invariant and conserves slots.
    - Process: the deep copies share no memory with the original; the manager
      starts only when everything has been set up, the reconciler with its pod
      executor included, and the first step that fails ends the process; no
      command line turns HTTP/2 on or metrics authentication off without the
      flag for it; a failed valkey-cli command is reported.

    ** Fuel

    [fillLoop] (the fill loop of [scaleOut]) runs on as much fuel as slots are
    missing: an iteration that goes on has moved at least one ([Termination]).
    The key loop of the production slot mover takes its fuel as an argument;
    more rounds than the source has keys in a slot are enough
    ([move_slots_terminates]).

    In [Settle] the number of rounds is bounded by the slots that are not on
    shard 0 and the sets that have to go, which every pass of a scale-in lowers.
    The passes of a scale-in are iterated [passes n] times, with [n] given by
    the slots the departing pods own ([drains]).

    ** What is not modelled

    Logging, contexts and timeouts are left out.  Clients that write to the
    cluster during a migration are not part of the world; in [Converge] the
    pods stay ready and nothing happens between two passes.  [Operation] runs
    over the in-memory cluster, whose calls do not fail: with calls that fail
    its invariant does not hold, since scale-in deletes a departing shard whose
    primary does not answer ([scale_in_deletes_unreachable_owner]).  Tests,
    benchmarks, scripts and manifests are not part of the operator.

    Formation, and the removal of a drained shard, are not proved over the
    production [Admin]: they rely on how fast gossip spreads, which the
    documentation of the commands does not fix.  The deletion of the resource is
    a theorem on one pass ([delete_reclaims_volumes]) and not a step of
    [Operation]. *)

From stdpp Require Export base tactics option list numbers strings gmap sorting.

(** ** Machine integers

    Go's [int] is 64 bits wide on every platform the operator is built for;
    the custom resource uses [int32].  Values are kept as [Z] and each
    operation that could leave the range is wrapped explicitly. *)

Section Ints.
Local Open Scope Z_scope.

Definition wrap (w z : Z) : Z := (z + 2 ^ (w - 1)) `mod` 2 ^ w - 2 ^ (w - 1).
Definition wrap64 (z : Z) : Z := wrap 64 z.
Definition wrap32 (z : Z) : Z := wrap 32 z.
Definition in_int64 (z : Z) : Prop := - 2 ^ 63 ≤ z < 2 ^ 63.
Definition in_int32 (z : Z) : Prop := - 2 ^ 31 ≤ z < 2 ^ 31.

Lemma wrap64_id z : in_int64 z → wrap64 z = z.
Proof.
  unfold in_int64, wrap64, wrap. change (64 - 1) with 63. intros Hz.
  rewrite Z.mod_small; lia.
Qed.

Lemma wrap32_id z : in_int32 z → wrap32 z = z.
Proof.
  unfold in_int32, wrap32, wrap. change (32 - 1) with 31. intros Hz.
  rewrite Z.mod_small; lia.
Qed.

Lemma wrap32_range z : in_int32 (wrap32 z).
Proof.
  unfold in_int32, wrap32, wrap. change (32 - 1) with 31.
  pose proof (Z.mod_pos_bound (z + 2 ^ 31) (2 ^ 32)). lia.
Qed.

End Ints.

(** ** Errors

    A Go [error] is either nil or a value.  The kinds the operator tells apart
    are the two API-server errors it tests for; [fmt.Errorf] with [%w] wraps
    an error that may itself be nil ([ErrWrapNil]: the result is still a non-nil
    error), or in the middle of a text ([ErrWrapAround]). *)

Inductive error :=
| ErrNotFound (what : string)
| ErrConflict (what : string)
| ErrText (msg : string)
| ErrWrap (msg : string) (inner : error)
| ErrWrapNil (msg : string)
| ErrWrapAround (before : string) (inner : error) (after : string).

(** The result of a Go function whose last result is an [error]. *)
Inductive result (A : Type) :=
| Ok (a : A)
| Err (e : error).
Arguments Ok {A} a.
Arguments Err {A} e.

Definition is_ok {A} (r : result A) : bool :=
  match r with Ok _ => true | Err _ => false end.

(** ** The effect monad

    A computation reads and changes a world [W].  It gives no result ([None])
    only when a loop that is run on fuel exhausts it; every other Go failure
    is a value. *)

Definition M (W A : Type) : Type := W → option (A * W).

Definition ret {W A} (a : A) : M W A := λ w, Some (a, w).
Definition bind {W A B} (m : M W A) (k : A → M W B) : M W B :=
  λ w, match m w with
       | Some (a, w') => k a w'
       | None => None
       end.
Definition out_of_fuel {W A} : M W A := λ _, None.

(** [x, err := m; if err != nil { return err }; k x] *)
Definition bindE {W A B} (m : M W (result A)) (k : A → M W (result B)) : M W (result B) :=
  bind m (λ r, match r with Ok a => k a | Err e => ret (Err e) end).

(** [fmt.Errorf("msg: %w", err)] around the error of a call. *)
Definition wrapE {W A} (msg : string) (m : M W (result A)) : M W (result A) :=
  bind m (λ r, ret match r with Ok a => Ok a | Err e => Err (ErrWrap msg e) end).

Declare Scope go_scope.
Delimit Scope go_scope with go.
Notation "x <- m ;; k" := (bind m (λ x, k))
  (at level 100, m at next level, right associativity) : go_scope.
Notation "x <-? m ;; k" := (bindE m (λ x, k))
  (at level 100, m at next level, right associativity) : go_scope.
Open Scope go_scope.

(** [for _, x := range l { body x }], the body's errors being ignored. *)
Fixpoint forM {W A} (l : list A) (body : A → M W unit) : M W unit :=
  match l with
  | [] => ret tt
  | x :: l' => _ <- body x ;; forM l' body
  end.

(** [for _, x := range l { if err := body x; err != nil { return err } }] *)
Fixpoint forE {W A} (l : list A) (body : A → M W (result unit)) : M W (result unit) :=
  match l with
  | [] => ret (Ok tt)
  | x :: l' => _ <-? body x ;; forE l' body
  end.

(** ** Reasoning about effects

    [wlp m Q w]: every result of [m] from [w] satisfies [Q] (partial
    correctness).  [wp m Q w]: [m] does give a result from [w], and it
    satisfies [Q]. *)

Definition wlp {W A} (m : M W A) (Q : A → W → Prop) (w : W) : Prop :=
  ∀ a w', m w = Some (a, w') → Q a w'.
Definition wp {W A} (m : M W A) (Q : A → W → Prop) (w : W) : Prop :=
  ∃ a w', m w = Some (a, w') ∧ Q a w'.

Section Logic.
Context {W : Type}.

Lemma wlp_ret {A} (a : A) Q (w : W) : Q a w → wlp (ret a) Q w.
Proof. intros H ?? [= <- <-]. done. Qed.

Lemma wlp_bind {A B} (m : M W A) (k : A → M W B) Q w :
  wlp m (λ a, wlp (k a) Q) w → wlp (bind m k) Q w.
Proof.
  intros H b w'. unfold bind. destruct (m w) as [[a w1]|] eqn:E; [|done].
  intros Hk. exact (H _ _ E _ _ Hk).
Qed.

Lemma wlp_mono {A} (m : M W A) (Q Q' : A → W → Prop) w :
  wlp m Q w → (∀ a w', Q a w' → Q' a w') → wlp m Q' w.
Proof. intros H HQ a w' E. apply HQ, (H _ _ E). Qed.

Lemma wlp_bindE {A B} (m : M W (result A)) (k : A → M W (result B)) Q w :
  wlp m (λ r w', match r with Ok a => wlp (k a) Q w' | Err e => Q (Err e) w' end) w →
  wlp (bindE m k) Q w.
Proof.
  intros H. apply wlp_bind. eapply wlp_mono; [exact H|].
  intros [a|e] w' Hr; [done|]. by apply wlp_ret.
Qed.

Lemma wlp_wrapE {A} msg (m : M W (result A)) Q w :
  wlp m (λ r w', match r with
                 | Ok a => Q (Ok a) w'
                 | Err e => Q (Err (ErrWrap msg e)) w'
                 end) w →
  wlp (wrapE msg m) Q w.
Proof.
  intros H. apply wlp_bind. eapply wlp_mono; [exact H|].
  intros [a|e] w' Hr; by apply wlp_ret.
Qed.

Lemma wlp_forM {A} (l : list A) body (I : W → Prop) w :
  I w → (∀ x, x ∈ l → ∀ w', I w' → wlp (body x) (λ _, I) w') →
  wlp (forM l body) (λ _, I) w.
Proof.
  revert w. induction l as [|x l IH]; intros w HI Hb; simpl.
  - by apply wlp_ret.
  - apply wlp_bind. eapply wlp_mono; [apply Hb; [left|done]|].
    intros [] w' HI'. apply IH; [done|]. intros y Hy. apply Hb. by right.
Qed.

Lemma wlp_forE {A} (l : list A) body (I : W → Prop) w :
  I w → (∀ x, x ∈ l → ∀ w', I w' → wlp (body x) (λ _, I) w') →
  wlp (forE l body) (λ _, I) w.
Proof.
  revert w. induction l as [|x l IH]; intros w HI Hb; simpl.
  - by apply wlp_ret.
  - apply wlp_bindE. eapply wlp_mono; [apply Hb; [left|done]|].
    intros [[]|e] w' HI'; [|done]. apply IH; [done|].
    intros y Hy. apply Hb. by right.
Qed.

Lemma wp_ret {A} (a : A) Q (w : W) : Q a w → wp (ret a) Q w.
Proof. intros H. by exists a, w. Qed.

Lemma wp_bind {A B} (m : M W A) (k : A → M W B) Q w :
  wp m (λ a, wp (k a) Q) w → wp (bind m k) Q w.
Proof.
  intros (a & w1 & E & b & w2 & E2 & HQ).
  exists b, w2. unfold bind. by rewrite E.
Qed.

Lemma wp_mono {A} (m : M W A) (Q Q' : A → W → Prop) w :
  wp m Q w → (∀ a w', Q a w' → Q' a w') → wp m Q' w.
Proof. intros (a & w' & E & HQ) H. exists a, w'. auto. Qed.

Lemma wp_bindE {A B} (m : M W (result A)) (k : A → M W (result B)) Q w :
  wp m (λ r w', match r with Ok a => wp (k a) Q w' | Err e => Q (Err e) w' end) w →
  wp (bindE m k) Q w.
Proof.
  intros H. apply wp_bind. eapply wp_mono; [exact H|].
  intros [a|e] w' Hr; [done|]. by apply wp_ret.
Qed.

Lemma wp_forM {A} (l : list A) body (I : W → Prop) w :
  I w → (∀ x, x ∈ l → ∀ w', I w' → wp (body x) (λ _, I) w') →
  wp (forM l body) (λ _, I) w.
Proof.
  revert w. induction l as [|x l IH]; intros w HI Hb; simpl.
  - by apply wp_ret.
  - apply wp_bind. eapply wp_mono; [apply Hb; [left|done]|].
    intros [] w' HI'. apply IH; [done|]. intros y Hy. apply Hb. by right.
Qed.

(** A loop whose bodies all succeed, with an invariant indexed by the prefix
    already processed. *)
Lemma wp_forE_prefix {A} (l : list A) body (I : list A → W → Prop) w :
  I [] w →
  (∀ pre x post w', l = pre ++ x :: post → I pre w' →
     wp (body x) (λ r w'', r = Ok tt ∧ I (pre ++ [x]) w'') w') →
  wp (forE l body) (λ r w', r = Ok tt ∧ I l w') w.
Proof.
  intros HI Hb.
  assert (∀ post pre w', l = pre ++ post → I pre w' →
    wp (forE post body) (λ r w'', r = Ok tt ∧ I l w'') w') as Haux.
  { induction post as [|x post IH]; intros pre w' -> HI'; simpl.
    - apply wp_ret. by rewrite app_nil_r.
    - apply wp_bindE. eapply wp_mono; [by eapply Hb|].
      intros r w'' [-> HI'']. eapply (IH (pre ++ [x])); [|done].
      by rewrite <- app_assoc. }
  by apply (Haux l []).
Qed.

End Logic.

Create HintDb valkey.
#[export] Hint Resolve wlp_ret wp_ret : valkey.

(** One symbolic-execution step of a partial-correctness goal. *)
Ltac wlp_step :=
  lazymatch goal with
  | |- wlp (ret _) _ _ => apply wlp_ret
  | |- wlp (bindE _ _) _ _ => apply wlp_bindE
  | |- wlp (wrapE _ _) _ _ => apply wlp_wrapE
  | |- wlp (bind _ _) _ _ => apply wlp_bind
  | |- wlp (if ?b then _ else _) _ _ => destruct b eqn:?
  | |- wlp (match ?x with _ => _ end) _ _ => destruct x eqn:?
  end.

(** ** Lists and sums *)

Lemma omap_cons {A B} (f : A → option B) x l :
  omap f (x :: l) = match f x with Some y => y :: omap f l | None => omap f l end.
Proof. done. Qed.

Lemma filter_none {A} (P : A → bool) l : (∀ x, x ∈ l → P x = false) → List.filter P l = [].
Proof.
  induction l as [|x l IH]; intros H; simpl; [done|]. rewrite (H x (list_elem_of_here _ _)).
  apply IH. intros. apply H. by right.
Qed.

Lemma filter_every {A} (P : A → bool) l : (∀ x, x ∈ l → P x = true) → List.filter P l = l.
Proof.
  induction l as [|x l IH]; intros H; simpl; [done|]. rewrite (H x (list_elem_of_here _ _)).
  f_equal. apply IH. intros. apply H. by right.
Qed.

(** A [Permutation] does not change what a filter keeps, up to order. *)
#[global] Instance filter_perm {A} (P : A → bool) : Proper ((≡ₚ) ==> (≡ₚ)) (List.filter P).
Proof. intros l l' H. induction H; simpl; repeat case_match; by econstructor || eauto. Qed.

Definition sumZ (l : list Z) : Z := foldr Z.add 0%Z l.

Section Sums.
Local Open Scope Z_scope.

Lemma sumZ_app l1 l2 : sumZ (l1 ++ l2) = sumZ l1 + sumZ l2.
Proof. induction l1 as [|x l1 IH]; simpl; [done|]. rewrite IH. lia. Qed.

#[global] Instance sumZ_perm : Proper ((≡ₚ) ==> (=)) sumZ.
Proof. induction 1; simpl; lia. Qed.

Lemma sumZ_nonneg l : (∀ x, x ∈ l → 0 ≤ x) → 0 ≤ sumZ l.
Proof.
  induction l as [|x l IH]; intros H; simpl; [done|].
  pose proof (H x (list_elem_of_here _ _)).
  assert (0 ≤ sumZ l) by (apply IH; intros; apply H; by right). lia.
Qed.

Lemma sumZ_map_zero {A} (f : A → Z) l : (∀ x, x ∈ l → f x = 0) → sumZ (map f l) = 0.
Proof.
  induction l as [|x l IH]; intros H; simpl; [done|].
  rewrite (H x (list_elem_of_here _ _)), IH; [done|]. intros. apply H. by right.
Qed.

Lemma filter_join {A B} (P : B → bool) (g : A → list B) (l : list A) :
  List.filter P (mjoin (map g l)) = mjoin (map (λ x, List.filter P (g x)) l).
Proof. induction l as [|x l IH]; simpl; [done|]. by rewrite List.filter_app, IH. Qed.

Lemma length_join {A B} (g : A → list B) (l : list A) :
  Z.of_nat (length (mjoin (map g l))) = sumZ (map (λ x, Z.of_nat (length (g x))) l).
Proof. induction l as [|x l IH]; simpl; [done|]. rewrite length_app. lia. Qed.

Lemma sum_indicator (k c : Z) l : NoDup l → k ∈ l → sumZ (map (λ i, if decide (i = k) then c else 0) l) = c.
Proof.
  intros Hnd Hin. induction Hnd as [|i l Hi Hnd IH]; [by apply elem_of_nil in Hin|]. simpl.
  apply elem_of_cons in Hin as [<-|Hin].
  - rewrite decide_True by done. rewrite sumZ_map_zero; [lia|]. intros i' Hi'.
    rewrite decide_False; [done|congruence].
  - rewrite decide_False by congruence. rewrite IH by done. lia.
Qed.

End Sums.
