(* ===== verification/GoStrings.v ===== *)
(** * Go's [strings] and [strconv], as far as the operator uses them

    A Go string is a sequence of bytes, here a [string] of [ascii].  The
    separators the operator passes to [strings.Split], [Cut] and [Index] are
    single bytes, so these take an [ascii].  [Fields] and [TrimSpace] cut at
    every rune of [unicode.IsSpace], whose UTF-8 encodings [space_len] lists:
    a lead byte never occurs inside another rune, so matching bytes left to
    right is matching runes.  [Atoi] is the loop of [strconv.ParseUint] with
    base 10 (the fast path of [strconv.Atoi] agrees with it on the short
    inputs it handles). *)

From S2P Require Import Prelude.
From Stdlib Require Import Ascii String.
Local Open Scope string_scope.
Local Open Scope list_scope.
Local Open Scope Z_scope.

(** ** Searching and cutting *)

Definition HasPrefix (s p : string) : bool := String.prefix p s.

Fixpoint drop_str (n : nat) (s : string) : string :=
  match n, s with
  | S n', String _ s' => drop_str n' s'
  | _, _ => s
  end.

Definition TrimPrefix (s p : string) : string :=
  if HasPrefix s p then drop_str (String.length p) s else s.

Fixpoint Contains (s sub : string) : bool :=
  String.prefix sub s ||
  match s with
  | EmptyString => false
  | String _ s' => Contains s' sub
  end.

(** [s[:n]]. *)
Fixpoint take_str (n : nat) (s : string) : string :=
  match n, s with
  | S n', String c s' => String c (take_str n' s')
  | _, _ => EmptyString
  end.

(** [strings.Index] with a one-byte argument; [None] is the result [-1]. *)
Fixpoint Index (s : string) (sep : ascii) : option nat :=
  match s with
  | EmptyString => None
  | String c s' => if Ascii.eqb c sep then Some 0%nat else S <$> Index s' sep
  end.

(** [strings.Cut]: the text before and after the first separator. *)
Fixpoint Cut (s : string) (sep : ascii) : string * string * bool :=
  match s with
  | EmptyString => (EmptyString, EmptyString, false)
  | String c s' =>
      if Ascii.eqb c sep then (EmptyString, s', true)
      else let '(b, a, ok) := Cut s' sep in (String c b, a, ok)
  end.

(** [strings.Split] with a one-byte separator. *)
Fixpoint Split (s : string) (sep : ascii) : list string :=
  match s with
  | EmptyString => [EmptyString]
  | String c s' =>
      if Ascii.eqb c sep then EmptyString :: Split s' sep
      else match Split s' sep with
           | w :: ws => String c w :: ws
           | [] => [String c EmptyString]
           end
  end.

Fixpoint Join (l : list string) (sep : string) : string :=
  match l with
  | [] => ""
  | [s] => s
  | s :: l' => s +:+ sep +:+ Join l' sep
  end.

(** ** White space *)

Definition byte_of (c : ascii) : Z := Z.of_N (N_of_ascii c).

(** The length in bytes of the white-space rune at the head of [s], 0 if the
    first rune is not white space. *)
Definition space_len (s : string) : nat :=
  match s with
  | EmptyString => 0
  | String c s' =>
      let b := byte_of c in
      if ((9 <=? b) && (b <=? 13)) || (b =? 32) then 1%nat
      else match s' with
           | EmptyString => 0
           | String c1 s'' =>
               let b1 := byte_of c1 in
               if (b =? 194) && ((b1 =? 133) || (b1 =? 160)) then 2%nat
               else match s'' with
                    | EmptyString => 0
                    | String c2 _ =>
                        let b2 := byte_of c2 in
                        if ((b =? 225) && (b1 =? 154) && (b2 =? 128))
                           || ((b =? 226) && (b1 =? 128) &&
                               (((128 <=? b2) && (b2 <=? 138)) || (b2 =? 168) || (b2 =? 169) || (b2 =? 175)))
                           || ((b =? 226) && (b1 =? 129) && (b2 =? 159))
                           || ((b =? 227) && (b1 =? 128) && (b2 =? 128))
                        then 3%nat else 0%nat
                    end
           end
  end.

Definition flush (cur : string) : list string :=
  match cur with EmptyString => [] | _ => [cur] end.

(** [skip] counts the bytes of a white-space rune still to be passed over,
    [cur] is the field being read. *)
Fixpoint fields_go (s : string) (skip : nat) (cur : string) : list string :=
  match s with
  | EmptyString => flush cur
  | String c s' =>
      match skip with
      | S k => fields_go s' k cur
      | O => match space_len s with
             | O => fields_go s' 0 (cur +:+ String c EmptyString)
             | S k => flush cur ++ fields_go s' k EmptyString
             end
      end
  end.

Definition Fields (s : string) : list string := fields_go s 0 EmptyString.

Fixpoint all_space (s : string) (skip : nat) : bool :=
  match s with
  | EmptyString => true
  | String _ s' =>
      match skip with
      | S k => all_space s' k
      | O => match space_len s with
             | O => false
             | S k => all_space s' k
             end
      end
  end.

Fixpoint trim_left (s : string) (skip : nat) : string :=
  match s with
  | EmptyString => EmptyString
  | String _ s' =>
      match skip with
      | S k => trim_left s' k
      | O => match space_len s with
             | O => s
             | S k => trim_left s' k
             end
      end
  end.

Fixpoint trim_right (s : string) : string :=
  if all_space s 0 then EmptyString
  else match s with
       | EmptyString => EmptyString
       | String c s' => String c (trim_right s')
       end.

Definition TrimSpace (s : string) : string := trim_right (trim_left s 0).

(** ** Numbers *)

Inductive NumError := ErrSyntax | ErrRange.

Definition maxUint64 : Z := 2 ^ 64 - 1.

Definition digit_val (c : ascii) : option Z :=
  let b := byte_of c in
  if (48 <=? b) && (b <=? 57) then Some (b - 48) else None.

(** [strconv.ParseUint(s, 10, 64)] after the check for the empty string: the
    range error is reported as soon as the value overflows. *)
Fixpoint parse_uint (s : string) (n : Z) : Z * option NumError :=
  match s with
  | EmptyString => (n, None)
  | String c s' =>
      match digit_val c with
      | None => (0, Some ErrSyntax)
      | Some d =>
          if (maxUint64 / 10 + 1) <=? n then (maxUint64, Some ErrRange)
          else let n1 := (n * 10 + d) `mod` 2 ^ 64 in
               if n1 <? n * 10 then (maxUint64, Some ErrRange)
               else parse_uint s' n1
      end
  end.

Definition ParseUint (s : string) : Z * option NumError :=
  match s with
  | EmptyString => (0, Some ErrSyntax)
  | _ => parse_uint s 0
  end.

(** [strconv.Atoi]: the value (0 on a syntax error, the nearest bound on a
    range error) and the error. *)
Definition Atoi (s : string) : Z * option NumError :=
  let '(neg, s') :=
    match s with
    | String "+"%char s' => (false, s')
    | String "-"%char s' => (true, s')
    | _ => (false, s)
    end in
  let '(un, err) := ParseUint s' in
  match err with
  | Some ErrSyntax => (0, err)
  | _ => if negb neg && (2 ^ 63 <=? un) then (2 ^ 63 - 1, Some ErrRange)
         else if neg && (2 ^ 63 <? un) then (- 2 ^ 63, Some ErrRange)
         else ((if neg then - un else un), None)
  end.

Definition digit_char (d : Z) : ascii := ascii_of_N (Z.to_N (d + 48)).

Fixpoint dec_go (fuel : nat) (n : Z) (acc : string) : string :=
  match fuel with
  | O => acc
  | S f => let acc' := String (digit_char (n mod 10)) acc in
           if n <? 10 then acc' else dec_go f (n / 10) acc'
  end.

(** The decimal digits of a non-negative number; [log2 n + 1] steps are enough
    since each divides by more than two. *)
Definition dec (n : Z) : string := dec_go (S (Z.to_nat (Z.log2 n))) n EmptyString.

Definition Itoa (z : Z) : string :=
  if z <? 0 then String "-"%char (dec (- z)) else dec z.

(** ** Characters of a string *)

Fixpoint str_forall (P : ascii → bool) (s : string) : bool :=
  match s with
  | EmptyString => true
  | String c s' => P c && str_forall P s'
  end.

Definition is_digit (c : ascii) : bool :=
  match digit_val c with Some _ => true | None => false end.

(** No byte of [s] is [c]. *)
Definition lacks (c : ascii) (s : string) : bool := str_forall (λ c', negb (Ascii.eqb c' c)) s.

(** A printable ASCII byte, hence neither white space nor part of a longer rune. *)
Definition is_graphic (c : ascii) : bool := (33 <=? byte_of c) && (byte_of c <=? 126).

(** A non-empty word of printable ASCII. *)
Definition word (s : string) : bool :=
  match s with EmptyString => false | _ => str_forall is_graphic s end.

(** ** Lemmas on characters *)

Lemma str_app_nil_r (s : string) : s +:+ "" = s.
Proof. induction s as [|c s IH]; simpl; [done|]. unfold String.append in *. by rewrite IH. Qed.

Lemma str_app_assoc (s t u : string) : (s +:+ t) +:+ u = s +:+ (t +:+ u).
Proof. induction s as [|c s IH]; simpl; [done|]. unfold String.append in *. by rewrite IH. Qed.

Lemma str_app_cons c (s t : string) : String c s +:+ t = String c (s +:+ t).
Proof. done. Qed.

Lemma str_forall_app P s t : str_forall P (s +:+ t) = str_forall P s && str_forall P t.
Proof.
  induction s as [|c s IH]; [done|]. rewrite str_app_cons. simpl. rewrite IH.
  by rewrite andb_assoc.
Qed.

Lemma str_forall_impl (P Q : ascii → bool) s :
  (∀ c, P c = true → Q c = true) → str_forall P s = true → str_forall Q s = true.
Proof.
  intros HPQ. induction s as [|c s IH]; simpl; [done|].
  rewrite !andb_true_iff. intros [? ?]. auto.
Qed.

(** A property of all 256 bytes is decided by computation. *)
Definition all_bytes (P : ascii → bool) : bool :=
  forallb (λ n, P (ascii_of_nat n)) (seq 0 256).

Lemma all_bytes_spec P : all_bytes P = true → ∀ c, P c = true.
Proof.
  unfold all_bytes. rewrite forallb_forall. intros H c.
  rewrite <- (ascii_nat_embedding c). apply H, in_seq.
  pose proof (nat_ascii_bounded c). lia.
Qed.

Ltac byte_cases c :=
  revert c; match goal with
  | |- ∀ c : ascii, @?P c = true → @?Q c = true =>
      let H := fresh in
      assert (all_bytes (λ c, implb (P c) (Q c)) = true) as H by (vm_compute; reflexivity);
      intros c; generalize (all_bytes_spec _ H c); cbv beta;
      destruct (P c) eqn:?; [|congruence]; simpl; congruence
  end.

Lemma digit_graphic c : is_digit c = true → is_graphic c = true.
Proof. byte_cases c. Qed.

Lemma digit_lacks d c : is_digit d = false → is_digit c = true → negb (Ascii.eqb c d) = true.
Proof.
  intros Hd Hc. destruct (Ascii.eqb_spec c d) as [->|]; [|done]. congruence.
Qed.

Lemma lacks_digits d s : is_digit d = false → str_forall is_digit s = true → lacks d s = true.
Proof. intros Hd. apply str_forall_impl. intros c. by apply digit_lacks. Qed.

Lemma lacks_app c s t : lacks c (s +:+ t) = lacks c s && lacks c t.
Proof. apply str_forall_app. Qed.

(** ** Cutting and splitting *)

Lemma Cut_lacks c s t : lacks c s = true → Cut (s +:+ String c t) c = (s, t, true).
Proof.
  unfold lacks. induction s as [|c' s IH]; intros H.
  - simpl. by rewrite Ascii.eqb_refl.
  - simpl in H. apply andb_true_iff in H as [Hc Hs].
    rewrite str_app_cons. simpl. destruct (Ascii.eqb c' c); [done|].
    by rewrite IH.
Qed.

Lemma Cut_none c s : lacks c s = true → Cut s c = (s, "", false).
Proof.
  unfold lacks. induction s as [|c' s IH]; intros H; [done|].
  simpl in *. apply andb_true_iff in H as [Hc Hs].
  destruct (Ascii.eqb c' c); [done|]. by rewrite IH.
Qed.

Lemma Index_lacks c s t :
  lacks c s = true →
  ∃ i, Index (s +:+ String c t) c = Some i ∧ take_str i (s +:+ String c t) = s ∧
       drop_str (S i) (s +:+ String c t) = t.
Proof.
  unfold lacks. induction s as [|c' s IH]; intros H.
  - exists 0%nat. change ("" +:+ String c t) with (String c t). cbn [Index].
    rewrite Ascii.eqb_refl. by destruct t.
  - simpl in H. apply andb_true_iff in H as [Hc Hs].
    destruct (IH Hs) as (i & Hi & Ht & Hd). exists (S i).
    rewrite str_app_cons. cbn [Index]. destruct (Ascii.eqb c' c); [done|].
    rewrite Hi. cbn [take_str drop_str]. by rewrite Ht.
Qed.

Lemma Index_none c s : lacks c s = true → Index s c = None.
Proof.
  unfold lacks. induction s as [|c' s IH]; intros H; [done|].
  simpl in *. apply andb_true_iff in H as [Hc Hs].
  destruct (Ascii.eqb c' c); [done|]. by rewrite IH.
Qed.

Lemma Split_lacks c s : lacks c s = true → Split s c = [s].
Proof.
  unfold lacks. induction s as [|c' s IH]; intros H; [done|].
  simpl in *. apply andb_true_iff in H as [Hc Hs].
  destruct (Ascii.eqb c' c); [done|]. by rewrite IH.
Qed.

Lemma Split_app c s t : lacks c s = true → Split (s +:+ String c t) c = s :: Split t c.
Proof.
  unfold lacks. induction s as [|c' s IH]; intros H.
  - simpl. by rewrite Ascii.eqb_refl.
  - simpl in H. apply andb_true_iff in H as [Hc Hs].
    rewrite str_app_cons. simpl. destruct (Ascii.eqb c' c); [done|].
    by rewrite IH.
Qed.

(** [strings.Split] undoes [strings.Join]. *)
Lemma Split_Join c l :
  l ≠ [] → Forall (λ s, lacks c s = true) l → Split (Join l (String c "")) c = l.
Proof.
  intros Hne. induction l as [|s l IH]; [done|]. intros [Hs Hl]%Forall_cons.
  destruct l as [|s' l].
  - simpl. by apply Split_lacks.
  - change (Join (s :: s' :: l) (String c "")) with
      (s +:+ String c (Join (s' :: l) (String c ""))).
    rewrite Split_app by done. f_equal. by apply IH.
Qed.

(** ** Fields *)

Lemma space_len_graphic c s : is_graphic c = true → space_len (String c s) = 0%nat.
Proof.
  unfold is_graphic. intros [H1 H2]%andb_true_iff.
  apply Z.leb_le in H1, H2. unfold space_len. set (b := byte_of c) in *.
  destruct ((9 <=? b) && (b <=? 13) || (b =? 32)) eqn:E.
  { apply orb_true_iff in E as [E|E]; [apply andb_true_iff in E as [? ?]|]; lia. }
  destruct s as [|c1 s]; [done|]. rewrite (proj2 (Z.eqb_neq b 194)) by lia.
  simpl. destruct s as [|c2 s]; [done|].
  rewrite (proj2 (Z.eqb_neq b 225)), (proj2 (Z.eqb_neq b 226)), (proj2 (Z.eqb_neq b 227)) by lia.
  done.
Qed.

Lemma fields_go_word w s cur :
  str_forall is_graphic w = true → fields_go (w +:+ s) 0 cur = fields_go s 0 (cur +:+ w).
Proof.
  revert cur. induction w as [|c w IH]; intros cur H.
  - by rewrite str_app_nil_r.
  - simpl in H. apply andb_true_iff in H as [Hc Hw].
    rewrite str_app_cons. cbn [fields_go]. rewrite space_len_graphic by done.
    rewrite IH by done. by rewrite str_app_assoc.
Qed.

Lemma word_spec w :
  word w = true → str_forall is_graphic w = true ∧ ∀ X, flush ("" +:+ w) ++ X = w :: X.
Proof. by destruct w. Qed.

(** Fields separated by single blanks are read one by one, up to a line feed. *)
Lemma fields_go_line ws t :
  Forall (λ w, word w = true) ws →
  fields_go (Join ws " " +:+ String (ascii_of_nat 10) t) 0 "" = ws ++ fields_go t 0 "".
Proof.
  induction ws as [|w ws IH]; [done|]. intros [Hw Hws]%Forall_cons.
  apply word_spec in Hw as [Hg Hf]. destruct ws as [|w' ws].
  - cbn [Join]. rewrite fields_go_word by done. cbn [fields_go].
    change (space_len (String (ascii_of_nat 10) t)) with 1%nat. cbn match. by rewrite Hf.
  - change (Join (w :: w' :: ws) " ") with (w +:+ String " " (Join (w' :: ws) " ")).
    rewrite str_app_assoc, fields_go_word by done. rewrite str_app_cons. cbn [fields_go].
    change (space_len (String " " _)) with 1%nat. cbn match.
    rewrite Hf. simpl app. f_equal. by apply IH.
Qed.

(** So are they at the end of the text. *)
Lemma Fields_Join ws : Forall (λ w, word w = true) ws → Fields (Join ws " ") = ws.
Proof.
  unfold Fields. induction ws as [|w ws IH]; [done|]. intros [Hw Hws]%Forall_cons.
  apply word_spec in Hw as [Hg Hf]. destruct ws as [|w' ws].
  - cbn [Join]. rewrite <- (str_app_nil_r w) at 1. rewrite fields_go_word by done.
    cbn [fields_go]. by rewrite <- (app_nil_r (flush _)), Hf.
  - change (Join (w :: w' :: ws) " ") with (w +:+ String " " (Join (w' :: ws) " ")).
    rewrite fields_go_word by done. cbn [fields_go].
    change (space_len (String " " (Join (w' :: ws) " "))) with 1%nat. cbn match.
    rewrite Hf. f_equal. by apply IH.
Qed.

(** The fields of a text are those of its lines. *)
Lemma Fields_lines lss :
  Forall (Forall (λ w, word w = true)) lss →
  Fields (Join (map (λ ws, Join ws " ") lss) (String (ascii_of_nat 10) "")) = List.concat lss.
Proof.
  induction lss as [|ws lss IH]; [done|]. intros [Hw Hl]%Forall_cons.
  destruct lss as [|ws' lss].
  - simpl. rewrite Fields_Join by done. by rewrite app_nil_r.
  - change (Join (map (λ ws, Join ws " ") (ws :: ws' :: lss)) (String (ascii_of_nat 10) ""))
      with (Join ws " " +:+ String (ascii_of_nat 10)
        (Join (map (λ ws, Join ws " ") (ws' :: lss)) (String (ascii_of_nat 10) ""))).
    unfold Fields. rewrite fields_go_line by done. simpl List.concat. f_equal. by apply IH.
Qed.

(** A line of words holds no line feed. *)
Lemma line_lacks_lf ws :
  Forall (λ w, word w = true) ws → lacks (ascii_of_nat 10) (Join ws " ") = true.
Proof.
  assert (∀ w, word w = true → lacks (ascii_of_nat 10) w = true) as Hw.
  { intros w Hw. apply word_spec in Hw as [Hg _]. revert Hg. apply str_forall_impl.
    intros c. byte_cases c. }
  induction ws as [|w ws IH]; [done|]. intros [Hww Hws]%Forall_cons.
  destruct ws as [|w' ws]; [by apply Hw|].
  change (Join (w :: w' :: ws) " ") with (w +:+ " " +:+ Join (w' :: ws) " ").
  rewrite !lacks_app, Hw, IH by done. done.
Qed.

(** ** Decimal numbers *)

(** The value of a string of digits. *)
Fixpoint dec_val (s : string) (n : Z) : Z :=
  match s with
  | EmptyString => n
  | String c s' => dec_val s' (n * 10 + default 0 (digit_val c))
  end.

Lemma digit_val_bound c d : digit_val c = Some d → 0 ≤ d < 10.
Proof.
  unfold digit_val. destruct (_ && _) eqn:E; [|done]. intros [= <-].
  apply andb_true_iff in E as [?%Z.leb_le ?%Z.leb_le]. lia.
Qed.

Lemma digit_val_char d : 0 ≤ d < 10 → digit_val (digit_char d) = Some d.
Proof.
  intros Hd. unfold digit_val, digit_char, byte_of.
  rewrite N_ascii_embedding by lia. rewrite Z2N.id by lia.
  rewrite (proj2 (Z.leb_le 48 (d + 48))), (proj2 (Z.leb_le (d + 48) 57)) by lia.
  simpl. f_equal. lia.
Qed.

Lemma is_digit_char d : 0 ≤ d < 10 → is_digit (digit_char d) = true.
Proof. intros Hd. unfold is_digit. by rewrite digit_val_char. Qed.

Lemma dec_val_ge s n : 0 ≤ n → n ≤ dec_val s n.
Proof.
  revert n. induction s as [|c s IH]; intros n Hn; simpl; [done|].
  assert (0 ≤ default 0 (digit_val c)).
  { destruct (digit_val c) eqn:E; simpl; [|done]. apply digit_val_bound in E. lia. }
  specialize (IH (n * 10 + default 0 (digit_val c))). lia.
Qed.

(** The parsing loop computes the value of the digits as long as it fits. *)
Lemma parse_uint_val s n :
  str_forall is_digit s = true → 0 ≤ n → dec_val s n ≤ maxUint64 →
  parse_uint s n = (dec_val s n, None).
Proof.
  revert n. induction s as [|c s IH]; intros n Hs Hn Hle; [done|].
  simpl in Hs. apply andb_true_iff in Hs as [Hc Hs].
  cbn [parse_uint dec_val] in *. unfold is_digit in Hc.
  destruct (digit_val c) as [d|] eqn:Ed; [|done]. unfold id in *; cbn [from_option] in *.
  pose proof (digit_val_bound _ _ Ed).
  pose proof (dec_val_ge s (n * 10 + d) ltac:(lia)).
  assert (n * 10 + d ≤ maxUint64) as Hmax by lia.
  change (maxUint64 / 10 + 1) with 1844674407370955162. unfold maxUint64 in *.
  rewrite (proj2 (Z.leb_gt _ _)) by lia.
  rewrite Z.mod_small by lia. rewrite (proj2 (Z.ltb_ge _ _)) by lia.
  by apply IH; [|lia|].
Qed.

Lemma dec_go_spec fuel n acc :
  0 ≤ n < 2 ^ Z.of_nat fuel →
  ∃ ds, dec_go fuel n acc = ds +:+ acc ∧ str_forall is_digit ds = true ∧
        (fuel ≠ 0%nat → ds ≠ "") ∧ ∀ m, ∃ k, 0 ≤ k ∧ dec_val ds m = m * k + n.
Proof.
  revert n acc. induction fuel as [|f IH]; intros n acc Hn.
  - exists "". split; [done|]. split; [done|]. split; [done|].
    intros m. exists 1. simpl. change (2 ^ Z.of_nat 0) with 1 in Hn. lia.
  - cbn [dec_go]. pose proof (Z.mod_pos_bound n 10 ltac:(lia)).
    rewrite Nat2Z.inj_succ, Z.pow_succ_r in Hn by lia.
    destruct (Z.ltb_spec n 10) as [Hlt|Hge].
    + exists (String (digit_char (n mod 10)) ""). split; [done|]. split.
      { simpl. by rewrite is_digit_char. } split; [done|].
      intros m. exists 10. simpl. rewrite digit_val_char by done.
      rewrite Z.mod_small by lia. simpl. lia.
    + assert (0 ≤ n / 10 < 2 ^ Z.of_nat f).
      { split; [apply Z.div_pos; lia|]. apply Z.div_lt_upper_bound; lia. }
      destruct (IH (n / 10) (String (digit_char (n mod 10)) acc)) as (ds & -> & Hd & _ & Hv); [done|].
      exists (ds +:+ String (digit_char (n mod 10)) ""). rewrite str_app_assoc.
      split; [done|]. split.
      { rewrite str_forall_app, Hd. simpl. by rewrite is_digit_char. }
      split; [intros _; by destruct ds|].
      assert (∀ t m, dec_val (t +:+ String (digit_char (n mod 10)) "") m
                     = dec_val t m * 10 + n mod 10) as Happ.
      { induction t as [|c t IHt]; intros m.
        - simpl. by rewrite digit_val_char.
        - rewrite str_app_cons. cbn [dec_val]. apply IHt. }
      intros m. rewrite Happ. destruct (Hv m) as (k & Hk & ->).
      exists (k * 10). split; [lia|]. pose proof (Z.div_mod n 10). lia.
Qed.

Lemma dec_spec n :
  0 ≤ n → str_forall is_digit (dec n) = true ∧ dec n ≠ "" ∧ dec_val (dec n) 0 = n.
Proof.
  intros Hn. unfold dec.
  destruct (dec_go_spec (S (Z.to_nat (Z.log2 n))) n "") as (ds & -> & Hd & Hne & Hv).
  { split; [done|]. rewrite Nat2Z.inj_succ, Z2Nat.id by apply Z.log2_nonneg.
    destruct (Z.eq_dec n 0) as [->|]; [done|]. apply Z.log2_spec. lia. }
  rewrite str_app_nil_r. destruct (Hv 0) as (k & Hk & Hd0).
  split; [done|]. split; [by apply Hne|]. rewrite Hd0. lia.
Qed.

Lemma Itoa_digits n : 0 ≤ n → str_forall is_digit (Itoa n) = true ∧ Itoa n ≠ "".
Proof.
  intros Hn. unfold Itoa. rewrite (proj2 (Z.ltb_ge _ _)) by lia.
  by destruct (dec_spec n Hn) as (? & ? & _).
Qed.

Lemma Itoa_word n : 0 ≤ n → word (Itoa n) = true.
Proof.
  intros Hn. destruct (Itoa_digits n Hn) as [Hd Hne].
  apply (str_forall_impl _ _ _ digit_graphic) in Hd. by destruct (Itoa n).
Qed.

Lemma Itoa_lacks d n : is_digit d = false → 0 ≤ n → lacks d (Itoa n) = true.
Proof. intros Hd Hn. apply lacks_digits; [done|]. by apply Itoa_digits. Qed.

Lemma ParseUint_dec n : 0 ≤ n ≤ maxUint64 → ParseUint (dec n) = (n, None).
Proof.
  intros Hn. destruct (dec_spec n) as (Hd & Hne & Hv); [lia|].
  unfold ParseUint. destruct (dec n) eqn:E; [done|]. rewrite <- E in *.
  rewrite parse_uint_val; [by rewrite Hv|done|done|lia].
Qed.

(** [strconv.Atoi] undoes [strconv.Itoa] on every [int]. *)
Lemma Atoi_Itoa z : in_int64 z → Atoi (Itoa z) = (z, None).
Proof.
  unfold in_int64, Itoa. intros Hz. destruct (Z.ltb_spec z 0) as [Hneg|Hpos].
  - unfold Atoi. rewrite ParseUint_dec by (unfold maxUint64; lia).
    cbn [negb andb]. rewrite (proj2 (Z.ltb_ge _ _)) by lia. f_equal. lia.
  - destruct (dec_spec z Hpos) as (Hd & Hne & _).
    assert (Atoi (dec z) = let '(un, err) := ParseUint (dec z) in
      match err with
      | Some ErrSyntax => (0, err)
      | _ => if (2 ^ 63 <=? un) then (2 ^ 63 - 1, Some ErrRange) else (un, None)
      end) as ->.
    { unfold Atoi. destruct (dec z) as [|c s] eqn:E; [done|].
      cbn [str_forall] in Hd. apply andb_true_iff in Hd as [Hc _].
      destruct (Ascii.eqb_spec c "+"%char) as [->|?]; [done|].
      destruct (Ascii.eqb_spec c "-"%char) as [->|?]; [done|].
      destruct c as [[] [] [] [] [] [] [] []]; done. }
    rewrite ParseUint_dec by (unfold maxUint64; lia).
    by rewrite (proj2 (Z.leb_gt _ _)) by lia.
Qed.

Lemma parse_uint_nonneg s n : 0 ≤ n → 0 ≤ fst (parse_uint s n).
Proof.
  revert n. induction s as [|c s IH]; intros n Hn; simpl; [done|].
  destruct (digit_val c); [|done]. destruct (_ <=? n); [done|]. destruct (_ <? n * 10); [done|].
  apply IH, Z.mod_pos_bound. lia.
Qed.

(** A value [Atoi] accepts is an [int]. *)
Lemma Atoi_range s z : Atoi s = (z, None) → in_int64 z.
Proof.
  unfold Atoi, in_int64. destruct (match s with String _ _ => _ | _ => _ end) as [neg s'].
  assert (0 ≤ fst (ParseUint s')) as Hpos.
  { destruct s' as [|c s']; [done|]. by apply parse_uint_nonneg. }
  destruct (ParseUint s') as [un [[]|]]; simpl in Hpos; try done.
  all: destruct neg; simpl; destruct (Z.ltb_spec (2 ^ 63) un), (Z.leb_spec (2 ^ 63) un);
    intros; simplify_eq; lia.
Qed.

Lemma Itoa_inj z1 z2 : in_int64 z1 → in_int64 z2 → Itoa z1 = Itoa z2 → z1 = z2.
Proof. intros H1 H2 E. apply Atoi_Itoa in H1, H2. rewrite E in H1. congruence. Qed.

Lemma Itoa_lacks_any d z : is_digit d = false → d ≠ "-"%char → lacks d (Itoa z) = true.
Proof.
  intros Hd Hm. unfold Itoa. destruct (Z.ltb_spec z 0).
  - assert (negb (Ascii.eqb "-"%char d) = true) as Hn.
    { apply negb_true_iff, Ascii.eqb_neq. congruence. }
    change (lacks d (String "-"%char (dec (- z)))) with
      (negb (Ascii.eqb "-"%char d) && lacks d (dec (- z))). rewrite Hn.
    apply lacks_digits; [done|]. apply dec_spec. lia.
  - apply lacks_digits; [done|]. apply dec_spec. lia.
Qed.

#[export] Hint Resolve Itoa_word Itoa_lacks : valkey.

(** ** Unique decomposition *)

Lemma str_app_length (s t : string) : String.length (s +:+ t) = (String.length s + String.length t)%nat.
Proof. induction s as [|c s IH]; [done|]. rewrite str_app_cons. simpl. by rewrite IH. Qed.

Lemma str_app_inv_tail (s1 s2 t : string) : s1 +:+ t = s2 +:+ t → s1 = s2.
Proof.
  revert s2. induction s1 as [|c s1 IH]; intros [|c2 s2] E; [done| | |].
  - apply (f_equal String.length) in E. rewrite !str_app_length in E. simpl in E. lia.
  - apply (f_equal String.length) in E. rewrite !str_app_length in E. simpl in E. lia.
  - rewrite !str_app_cons in E. injection E as -> E. f_equal. by apply IH.
Qed.

(** The text after the last separator is determined. *)
Lemma str_suffix_unique c (s1 s2 d1 d2 : string) :
  lacks c d1 = true → lacks c d2 = true →
  s1 +:+ String c d1 = s2 +:+ String c d2 → s1 = s2 ∧ d1 = d2.
Proof.
  intros H1 H2. revert s2. induction s1 as [|c1 s1 IH]; intros [|c2 s2] E.
  - injection E as ->. done.
  - rewrite str_app_cons in E. injection E as -> ->. rewrite lacks_app in H1.
    apply andb_true_iff in H1 as [_ H1]. unfold lacks in H1. simpl in H1.
    by rewrite Ascii.eqb_refl in H1.
  - rewrite str_app_cons in E. injection E as -> <-. rewrite lacks_app in H2.
    apply andb_true_iff in H2 as [_ H2]. unfold lacks in H2. simpl in H2.
    by rewrite Ascii.eqb_refl in H2.
  - rewrite !str_app_cons in E. injection E as -> E. destruct (IH s2 E) as [-> ->]. done.
Qed.
