(* ===== verification/Cluster.v ===== *)
(** * The cluster data model and the [ClusterAdmin] interface

    Models [internal/cluster/admin.go]: the records the reconciler works on,
    their methods, and the interface through which it drives a live cluster.
    The interface is a type class over the world its implementation acts on;
    [Fake] (file [Fake]) and [Admin] (file [GoRedis]) are its instances. *)

From S2P Require Import Prelude GoStrings.
Local Open Scope string_scope.
Local Open Scope list_scope.
Local Open Scope Z_scope.

Definition TotalSlots : Z := 16384.

Record SlotRange := mkRange { rStart : Z; rEnd : Z }.

Record Endpoint := mkEndpoint {
  epHost : string;
  epPort : Z;
  epPodName : string;
  epNamespace : string
}.

Definition Addr (e : Endpoint) : string := epHost e +:+ ":" +:+ Itoa (epPort e).

Record NodeInfo := mkNode {
  nID : string;
  nHost : string;
  nIP : string;
  nPort : Z;
  nFlags : list string;
  nMasterID : string;
  nSlots : list SlotRange;
  nConnected : bool
}.

#[export] Instance SlotRange_eq_dec : EqDecision SlotRange.
Proof. solve_decision. Defined.
#[export] Instance NodeInfo_eq_dec : EqDecision NodeInfo.
Proof. solve_decision. Defined.

(** The zero value of the struct, what a map read of an absent key gives. *)
Definition NodeInfo_zero : NodeInfo := mkNode "" "" "" 0 [] "" [] false.

(** Assignments to a field of a node. *)
Definition set_nSlots (v : list SlotRange) (n : NodeInfo) : NodeInfo :=
  mkNode (nID n) (nHost n) (nIP n) (nPort n) (nFlags n) (nMasterID n) v (nConnected n).
Definition set_nMasterID (v : string) (n : NodeInfo) : NodeInfo :=
  mkNode (nID n) (nHost n) (nIP n) (nPort n) (nFlags n) v (nSlots n) (nConnected n).
Definition set_nFlags (v : list string) (n : NodeInfo) : NodeInfo :=
  mkNode (nID n) (nHost n) (nIP n) (nPort n) v (nMasterID n) (nSlots n) (nConnected n).

Definition HasFlag (n : NodeInfo) (flag : string) : bool :=
  existsb (String.eqb flag) (nFlags n).

Definition IsPrimary (n : NodeInfo) : bool :=
  if existsb (String.eqb "master") (nFlags n) then true
  else String.eqb (nMasterID n) "".

Definition rangeCount (r : SlotRange) : Z := rEnd r - rStart r + 1.

Definition SlotCount (n : NodeInfo) : Z :=
  fold_left (λ total r, total + rangeCount r) (nSlots n) 0.

Record ClusterState := mkState {
  csFormed : bool;
  csSlotsCovered : bool;
  csOpenSlots : bool;
  csNodes : list NodeInfo
}.

Definition PrimaryByNodeID (s : ClusterState) (id : string) : NodeInfo * bool :=
  match List.find (λ n, String.eqb (nID n) id && IsPrimary n) (csNodes s) with
  | Some n => (n, true)
  | None => (NodeInfo_zero, false)
  end.

Record RebalanceOpts := mkRebalanceOpts {
  UseEmptyMasters : bool;
  WeightZeroIDs : list string
}.

(** The interface between the reconciler and a cluster.  A method that returns
    [(int, error)] gives the number together with the error. *)
Class ClusterAdmin (W : Type) := {
  State : Endpoint → M W (result ClusterState);
  MyID : Endpoint → M W (result string);
  Meet : Endpoint → Endpoint → M W (result unit);
  AddSlots : Endpoint → list SlotRange → M W (result unit);
  Replicate : Endpoint → string → M W (result unit);
  Forget : Endpoint → string → M W (result unit);
  Failover : Endpoint → M W (result unit);
  Rebalance : Endpoint → RebalanceOpts → M W (result unit);
  Reshard : Endpoint → string → string → Z → M W (result unit);
  MoveSlots : Endpoint → string → string → Z → M W (Z * option error);
  Fix : Endpoint → M W (result unit);
  RepairSlots : Endpoint → M W (Z * option error)
}.

(** ** Slots as a set *)

Definition in_range (s : Z) (r : SlotRange) : Prop := rStart r ≤ s ≤ rEnd r.
Definition in_rangeb (s : Z) (r : SlotRange) : bool := (rStart r <=? s) && (s <=? rEnd r).

(** A range of slots as a Valkey node reports it. *)
Definition range_wf (r : SlotRange) : Prop := 0 ≤ rStart r ≤ rEnd r ∧ rEnd r < TotalSlots.

Lemma SlotCount_sum n : SlotCount n = sumZ (map rangeCount (nSlots n)).
Proof.
  unfold SlotCount. assert (∀ l a, fold_left (λ total r, total + rangeCount r) l a
    = a + sumZ (map rangeCount l)) as ->; [|lia].
  induction l as [|r l IH]; intros a; simpl; [lia|]. rewrite IH. lia.
Qed.

Lemma SlotCount_ext n n' : nSlots n = nSlots n' → SlotCount n = SlotCount n'.
Proof. intros E. rewrite !SlotCount_sum. by rewrite E. Qed.

Lemma SlotCount_nil n : nSlots n = [] → SlotCount n = 0.
Proof. intros E. by rewrite SlotCount_sum, E. Qed.

Lemma sum_ranges_bound l :
  Forall range_wf l → 0 ≤ sumZ (map rangeCount l) ≤ Z.of_nat (length l) * TotalSlots.
Proof.
  unfold range_wf, rangeCount.
  induction 1 as [|r l [? ?] Hl IH]; simpl length; simpl map; simpl sumZ; lia.
Qed.

(** Slot counting never leaves the range of [int]: the running total is at
    most 16384 per range, so [SlotCount] needs no wrap-around. *)
Lemma SlotCount_in_int64 n pre post :
  nSlots n = pre ++ post → Forall range_wf (nSlots n) →
  Z.of_nat (length (nSlots n)) ≤ TotalSlots →
  in_int64 (fold_left (λ total r, total + rangeCount r) pre 0).
Proof.
  intros E Hwf Hlen. rewrite E in *. apply Forall_app in Hwf as [Hpre _].
  pose proof (SlotCount_sum (mkNode "" "" "" 0 [] "" pre false)) as Hs.
  unfold SlotCount in Hs. simpl nSlots in Hs. rewrite Hs.
  pose proof (sum_ranges_bound pre Hpre). rewrite length_app in Hlen.
  unfold in_int64, TotalSlots in *. lia.
Qed.

Lemma HasFlag_spec n flag : HasFlag n flag = true ↔ flag ∈ nFlags n.
Proof.
  unfold HasFlag. rewrite existsb_exists. setoid_rewrite String.eqb_eq.
  setoid_rewrite list_elem_of_In. split; [by intros (? & ? & <-)|by eauto].
Qed.

Lemma IsPrimary_spec n : IsPrimary n = true ↔ "master" ∈ nFlags n ∨ nMasterID n = "".
Proof.
  unfold IsPrimary. rewrite <- HasFlag_spec. unfold HasFlag.
  destruct (existsb _ _); [by intuition|]. rewrite String.eqb_eq. intuition done.
Qed.

Lemma PrimaryByNodeID_spec s id n :
  PrimaryByNodeID s id = (n, true) → n ∈ csNodes s ∧ nID n = id ∧ IsPrimary n = true.
Proof.
  unfold PrimaryByNodeID. destruct (List.find _ _) as [m|] eqn:E; [|done].
  intros [= <-]. apply find_some in E as [Hin Hm].
  apply andb_true_iff in Hm as [?%String.eqb_eq ?]. by rewrite list_elem_of_In.
Qed.
