(* ===== verification/Slots.v ===== *)
(** * Hash-slot distribution

    Models [internal/slots/slots.go]: the even, contiguous split of the 16384
    slots over [n] shards and the textual form of slot ranges. *)

From S2P Require Import Prelude GoStrings Cluster.
Local Open Scope string_scope.
Local Open Scope list_scope.
Local Open Scope Z_scope.

(** The bounds of shard [i] of [n], with the wrap-around of [int] arithmetic
    and Go's truncating division. *)
Definition shardStart (n i : Z) : Z := Z.quot (wrap64 (i * TotalSlots)) n.
Definition shardEnd (n i : Z) : Z :=
  wrap64 (Z.quot (wrap64 (wrap64 (i + 1) * TotalSlots)) n - 1).

Definition Distribute (n : Z) : list SlotRange :=
  if n <=? 0 then []
  else map (λ i, mkRange (shardStart n i) (shardEnd n i)) (seqZ 0 n).

Definition TargetCounts (n : Z) : list Z :=
  if n <=? 0 then []
  else map (λ r, wrap64 (wrap64 (rEnd r - rStart r) + 1)) (Distribute n).

Definition FormatRange (r : SlotRange) : string :=
  if rStart r =? rEnd r then Itoa (rStart r)
  else Itoa (rStart r) +:+ "-" +:+ Itoa (rEnd r).

Definition FormatRanges (ranges : list SlotRange) : string :=
  match ranges with
  | [] => ""
  | _ => Join (map FormatRange ranges) ","
  end.

(** ** The split, without wrap-around

    [make([]SlotRange, n)] refuses [n] above [2^44] (16 bytes per element in a
    48-bit address space), so [n <= 2^44] loses nothing. *)

Definition splitAt (n i : Z) : Z := i * TotalSlots / n.

Lemma splitAt_bounds n i : 0 < n → 0 ≤ i ≤ n → 0 ≤ splitAt n i ≤ TotalSlots.
Proof.
  intros Hn Hi. unfold splitAt, TotalSlots.
  split; [apply Z.div_pos; lia|]. apply Z.div_le_upper_bound; nia.
Qed.

Lemma splitAt_mono n i j : 0 < n → i ≤ j → splitAt n i ≤ splitAt n j.
Proof. intros Hn Hij. unfold splitAt, TotalSlots. apply Z.div_le_mono; nia. Qed.

Lemma splitAt_0 n : 0 < n → splitAt n 0 = 0.
Proof. intros. unfold splitAt. rewrite Z.mul_0_l. apply Z.div_0_l. lia. Qed.

Lemma splitAt_n n : 0 < n → splitAt n n = TotalSlots.
Proof. intros. unfold splitAt. rewrite Z.mul_comm. apply Z.div_mul. lia. Qed.

Lemma shardStart_split n i : 0 < n ≤ 2 ^ 44 → 0 ≤ i ≤ n → shardStart n i = splitAt n i.
Proof.
  intros Hn Hi. unfold shardStart, splitAt, TotalSlots.
  rewrite wrap64_id by (unfold in_int64; nia).
  rewrite Z.quot_div_nonneg by lia. done.
Qed.

Lemma shardEnd_split n i : 0 < n ≤ 2 ^ 44 → 0 ≤ i < n → shardEnd n i = splitAt n (i + 1) - 1.
Proof.
  intros Hn Hi. unfold shardEnd.
  rewrite (wrap64_id (i + 1)) by (unfold in_int64; lia).
  rewrite (wrap64_id ((i + 1) * TotalSlots)) by (unfold in_int64, TotalSlots; lia).
  rewrite Z.quot_div_nonneg by (unfold TotalSlots; lia).
  fold (splitAt n (i + 1)). pose proof (splitAt_bounds n (i + 1)).
  apply wrap64_id. unfold in_int64, TotalSlots in *. lia.
Qed.

Lemma Distribute_split n :
  0 < n ≤ 2 ^ 44 →
  Distribute n = map (λ i, mkRange (splitAt n i) (splitAt n (i + 1) - 1)) (seqZ 0 n).
Proof.
  intros Hn. unfold Distribute. rewrite (proj2 (Z.leb_gt _ _)) by lia.
  apply map_ext_in. intros i Hi%list_elem_of_In%elem_of_seqZ.
  rewrite shardStart_split, shardEnd_split by lia. done.
Qed.

Lemma length_Distribute n : length (Distribute n) = Z.to_nat n.
Proof.
  unfold Distribute. destruct (Z.leb_spec n 0); simpl; [lia|].
  rewrite length_map, length_seqZ. done.
Qed.

Lemma Distribute_lookup n i :
  0 < n ≤ 2 ^ 44 → 0 ≤ i < n →
  Distribute n !! Z.to_nat i = Some (mkRange (splitAt n i) (splitAt n (i + 1) - 1)).
Proof.
  intros Hn Hi. rewrite Distribute_split by done.
  rewrite list_lookup_fmap, lookup_seqZ_lt by lia. simpl. rewrite Z2Nat.id by lia. done.
Qed.

(** The size of share [i] is the quotient or one more. *)
Lemma split_size n i :
  0 < n → TotalSlots / n ≤ splitAt n (i + 1) - splitAt n i ≤ TotalSlots / n + 1.
Proof.
  intros Hn. unfold splitAt. rewrite Z.mul_add_distr_r, Z.mul_1_l.
  pose proof (Z.div_mod (i * TotalSlots) n). pose proof (Z.div_mod TotalSlots n).
  pose proof (Z.div_mod (i * TotalSlots + TotalSlots) n).
  pose proof (Z.mod_pos_bound (i * TotalSlots) n). pose proof (Z.mod_pos_bound TotalSlots n).
  pose proof (Z.mod_pos_bound (i * TotalSlots + TotalSlots) n). nia.
Qed.

(** Every slot falls into a share. *)
Lemma split_find n s :
  0 < n → 0 ≤ s < TotalSlots →
  ∃ i, 0 ≤ i < n ∧ splitAt n i ≤ s < splitAt n (i + 1).
Proof.
  intros Hn Hs.
  assert (∀ k, (Z.of_nat k ≤ n) → s < splitAt n (Z.of_nat k) →
    ∃ i, 0 ≤ i < n ∧ splitAt n i ≤ s < splitAt n (i + 1)) as Hk.
  { induction k as [|k IH]; intros Hle Hlt.
    - rewrite splitAt_0 in Hlt by done. lia.
    - destruct (Z.lt_ge_cases s (splitAt n (Z.of_nat k))) as [?|?]; [apply IH; lia|].
      exists (Z.of_nat k). rewrite Nat2Z.inj_succ, <- Z.add_1_r in *. lia. }
  apply (Hk (Z.to_nat n)); rewrite Z2Nat.id by lia; [lia|].
  rewrite splitAt_n by done. lia.
Qed.

Lemma sum_splits n k :
  sumZ (map (λ i, splitAt n (i + 1) - splitAt n i) (seqZ 0 (Z.of_nat k)))
  = splitAt n (Z.of_nat k) - splitAt n 0.
Proof.
  induction k as [|k IH]; [change (Z.of_nat 0) with 0; cbn [seqZ map sumZ foldr]; rewrite Z.sub_diag; done|].
  rewrite Nat2Z.inj_succ, <- Z.add_1_r, seqZ_app by lia.
  rewrite map_app, sumZ_app, IH. change (seqZ (0 + Z.of_nat k) 1) with [0 + Z.of_nat k].
  cbn [map sumZ foldr]. rewrite Z.add_0_l. lia.
Qed.

(** ** Properties *)

(** C9: [Distribute n] assigns every one of the 16384 slots to exactly one of
    its [n] ranges, for every shard count for which the slice can be made. *)
Theorem distribute_partition (n s : Z) :
  0 < n ≤ 2 ^ 44 → 0 ≤ s < TotalSlots →
  length (Distribute n) = Z.to_nat n ∧
  exists! i : nat, ∃ r, Distribute n !! i = Some r ∧ in_range s r.
Proof.
  intros Hn Hs. split; [apply length_Distribute|].
  destruct (split_find n s) as (i & Hi & Hlo & Hhi); [lia|done|].
  exists (Z.to_nat i). split.
  - eexists. split; [by apply Distribute_lookup|]. unfold in_range; simpl. lia.
  - intros j (r & Hj & Hr).
    pose proof (lookup_lt_Some _ _ _ Hj) as Hlt. rewrite length_Distribute in Hlt.
    rewrite <- (Nat2Z.id j), Distribute_lookup in Hj by lia.
    injection Hj as <-. unfold in_range in Hr; simpl in Hr.
    destruct (Z.lt_trichotomy i (Z.of_nat j)) as [Hlt'|[->|Hgt]]; [|lia|].
    + pose proof (splitAt_mono n (i + 1) (Z.of_nat j)). lia.
    + pose proof (splitAt_mono n (Z.of_nat j + 1) i). lia.
Qed.

Lemma distribute_partition_witness :
  length (Distribute 3) = 3%nat ∧ exists! i : nat, ∃ r, Distribute 3 !! i = Some r ∧ in_range 5461 r.
Proof. apply (distribute_partition 3 5461); [lia|unfold TotalSlots; lia]. Defined.

(** The shares are balanced: every count of [TargetCounts n] is the
    quotient [16384 / n] or one more, so counts differ by at most one, and
    together they are all the slots. *)
Theorem target_counts_balanced (n : Z) :
  0 < n ≤ 2 ^ 44 →
  Forall (λ c, TotalSlots / n ≤ c ≤ TotalSlots / n + 1) (TargetCounts n) ∧
  sumZ (TargetCounts n) = TotalSlots.
Proof.
  intros Hn.
  assert (TargetCounts n = map (λ i, splitAt n (i + 1) - splitAt n i) (seqZ 0 n)) as ->.
  { unfold TargetCounts. rewrite (proj2 (Z.leb_gt _ _)) by lia.
    rewrite Distribute_split by done. rewrite map_map. apply map_ext_in.
    intros i Hi%list_elem_of_In%elem_of_seqZ. simpl.
    pose proof (splitAt_bounds n i). pose proof (splitAt_bounds n (i + 1)).
    unfold TotalSlots in *. rewrite wrap64_id; rewrite wrap64_id; unfold in_int64; lia. }
  split.
  - apply Forall_forall. intros c (i & -> & _)%list_elem_of_fmap. apply split_size. lia.
  - pose proof (sum_splits n (Z.to_nat n)) as E. rewrite Z2Nat.id in E by lia. rewrite E.
    rewrite splitAt_n, splitAt_0 by lia. lia.
Qed.

Lemma target_counts_balanced_witness :
  TargetCounts 3 = [5461; 5461; 5462] ∧
  Forall (λ c, TotalSlots / 3 ≤ c ≤ TotalSlots / 3 + 1) (TargetCounts 3) ∧
  sumZ (TargetCounts 3) = TotalSlots.
Proof. split; [reflexivity|]. apply (target_counts_balanced 3). lia. Defined.
