(* ===== verification/Topology.v ===== *)
(** * The reconcile planner

    Models [internal/topology/topology.go]: the single next action a cluster
    needs to converge to the declared topology. *)

From S2P Require Import Prelude.
Local Open Scope Z_scope.

Record Desired := mkDesired { dShards : Z; dReplicasPerShard : Z }.

Record Observed := mkObserved {
  oFormed : bool;
  oSlotsCovered : bool;
  oPrimaryCount : Z;
  oReplicaCounts : list Z
}.

Inductive ActionKind :=
| ActionForm
| ActionRepair
| ActionScaleOutShards
| ActionScaleInShards
| ActionScaleReplicas
| ActionNone.

#[export] Instance ActionKind_eq_dec : EqDecision ActionKind.
Proof. solve_decision. Defined.

Record Plan := mkPlan {
  Kind : ActionKind;
  AddShards : Z;
  RemoveShards : Z;
  DesiredReplicasPerShard : Z
}.

(** [Plan{Kind: k}], the other fields at their zero value. *)
Definition planOf (k : ActionKind) : Plan := mkPlan k 0 0 0.

Definition Decide (d : Desired) (o : Observed) : Plan :=
  if negb (oFormed o) then planOf ActionForm
  else if negb (oSlotsCovered o) then planOf ActionRepair
  else if oPrimaryCount o <? dShards d
  then mkPlan ActionScaleOutShards (wrap64 (dShards d - oPrimaryCount o)) 0 0
  else if dShards d <? oPrimaryCount o
  then mkPlan ActionScaleInShards 0 (wrap64 (oPrimaryCount o - dShards d)) 0
  else if existsb (λ rc, negb (rc =? dReplicasPerShard d)) (oReplicaCounts o)
  then mkPlan ActionScaleReplicas 0 0 (dReplicasPerShard d)
  else planOf ActionNone.

(** ** What each action is for, and which comes first *)

Definition needed (d : Desired) (o : Observed) (k : ActionKind) : Prop :=
  match k with
  | ActionForm => oFormed o = false
  | ActionRepair => oSlotsCovered o = false
  | ActionScaleOutShards => oPrimaryCount o < dShards d
  | ActionScaleInShards => dShards d < oPrimaryCount o
  | ActionScaleReplicas => ∃ rc, rc ∈ oReplicaCounts o ∧ rc ≠ dReplicasPerShard d
  | ActionNone => True
  end.

(** The precedence of the comment on [Decide]; the two directions of a shard
    change exclude each other. *)
Definition precedence (k : ActionKind) : nat :=
  match k with
  | ActionForm => 1
  | ActionRepair => 2
  | ActionScaleOutShards | ActionScaleInShards => 3
  | ActionScaleReplicas => 4
  | ActionNone => 5
  end.

(** The declared topology is reached. *)
Definition converged (d : Desired) (o : Observed) : Prop :=
  oFormed o = true ∧ oSlotsCovered o = true ∧ oPrimaryCount o = dShards d ∧
  Forall (λ rc, rc = dReplicasPerShard d) (oReplicaCounts o).

(** One case per branch of [Decide]. *)
Lemma Decide_cases d o (P : Plan → Prop) :
  (oFormed o = false → P (planOf ActionForm)) →
  (oFormed o = true → oSlotsCovered o = false → P (planOf ActionRepair)) →
  (oFormed o = true → oSlotsCovered o = true → oPrimaryCount o < dShards d →
     P (mkPlan ActionScaleOutShards (wrap64 (dShards d - oPrimaryCount o)) 0 0)) →
  (oFormed o = true → oSlotsCovered o = true → dShards d < oPrimaryCount o →
     P (mkPlan ActionScaleInShards 0 (wrap64 (oPrimaryCount o - dShards d)) 0)) →
  (oFormed o = true → oSlotsCovered o = true → oPrimaryCount o = dShards d →
     (∃ rc, rc ∈ oReplicaCounts o ∧ rc ≠ dReplicasPerShard d) →
     P (mkPlan ActionScaleReplicas 0 0 (dReplicasPerShard d))) →
  (converged d o → P (planOf ActionNone)) →
  P (Decide d o).
Proof.
  intros HF HR HO HI HS HN. unfold Decide.
  destruct (oFormed o) eqn:EF; simpl; [|by apply HF].
  destruct (oSlotsCovered o) eqn:EC; simpl; [|by apply HR].
  destruct (Z.ltb_spec (oPrimaryCount o) (dShards d)); [by apply HO|].
  destruct (Z.ltb_spec (dShards d) (oPrimaryCount o)); [by apply HI|].
  destruct (existsb _ _) eqn:EX.
  - apply HS; [done..|lia|]. apply existsb_exists in EX as (rc & Hin & Hne).
    exists rc. split; [by apply list_elem_of_In|].
    apply negb_true_iff, Z.eqb_neq in Hne. done.
  - apply HN. repeat split; [done..|lia|]. apply Forall_forall. intros rc Hin.
    destruct (Z.eqb_spec rc (dReplicasPerShard d)) as [|Hne]; [done|].
    assert (existsb (λ rc, negb (rc =? dReplicasPerShard d)) (oReplicaCounts o) = true); [|congruence].
    apply existsb_exists. exists rc. split; [by apply list_elem_of_In|].
    by apply negb_true_iff, Z.eqb_neq.
Qed.

Lemma Decide_none_iff d o : Kind (Decide d o) = ActionNone ↔ converged d o.
Proof.
  apply (Decide_cases d o (λ p, Kind p = ActionNone ↔ converged d o));
    intros; split; try done; unfold converged; intros; destruct_and?; try congruence; try lia.
  rewrite Forall_forall in *. naive_solver.
Qed.

(** ** Properties *)

(** C10: [Decide] follows the documented precedence: the action it returns is
    needed, and no needed action comes before it. *)
Theorem decide_precedence (d : Desired) (o : Observed) :
  needed d o (Kind (Decide d o)) ∧
  ∀ k, needed d o k → (precedence (Kind (Decide d o)) ≤ precedence k)%nat.
Proof.
  apply (Decide_cases d o (λ p, needed d o (Kind p) ∧
    ∀ k, needed d o k → (precedence (Kind p) ≤ precedence k)%nat)); intros; split;
    try done; intros []; simpl in *; try lia; try congruence; intros.
  all: unfold converged in *; destruct_and?; try congruence; try lia.
  rewrite Forall_forall in *. naive_solver.
Qed.

(** Nothing is left to do exactly when the cluster has converged. *)
Theorem decide_none_iff_converged (d : Desired) (o : Observed) :
  Kind (Decide d o) = ActionNone ↔ converged d o.
Proof. apply Decide_none_iff. Qed.

(** The shard counts of the plan make up the whole difference: carrying it
    out on a formed, covered cluster brings the primaries to the declared
    number, and the counts never wrap around. *)
Theorem decide_shard_delta (d : Desired) (o : Observed) :
  in_int32 (dShards d) → 0 ≤ oPrimaryCount o < 2 ^ 31 →
  oFormed o = true → oSlotsCovered o = true →
  oPrimaryCount o + AddShards (Decide d o) - RemoveShards (Decide d o) = dShards d ∧
  0 ≤ AddShards (Decide d o) ∧ 0 ≤ RemoveShards (Decide d o).
Proof.
  unfold in_int32. intros Hd Ho HF HC.
  apply (Decide_cases d o (λ p, oPrimaryCount o + AddShards p - RemoveShards p = dShards d ∧
    0 ≤ AddShards p ∧ 0 ≤ RemoveShards p)); intros; simpl in *; try congruence; try lia.
  1, 2: rewrite !wrap64_id by (unfold in_int64; lia); lia.
  unfold converged in *. lia.
Qed.

Lemma decide_shard_delta_witness :
  let d := mkDesired 5 1 in let o := mkObserved true true 3 [1; 1; 1] in
  oPrimaryCount o + AddShards (Decide d o) - RemoveShards (Decide d o) = dShards d ∧
  0 ≤ AddShards (Decide d o) ∧ 0 ≤ RemoveShards (Decide d o).
Proof. apply (decide_shard_delta (mkDesired 5 1) (mkObserved true true 3 [1; 1; 1]));
  [unfold in_int32; simpl; lia|simpl; lia|reflexivity|reflexivity]. Defined.
