(* ===== verification/ClusterNodes.v ===== *)
(** * Parsing CLUSTER INFO and CLUSTER NODES

    Models the parsers at the end of [internal/cluster/goredis.go].  A Go map
    that only collects distinct numbers ([parseOpenSlots]) is a [gset]; the
    order in which its elements leave the map is arbitrary in Go and is left
    open here. *)

From S2P Require Import Prelude GoStrings Cluster Slots.
From Stdlib Require Import Ascii String.
Local Open Scope string_scope.
Local Open Scope list_scope.
Local Open Scope Z_scope.

Definition lf : ascii := ascii_of_nat 10.

Definition parseInfo (s : string) : gmap string string :=
  fold_left (λ out line,
    let '(k, v, ok) := Cut (TrimSpace line) ":" in
    if ok : bool then <[k := v]> out else out) (Split s lf) ∅.

(** [kv[k]]: the zero value when the key is absent. *)
Definition mapGet (m : gmap string string) (k : string) : string := default "" (m !! k).

Definition parseAddr (s : string) : string * Z * string :=
  let '(hostname, s) :=
    match Index s "," with
    | Some idx => (drop_str (S idx) s, take_str idx s)
    | None => ("", s)
    end in
  let s := match Index s "@" with
           | Some idx => take_str idx s
           | None => s
           end in
  let '(host, portStr, _) := Cut s ":" in
  let '(p, _) := Atoi portStr in
  (host, p, hostname).

Definition parseSlotToken (tok : string) : Z * Z * bool :=
  let '(lo, hi, ok) := Cut tok "-" in
  if ok : bool then
    let '(s, e1) := Atoi lo in
    let '(e, e2) := Atoi hi in
    match e1, e2 with
    | None, None => (s, e, true)
    | _, _ => (0, 0, false)
    end
  else
    let '(s, err) := Atoi tok in
    match err with
    | None => (s, s, true)
    | Some _ => (0, 0, false)
    end.

Definition parseSlots (toks : list string) : list SlotRange :=
  omap (λ tok,
    if HasPrefix tok "[" then None
    else let '(start, end_, ok) := parseSlotToken tok in
         if ok : bool then Some (mkRange start end_) else None) toks.

(** One line; [None] when it has fewer than eight fields. *)
Definition parseNodeLine (line : string) : option NodeInfo :=
  match Fields line with
  | id :: addr :: fl :: ms :: _ :: _ :: _ :: link :: toks =>
      let '(ip, port, hostname) := parseAddr addr in
      let host := if String.eqb hostname "" then ip else hostname in
      let flags := Split fl "," in
      let master := if String.eqb ms "-" then "" else ms in
      Some (mkNode id host ip port flags master (parseSlots toks) (String.eqb link "connected"))
  | _ => None
  end.

Definition parseNodes (s : string) : list NodeInfo := omap parseNodeLine (Split s lf).

Fixpoint leading_digits (s : string) : string :=
  match s with
  | String c s' => if is_digit c then String c (leading_digits s') else ""
  | EmptyString => ""
  end.

Definition openSlotOf (f : string) : option Z :=
  if HasPrefix f "[" then
    let body := TrimPrefix f "[" in
    let ds := leading_digits body in
    if String.eqb ds "" then None
    else match Atoi ds with
         | (n, None) => Some n
         | (_, Some _) => None
         end
  else None.

Definition parseOpenSlots (nodesRaw : string) : gset Z :=
  list_to_set (omap openSlotOf (Fields nodesRaw)).

Definition hasOpenSlots (nodesRaw : string) : bool :=
  Contains nodesRaw "->-" || Contains nodesRaw "-<-".

(** ** The text of CLUSTER NODES

    The format documented above [parseNodes]:
    [<id> <ip:port@cport[,hostname]> <flags> <master> <ping> <pong> <epoch> <link> [slots...]],
    slots in the form [FormatRange] prints, open slots as [[slot->-id]]
    (migrating) or [[slot-<-id]] (importing). *)

Record OpenMark := mkMark { omSlot : Z; omMigrating : bool; omPeer : string }.

Record NodeLine := mkLine {
  lnNode : NodeInfo;
  lnHostname : string;
  lnCport : string;
  lnPing : string;
  lnPong : string;
  lnEpoch : string;
  lnLink : string;
  lnOpen : list OpenMark
}.

Definition renderMark (m : OpenMark) : string :=
  "[" +:+ Itoa (omSlot m) +:+ (if omMigrating m then "->-" else "-<-") +:+ omPeer m +:+ "]".

Definition renderAddr (l : NodeLine) : string :=
  nIP (lnNode l) +:+ ":" +:+ Itoa (nPort (lnNode l)) +:+ "@" +:+ lnCport l +:+
  (if String.eqb (lnHostname l) "" then "" else "," +:+ lnHostname l).

Definition lineFields (l : NodeLine) : list string :=
  let n := lnNode l in
  [nID n; renderAddr l; Join (nFlags n) ",";
   (if String.eqb (nMasterID n) "" then "-" else nMasterID n);
   lnPing l; lnPong l; lnEpoch l; lnLink l] ++
  map FormatRange (nSlots n) ++ map renderMark (lnOpen l).

Definition renderNodes (ls : list NodeLine) : string :=
  Join (map (λ l, Join (lineFields l) " ") ls) (String lf "").

(** A word that is not a bracketed open-slot marker. *)
Definition plain (s : string) : bool := word s && lacks "[" s.

(** What Valkey guarantees of the parts: words of printable ASCII that do not
    hold the separators around them; an IPv4 address or nothing. *)
Record line_wf (l : NodeLine) : Prop := {
  wf_id : plain (nID (lnNode l)) = true;
  wf_ip : str_forall is_graphic (nIP (lnNode l)) && lacks "[" (nIP (lnNode l)) = true;
  wf_ip_sep : lacks ":" (nIP (lnNode l)) && lacks "@" (nIP (lnNode l)) && lacks "," (nIP (lnNode l)) = true;
  wf_port : 0 ≤ nPort (lnNode l) < 65536;
  wf_cport : str_forall is_digit (lnCport l) = true;
  wf_hostname : str_forall is_graphic (lnHostname l) && lacks "[" (lnHostname l) = true;
  wf_host : nHost (lnNode l) = if String.eqb (lnHostname l) "" then nIP (lnNode l) else lnHostname l;
  wf_flags : nFlags (lnNode l) ≠ [] ∧
    Forall (λ f, plain f = true ∧ lacks "," f = true) (nFlags (lnNode l));
  wf_master : nMasterID (lnNode l) = "" ∨
    (plain (nMasterID (lnNode l)) = true ∧ nMasterID (lnNode l) ≠ "-");
  wf_times : plain (lnPing l) && plain (lnPong l) && plain (lnEpoch l) && plain (lnLink l) = true;
  wf_link : nConnected (lnNode l) = String.eqb (lnLink l) "connected";
  wf_slots : Forall range_wf (nSlots (lnNode l));
  wf_open : Forall (λ m, 0 ≤ omSlot m < TotalSlots ∧ str_forall is_graphic (omPeer m) = true) (lnOpen l)
}.

(** ** Lemmas *)

Lemma HasPrefix_lacks c s : lacks c s = true → HasPrefix s (String c "") = false.
Proof.
  unfold lacks, HasPrefix. destruct s as [|c' s]; [done|]. simpl.
  intros [Hc _]%andb_true_iff. apply negb_true_iff, Ascii.eqb_neq in Hc.
  destruct (ascii_dec c c'); [congruence|done].
Qed.

Lemma HasPrefix_mark m : HasPrefix (renderMark m) "[" = true.
Proof.
  change (renderMark m) with
    (String "[" (Itoa (omSlot m) +:+ (if omMigrating m then "->-" else "-<-") +:+ omPeer m +:+ "]")).
  by destruct (Itoa (omSlot m) +:+ _).
Qed.

Lemma graphic_word s : s ≠ "" → str_forall is_graphic s = true → word s = true.
Proof. by destruct s. Qed.

Lemma FormatRange_plain r :
  range_wf r → word (FormatRange r) = true ∧ lacks "[" (FormatRange r) = true ∧ lacks "," (FormatRange r) = true.
Proof.
  unfold range_wf, FormatRange. intros Hr.
  pose proof (Itoa_word (rStart r) ltac:(lia)) as Hw.
  assert (∀ d, is_digit d = false → lacks d (Itoa (rStart r)) = true) by (intros; apply Itoa_lacks; [done|lia]).
  assert (∀ d, is_digit d = false → lacks d (Itoa (rEnd r)) = true) by (intros; apply Itoa_lacks; [done|lia]).
  destruct (rStart r =? rEnd r); [by auto|].
  rewrite !lacks_app. repeat split; [|by rewrite !H, !H0..].
  apply word_spec in Hw as [Hs _].
  pose proof (word_spec _ (Itoa_word (rEnd r) ltac:(lia))) as [He _].
  apply graphic_word; [by destruct (Itoa (rStart r))|].
  by rewrite !str_forall_app, Hs, He.
Qed.

Lemma range_wf_int64 r : range_wf r → in_int64 (rStart r) ∧ in_int64 (rEnd r).
Proof. unfold range_wf, in_int64, TotalSlots. lia. Qed.

(** The node parser reads back what [FormatRange] prints. *)
Lemma parse_format_range r :
  range_wf r → parseSlotToken (FormatRange r) = (rStart r, rEnd r, true).
Proof.
  intros Hr. pose proof (range_wf_int64 r Hr) as [Hs He]. unfold range_wf in Hr.
  assert (lacks "-" (Itoa (rStart r)) = true) as Hl by (apply Itoa_lacks; [done|lia]).
  unfold parseSlotToken, FormatRange. destruct (Z.eqb_spec (rStart r) (rEnd r)) as [E|E].
  - rewrite Cut_none, Atoi_Itoa by done. by rewrite E.
  - change ("-" +:+ Itoa (rEnd r)) with (String "-" (Itoa (rEnd r))).
    rewrite Cut_lacks by done. by rewrite !Atoi_Itoa.
Qed.

Lemma leading_digits_app ds c s :
  str_forall is_digit ds = true → is_digit c = false → leading_digits (ds +:+ String c s) = ds.
Proof.
  intros Hd Hc. induction ds as [|d ds IH].
  - change ("" +:+ String c s) with (String c s). cbn [leading_digits]. by rewrite Hc.
  - simpl in Hd. apply andb_true_iff in Hd as [Hd Hds].
    rewrite str_app_cons. cbn [leading_digits]. by rewrite Hd, IH.
Qed.

Lemma openSlotOf_mark m : 0 ≤ omSlot m < TotalSlots → openSlotOf (renderMark m) = Some (omSlot m).
Proof.
  intros Hm. destruct (Itoa_digits (omSlot m)) as [Hd Hne]; [lia|].
  assert (∀ x, openSlotOf (String "[" x) =
    if String.eqb (leading_digits x) "" then None
    else match Atoi (leading_digits x) with (n, None) => Some n | (_, Some _) => None end) as Hopen by (by intros []).
  change (renderMark m) with
    (String "[" (Itoa (omSlot m) +:+ (if omMigrating m then "->-" else "-<-") +:+ omPeer m +:+ "]")).
  rewrite Hopen.
  assert (leading_digits (Itoa (omSlot m) +:+ (if omMigrating m then "->-" else "-<-") +:+ omPeer m +:+ "]")
          = Itoa (omSlot m)) as ->.
  { destruct (omMigrating m); by apply leading_digits_app. }
  destruct (String.eqb_spec (Itoa (omSlot m)) ""); [done|].
  by rewrite Atoi_Itoa by (unfold in_int64, TotalSlots in *; lia).
Qed.

Lemma openSlotOf_plain s : lacks "[" s = true → openSlotOf s = None.
Proof. intros H. unfold openSlotOf. by rewrite HasPrefix_lacks. Qed.

Lemma parseAddr_render l :
  line_wf l →
  parseAddr (renderAddr l) = (nIP (lnNode l), nPort (lnNode l), lnHostname l).
Proof.
  intros [_ _ Hsep Hport Hc _ _ _ _ _ _ _ _].
  apply andb_true_iff in Hsep as [[Hcol Hat]%andb_true_iff Hcom].
  set (ip := nIP (lnNode l)) in *. set (port := nPort (lnNode l)) in *.
  assert (∀ d, is_digit d = false → lacks d (Itoa port) = true) as Hp
    by (intros; apply Itoa_lacks; [done|lia]).
  set (ap := ip +:+ ":" +:+ Itoa port).
  assert (lacks "@" ap = true) as Hap by (unfold ap; by rewrite !lacks_app, Hat, Hp).
  set (apc := ap +:+ String "@" (lnCport l)).
  assert (lacks "," apc = true) as Hapc.
  { unfold apc, ap. rewrite !lacks_app, Hcom, Hp by done. cbn. by apply lacks_digits. }
  destruct (Index_lacks "@" ap (lnCport l) Hap) as (i & Hi & Ht & _). fold apc in Hi, Ht.
  assert (Cut ap ":" = (ip, Itoa port, true)) as Hcut by (by apply Cut_lacks).
  assert (in_int64 port) as Hport64 by (unfold in_int64; lia).
  unfold renderAddr. fold ip port.
  destruct (String.eqb_spec (lnHostname l) "") as [Hh|Hh].
  - assert (ip +:+ ":" +:+ Itoa port +:+ "@" +:+ lnCport l +:+ "" = apc) as ->.
    { unfold apc, ap. by rewrite str_app_nil_r, !str_app_assoc. }
    unfold parseAddr. rewrite (Index_none "," apc), Hi, Ht, Hcut, Atoi_Itoa by done. by rewrite Hh.
  - assert (ip +:+ ":" +:+ Itoa port +:+ "@" +:+ lnCport l +:+ "," +:+ lnHostname l
            = apc +:+ String "," (lnHostname l)) as ->.
    { unfold apc, ap. by rewrite !str_app_assoc. }
    destruct (Index_lacks "," apc (lnHostname l) Hapc) as (k & Hk & Htk & Hdk).
    unfold parseAddr. by rewrite Hk, Hdk, Htk, Hi, Ht, Hcut, Atoi_Itoa.
Qed.

Lemma plain_spec s : plain s = true → word s = true ∧ lacks "[" s = true.
Proof. unfold plain. by intros [? ?]%andb_true_iff. Qed.

Lemma Join_plain l :
  l ≠ [] → Forall (λ f, plain f = true ∧ lacks "," f = true) l → plain (Join l ",") = true.
Proof.
  intros Hne Hl.
  assert (str_forall is_graphic (Join l ",") = true ∧ lacks "[" (Join l ",") = true ∧ Join l "," ≠ "")
    as (Hg & Hb & Hn); [|unfold plain; by rewrite graphic_word, Hb].
  induction l as [|f l IH]; [done|]. revert Hl.
  intros [[[Hw Hlb]%plain_spec _] Hl]%Forall_cons. apply word_spec in Hw as Hw'. destruct Hw' as [Hg _].
  destruct l as [|f' l]; [split; [done|split; [done|by destruct f]]|].
  destruct (IH ltac:(done) Hl) as (IHg & IHb & _).
  change (Join (f :: f' :: l) ",") with (f +:+ "," +:+ Join (f' :: l) ",").
  rewrite !str_forall_app, !lacks_app, Hg, IHg, Hlb, IHb. by destruct f.
Qed.

Lemma renderAddr_plain l : line_wf l → plain (renderAddr l) = true.
Proof.
  intros [_ Hip _ Hport Hc Hh _ _ _ _ _ _ _].
  apply andb_true_iff in Hip as [Hip1 Hip2]. apply andb_true_iff in Hh as [Hh1 Hh2].
  destruct (Itoa_digits (nPort (lnNode l))) as [Hd _]; [lia|].
  pose proof (str_forall_impl _ _ _ digit_graphic Hd) as Hdg.
  pose proof (str_forall_impl _ _ _ digit_graphic Hc) as Hcg.
  unfold plain. apply andb_true_iff. split.
  - apply graphic_word; [unfold renderAddr; by destruct (nIP _)|].
    unfold renderAddr. rewrite !str_forall_app, Hip1, Hdg, Hcg.
    destruct (String.eqb _ _); rewrite ?str_forall_app, ?Hh1; done.
  - unfold renderAddr. rewrite !lacks_app, Hip2, (lacks_digits "[" _ eq_refl Hd), (lacks_digits "[" _ eq_refl Hc).
    destruct (String.eqb _ _); rewrite ?lacks_app, ?Hh2; done.
Qed.

Lemma renderMark_word m :
  0 ≤ omSlot m < TotalSlots → str_forall is_graphic (omPeer m) = true → word (renderMark m) = true.
Proof.
  intros Hm Hp. destruct (Itoa_digits (omSlot m)) as [Hd _]; [lia|].
  pose proof (str_forall_impl _ _ _ digit_graphic Hd) as Hg.
  apply graphic_word; [done|]. unfold renderMark.
  rewrite !str_forall_app, Hg, Hp. by destruct (omMigrating m).
Qed.

(** The eight leading fields of a line. *)
Definition headFields (l : NodeLine) : list string :=
  [nID (lnNode l); renderAddr l; Join (nFlags (lnNode l)) ",";
   (if String.eqb (nMasterID (lnNode l)) "" then "-" else nMasterID (lnNode l));
   lnPing l; lnPong l; lnEpoch l; lnLink l].

Lemma headFields_plain l : line_wf l → Forall (λ s, plain s = true) (headFields l).
Proof.
  intros Hwf. pose proof (renderAddr_plain l Hwf) as Ha. destruct Hwf as [? _ _ _ _ _ _ [? ?] Hm Ht _ _ _].
  rewrite !andb_true_iff in Ht. destruct_and!.
  repeat apply Forall_cons_2; try done; [by apply Join_plain|].
  destruct (String.eqb_spec (nMasterID (lnNode l)) ""); [done|]. by destruct Hm as [?|[? _]].
Qed.

Lemma lineFields_words l : line_wf l → Forall (λ s, word s = true) (lineFields l).
Proof.
  intros Hwf. pose proof (headFields_plain l Hwf) as Hh. destruct Hwf as [_ _ _ _ _ _ _ _ _ _ _ Hs Ho].
  change (lineFields l) with (headFields l ++ map FormatRange (nSlots (lnNode l)) ++ map renderMark (lnOpen l)).
  apply Forall_app. split; [|apply Forall_app; split].
  - eapply Forall_impl; [exact Hh|]. intros s Hp. by apply plain_spec.
  - apply Forall_map. eapply Forall_impl; [exact Hs|]. intros r Hr. by apply FormatRange_plain.
  - apply Forall_map. eapply Forall_impl; [exact Ho|]. intros m [? ?]. by apply renderMark_word.
Qed.

Lemma parseSlots_render rs ms :
  Forall range_wf rs → parseSlots (map FormatRange rs ++ map renderMark ms) = rs.
Proof.
  intros Hr. unfold parseSlots. rewrite omap_app.
  assert (∀ l, omap (λ tok, if HasPrefix tok "[" then None
    else let '(start, end_, ok) := parseSlotToken tok in
         if ok : bool then Some (mkRange start end_) else None) (map renderMark l) = []) as ->.
  { induction l as [|m l IH]; [done|]. simpl map. rewrite omap_cons, HasPrefix_mark. exact IH. }
  rewrite app_nil_r. induction Hr as [|r rs Hr Hrs IH]; [done|].
  simpl map. rewrite omap_cons. destruct (FormatRange_plain r Hr) as (_ & Hb & _).
  rewrite HasPrefix_lacks, parse_format_range by done. rewrite IH. by destruct r.
Qed.

Lemma parseNodeLine_render l : line_wf l → parseNodeLine (Join (lineFields l) " ") = Some (lnNode l).
Proof.
  intros Hwf. unfold parseNodeLine. rewrite Fields_Join by (by apply lineFields_words).
  unfold lineFields. cbn [app]. rewrite parseAddr_render, parseSlots_render by (done || apply Hwf).
  destruct Hwf as [_ _ _ _ _ _ Hhost [Hne Hfl] Hm _ Hlink _ _].
  rewrite Split_Join; [|done|by eapply Forall_impl; [exact Hfl|]; intros ? [? ?]].
  rewrite <- Hhost, <- Hlink.
  assert ((if String.eqb (if String.eqb (nMasterID (lnNode l)) "" then "-" else nMasterID (lnNode l)) "-"
           then "" else if String.eqb (nMasterID (lnNode l)) "" then "-" else nMasterID (lnNode l))
          = nMasterID (lnNode l)) as ->.
  { destruct (String.eqb_spec (nMasterID (lnNode l)) "") as [->|?]; [done|].
    destruct Hm as [?|[_ ?]]; [done|]. by destruct (String.eqb_spec (nMasterID (lnNode l)) "-"). }
  by destruct (lnNode l).
Qed.

Lemma openSlots_line l : line_wf l → omap openSlotOf (lineFields l) = map omSlot (lnOpen l).
Proof.
  intros Hwf. pose proof (headFields_plain l Hwf) as Hh. destruct Hwf as [_ _ _ _ _ _ _ _ _ _ _ Hs Ho].
  change (lineFields l) with (headFields l ++ map FormatRange (nSlots (lnNode l)) ++ map renderMark (lnOpen l)).
  assert (∀ ss, Forall (λ s, lacks "[" s = true) ss → omap openSlotOf ss = []) as Hnone.
  { induction 1 as [|s ss Hl _ IH]; [done|]. rewrite omap_cons, openSlotOf_plain by done. exact IH. }
  rewrite !omap_app, (Hnone (headFields l)), (Hnone (map FormatRange _)); cbn [app].
  - induction Ho as [|m ms [Hm _] _ IH]; [done|]. simpl map. rewrite omap_cons, openSlotOf_mark by done.
    by rewrite IH.
  - apply Forall_map. eapply Forall_impl; [exact Hs|]. intros r Hr. by apply FormatRange_plain.
  - eapply Forall_impl; [exact Hh|]. intros s Hp. by apply plain_spec.
Qed.

(** ** Properties *)

Lemma parseNodes_render ls : Forall line_wf ls → parseNodes (renderNodes ls) = map lnNode ls.
Proof.
  intros Hwf. unfold parseNodes, renderNodes. destruct (decide (ls = [])) as [->|Hne]; [done|].
  rewrite Split_Join.
  - clear Hne. induction Hwf as [|l ls Hl _ IH]; [done|].
    cbn [map]. rewrite omap_cons, parseNodeLine_render by done. by rewrite IH.
  - by destruct ls.
  - apply Forall_map. eapply Forall_impl; [exact Hwf|]. intros l Hl.
    by apply line_lacks_lf, lineFields_words.
Qed.

Lemma parseOpenSlots_render ls : Forall line_wf ls →
  parseOpenSlots (renderNodes ls) = list_to_set (map omSlot (List.concat (map lnOpen ls))).
Proof.
  intros Hwf. unfold parseOpenSlots, renderNodes. f_equal.
  pose proof (Fields_lines (map lineFields ls)) as HF. rewrite map_map in HF. unfold lf. rewrite HF.
  - clear HF. induction Hwf as [|l ls Hl _ IH]; [done|].
    cbn [map List.concat]. rewrite omap_app, openSlots_line, IH by done. by rewrite map_app.
  - apply Forall_map. eapply Forall_impl; [exact Hwf|]. intros l Hl. by apply lineFields_words.
Qed.

(** C15: the parsers read back every text of the documented CLUSTER NODES
    format: [parseNodes] recovers each node (identity, address, host name
    or IP, flags, master, slots, link state) and [parseOpenSlots] exactly the
    slots that carry a migrating or importing marker on any line. *)
Theorem parse_render_nodes (ls : list NodeLine) :
  Forall line_wf ls →
  parseNodes (renderNodes ls) = map lnNode ls ∧
  parseOpenSlots (renderNodes ls) = list_to_set (map omSlot (List.concat (map lnOpen ls))).
Proof. intros Hwf. split; [by apply parseNodes_render|by apply parseOpenSlots_render]. Qed.

Definition sampleLines : list NodeLine :=
  [mkLine (mkNode "a1" "demo-shard-0-0.demo-nodes.ns.svc" "10.0.0.1" 6379 ["myself"; "master"] ""
             [mkRange 0 780; mkRange 900 900] true)
     "demo-shard-0-0.demo-nodes.ns.svc" "16379" "0" "0" "1" "connected"
     [mkMark 781 true "b2"; mkMark 901 false "c3"];
   mkLine (mkNode "b2" "10.0.0.2" "10.0.0.2" 6379 ["slave"; "fail?"] "a1" [] false)
     "" "16379" "0" "0" "2" "disconnected" []].

Lemma sampleLines_wf : Forall line_wf sampleLines.
Proof.
  unfold sampleLines. repeat apply Forall_cons_2; [..|by apply Forall_nil].
  all: constructor; simpl; try done; try lia; try by left.
  all: try (right; done); try (split; [done|]).
  all: repeat constructor; unfold TotalSlots; simpl; lia.
Qed.

Lemma parse_render_nodes_witness :
  parseNodes (renderNodes sampleLines) = map lnNode sampleLines ∧
  parseOpenSlots (renderNodes sampleLines) = list_to_set [781; 901].
Proof. apply (parse_render_nodes sampleLines). apply sampleLines_wf. Defined.

(** What [slots.FormatRanges] publishes in a shard's status is parsed back,
    token by token, by the parser of CLUSTER NODES: the ranges are not
    altered by printing. *)
Theorem format_ranges_roundtrip (rs : list SlotRange) :
  rs ≠ [] → Forall range_wf rs →
  map parseSlotToken (Split (FormatRanges rs) ",") = map (λ r, (rStart r, rEnd r, true)) rs.
Proof.
  intros Hne Hwf. assert (FormatRanges rs = Join (map FormatRange rs) ",") as -> by (by destruct rs).
  rewrite Split_Join; [|by destruct rs|].
  - rewrite map_map. clear Hne. induction Hwf as [|r rs Hr _ IH]; [done|].
    cbn [map]. by rewrite parse_format_range, IH.
  - apply Forall_map. eapply Forall_impl; [exact Hwf|]. intros r Hr. by apply FormatRange_plain.
Qed.

Lemma format_ranges_roundtrip_witness :
  FormatRanges [mkRange 0 100; mkRange 200 200] = "0-100,200" ∧
  map parseSlotToken (Split (FormatRanges [mkRange 0 100; mkRange 200 200]) ",")
  = [(0, 100, true); (200, 200, true)].
Proof.
  split; [vm_compute; reflexivity|].
  apply (format_ranges_roundtrip [mkRange 0 100; mkRange 200 200]); [done|].
  repeat constructor; unfold TotalSlots; simpl; lia.
Defined.

(** An IPv6 node address defeats [parseAddr]: it cuts the address at its
    first colon, so the port is lost (0) and the IP is truncated. *)
Theorem parse_addr_ipv6_truncated :
  parseAddr "fd00::12:6379@16379,demo-shard-0-0.demo-nodes.ns.svc"
  = ("fd00", 0, "demo-shard-0-0.demo-nodes.ns.svc").
Proof. vm_compute. reflexivity. Qed.
