(* ===== verification/Fake.v ===== *)
(** * The in-memory cluster

    Models [internal/cluster/fake.go], the [ClusterAdmin] the reconciler is
    tested against.  Go keeps [map[string]*NodeInfo]; every pointer is reached
    only through its key ([State] hands out copies), so an assignment through
    a pointer is an update of the map at that key, and two pointers to one
    node are two updates at one key.  The mutex makes each method atomic. *)

From S2P Require Import Prelude GoStrings Cluster Slots.
Local Open Scope string_scope.
Local Open Scope list_scope.
Local Open Scope Z_scope.

(** Go's order on strings, byte by byte. *)
Definition str_le (a b : string) : Prop := String.leb a b = true.
#[export] Instance str_le_dec : RelDecision str_le.
Proof. intros a b. unfold str_le. apply _. Defined.

Module Fake.

Definition NewFake : gmap string NodeInfo := ∅.

Definition freshNode (e : Endpoint) : NodeInfo :=
  mkNode (epHost e) (epHost e) "" (epPort e) ["master"] "" [] true.

Definition ensure (e : Endpoint) (f : gmap string NodeInfo) : gmap string NodeInfo :=
  match f !! epHost e with
  | Some _ => f
  | None => <[epHost e := freshNode e]> f
  end.

Definition assignedSlots (f : gmap string NodeInfo) : Z :=
  sumZ (map (λ p, SlotCount p.2) (map_to_list f)).

Definition byIDle (a b : NodeInfo) : Prop := str_le (nID a) (nID b).
#[export] Instance byIDle_dec : RelDecision byIDle.
Proof. intros a b. unfold byIDle. apply _. Defined.

Definition sortedNodes (f : gmap string NodeInfo) : list NodeInfo :=
  merge_sort byIDle (map snd (map_to_list f)).

Definition view (f : gmap string NodeInfo) : ClusterState :=
  let assigned := assignedSlots f in
  mkState (negb (Nat.eqb (size f) 0) && (0 <? assigned)) (assigned =? TotalSlots) false (sortedNodes f).

Definition State (_ : Endpoint) : M (gmap string NodeInfo) (result ClusterState) :=
  λ f, Some (Ok (view f), f).

Definition MyID (ep : Endpoint) : M (gmap string NodeInfo) (result string) :=
  λ f, let f' := ensure ep f in
       Some (Ok (nID (default NodeInfo_zero (f' !! epHost ep))), f').

Definition Meet (from target : Endpoint) : M (gmap string NodeInfo) (result unit) :=
  λ f, Some (Ok tt, ensure target (ensure from f)).

Definition AddSlots (primary : Endpoint) (ranges : list SlotRange) :
    M (gmap string NodeInfo) (result unit) :=
  λ f, Some (Ok tt,
    alter (λ n, set_nSlots (nSlots n ++ ranges) (set_nFlags ["master"] (set_nMasterID "" n)))
      (epHost primary) (ensure primary f)).

Definition Replicate (replica : Endpoint) (primaryID : string) :
    M (gmap string NodeInfo) (result unit) :=
  λ f, Some (Ok tt,
    alter (λ n, set_nSlots [] (set_nFlags ["slave"] (set_nMasterID primaryID n)))
      (epHost replica) (ensure replica f)).

Definition Forget (_ : Endpoint) (nodeID : string) : M (gmap string NodeInfo) (result unit) :=
  λ f, Some (Ok tt, delete nodeID f).

(** [r.Slots, m.Slots = m.Slots, nil] and so on: the right-hand sides are read
    first, then the assignments run left to right (they may hit one node). *)
Definition Failover (replica : Endpoint) : M (gmap string NodeInfo) (result unit) :=
  λ f, Some (Ok tt,
    match f !! epHost replica with
    | None => f
    | Some r =>
        if String.eqb (nMasterID r) "" then f
        else match f !! nMasterID r with
             | None => f
             | Some m =>
                 let rk := epHost replica in
                 let mk := nMasterID r in
                 let f := alter (set_nSlots []) mk (alter (set_nSlots (nSlots m)) rk f) in
                 let f := alter (set_nMasterID (nID r)) mk (alter (set_nMasterID "") rk f) in
                 alter (set_nFlags ["slave"]) mk (alter (set_nFlags ["master"]) rk f)
             end
    end).

Definition sortIDs (l : list string) : list string := merge_sort str_le l.

Definition primaries (excluded : gset string) (f : gmap string NodeInfo) : list string :=
  sortIDs (omap (λ p : string * NodeInfo,
    if IsPrimary p.2 && negb (bool_decide (p.1 ∈ excluded)) then Some p.1 else None) (map_to_list f)).

(** The loop that gives target [i] of [k] its contiguous share. *)
Definition assignEven (targets : list string) (f : gmap string NodeInfo) : gmap string NodeInfo :=
  let k := Z.of_nat (length targets) in
  fold_left (λ f (p : Z * string),
    alter (set_nSlots [mkRange (shardStart k p.1) (shardEnd k p.1)]) p.2 f)
    (zip (seqZ 0 k) targets) f.

Definition Rebalance (_ : Endpoint) (opts : RebalanceOpts) : M (gmap string NodeInfo) (result unit) :=
  λ f, Some (Ok tt,
    let excluded := list_to_set (WeightZeroIDs opts) in
    let targets := primaries excluded f in
    if Nat.eqb (length targets) 0 then f
    else
      let f := set_nSlots [] <$> f in
      let f := fold_left (λ f id, alter (set_nSlots []) id f) (WeightZeroIDs opts) f in
      assignEven targets f).

Definition countToRanges (count : Z) : list SlotRange :=
  if count <=? 0 then [] else [mkRange 0 (count - 1)].

Definition setCount (id : string) (c : Z) (f : gmap string NodeInfo) : gmap string NodeInfo :=
  alter (set_nSlots (countToRanges c)) id f.

Definition countAt (id : string) (f : gmap string NodeInfo) : Z :=
  SlotCount (default NodeInfo_zero (f !! id)).

Definition Reshard (_ : Endpoint) (fromNodeID toNodeID : string) (n : Z) :
    M (gmap string NodeInfo) (result unit) :=
  λ f, Some (Ok tt,
    match f !! toNodeID with
    | None => f
    | Some _ =>
        let f := alter (λ nd, set_nFlags ["master"] (set_nMasterID "" nd)) toNodeID f in
        if negb (String.eqb fromNodeID "") then
          match f !! fromNodeID with
          | None => f
          | Some from =>
              let moved := if SlotCount from <? n then SlotCount from else n in
              let f := setCount fromNodeID (SlotCount from - moved) f in
              setCount toNodeID (countAt toNodeID f + moved) f
          end
        else
          let f := if countAt toNodeID f =? 0
                   then alter (set_nSlots [mkRange 0 0]) toNodeID f else f in
          let owners := sortIDs (omap (λ p : string * NodeInfo,
            if IsPrimary p.2 && (0 <? SlotCount p.2) then Some p.1 else None) (map_to_list f)) in
          let f := (λ nd, if IsPrimary nd then set_nSlots [] nd else nd) <$> f in
          assignEven owners f
    end).

Definition RepairSlots (_ : Endpoint) : M (gmap string NodeInfo) (Z * option error) :=
  λ f, Some ((0, None), f).

Definition MoveSlots (_ : Endpoint) (fromNodeID toNodeID : string) (n : Z) :
    M (gmap string NodeInfo) (Z * option error) :=
  λ f, match f !! fromNodeID, f !! toNodeID with
       | Some from, Some _ =>
           let moved := if SlotCount from <? n then SlotCount from else n in
           let f := setCount fromNodeID (SlotCount from - moved) f in
           let f := alter (λ nd, set_nFlags ["master"] (set_nMasterID "" nd)) toNodeID f in
           Some ((moved, None), setCount toNodeID (countAt toNodeID f + moved) f)
       | _, _ => Some ((0, None), f)
       end.

Definition Fix (seed : Endpoint) : M (gmap string NodeInfo) (result unit) :=
  Rebalance seed (mkRebalanceOpts false []).

End Fake.

(** The fake is a [ClusterAdmin]. *)
#[export] Instance Fake_ClusterAdmin : ClusterAdmin (gmap string NodeInfo) := {|
  State := Fake.State;
  MyID := Fake.MyID;
  Meet := Fake.Meet;
  AddSlots := Fake.AddSlots;
  Replicate := Fake.Replicate;
  Forget := Fake.Forget;
  Failover := Fake.Failover;
  Rebalance := Fake.Rebalance;
  Reshard := Fake.Reshard;
  MoveSlots := Fake.MoveSlots;
  Fix := Fake.Fix;
  RepairSlots := Fake.RepairSlots
|}.
