(* ===== verification/FakeProofs.v ===== *)
(** * Correctness of the in-memory cluster

    The invariant of the fake, its preservation by every operation, and the
    effect of the operations that move slots. *)

From S2P Require Import Prelude GoStrings Cluster Slots Fake.
Local Open Scope string_scope.
Local Open Scope list_scope.
Local Open Scope Z_scope.

(** ** Slot totals *)

Lemma assigned_empty : Fake.assignedSlots ∅ = 0.
Proof. unfold Fake.assignedSlots. by rewrite map_to_list_empty. Qed.

Lemma assigned_insert_new f k n :
  f !! k = None → Fake.assignedSlots (<[k := n]> f) = SlotCount n + Fake.assignedSlots f.
Proof. intros H. unfold Fake.assignedSlots. by rewrite map_to_list_insert. Qed.

Lemma assigned_delete f k n :
  f !! k = Some n → Fake.assignedSlots f = SlotCount n + Fake.assignedSlots (delete k f).
Proof.
  intros H. rewrite <- (insert_delete_id f k n H) at 1.
  apply assigned_insert_new, lookup_delete_eq.
Qed.

Lemma assigned_alter f k n (g : NodeInfo → NodeInfo) :
  f !! k = Some n →
  Fake.assignedSlots (alter g k f) = Fake.assignedSlots f - SlotCount n + SlotCount (g n).
Proof.
  intros H. rewrite (assigned_delete f k n H).
  rewrite (assigned_delete (alter g k f) k (g n)).
  - rewrite delete_alter_eq. lia.
  - by rewrite lookup_alter_eq, H.
Qed.

(** Summing over a permutation of the keys, one term per key. *)
Lemma assigned_by_keys f (ks : list string) :
  NoDup ks → (∀ k, k ∈ ks → is_Some (f !! k)) →
  (∀ k n, f !! k = Some n → k ∉ ks → SlotCount n = 0) →
  Fake.assignedSlots f = sumZ (map (λ k, Fake.countAt k f) ks).
Proof.
  revert f. induction ks as [|k ks IH]; intros f Hnd Hin Hout.
  - apply sumZ_map_zero. intros [k n] Hk%elem_of_map_to_list. simpl. eapply Hout; [done|].
    apply not_elem_of_nil.
  - apply NoDup_cons in Hnd as [Hk Hnd]. destruct (Hin k) as [n Hn]; [left|].
    rewrite (assigned_delete f k n Hn). simpl.
    rewrite (IH (delete k f)); [|done| |].
    + f_equal; [unfold Fake.countAt; by rewrite Hn|]. f_equal. apply map_ext_in.
      intros k' Hk'%list_elem_of_In. unfold Fake.countAt. rewrite lookup_delete_ne; congruence.
    + intros k' Hk'. rewrite lookup_delete_ne by congruence. apply Hin. by right.
    + intros k' n' [Hne Hl]%lookup_delete_Some Hk'. eapply Hout; [done|].
      rewrite not_elem_of_cons. auto.
Qed.

Lemma SlotCount_countToRanges n c :
  SlotCount (set_nSlots (Fake.countToRanges c) n) = Z.max 0 c.
Proof.
  rewrite SlotCount_sum. unfold Fake.countToRanges. destruct (Z.leb_spec c 0); simpl; [lia|].
  unfold rangeCount. simpl. lia.
Qed.

Lemma SlotCount_range n r : SlotCount (set_nSlots [r] n) = rangeCount r.
Proof. rewrite SlotCount_sum. simpl. lia. Qed.

(** ** The invariant *)

(** A node is stored under its ID, which is its host; slot counts are not
    negative; only primaries hold slots. *)
Record node_ok (k : string) (n : NodeInfo) : Prop := {
  ok_id : nID n = k;
  ok_host : nHost n = k;
  ok_count : 0 ≤ SlotCount n;
  ok_replica : IsPrimary n = false → nSlots n = []
}.

Definition fake_inv (f : gmap string NodeInfo) : Prop := map_Forall node_ok f.

Lemma fake_inv_alter f k g :
  fake_inv f → (∀ n, f !! k = Some n → node_ok k n → node_ok k (g n)) → fake_inv (alter g k f).
Proof.
  intros Hf Hg k' n'. rewrite lookup_alter_Some. intros [(<- & n & Hn & ->)|[_ Hn]].
  - apply Hg; [done|]. by apply Hf.
  - by apply Hf.
Qed.

Lemma fake_inv_ensure f e : fake_inv f → fake_inv (Fake.ensure e f).
Proof.
  intros Hf. unfold Fake.ensure. destruct (f !! epHost e); [done|].
  apply map_Forall_insert_2; [|done]. by constructor.
Qed.

Lemma ensure_is_some f e : is_Some (Fake.ensure e f !! epHost e).
Proof. unfold Fake.ensure. destruct (f !! epHost e) eqn:E; [by eauto|]. rewrite lookup_insert_eq. eauto. Qed.

Lemma fake_inv_assignEven f ids :
  Z.of_nat (length ids) ≤ 2 ^ 44 → fake_inv f →
  (∀ k n, k ∈ ids → f !! k = Some n → IsPrimary n = true) →
  fake_inv (Fake.assignEven ids f).
Proof.
  intros Hlen Hf Hprim. unfold Fake.assignEven. set (k := Z.of_nat (length ids)) in *.
  assert (∀ l f, fake_inv f →
    (∀ i id, (i, id) ∈ l → 0 ≤ i < k ∧ ∀ n, f !! id = Some n → IsPrimary n = true) →
    fake_inv (fold_left (λ f (p : Z * string),
      alter (set_nSlots [mkRange (shardStart k p.1) (shardEnd k p.1)]) p.2 f) l f)) as Hfold.
  { clear f Hf Hprim. induction l as [|[i id] l IH]; intros f Hf Hl; [done|]. simpl. apply IH.
    - apply fake_inv_alter; [done|]. intros n Hn [? ? ? ?].
      destruct (Hl i id) as [Hi Hp]; [left|]. constructor; [done..| |].
      + rewrite SlotCount_range. unfold rangeCount; simpl.
        rewrite shardStart_split, shardEnd_split by lia.
        pose proof (splitAt_mono k i (i + 1)). lia.
      + intros Hnp. specialize (Hp n Hn). unfold IsPrimary in *. simpl in *. congruence.
    - intros j id' Hj. destruct (Hl j id') as [Hj' Hp]; [by right|]. split; [done|].
      intros n Hn. rewrite lookup_alter_Some in Hn.
      destruct Hn as [(<- & n0 & Hn0 & ->)|[_ Hn0]]; [|by apply Hp].
      unfold IsPrimary in *. simpl. by apply Hp. }
  apply Hfold; [done|]. intros i id Hi.
  pose proof (elem_of_zip_l _ _ _ _ Hi) as Hil%elem_of_seqZ.
  pose proof (elem_of_zip_r _ _ _ _ Hi) as Hir. split; [lia|]. intros n. by apply Hprim.
Qed.

(** ** Keys selected by a test, as [primaries] and [Reshard] collect them *)

Section KeysWhere.
Context (P : string * NodeInfo → bool).
Let sel (p : string * NodeInfo) : option string := if P p then Some p.1 else None.

Lemma elem_of_keysWhere f k :
  k ∈ Fake.sortIDs (omap sel (map_to_list f)) ↔ ∃ n, f !! k = Some n ∧ P (k, n) = true.
Proof.
  unfold Fake.sortIDs. rewrite merge_sort_Permutation, list_elem_of_omap. split.
  - intros ([k' n] & Hin%elem_of_map_to_list & Hs). unfold sel in Hs.
    destruct (P (k', n)) eqn:E; [|done]. simplify_eq/=. eauto.
  - intros (n & Hn & HP). exists (k, n). split; [by apply elem_of_map_to_list|].
    unfold sel. by rewrite HP.
Qed.

Lemma NoDup_keysWhere f : NoDup (Fake.sortIDs (omap sel (map_to_list f))).
Proof.
  unfold Fake.sortIDs. rewrite merge_sort_Permutation.
  pose proof (NoDup_fst_map_to_list f) as Hnd.
  induction (map_to_list f) as [|[k n] l IH]; [by apply NoDup_nil_2|].
  apply NoDup_cons in Hnd as [Hk Hnd]. rewrite omap_cons. unfold sel at 1.
  destruct (P (k, n)); [|by apply IH]. apply NoDup_cons. split; [|by apply IH].
  intros ([k' n'] & Hin & Hs)%list_elem_of_omap. unfold sel in Hs.
  destruct (P (k', n')); simplify_eq/=. apply Hk. apply list_elem_of_fmap. by exists (k, n').
Qed.

Lemma length_keysWhere f : (length (Fake.sortIDs (omap sel (map_to_list f))) ≤ size f)%nat.
Proof.
  unfold Fake.sortIDs. rewrite merge_sort_Permutation, <- length_map_to_list.
  induction (map_to_list f) as [|p l IH]; [done|]. rewrite omap_cons.
  destruct (sel p); simpl; lia.
Qed.

End KeysWhere.

(** ** Every operation preserves the invariant *)

Lemma size_alter (f : gmap string NodeInfo) k g : size (alter g k f) = size f.
Proof. rewrite <- !(size_dom (D := gset string)). by rewrite dom_alter_L. Qed.

Lemma fake_inv_setCount f id c :
  fake_inv f → (∀ n, f !! id = Some n → IsPrimary n = false → c ≤ 0) → fake_inv (Fake.setCount id c f).
Proof.
  intros Hf Hc. apply fake_inv_alter; [done|]. intros n Hn [? ? ? ?]. constructor; [done..| |].
  - rewrite SlotCount_countToRanges. lia.
  - intros Hp. unfold Fake.countToRanges. rewrite (proj2 (Z.leb_le _ _)); [done|]. by eapply Hc.
Qed.

Lemma fake_inv_promote f id :
  fake_inv f → fake_inv (alter (λ nd, set_nFlags ["master"] (set_nMasterID "" nd)) id f).
Proof. intros Hf. apply fake_inv_alter; [done|]. intros n _ [? ? ? ?]. by constructor. Qed.

Lemma fake_inv_clear f : fake_inv f → fake_inv (set_nSlots [] <$> f).
Proof.
  intros Hf k n. rewrite lookup_fmap_Some. intros (n0 & <- & [? ? ? ?]%Hf). by constructor.
Qed.

Lemma fake_inv_clear_ids f ids :
  fake_inv f → fake_inv (fold_left (λ f id, alter (set_nSlots []) id f) ids f).
Proof.
  revert f. induction ids as [|id ids IH]; intros f Hf; [done|]. simpl. apply IH.
  apply fake_inv_alter; [done|]. intros n _ [? ? ? ?]. by constructor.
Qed.

Lemma SlotCount_replica f k n : fake_inv f → f !! k = Some n → IsPrimary n = false → SlotCount n = 0.
Proof. intros Hf [? ? ? Hr]%Hf Hp. by apply SlotCount_nil, Hr. Qed.

(** Clearing slots leaves the set of primaries alone. *)
Lemma clear_lookup (f : gmap string NodeInfo) (ids : list string) (k : string) n :
  fold_left (λ f id, alter (set_nSlots []) id f) ids (set_nSlots [] <$> f) !! k = Some n →
  ∃ n0, f !! k = Some n0 ∧ n = set_nSlots [] n0.
Proof.
  assert (∀ f0 : gmap string NodeInfo,
    (∀ k n, f0 !! k = Some n → ∃ n0, f !! k = Some n0 ∧ n = set_nSlots [] n0) →
    fold_left (λ f id, alter (set_nSlots []) id f) ids f0 !! k = Some n →
    ∃ n0, f !! k = Some n0 ∧ n = set_nSlots [] n0) as H.
  { induction ids as [|id ids IH]; intros f0 H0; simpl; [by apply H0|]. apply IH.
    intros k' n' [(<- & n1 & Hn1 & ->)|[_ Hn1]]%lookup_alter_Some; [|by apply H0].
    destruct (H0 _ _ Hn1) as (n0 & Hn0 & ->). eauto. }
  apply H. intros k' n'. rewrite lookup_fmap_Some. intros (n0 & <- & Hn0). eauto.
Qed.

Lemma fake_inv_Rebalance f seed opts f' r :
  Z.of_nat (size f) ≤ 2 ^ 44 → fake_inv f →
  Fake.Rebalance seed opts f = Some (r, f') → fake_inv f'.
Proof.
  intros Hsize Hf. unfold Fake.Rebalance, Fake.primaries. intros [= _ <-].
  destruct (Nat.eqb _ 0); [done|]. apply fake_inv_assignEven.
  - pose proof (length_keysWhere (λ p : string * NodeInfo, IsPrimary p.2 &&
      negb (bool_decide (p.1 ∈ (list_to_set (WeightZeroIDs opts) : gset string)))) f). lia.
  - by apply fake_inv_clear_ids, fake_inv_clear.
  - intros k n Hk (n0 & Hn0 & ->)%clear_lookup.
    apply elem_of_keysWhere in Hk as (n1 & Hn1 & HP). simplify_eq.
    apply andb_true_iff in HP as [HP _]. exact HP.
Qed.

Lemma fake_inv_Reshard f seed from to n f' r :
  Z.of_nat (size f) ≤ 2 ^ 44 → 0 ≤ n → fake_inv f →
  Fake.Reshard seed from to n f = Some (r, f') → fake_inv f'.
Proof.
  intros Hsize Hn Hf. unfold Fake.Reshard. intros [= _ <-].
  destruct (f !! to) as [tn|] eqn:Eto; [|done].
  pose proof (fake_inv_promote f to Hf) as Hf1.
  set (f1 := alter _ to f) in *.
  assert (size f1 = size f) as Hs1 by apply size_alter.
  assert (∀ n, f1 !! to = Some n → IsPrimary n = true) as Hto.
  { intros m. unfold f1. rewrite lookup_alter_eq, Eto. by intros [= <-]. }
  clearbody f1. destruct (negb _).
  - destruct (f1 !! from) as [fn|] eqn:Ef; [|done].
    set (moved := if SlotCount fn <? n then _ else _).
    assert (0 ≤ moved ≤ SlotCount fn).
    { subst moved. destruct (Hf1 _ _ Ef) as [_ _ ? _]. destruct (Z.ltb_spec (SlotCount fn) n); lia. }
    apply fake_inv_setCount; [apply fake_inv_setCount; [done|]|].
    + intros m Hm Hp. simplify_eq. rewrite (SlotCount_replica f1 from fn) in * by done. lia.
    + intros m Hm Hp. unfold Fake.setCount in Hm. apply lookup_alter_Some in Hm as [(-> & m0 & Hm0 & ->)|[_ Hm]].
      * apply Hto in Hm0. unfold IsPrimary in *. simpl in *. congruence.
      * apply Hto in Hm. congruence.
  - set (f2 := if _ =? 0 then _ else _).
    assert (fake_inv f2) as Hf2.
    { subst f2. destruct (_ =? 0); [|done]. apply fake_inv_alter; [done|].
      intros m Hm [? ? ? ?]. constructor; [done..|]. intros Hp. apply Hto in Hm.
      unfold IsPrimary in *. simpl in *. congruence. }
    assert (size f2 = size f1) as Hs2 by (subst f2; destruct (_ =? 0); [apply size_alter|done]).
    clearbody f2. apply fake_inv_assignEven.
    + pose proof (length_keysWhere (λ p : string * NodeInfo, IsPrimary p.2 && (0 <? SlotCount p.2)) f2). lia.
    + intros k m. rewrite lookup_fmap_Some. intros (m0 & <- & Hm0%Hf2).
      destruct (IsPrimary m0) eqn:E; [|done]. destruct Hm0. by constructor.
    + intros k m Hk. rewrite lookup_fmap_Some. intros (m0 & <- & Hm0).
      apply elem_of_keysWhere in Hk as (m1 & Hm1 & HP). simplify_eq.
      apply andb_true_iff in HP as [HP _]. simpl in HP. rewrite HP. exact HP.
Qed.

Lemma fake_inv_MoveSlots f seed from to n f' r :
  0 ≤ n → fake_inv f → Fake.MoveSlots seed from to n f = Some (r, f') → fake_inv f'.
Proof.
  intros Hn Hf. unfold Fake.MoveSlots.
  destruct (f !! from) as [fn|] eqn:Ef; [|by intros [= _ <-]].
  destruct (f !! to) as [tn|] eqn:Et; [|by intros [= _ <-]]. intros [= _ <-].
  set (moved := if SlotCount fn <? n then _ else _).
  assert (0 ≤ moved ≤ SlotCount fn).
  { subst moved. destruct (Hf _ _ Ef) as [_ _ ? _]. destruct (Z.ltb_spec (SlotCount fn) n); lia. }
  apply fake_inv_setCount; [apply fake_inv_promote, fake_inv_setCount; [done|]|].
  - intros m Hm Hp. simplify_eq. rewrite (SlotCount_replica f from fn) in * by done. lia.
  - intros m Hm Hp. apply lookup_alter_Some in Hm as [(_ & m0 & _ & ->)|[Hne _]]; [|congruence]. done.
Qed.

(** ** The fake as a transition system *)

(** One call of a [ClusterAdmin] method on the fake, with the arguments the
    reconciler can pass: slot ranges that are not inverted, a number of slots
    that is not negative, fewer than [2^44] nodes. *)
Inductive fake_step : gmap string NodeInfo → gmap string NodeInfo → Prop :=
| step_MyID ep f r f' : Fake.MyID ep f = Some (r, f') → fake_step f f'
| step_Meet from target f r f' : Fake.Meet from target f = Some (r, f') → fake_step f f'
| step_AddSlots ep rs f r f' :
    Forall (λ x, 0 ≤ rangeCount x) rs → Fake.AddSlots ep rs f = Some (r, f') → fake_step f f'
| step_Replicate ep id f r f' : Fake.Replicate ep id f = Some (r, f') → fake_step f f'
| step_Forget ep id f r f' : Fake.Forget ep id f = Some (r, f') → fake_step f f'
| step_Failover ep f r f' : Fake.Failover ep f = Some (r, f') → fake_step f f'
| step_Rebalance ep opts f r f' :
    Z.of_nat (size f) ≤ 2 ^ 44 → Fake.Rebalance ep opts f = Some (r, f') → fake_step f f'
| step_Reshard ep from to n f r f' :
    Z.of_nat (size f) ≤ 2 ^ 44 → 0 ≤ n → Fake.Reshard ep from to n f = Some (r, f') → fake_step f f'
| step_MoveSlots ep from to n f r f' :
    0 ≤ n → Fake.MoveSlots ep from to n f = Some (r, f') → fake_step f f'
| step_Fix ep f r f' :
    Z.of_nat (size f) ≤ 2 ^ 44 → Fake.Fix ep f = Some (r, f') → fake_step f f'.

Lemma fake_inv_Failover f ep f' r :
  fake_inv f → Fake.Failover ep f = Some (r, f') → fake_inv f'.
Proof.
  intros Hf. unfold Fake.Failover. intros [= _ <-].
  destruct (f !! epHost ep) as [rn|] eqn:Er; [|done].
  destruct (String.eqb_spec (nMasterID rn) "") as [|_]; [done|].
  destruct (f !! nMasterID rn) as [mn|] eqn:Em; [|done].
  set (rk := epHost ep) in *. set (mk := nMasterID rn) in *.
  assert (0 ≤ SlotCount mn) by apply (Hf mk mn Em).
  intros k n Hn. destruct (decide (k = mk)) as [->|Hmk].
  - assert (∃ n0, f !! mk = Some n0 ∧ nSlots n = [] ∧ nID n = nID n0 ∧ nHost n = nHost n0) as (n0 & Hn0 & Hs & Hi & Hh).
    { destruct (decide (rk = mk)) as [E|Hne].
      - rewrite !E, !lookup_alter_eq, Em in Hn. simplify_eq/=. eauto.
      - rewrite lookup_alter_eq, lookup_alter_ne, lookup_alter_eq, lookup_alter_ne,
          lookup_alter_eq, lookup_alter_ne, Em in Hn by done. simplify_eq/=. eauto. }
    destruct (Hf _ _ Hn0) as [? ? ? ?]. constructor; [congruence..| |done].
    by rewrite SlotCount_nil.
  - rewrite !(lookup_alter_ne _ _ mk) in Hn by done.
    destruct (decide (k = rk)) as [->|Hrk].
    + rewrite lookup_alter_eq, !(lookup_alter_ne _ _ mk), lookup_alter_eq, !(lookup_alter_ne _ _ mk),
        lookup_alter_eq, Er in Hn by done. simplify_eq/=. destruct (Hf _ _ Er) as [? ? ? ?].
      constructor; [done..| |done]. rewrite (SlotCount_ext _ mn); done.
    + rewrite !(lookup_alter_ne _ _ rk), !(lookup_alter_ne _ _ mk), !(lookup_alter_ne _ _ rk),
        !(lookup_alter_ne _ _ mk), !(lookup_alter_ne _ _ rk) in Hn by done. by apply Hf.
Qed.

Lemma fake_inv_step f f' : fake_inv f → fake_step f f' → fake_inv f'.
Proof.
  intros Hf Hs. destruct Hs as [ep f r f' E|fr tg f r f' E|ep rs f r f' Hrs E|ep id f r f' E|ep id f r f' E
    |ep f r f' E|ep opts f r f' Hsz E|ep fr to n f r f' Hsz Hn E|ep fr to n f r f' Hn E|ep f r f' Hsz E].
  - injection E as _ <-. by apply fake_inv_ensure.
  - injection E as _ <-. by do 2 apply fake_inv_ensure.
  - injection E as _ <-. apply fake_inv_alter; [by apply fake_inv_ensure|].
    intros n _ [? ? Hc ?]. constructor; [done..| |done].
    rewrite SlotCount_sum in *. simpl. rewrite map_app, sumZ_app.
    assert (0 ≤ sumZ (map rangeCount rs)); [|lia].
    apply sumZ_nonneg. intros z (x & -> & Hx)%list_elem_of_fmap. rewrite Forall_forall in Hrs. by apply Hrs.
  - injection E as _ <-. apply fake_inv_alter; [by apply fake_inv_ensure|].
    intros n _ [? ? Hc ?]. by constructor.
  - injection E as _ <-. by apply map_Forall_delete.
  - exact (fake_inv_Failover f ep f' r Hf E).
  - exact (fake_inv_Rebalance f ep opts f' r Hsz Hf E).
  - exact (fake_inv_Reshard f ep fr to n f' r Hsz Hn Hf E).
  - exact (fake_inv_MoveSlots f ep fr to n f' r Hn Hf E).
  - exact (fake_inv_Rebalance f ep (mkRebalanceOpts false []) f' r Hsz Hf E).
Qed.

(** C16: in every state the fake cluster can reach from [NewFake], each node is
    stored under its own ID, no slot count is negative, and only primaries
    hold slots: every method of the interface preserves the invariant, called
    with ranges that are not inverted, a number of slots that is not negative
    and at most [2^44] nodes. *)
Theorem fake_reachable_inv (f : gmap string NodeInfo) :
  rtc fake_step Fake.NewFake f → fake_inv f.
Proof.
  intros H. assert (fake_inv Fake.NewFake) as H0 by apply map_Forall_empty.
  revert H0. induction H as [|f1 f2 f3 Hs _ IH]; [done|]. intros H1.
  apply IH. by eapply fake_inv_step.
Qed.

Definition epA : Endpoint := mkEndpoint "a" 6379 "a" "ns".
Definition epB : Endpoint := mkEndpoint "b" 6379 "b" "ns".

Lemma fake_reachable_inv_witness :
  let f := <["b" := Fake.freshNode epB]> (<["a" := Fake.freshNode epA]> ∅) in
  rtc fake_step Fake.NewFake f ∧ fake_inv f.
Proof.
  intros f. assert (rtc fake_step Fake.NewFake f) as H.
  { eapply rtc_l; [|apply rtc_refl]. by eapply (step_Meet epA epB). }
  split; [exact H|]. exact (fake_reachable_inv f H).
Defined.

(** ** Moving slots *)

Lemma countAt_alter_ne f k k' g : k ≠ k' → Fake.countAt k' (alter g k f) = Fake.countAt k' f.
Proof. intros Hne. unfold Fake.countAt. by rewrite lookup_alter_ne. Qed.

Lemma countAt_setCount f k n c : f !! k = Some n → Fake.countAt k (Fake.setCount k c f) = Z.max 0 c.
Proof.
  intros Hn. unfold Fake.countAt, Fake.setCount. rewrite lookup_alter_eq, Hn. simpl.
  apply SlotCount_countToRanges.
Qed.

Lemma assigned_promote f k :
  Fake.assignedSlots (alter (λ nd, set_nFlags ["master"] (set_nMasterID "" nd)) k f) = Fake.assignedSlots f.
Proof.
  destruct (f !! k) as [n|] eqn:E.
  - rewrite (assigned_alter _ _ _ _ E).
    pose proof (SlotCount_ext (set_nFlags ["master"] (set_nMasterID "" n)) n eq_refl). lia.
  - f_equal. apply map_eq. intros k'. rewrite lookup_alter. case_decide; [|done]. subst. by rewrite E.
Qed.

Lemma assigned_setCount f k n c :
  f !! k = Some n → Fake.assignedSlots (Fake.setCount k c f) = Fake.assignedSlots f - SlotCount n + Z.max 0 c.
Proof. intros E. unfold Fake.setCount. by rewrite (assigned_alter _ _ _ _ E), SlotCount_countToRanges. Qed.

(** What [MoveSlots] does between two nodes that exist. *)
Lemma MoveSlots_effect f seed from to n fn tn :
  fake_inv f → 0 ≤ n → f !! from = Some fn → f !! to = Some tn →
  ∃ f', Fake.MoveSlots seed from to n f = Some ((Z.min n (SlotCount fn), None), f') ∧
        Fake.assignedSlots f' = Fake.assignedSlots f ∧
        (from ≠ to → Fake.countAt from f' = SlotCount fn - Z.min n (SlotCount fn) ∧
                     Fake.countAt to f' = SlotCount tn + Z.min n (SlotCount fn)) ∧
        (∀ k, k ≠ from → k ≠ to → f' !! k = f !! k) ∧
        dom f' = dom f ∧
        (∀ m, f' !! to = Some m → IsPrimary m = true).
Proof.
  intros Hf Hn Ef Et. unfold Fake.MoveSlots. rewrite Ef, Et.
  replace (if SlotCount fn <? n then SlotCount fn else n) with (Z.min n (SlotCount fn))
    by (destruct (Z.ltb_spec (SlotCount fn) n); lia).
  set (c := SlotCount fn). set (mv := Z.min n c).
  assert (0 ≤ c) by apply (Hf _ _ Ef). assert (0 ≤ SlotCount tn) by apply (Hf _ _ Et).
  set (f1 := Fake.setCount from (c - mv) f).
  set (f2 := alter (λ nd, set_nFlags ["master"] (set_nMasterID "" nd)) to f1).
  assert (∃ t2, f2 !! to = Some t2 ∧ SlotCount t2 = Fake.countAt to f1) as (t2 & Et2 & Ht2).
  { unfold f2, Fake.countAt. rewrite lookup_alter_eq. destruct (f1 !! to) as [t1|] eqn:E1.
    - simpl. eexists. split; [done|]. by apply SlotCount_ext.
    - exfalso. unfold f1, Fake.setCount in E1. rewrite lookup_alter_None in E1. congruence. }
  assert (Fake.countAt to f2 = SlotCount t2) as Hc2 by (unfold Fake.countAt; by rewrite Et2).
  assert (0 ≤ Fake.countAt to f1) as Hpos.
  { unfold f1. destruct (decide (from = to)) as [->|Hne].
    - rewrite (countAt_setCount _ _ fn) by done. lia.
    - unfold Fake.setCount. rewrite countAt_alter_ne by done. unfold Fake.countAt. by rewrite Et. }
  eexists. split; [reflexivity|]. repeat split.
  - rewrite (assigned_setCount _ _ _ _ Et2), Hc2. unfold f2. rewrite assigned_promote.
    unfold f1. rewrite (assigned_setCount _ _ _ _ Ef). fold c. lia.
  - unfold Fake.setCount. rewrite countAt_alter_ne by done. unfold f2. rewrite countAt_alter_ne by done.
    unfold f1. rewrite (countAt_setCount _ _ fn) by done. lia.
  - rewrite (countAt_setCount _ _ t2) by done. rewrite Hc2, Ht2. unfold f1, Fake.setCount.
    rewrite countAt_alter_ne by done. unfold Fake.countAt. rewrite Et. simpl. lia.
  - intros k Hk1 Hk2. unfold Fake.setCount, f2, f1, Fake.setCount. by rewrite !lookup_alter_ne.
  - unfold Fake.setCount, f2, f1, Fake.setCount. by rewrite !dom_alter_L.
  - intros m. unfold Fake.setCount. rewrite lookup_alter_eq, Et2. intros [= <-].
    unfold f2 in Et2. rewrite lookup_alter_eq in Et2. destruct (f1 !! to); simplify_eq/=. done.
Qed.

(** [MoveSlots] loses no slot: it moves exactly the smaller of the
    requested number and what the source holds, the cluster's total is
    unchanged, and no third node is touched. *)
Theorem fake_move_slots_conserves (f : gmap string NodeInfo) (seed : Endpoint) (from to : string) (n : Z) fn tn :
  fake_inv f → 0 ≤ n → from ≠ to → f !! from = Some fn → f !! to = Some tn →
  ∃ f', Fake.MoveSlots seed from to n f = Some ((Z.min n (SlotCount fn), None), f') ∧
        Fake.assignedSlots f' = Fake.assignedSlots f ∧
        Fake.countAt from f' = SlotCount fn - Z.min n (SlotCount fn) ∧
        Fake.countAt to f' = SlotCount tn + Z.min n (SlotCount fn) ∧
        (∀ k, k ≠ from → k ≠ to → f' !! k = f !! k).
Proof.
  intros Hf Hn Hne Ef Et. destruct (MoveSlots_effect f seed from to n fn tn Hf Hn Ef Et)
    as (f' & E & Ha & Hc & Hk & _). destruct (Hc Hne) as [? ?]. eauto 10.
Qed.

(** A primary with the whole keyspace, for the witnesses. *)
Definition fullNode (e : Endpoint) : NodeInfo := set_nSlots [mkRange 0 16383] (Fake.freshNode e).

Lemma fake_move_slots_conserves_witness :
  let f := <["b" := Fake.freshNode epB]> (<["a" := fullNode epA]> ∅) in
  ∃ f', Fake.MoveSlots epA "a" "b" 5000 f = Some ((5000, None), f') ∧
        Fake.assignedSlots f' = Fake.assignedSlots f ∧
        Fake.countAt "a" f' = 11384 ∧ Fake.countAt "b" f' = 5000 ∧
        (∀ k, k ≠ "a" → k ≠ "b" → f' !! k = f !! k).
Proof.
  apply (fake_move_slots_conserves _ epA "a" "b" 5000 (fullNode epA) (Fake.freshNode epB));
    [|lia|done|done|done].
  apply map_Forall_insert_2; [by constructor|]. apply map_Forall_insert_2; [|apply map_Forall_empty].
  constructor; [done..|vm_compute; discriminate|done].
Defined.

(** ** Even re-splits *)

Section AssignEven.
Context (k : Z).
Let give (f : gmap string NodeInfo) (p : Z * string) : gmap string NodeInfo :=
  alter (set_nSlots [mkRange (shardStart k p.1) (shardEnd k p.1)]) p.2 f.

Lemma give_other l f id : id ∉ l.*2 → fold_left give l f !! id = f !! id.
Proof.
  revert f. induction l as [|[i id'] l IH]; intros f Hid; [done|]. simpl in *.
  apply not_elem_of_cons in Hid as [Hne Hid]. rewrite IH by done.
  unfold give; simpl. by rewrite lookup_alter_ne.
Qed.

Lemma give_lookup l f i id :
  NoDup l.*2 → (i, id) ∈ l →
  fold_left give l f !! id = set_nSlots [mkRange (shardStart k i) (shardEnd k i)] <$> f !! id.
Proof.
  revert f. induction l as [|[j id'] l IH]; intros f Hnd Hin; [by apply not_elem_of_nil in Hin|].
  simpl in *. apply NoDup_cons in Hnd as [Hj Hnd]. apply elem_of_cons in Hin as [Heq|Hin].
  - simplify_eq. rewrite give_other by done. unfold give; simpl. by rewrite lookup_alter_eq.
  - rewrite IH by done. unfold give; simpl. rewrite lookup_alter_ne; [done|].
    intros ->. apply Hj, list_elem_of_fmap. by exists (i, id).
Qed.
End AssignEven.

Lemma assignEven_other f ids id : id ∉ ids → Fake.assignEven ids f !! id = f !! id.
Proof.
  intros Hid. unfold Fake.assignEven. apply (give_other (Z.of_nat (length ids))).
  rewrite snd_zip by (rewrite length_seqZ; lia). done.
Qed.

Lemma assignEven_lookup f ids i id :
  NoDup ids → ids !! i = Some id →
  Fake.assignEven ids f !! id =
    set_nSlots [mkRange (shardStart (Z.of_nat (length ids)) (Z.of_nat i))
                        (shardEnd (Z.of_nat (length ids)) (Z.of_nat i))] <$> f !! id.
Proof.
  intros Hnd Hi. unfold Fake.assignEven. apply (give_lookup (Z.of_nat (length ids))).
  - rewrite snd_zip by (rewrite length_seqZ; lia). done.
  - pose proof (lookup_lt_Some _ _ _ Hi). apply list_elem_of_lookup. exists i.
    rewrite lookup_zip_with, Hi, lookup_seqZ_lt by lia. simpl. f_equal.
Qed.

(** After an even split over [ids], which hold all the slots, the keyspace is
    covered. *)
Lemma assignEven_assigned f ids :
  ids ≠ [] → Z.of_nat (length ids) ≤ 2 ^ 44 → NoDup ids →
  (∀ id, id ∈ ids → is_Some (f !! id)) →
  (∀ id n, f !! id = Some n → id ∉ ids → SlotCount n = 0) →
  Fake.assignedSlots (Fake.assignEven ids f) = TotalSlots.
Proof.
  intros Hne Hlen Hnd Hin Hout. set (k := Z.of_nat (length ids)) in *.
  assert (0 < k) by (subst k; destruct ids; [done|simpl; lia]).
  rewrite (assigned_by_keys _ ids Hnd).
  - assert (Z.of_nat (length ids) = k) as Hk by done.
    assert (map (λ id, Fake.countAt id (Fake.assignEven ids f)) ids
            = map (λ i, splitAt k (i + 1) - splitAt k i) (seqZ 0 k)) as ->.
    { apply list_eq. intros i. rewrite !list_lookup_fmap.
      destruct (ids !! i) as [id|] eqn:Ei; simpl.
      - pose proof (lookup_lt_Some _ _ _ Ei). rewrite lookup_seqZ_lt by lia. simpl. f_equal.
        unfold Fake.countAt. rewrite (assignEven_lookup _ _ i) by done.
        destruct (Hin id) as [n ->]; [by apply list_elem_of_lookup; eauto|]. simpl.
        rewrite SlotCount_range. unfold rangeCount. simpl. fold k.
        rewrite shardStart_split, shardEnd_split, ?Z.add_0_l by lia. lia.
      - apply lookup_ge_None in Ei. symmetry. rewrite lookup_seqZ_ge by lia. done. }
    pose proof (sum_splits k (length ids)) as E. fold k in E. rewrite E.
    rewrite splitAt_n, splitAt_0 by done. lia.
  - intros id Hid. apply list_elem_of_lookup in Hid as Hid'. destruct Hid' as [i Hi].
    rewrite (assignEven_lookup _ _ i) by done. destruct (Hin id Hid) as [n ->]. simpl. eauto.
  - intros id n Hn Hid. rewrite assignEven_other in Hn by done. by eapply Hout.
Qed.

(** [Rebalance] covers the whole keyspace: when a primary is eligible, all
    16384 slots end up assigned, the drained nodes hold none, and the i-th
    eligible primary (in the order of IDs) holds the i-th share of
    [slots.Distribute]. *)
Theorem fake_rebalance_covers (f : gmap string NodeInfo) (seed : Endpoint) (opts : RebalanceOpts) :
  let targets := Fake.primaries (list_to_set (WeightZeroIDs opts)) f in
  Z.of_nat (size f) ≤ 2 ^ 44 → targets ≠ [] →
  ∃ f', Fake.Rebalance seed opts f = Some (Ok tt, f') ∧
        Fake.assignedSlots f' = TotalSlots ∧
        (∀ id, id ∈ WeightZeroIDs opts → Fake.countAt id f' = 0) ∧
        (∀ i id n, targets !! i = Some id → f' !! id = Some n →
           Distribute (Z.of_nat (length targets)) !! i = head (nSlots n)).
Proof.
  intros targets Hsize Hne. unfold Fake.Rebalance. fold targets.
  destruct (Nat.eqb_spec (length targets) 0) as [E|Hlen0]; [by destruct targets|].
  set (f0 := fold_left _ _ _).
  set (P := λ p : string * NodeInfo, IsPrimary p.2 &&
    negb (bool_decide (p.1 ∈ (list_to_set (WeightZeroIDs opts) : gset string)))).
  assert (Z.of_nat (length targets) ≤ 2 ^ 44) as Hlen.
  { pose proof (length_keysWhere P f) as Hl. unfold P in Hl. unfold targets, Fake.primaries. lia. }
  assert (NoDup targets) as Hnd by apply (NoDup_keysWhere P f).
  assert (∀ id, id ∈ targets → id ∉ WeightZeroIDs opts ∧ is_Some (f !! id)) as Ht.
  { intros id Hid. apply (elem_of_keysWhere P f) in Hid as (n & Hn & HP). split; [|eauto].
    unfold P in HP. apply andb_true_iff in HP as [_ HP]. simpl in HP.
    apply negb_true_iff, bool_decide_eq_false in HP. by rewrite elem_of_list_to_set in HP. }
  assert (∀ id n, f0 !! id = Some n → nSlots n = []) as Hclear.
  { intros id n (n0 & _ & ->)%clear_lookup. done. }
  assert (∀ id, id ∈ targets → is_Some (f0 !! id)) as Hdom.
  { intros id Hid. apply elem_of_dom. subst f0.
    assert (∀ ids (g : gmap string NodeInfo), dom (fold_left (λ f id, alter (set_nSlots []) id f) ids g) = dom g) as ->.
    { induction ids as [|id' ids IH]; intros g; [done|]. simpl. by rewrite IH, dom_alter_L. }
    rewrite dom_fmap_L. apply elem_of_dom. by apply Ht. }
  eexists. split; [reflexivity|]. repeat split.
  - apply assignEven_assigned; try done. intros id n Hn _. by apply SlotCount_nil, (Hclear id).
  - intros id Hid. unfold Fake.countAt. rewrite assignEven_other; [|intros H%Ht; by apply H].
    destruct (f0 !! id) as [n|] eqn:En; simpl; [by apply SlotCount_nil, (Hclear id)|done].
  - intros i id n Hi Hn. rewrite (assignEven_lookup _ _ i) in Hn by done.
    destruct (Hdom id) as [n0 Hn0]; [by apply list_elem_of_lookup; eauto|].
    rewrite Hn0 in Hn. simplify_eq/=. pose proof (lookup_lt_Some _ _ _ Hi).
    rewrite <- (Nat2Z.id i) at 1. rewrite Distribute_lookup by lia. simpl.
    by rewrite shardStart_split, shardEnd_split by lia.
Qed.

Lemma fake_rebalance_covers_witness :
  let f := <["b" := Fake.freshNode epB]> (<["a" := fullNode epA]> ∅) in
  let opts := mkRebalanceOpts true [] in
  Fake.primaries (list_to_set (WeightZeroIDs opts)) f = ["a"; "b"] ∧
  ∃ f', Fake.Rebalance epA opts f = Some (Ok tt, f') ∧
        Fake.assignedSlots f' = TotalSlots ∧
        (∀ id, id ∈ WeightZeroIDs opts → Fake.countAt id f' = 0) ∧
        (∀ i id n, Fake.primaries (list_to_set (WeightZeroIDs opts)) f !! i = Some id → f' !! id = Some n →
           Distribute (Z.of_nat (length (Fake.primaries (list_to_set (WeightZeroIDs opts)) f))) !! i = head (nSlots n)).
Proof.
  split; [vm_compute; reflexivity|].
  apply (fake_rebalance_covers (<["b" := Fake.freshNode epB]> (<["a" := fullNode epA]> ∅)) epA
    (mkRebalanceOpts true [])).
  - vm_compute. discriminate.
  - vm_compute. discriminate.
Defined.

(** A failover hands the replica exactly its master's slots and swaps the
    two roles: the slot total and every other node are unchanged. *)
Theorem fake_failover_swaps (f : gmap string NodeInfo) (replica : Endpoint) r m :
  f !! epHost replica = Some r → nMasterID r ≠ "" → nMasterID r ≠ epHost replica →
  f !! nMasterID r = Some m → nSlots r = [] →
  ∃ f' r' m', Fake.Failover replica f = Some (Ok tt, f') ∧
    f' !! epHost replica = Some r' ∧ f' !! nMasterID r = Some m' ∧
    nSlots r' = nSlots m ∧ IsPrimary r' = true ∧ nMasterID r' = "" ∧
    nSlots m' = [] ∧ nMasterID m' = nID r ∧ nFlags m' = ["slave"] ∧
    Fake.assignedSlots f' = Fake.assignedSlots f ∧
    (∀ k, k ≠ epHost replica → k ≠ nMasterID r → f' !! k = f !! k).
Proof.
  intros Er Hm Hne Em Hs. unfold Fake.Failover. rewrite Er.
  destruct (String.eqb_spec (nMasterID r) "") as [|_]; [done|]. rewrite Em.
  set (rk := epHost replica) in *. set (mk := nMasterID r) in *.
  set (f1 := alter (set_nSlots []) mk (alter (set_nSlots (nSlots m)) rk f)).
  set (f2 := alter (set_nMasterID (nID r)) mk (alter (set_nMasterID "") rk f1)).
  set (f3 := alter (set_nFlags ["slave"]) mk (alter (set_nFlags ["master"]) rk f2)).
  assert (f3 !! rk = Some (set_nFlags ["master"] (set_nMasterID "" (set_nSlots (nSlots m) r)))) as E3r.
  { unfold f3, f2, f1. by rewrite lookup_alter_ne, lookup_alter_eq, lookup_alter_ne, lookup_alter_eq,
      lookup_alter_ne, lookup_alter_eq, Er by done. }
  assert (f3 !! mk = Some (set_nFlags ["slave"] (set_nMasterID (nID r) (set_nSlots [] m)))) as E3m.
  { unfold f3, f2, f1. by rewrite lookup_alter_eq, lookup_alter_ne, lookup_alter_eq, lookup_alter_ne,
      lookup_alter_eq, lookup_alter_ne, Em by done. }
  assert (∀ k, k ≠ rk → k ≠ mk → f3 !! k = f !! k) as Hother.
  { intros k Hr Hk. unfold f3, f2, f1. by rewrite !lookup_alter_ne. }
  eexists f3, _, _. split; [reflexivity|]. split; [exact E3r|]. split; [exact E3m|].
  repeat split; [|exact Hother].
  rewrite (assigned_delete f3 rk _ E3r), (assigned_delete (delete rk f3) mk _ ltac:(by rewrite lookup_delete_ne)).
  rewrite (assigned_delete f rk _ Er), (assigned_delete (delete rk f) mk _ ltac:(by rewrite lookup_delete_ne)).
  rewrite (SlotCount_nil r Hs).
  assert (delete mk (delete rk f3) = delete mk (delete rk f)) as ->.
  { apply map_eq. intros k. rewrite !lookup_delete. repeat case_decide; try done. by apply Hother. }
  rewrite (SlotCount_ext (set_nFlags ["master"] _) m), (SlotCount_nil (set_nFlags ["slave"] _)) by done. lia.
Qed.

Lemma fake_failover_swaps_witness :
  let r := set_nFlags ["slave"] (set_nMasterID "a" (Fake.freshNode epB)) in
  let f := <["b" := r]> (<["a" := fullNode epA]> ∅) in
  ∃ f' r' m', Fake.Failover epB f = Some (Ok tt, f') ∧
    f' !! "b" = Some r' ∧ f' !! "a" = Some m' ∧
    nSlots r' = [mkRange 0 16383] ∧ IsPrimary r' = true ∧ nMasterID r' = "" ∧
    nSlots m' = [] ∧ nMasterID m' = "b" ∧ nFlags m' = ["slave"] ∧
    Fake.assignedSlots f' = Fake.assignedSlots f ∧
    (∀ k, k ≠ "b" → k ≠ "a" → f' !! k = f !! k).
Proof.
  apply (fake_failover_swaps (<["b" := set_nFlags ["slave"] (set_nMasterID "a" (Fake.freshNode epB))]>
    (<["a" := fullNode epA]> ∅)) epB (set_nFlags ["slave"] (set_nMasterID "a" (Fake.freshNode epB)))
    (fullNode epA)); done.
Defined.
