(* ===== verification/API.v ===== *)
(** * The custom resource and the Kubernetes objects

    Models [api/v1alpha1/valkeycluster_types.go] and the parts of the
    Kubernetes object types that the operator reads or writes.  A
    [resource.Quantity] is known by the two observations the operator makes
    of it, [Value()] and [IsZero()]; it is otherwise only copied.  Times are
    seconds; a zero time is [None]. *)

From S2P Require Import Prelude.
From Stdlib Require Import Ascii.
Local Open Scope string_scope.
Local Open Scope list_scope.
Local Open Scope Z_scope.

(** ** Kubernetes metadata *)

Record Quantity := mkQuantity { qValue : Z; qIsZero : bool }.

Record ObjectMeta := mkMeta {
  mName : string;
  mNamespace : string;
  mLabels : gmap string string;
  mFinalizers : list string;
  mOwners : list string;
  mGeneration : Z;
  mResourceVersion : string;
  mCreationTimestamp : option Z;
  mDeletionTimestamp : option Z
}.

(** [metav1.ObjectMeta{Name: name, Namespace: ns}] *)
Definition metaOf (name ns : string) : ObjectMeta :=
  mkMeta name ns ∅ [] [] 0 "" None None.
Definition set_mLabels (l : gmap string string) (m : ObjectMeta) : ObjectMeta :=
  mkMeta (mName m) (mNamespace m) l (mFinalizers m) (mOwners m) (mGeneration m)
    (mResourceVersion m) (mCreationTimestamp m) (mDeletionTimestamp m).

Record ResourceRequirements := mkResources {
  Limits : gmap string Quantity;
  Requests : gmap string Quantity
}.

Inductive ConditionStatus := ConditionTrue | ConditionFalse | ConditionUnknown.
#[export] Instance ConditionStatus_eq_dec : EqDecision ConditionStatus.
Proof. solve_decision. Defined.

Record Condition := mkCondition {
  cType : string;
  cStatus : ConditionStatus;
  cReason : string;
  cMessage : string;
  cObservedGeneration : Z;
  cLastTransitionTime : Z
}.

(** ** The spec

    The string-valued enumerations are kept as strings: the zero value, the
    empty string, is a value the code handles. *)

Record StorageSpec := mkStorage { Size : Quantity; StorageClassName : string }.

Definition AppendFsyncAlways := "always".
Definition AppendFsyncEverySec := "everysec".
Definition AppendFsyncNo := "no".

Definition PersistenceAOF := "AOF".
Definition PersistenceRDB := "RDB".
Definition PersistenceAOFAndRDB := "AOFAndRDB".
Definition PersistenceNone := "None".

Record PersistenceSpec := mkPersistence { Mode : string; AppendFsync : string }.

Record HAPolicy := mkHAPolicy {
  MinReplicasToWrite : Z;
  RequireFullCoverage : option bool;
  ClusterNodeTimeoutMillis : Z
}.

Record PerformanceSpec := mkPerformance { IOThreads : Z; MaxmemoryPolicy : string }.

Record ValkeyClusterSpec := mkSpec {
  Shards : Z;
  ReplicasPerShard : Z;
  Image : string;
  Storage : StorageSpec;
  Resources : ResourceRequirements;
  Persistence : PersistenceSpec;
  Performance : PerformanceSpec;
  HAPolicyOf : HAPolicy
}.

(** ** The status *)

Inductive ValkeyClusterPhase :=
| PhaseUnset
| PhasePending
| PhaseProvisioning
| PhaseForming
| PhaseReady
| PhaseResharding
| PhaseScalingReplicas
| PhaseDegraded
| PhaseFailed.
#[export] Instance ValkeyClusterPhase_eq_dec : EqDecision ValkeyClusterPhase.
Proof. solve_decision. Defined.

Definition ConditionAvailable := "Available".
Definition ConditionProgressing := "Progressing".
Definition ConditionDegraded := "Degraded".

Record ShardStatus := mkShardStatus {
  ssIndex : Z;
  ssPrimaryPod : string;
  ssPrimaryNodeID : string;
  ssSlots : string;
  ssReadyReplicas : Z;
  ssNodeIDs : list string
}.

Record ValkeyClusterStatus := mkStatus {
  stPhase : ValkeyClusterPhase;
  stObservedGeneration : Z;
  stReadyShards : Z;
  stShards : list ShardStatus;
  stConditions : list Condition
}.

Record ValkeyCluster := mkCluster {
  crMeta : ObjectMeta;
  crSpec : ValkeyClusterSpec;
  crStatus : ValkeyClusterStatus
}.

Definition crName (cr : ValkeyCluster) : string := mName (crMeta cr).
Definition crNamespace (cr : ValkeyCluster) : string := mNamespace (crMeta cr).
Definition crShards (cr : ValkeyCluster) : Z := Shards (crSpec cr).
Definition crReplicas (cr : ValkeyCluster) : Z := ReplicasPerShard (crSpec cr).

(** What the validation markers of the CRD enforce on the numbers and the
    enumerations of a spec (an empty string stands for the default). *)
Definition maxmemoryPolicies : list string :=
  ["noeviction"; "allkeys-lru"; "allkeys-lfu"; "allkeys-random";
   "volatile-lru"; "volatile-lfu"; "volatile-random"; "volatile-ttl"].

Record spec_valid (s : ValkeyClusterSpec) : Prop := {
  valid_shards : (Shards s = 1 ∨ 3 ≤ Shards s) ∧ Shards s ≤ 16;
  valid_replicas : 0 ≤ ReplicasPerShard s ≤ 5;
  valid_fsync : AppendFsync (Persistence s) = "" ∨
    AppendFsync (Persistence s) ∈ [AppendFsyncAlways; AppendFsyncEverySec; AppendFsyncNo];
  valid_mode : Mode (Persistence s) = "" ∨
    Mode (Persistence s) ∈ [PersistenceAOF; PersistenceRDB; PersistenceAOFAndRDB; PersistenceNone];
  valid_min_replicas : 0 ≤ MinReplicasToWrite (HAPolicyOf s) < 2 ^ 31;
  valid_timeout : ClusterNodeTimeoutMillis (HAPolicyOf s) = 0 ∨
    1000 ≤ ClusterNodeTimeoutMillis (HAPolicyOf s) < 2 ^ 31;
  valid_io_threads : 0 ≤ IOThreads (Performance s) ≤ 128;
  valid_policy : MaxmemoryPolicy (Performance s) = "" ∨
    MaxmemoryPolicy (Performance s) ∈ maxmemoryPolicies
}.

(** ** The schema of the status

    What the API server checks of a status that is written: integers have the
    width of their type, the two list maps ([+listType=map]) have no two entries
    with one key, and a condition is one that [metav1.Condition] allows.  Its
    reason matches [^[A-Za-z]([A-Za-z0-9_,:]*[A-Za-z0-9_])?$]. *)

Definition inRange (lo hi : nat) (c : ascii) : bool := Nat.leb lo (nat_of_ascii c) && Nat.leb (nat_of_ascii c) hi.
Definition isLetter (c : ascii) : bool := inRange 65 90 c || inRange 97 122 c.
Definition isReasonEnd (c : ascii) : bool := isLetter c || inRange 48 57 c || Ascii.eqb c "_".
Definition isReasonChar (c : ascii) : bool := isReasonEnd c || Ascii.eqb c "," || Ascii.eqb c ":".

Definition validReason (s : string) : bool :=
  match String.list_ascii_of_string s with
  | [] => false
  | c :: cs => isLetter c && forallb isReasonChar cs && match last cs with Some e => isReasonEnd e | None => true end
  end.

Record condition_valid (c : Condition) : Prop := {
  valid_type : (0 < String.length (cType c) ≤ 316)%nat;
  valid_reason : validReason (cReason c) = true ∧ (String.length (cReason c) ≤ 1024)%nat;
  valid_message : Z.of_nat (String.length (cMessage c)) ≤ 32768;
  valid_generation : 0 ≤ cObservedGeneration c
}.

Record status_valid (s : ValkeyClusterStatus) : Prop := {
  valid_ready : in_int32 (stReadyShards s);
  valid_shard_keys : NoDup (map ssIndex (stShards s));
  valid_shard_ints : Forall (λ sh, in_int32 (ssIndex sh) ∧ in_int32 (ssReadyReplicas sh)) (stShards s);
  valid_condition_keys : NoDup (map cType (stConditions s));
  valid_conditions : Forall condition_valid (stConditions s)
}.

(** ** The workload objects the operator owns *)

Record ServicePort := mkServicePort { spName : string; spPort : Z; spTargetPort : Z }.

Record Service := mkService {
  svcMeta : ObjectMeta;
  svcClusterIP : string;
  svcPublishNotReady : bool;
  svcSelector : gmap string string;
  svcPorts : list ServicePort
}.

Record ConfigMapObj := mkConfigMap { cmMeta : ObjectMeta; cmData : gmap string string }.

Record PodAffinityTerm := mkAffinityTerm {
  paWeight : Z; paTopologyKey : string; paMatchLabels : gmap string string }.

(** The value of an environment variable: a literal or a downward-API field. *)
Inductive EnvValue := EnvLiteral (v : string) | EnvField (path : string).

Record Probe := mkProbe {
  prCommand : list string; prInitialDelay : Z; prPeriod : Z; prFailureThreshold : Z }.

Record Container := mkContainer {
  ctName : string;
  ctImage : string;
  ctCommand : list string;
  ctResources : ResourceRequirements;
  ctPorts : list (string * Z);
  ctEnv : list (string * EnvValue);
  ctMounts : list (string * string);
  ctReadiness : Probe
}.

Record PodTemplate := mkTemplate {
  ptLabels : gmap string string;
  ptAnnotations : gmap string string;
  ptAntiAffinity : list PodAffinityTerm;
  ptContainers : list Container;
  ptConfigMapVolumes : list (string * string)
}.

Record VolumeClaim := mkClaim {
  vcName : string;
  vcAccessModes : list string;
  vcRequests : gmap string Quantity;
  vcStorageClass : option string
}.

Record StatefulSetObj := mkStatefulSet {
  stsMeta : ObjectMeta;
  stsServiceName : string;
  stsReplicas : Z;
  stsPodManagement : string;
  stsSelector : gmap string string;
  stsTemplate : PodTemplate;
  stsClaims : list VolumeClaim;
  stsReadyReplicas : Z
}.
