(* ===== verification/DeepCopy.v ===== *)
(** * Deep copies of the custom resource

    Models [api/v1alpha1/zz_generated.deepcopy.go] on an explicit heap: a
    struct holds pointers and slice headers, [new] and [make] take a fresh
    location, and an assignment through a pointer changes a cell that others
    may share.  [*out = *in] overwrites every field of [out], so a
    [DeepCopyInto] is a computation from the value read at [in] to the value
    written at [out]; an inner call [in.F.DeepCopyInto(&out.F)] gives the new
    value of field [F].  A computation has no result when Go panics (a
    dangling location or an index out of range).  The library types
    ([ObjectMeta], [ListMeta], [ResourceRequirements], [Quantity],
    [Condition]) are not part of the repository: class [GoLib]. *)

From S2P Require Import Prelude API.
Local Open Scope string_scope.
Local Open Scope list_scope.

(** ** Memory *)

Definition loc := positive.

(** A slice header over an array; a nil slice is [None]. *)
Record slice := mkSlice { slArr : loc; slOff : nat; slLen : nat }.
Definition gslice (A : Type) : Type := option slice.

(** The library types, their zero values and what else their pointers reach. *)
Class GoLib := {
  gObjectMeta : Type; zeroObjectMeta : gObjectMeta;
  gListMeta : Type; zeroListMeta : gListMeta;
  gResources : Type; zeroResources : gResources;
  gQuantity : Type; zeroQuantity : gQuantity;
  gCondition : Type; zeroCondition : gCondition;
  gOther : Type
}.

Section Memory.
Context {L : GoLib}.

Record TypeMeta := mkTypeMeta { tmKind : string; tmAPIVersion : string }.

Record gHAPolicy := mkGHAPolicy {
  gMinReplicasToWrite : Z; gRequireFullCoverage : option loc; gClusterNodeTimeoutMillis : Z }.
Record gStorageSpec := mkGStorage { gSize : gQuantity; gStorageClassName : string }.
Record gSpec := mkGSpec {
  gShardsOf : Z; gReplicasPerShard : Z; gImage : string; gStorage : gStorageSpec; gResourcesOf : gResources;
  gPersistence : PersistenceSpec; gPerformance : PerformanceSpec; gHAPolicyOf : gHAPolicy }.
Record gShardStatus := mkGShardStatus {
  gsIndex : Z; gsPrimaryPod : string; gsPrimaryNodeID : string; gsSlots : string; gsReadyReplicas : Z;
  gsNodeIDs : gslice string }.
Record gStatus := mkGStatus {
  gPhase : ValkeyClusterPhase; gObservedGeneration : Z; gReadyShards : Z;
  gShards : gslice gShardStatus; gConditions : gslice gCondition }.
Record gCluster := mkGCluster { gTypeMeta : TypeMeta; gMeta : gObjectMeta; gSpecOf : gSpec; gStatusOf : gStatus }.
Record gList := mkGList { glTypeMeta : TypeMeta; glListMeta : gListMeta; glItems : gslice gCluster }.

Definition zeroHAPolicy : gHAPolicy := mkGHAPolicy 0 None 0.
Definition zeroPerformance : PerformanceSpec := mkPerformance 0 "".
Definition zeroPersistence : PersistenceSpec := mkPersistence "" "".
Definition zeroStorage : gStorageSpec := mkGStorage zeroQuantity "".
Definition zeroSpec : gSpec := mkGSpec 0 0 "" zeroStorage zeroResources zeroPersistence zeroPerformance zeroHAPolicy.
Definition zeroShardStatus : gShardStatus := mkGShardStatus 0 "" "" "" 0 None.
Definition zeroStatus : gStatus := mkGStatus PhaseUnset 0 0 None None.
Definition zeroCluster : gCluster := mkGCluster (mkTypeMeta "" "") zeroObjectMeta zeroSpec zeroStatus.
Definition zeroList : gList := mkGList (mkTypeMeta "" "") zeroListMeta None.

(** What a location holds: a variable of a struct type, an array, or memory of
    the libraries. *)
Inductive cell :=
| CBool (b : bool)
| CStrings (l : list string)
| CShards (l : list gShardStatus)
| CConditions (l : list gCondition)
| CItems (l : list gCluster)
| CHAPolicy (x : gHAPolicy)
| CPerformance (x : PerformanceSpec)
| CPersistence (x : PersistenceSpec)
| CShardStatus (x : gShardStatus)
| CStorage (x : gStorageSpec)
| CCluster (x : gCluster)
| CList (x : gList)
| CSpec (x : gSpec)
| CStatus (x : gStatus)
| COther (x : gOther).

Local Abbreviation heap := (gmap loc cell).

(** How a type lives in a cell, with the value [new] starts it with. *)
Class Boxed (A : Type) := {
  box : A → cell;
  unbox : cell → option A;
  zero : A;
  unbox_box a : unbox (box a) = Some a
}.

Definition alloc (c : cell) : M heap loc := λ h, let l := fresh (dom h) in Some (l, <[l := c]> h).
Definition load {A} `{!Boxed A} (l : loc) : M heap A :=
  λ h, match h !! l ≫= unbox with Some a => Some (a, h) | None => None end.
Definition store {A} `{!Boxed A} (l : loc) (a : A) : M heap unit :=
  λ h, match h !! l with Some _ => Some (tt, <[l := box a]> h) | None => None end.

#[export, refine] Instance Boxed_bool : Boxed bool :=
  {| box := CBool; unbox c := match c with CBool b => Some b | _ => None end; zero := false |}.
Proof. done. Defined.
#[export, refine] Instance Boxed_strings : Boxed (list string) :=
  {| box := CStrings; unbox c := match c with CStrings l => Some l | _ => None end; zero := [] |}.
Proof. done. Defined.
#[export, refine] Instance Boxed_shards : Boxed (list gShardStatus) :=
  {| box := CShards; unbox c := match c with CShards l => Some l | _ => None end; zero := [] |}.
Proof. done. Defined.
#[export, refine] Instance Boxed_conditions : Boxed (list gCondition) :=
  {| box := CConditions; unbox c := match c with CConditions l => Some l | _ => None end; zero := [] |}.
Proof. done. Defined.
#[export, refine] Instance Boxed_items : Boxed (list gCluster) :=
  {| box := CItems; unbox c := match c with CItems l => Some l | _ => None end; zero := [] |}.
Proof. done. Defined.
#[export, refine] Instance Boxed_HAPolicy : Boxed gHAPolicy :=
  {| box := CHAPolicy; unbox c := match c with CHAPolicy x => Some x | _ => None end; zero := zeroHAPolicy |}.
Proof. done. Defined.
#[export, refine] Instance Boxed_Performance : Boxed PerformanceSpec :=
  {| box := CPerformance; unbox c := match c with CPerformance x => Some x | _ => None end; zero := zeroPerformance |}.
Proof. done. Defined.
#[export, refine] Instance Boxed_Persistence : Boxed PersistenceSpec :=
  {| box := CPersistence; unbox c := match c with CPersistence x => Some x | _ => None end; zero := zeroPersistence |}.
Proof. done. Defined.
#[export, refine] Instance Boxed_ShardStatus : Boxed gShardStatus :=
  {| box := CShardStatus; unbox c := match c with CShardStatus x => Some x | _ => None end; zero := zeroShardStatus |}.
Proof. done. Defined.
#[export, refine] Instance Boxed_Storage : Boxed gStorageSpec :=
  {| box := CStorage; unbox c := match c with CStorage x => Some x | _ => None end; zero := zeroStorage |}.
Proof. done. Defined.
#[export, refine] Instance Boxed_Cluster : Boxed gCluster :=
  {| box := CCluster; unbox c := match c with CCluster x => Some x | _ => None end; zero := zeroCluster |}.
Proof. done. Defined.
#[export, refine] Instance Boxed_List : Boxed gList :=
  {| box := CList; unbox c := match c with CList x => Some x | _ => None end; zero := zeroList |}.
Proof. done. Defined.
#[export, refine] Instance Boxed_Spec : Boxed gSpec :=
  {| box := CSpec; unbox c := match c with CSpec x => Some x | _ => None end; zero := zeroSpec |}.
Proof. done. Defined.
#[export, refine] Instance Boxed_Status : Boxed gStatus :=
  {| box := CStatus; unbox c := match c with CStatus x => Some x | _ => None end; zero := zeroStatus |}.
Proof. done. Defined.

(** ** Slices *)

(** [make([]A, n)] *)
Definition makeSlice {A} `{!Boxed (list A)} (z : A) (n : nat) : M heap slice :=
  arr <- alloc (box (replicate n z)) ;; ret (mkSlice arr 0 n).

(** [s[i]] and [s[i] = v] *)
Definition getElem {A} `{!Boxed (list A)} (s : slice) (i : nat) : M heap A :=
  l <- load (slArr s) ;;
  match (if decide (i < slLen s) then l !! (slOff s + i) else None)%nat with
  | Some a => ret a
  | None => λ _, None
  end.
Definition setElem {A} `{!Boxed (list A)} (s : slice) (i : nat) (a : A) : M heap unit :=
  l <- load (A := list A) (slArr s) ;;
  if decide (i < slLen s ∧ slOff s + i < length l)%nat then store (slArr s) (<[(slOff s + i)%nat := a]> l)
  else λ _, None.

(** The loop over the indexes of the source that copies each element into the
    element of the new slice at the same index. *)
Definition copyElems {A} `{!Boxed (list A)} (into : A → M heap A) (src dst : slice) : M heap unit :=
  forM (seq 0 (slLen src)) (λ i, x <- getElem src i ;; y <- into x ;; setElem dst i y).

(** A nil slice stays nil; otherwise [make] with the same length and the loop.
    The builtin [copy] on strings is the loop with plain assignment. *)
Definition copySlice {A} `{!Boxed (list A)} (z : A) (into : A → M heap A) (s : gslice A) :
    M heap (gslice A) :=
  match s with
  | None => ret None
  | Some src => dst <- makeSlice z (slLen src) ;; _ <- copyElems into src dst ;; ret (Some dst)
  end.
End Memory.

Arguments cell L : clear implicits.
Abbreviation heap L := (gmap loc (cell L)).

(** ** The generated functions *)

(** The deep copies of the library types. *)
Class LibCopy {L : GoLib} := {
  ObjectMeta_DeepCopyInto : gObjectMeta → M (heap L) gObjectMeta;
  ListMeta_DeepCopyInto : gListMeta → M (heap L) gListMeta;
  ResourceRequirements_DeepCopyInto : gResources → M (heap L) gResources;
  Quantity_DeepCopy : gQuantity → M (heap L) gQuantity;
  Condition_DeepCopyInto : gCondition → M (heap L) gCondition
}.

Section Generated.
Context {L : GoLib} `{!LibCopy}.

(** [if in == nil { return nil }; out := new(T); in.DeepCopyInto(out); return out] *)
Definition deepCopyOf {A} `{!Boxed A} (into : A → M (heap L) A) (p : option loc) : M (heap L) (option loc) :=
  match p with
  | None => ret None
  | Some p =>
      out <- alloc (box zero) ;;
      x <- load p ;;
      y <- into x ;;
      _ <- store out y ;;
      ret (Some out)
  end.

Definition HAPolicy_DeepCopyInto (x : gHAPolicy) : M (heap L) gHAPolicy :=
  match gRequireFullCoverage x with
  | None => ret x
  | Some p =>
      q <- alloc (box false) ;;
      b <- load (A := bool) p ;;
      _ <- store q b ;;
      ret (mkGHAPolicy (gMinReplicasToWrite x) (Some q) (gClusterNodeTimeoutMillis x))
  end.
Definition HAPolicy_DeepCopy := deepCopyOf HAPolicy_DeepCopyInto.

Definition PerformanceSpec_DeepCopyInto (x : PerformanceSpec) : M (heap L) PerformanceSpec := ret x.
Definition PerformanceSpec_DeepCopy := deepCopyOf PerformanceSpec_DeepCopyInto.

Definition PersistenceSpec_DeepCopyInto (x : PersistenceSpec) : M (heap L) PersistenceSpec := ret x.
Definition PersistenceSpec_DeepCopy := deepCopyOf PersistenceSpec_DeepCopyInto.

Definition ShardStatus_DeepCopyInto (x : gShardStatus) : M (heap L) gShardStatus :=
  ids <- copySlice "" ret (gsNodeIDs x) ;;
  ret (mkGShardStatus (gsIndex x) (gsPrimaryPod x) (gsPrimaryNodeID x) (gsSlots x) (gsReadyReplicas x) ids).
Definition ShardStatus_DeepCopy := deepCopyOf ShardStatus_DeepCopyInto.

Definition StorageSpec_DeepCopyInto (x : gStorageSpec) : M (heap L) gStorageSpec :=
  size <- Quantity_DeepCopy (gSize x) ;;
  ret (mkGStorage size (gStorageClassName x)).
Definition StorageSpec_DeepCopy := deepCopyOf StorageSpec_DeepCopyInto.

Definition ValkeyClusterSpec_DeepCopyInto (x : gSpec) : M (heap L) gSpec :=
  storage <- StorageSpec_DeepCopyInto (gStorage x) ;;
  resources <- ResourceRequirements_DeepCopyInto (gResourcesOf x) ;;
  ha <- HAPolicy_DeepCopyInto (gHAPolicyOf x) ;;
  ret (mkGSpec (gShardsOf x) (gReplicasPerShard x) (gImage x) storage resources
         (gPersistence x) (gPerformance x) ha).
Definition ValkeyClusterSpec_DeepCopy := deepCopyOf ValkeyClusterSpec_DeepCopyInto.

Definition ValkeyClusterStatus_DeepCopyInto (x : gStatus) : M (heap L) gStatus :=
  shards <- copySlice zeroShardStatus ShardStatus_DeepCopyInto (gShards x) ;;
  conditions <- copySlice zeroCondition Condition_DeepCopyInto (gConditions x) ;;
  ret (mkGStatus (gPhase x) (gObservedGeneration x) (gReadyShards x) shards conditions).
Definition ValkeyClusterStatus_DeepCopy := deepCopyOf ValkeyClusterStatus_DeepCopyInto.

Definition ValkeyCluster_DeepCopyInto (x : gCluster) : M (heap L) gCluster :=
  meta <- ObjectMeta_DeepCopyInto (gMeta x) ;;
  spec <- ValkeyClusterSpec_DeepCopyInto (gSpecOf x) ;;
  status <- ValkeyClusterStatus_DeepCopyInto (gStatusOf x) ;;
  ret (mkGCluster (gTypeMeta x) meta spec status).
Definition ValkeyCluster_DeepCopy := deepCopyOf ValkeyCluster_DeepCopyInto.

Definition ValkeyClusterList_DeepCopyInto (x : gList) : M (heap L) gList :=
  meta <- ListMeta_DeepCopyInto (glListMeta x) ;;
  items <- copySlice zeroCluster ValkeyCluster_DeepCopyInto (glItems x) ;;
  ret (mkGList (glTypeMeta x) meta items).
Definition ValkeyClusterList_DeepCopy := deepCopyOf ValkeyClusterList_DeepCopyInto.

(** A [runtime.Object]: the nil interface, or a pointer with its type. *)
Inductive runtimeObject := NilObject | ClusterObject (p : loc) | ListObject (p : loc).

Definition ValkeyCluster_DeepCopyObject (p : option loc) : M (heap L) runtimeObject :=
  c <- ValkeyCluster_DeepCopy p ;;
  ret match c with Some c => ClusterObject c | None => NilObject end.
Definition ValkeyClusterList_DeepCopyObject (p : option loc) : M (heap L) runtimeObject :=
  c <- ValkeyClusterList_DeepCopy p ;;
  ret match c with Some c => ListObject c | None => NilObject end.
End Generated.

(** ** What a value means

    [denote h x] reads [x] to the end in [h]; it is [None] if a location is
    dangling or holds the wrong type.  [footprint h x] is the set of the
    locations that reading visits. *)

Class Value (L : GoLib) (A V : Type) := {
  denote : heap L → A → option V;
  footprint : heap L → A → gset loc
}.

Class ValueLaws (L : GoLib) (A V : Type) `{!Value L A V} := {
  (** reading depends on the footprint only *)
  denote_frame (h h' : heap L) (x : A) : (∀ l, l ∈ footprint h x → h' !! l = h !! l) →
    denote h' x = denote h x ∧ footprint h' x = footprint h x;
  footprint_dom (h : heap L) (x : A) v : denote h x = Some v → footprint h x ⊆ dom h
}.

(** A copy reads as the same value, is made of new memory only, and leaves the
    old memory as it was. *)
Definition deepCopies {L A V} `{!Value L A V} (into : A → M (heap L) A) : Prop :=
  ∀ h x v, denote h x = Some v →
    wp (into x) (λ y h', h ⊆ h' ∧ denote h' y = Some v ∧ footprint h' y ## dom h) h.

Section Values.
Context {L : GoLib}.
Implicit Types h : heap L.

Lemma denote_mono {A V} `{!Value L A V, !ValueLaws L A V} h h' (x : A) v :
  h ⊆ h' → denote h x = Some v → denote h' x = Some v ∧ footprint h' x = footprint h x.
Proof.
  intros Hh Hv. destruct (denote_frame h h' x) as [-> ->]; [|done]. intros l Hl.
  apply (footprint_dom _ _ _ Hv), elem_of_dom in Hl as [c Hc]. rewrite Hc. by eapply lookup_weaken.
Qed.

(** A type without pointers. *)
Definition plainValue {A} : Value L A A := {| denote _ x := Some x; footprint _ _ := ∅ |}.
Lemma plain_laws {A} : ValueLaws L A A (Value0 := plainValue).
Proof. split; [done|]. intros h x v _. apply empty_subseteq. Qed.
Lemma plain_copies {A} : deepCopies (Value0 := plainValue) (λ x : A, ret x : M (heap L) A).
Proof. intros h x v [= <-]. apply wp_ret. split_and!; [done..|]. apply disjoint_empty_l. Qed.

(** *** Slices *)

Section Slices.
Context {A V : Type} `{!Boxed (L := L) (list A)} `{!Value L A V} `{!ValueLaws L A V}.

Definition elemsOf h (s : slice) : option (list A) :=
  l ← h !! slArr s ≫= unbox;
  if decide (slOff s + slLen s ≤ length l)%nat then Some (take (slLen s) (drop (slOff s) l)) else None.
Definition denoteAll h (xs : list A) : option (list V) := mapM (denote h) xs.
Definition footprintAll h (xs : list A) : gset loc := ⋃ (footprint h <$> xs).

Lemma denoteAll_cons h x xs :
  denoteAll h (x :: xs) = v ← denote h x; vs ← denoteAll h xs; Some (v :: vs).
Proof. done. Qed.
Lemma footprintAll_cons h x xs : footprintAll h (x :: xs) = footprint h x ∪ footprintAll h xs.
Proof. done. Qed.

Lemma elemsOf_Some h s xs : elemsOf h s = Some xs → ∃ l : list A, h !! slArr s ≫= unbox = Some l ∧
  (slOff s + slLen s ≤ length l)%nat ∧ xs = take (slLen s) (drop (slOff s) l).
Proof. intros (l & E & Hx)%bind_Some. case_decide; simplify_eq. eauto. Qed.

#[export] Instance slice_Value : Value L (gslice A) (list V) := {|
  denote h s := match s with Some s => xs ← elemsOf h s; denoteAll h xs | None => Some [] end;
  footprint h s := match s with
    | Some s => {[ slArr s ]} ∪ match elemsOf h s with Some xs => footprintAll h xs | None => ∅ end
    | None => ∅ end |}.

Lemma all_frame h h' xs : (∀ l, l ∈ footprintAll h xs → h' !! l = h !! l) →
  denoteAll h' xs = denoteAll h xs ∧ footprintAll h' xs = footprintAll h xs.
Proof.
  induction xs as [|x xs IH]; intros Hl; [done|]. rewrite footprintAll_cons in Hl.
  rewrite !denoteAll_cons, !footprintAll_cons.
  destruct IH as [-> ->]; [set_solver|]. destruct (denote_frame h h' x) as [-> ->]; [set_solver|done].
Qed.

Lemma all_dom h xs vs : denoteAll h xs = Some vs → footprintAll h xs ⊆ dom h.
Proof.
  revert vs. induction xs as [|x xs IH]; intros vs; [intros _; apply empty_subseteq|]. rewrite denoteAll_cons, footprintAll_cons.
  intros (v & Hx & (vs' & Hxs & _)%bind_Some)%bind_Some. apply footprint_dom in Hx. specialize (IH _ Hxs). set_solver.
Qed.

#[export] Instance slice_laws : ValueLaws L (gslice A) (list V).
Proof.
  split.
  - intros h h' [s|]; simpl; [|done]. intros Hl.
    assert (elemsOf h' s = elemsOf h s) as -> by (unfold elemsOf; by rewrite Hl by set_solver).
    destruct (elemsOf h s) as [xs|]; simpl; [|done].
    destruct (all_frame h h' xs) as [-> ->]; [set_solver|done].
  - intros h [s|] v; simpl; [|set_solver]. intros (xs & Hs & Hv)%bind_Some. rewrite Hs.
    apply all_dom in Hv. apply bind_Some in Hs as (l & (c & Hc & _)%bind_Some & _).
    apply elem_of_dom_2 in Hc. set_solver.
Qed.

Lemma all_mono h h' xs vs : h ⊆ h' → denoteAll h xs = Some vs →
  denoteAll h' xs = Some vs ∧ footprintAll h' xs = footprintAll h xs.
Proof.
  intros Hh Hv. destruct (all_frame h h' xs) as [-> ->]; [|done]. intros l Hl.
  apply (all_dom _ _ _ Hv), elem_of_dom in Hl as [c Hc]. rewrite Hc. by eapply lookup_weaken.
Qed.

Lemma all_snoc h xs x vs v : denoteAll h xs = Some vs → denote h x = Some v →
  denoteAll h (xs ++ [x]) = Some (vs ++ [v]).
Proof.
  intros Hxs Hx. apply mapM_Some. apply mapM_Some in Hxs. apply Forall2_app; [done|]. by repeat constructor.
Qed.

Lemma footprintAll_snoc h xs x : footprintAll h (xs ++ [x]) = footprintAll h xs ∪ footprint h x.
Proof.
  induction xs as [|x' xs IH]; simpl; [rewrite footprintAll_cons; set_solver|].
  rewrite !footprintAll_cons, IH. set_solver.
Qed.

(** *** Copying a slice *)

Lemma wp_alloc c Q h : (∀ l, h !! l = None → Q l (<[l := c]> h)) → wp (alloc c) Q h.
Proof.
  intros HQ. exists (fresh (dom h)), (<[fresh (dom h) := c]> h). split; [done|]. apply HQ.
  apply not_elem_of_dom, is_fresh.
Qed.

Lemma wp_load {B} `{!Boxed (L := L) B} l b (Q : B → heap L → Prop) h :
  h !! l ≫= unbox = Some b → Q b h → wp (load l) Q h.
Proof. intros E HQ. exists b, h. unfold load. by rewrite E. Qed.

Lemma wp_store {B} `{!Boxed (L := L) B} l (b : B) (Q : unit → heap L → Prop) h :
  is_Some (h !! l) → Q tt (<[l := box b]> h) → wp (store l b) Q h.
Proof. intros [c E] HQ. exists tt, (<[l := box b]> h). unfold store. by rewrite E. Qed.

(** [*out = new(B); **out = **in] *)
Lemma wp_copy_cell {B C} `{!Boxed (L := L) B} (b0 b : B) p (k : loc → M (heap L) C) Q h :
  h !! p ≫= unbox = Some b → (∀ q, h !! q = None → wp (k q) Q (<[q := box b]> h)) →
  wp (q <- alloc (box b0) ;; x <- load (A := B) p ;; _ <- store q x ;; k q) Q h.
Proof.
  intros Hb Hk. apply wp_bind, wp_alloc. intros q Hq.
  assert (q ≠ p) as Hne by (intros ->; by rewrite Hq in Hb). apply wp_bind.
  eapply (wp_load p b); [by rewrite lookup_insert_ne|]. apply wp_bind, wp_store; [rewrite lookup_insert_eq; eauto|].
  rewrite insert_insert_eq. by apply Hk.
Qed.

Lemma getElem_elemsOf h s xs i x : elemsOf h s = Some xs → xs !! i = Some x →
  getElem s i h = Some (x, h).
Proof.
  intros (l & E & _ & ->)%elemsOf_Some Hi. apply lookup_take_Some in Hi as [Hi Hlt]. rewrite lookup_drop in Hi.
  unfold getElem, bind, load. rewrite E. rewrite decide_True by done. by rewrite Hi.
Qed.

Section Copying.
Context (z : A) (into : A → M (heap L) A) (Hinto : deepCopies into).
Context (h : heap L) (src : slice) (xs : list A) (vs : list V) (o : loc).
Context (Hsrc : elemsOf h src = Some xs) (Hvs : denoteAll h xs = Some vs) (Ho : h !! o = None).

Definition copying (i : nat) (h' : heap L) : Prop := ∃ ys,
  h ⊆ h' ∧ h' !! o = Some (box (ys ++ replicate (slLen src - i) z)) ∧ length ys = i ∧
  denoteAll h' ys = Some (take i vs) ∧ footprintAll h' ys ## {[ o ]} ∪ dom h.

Lemma elems_length : length xs = slLen src ∧ length vs = slLen src.
Proof.
  pose proof Hsrc as (l & _ & Hle & ->)%elemsOf_Some. pose proof (length_mapM _ _ _ Hvs) as Hl.
  rewrite length_take, length_drop in Hl. rewrite length_take, length_drop. lia.
Qed.

Lemma copy_step i h' : (i < slLen src)%nat → copying i h' →
  wp (x <- getElem src i ;; y <- into x ;; setElem (mkSlice o 0 (slLen src)) i y) (λ _, copying (S i)) h'.
Proof.
  intros Hi (ys & Hh & Hcell & Hlen & Hys & Hfp). destruct elems_length as [Hxl Hvl].
  destruct (lookup_lt_is_Some_2 xs i) as [x Hx]; [lia|].
  destruct (Forall2_lookup_l _ _ _ _ _ (proj1 (mapM_Some _ _ _) Hvs) Hx) as (v & Hv & Hdx).
  assert (elemsOf h' src = Some xs) as Hsrc'.
  { pose proof Hsrc as (l & (c & Hc & Hl)%bind_Some & Hle & ->)%elemsOf_Some. unfold elemsOf.
    rewrite (lookup_weaken _ _ _ _ Hc Hh). simpl. rewrite Hl. simpl. by rewrite decide_True. }
  apply wp_bind. exists x, h'. split; [by eapply getElem_elemsOf|].
  apply wp_bind. eapply wp_mono; [apply (Hinto h' x v), (denote_mono h h' x v Hh Hdx)|].
  intros y h2 (Hh2 & Hy & Hyfp). pose proof (lookup_weaken _ _ _ _ Hcell Hh2) as Hcell2.
  assert (o ∈ dom h') as Hoin by by eapply elem_of_dom_2.
  apply wp_bind. eapply wp_load; [simpl; rewrite Hcell2; simpl; apply unbox_box|].
  assert (length (ys ++ replicate (slLen src - i) z) = slLen src) as Htot.
  { rewrite length_app, length_replicate. lia. }
  rewrite decide_True by (simpl; lia). apply wp_store; [simpl; rewrite Hcell2; by eexists|].
  set (h3 := <[o := box (<[(0 + i)%nat := y]> (ys ++ replicate (slLen src - i) z))]> h2). assert (∀ l, l ≠ o → h3 !! l = h2 !! l) as Hne
    by (intros; unfold h3; by rewrite lookup_insert_ne).
  destruct (all_mono h' h2 ys _ Hh2 Hys) as [Hys2 Hfp2].
  destruct (all_frame h2 h3 ys) as [Hys3 Hfp3]; [intros l Hl; apply Hne; set_solver|].
  destruct (denote_frame h2 h3 y) as [Hy3 Hyfp3]; [intros l Hl; apply Hne; set_solver|].
  change (copying (S i) h3). exists (ys ++ [y]). split_and!.
  - apply insert_subseteq_r; [done|]. by transitivity h'.
  - unfold h3. rewrite lookup_insert_eq. do 2 f_equal. cbn [slOff]. rewrite insert_app_r_alt by lia.
    replace (slLen src - i)%nat with (S (slLen src - S i)) by lia. simpl.
    replace (i - length ys)%nat with 0%nat by lia. by rewrite <- app_assoc.
  - rewrite length_app. simpl. lia.
  - rewrite (take_S_r _ _ v) by done. apply all_snoc; [by etrans|by etrans].
  - rewrite footprintAll_snoc, Hfp3, Hyfp3, Hfp2. apply subseteq_dom in Hh. set_solver.
Qed.

Lemma copy_loop k i h' : (i + k = slLen src)%nat → copying i h' →
  wp (forM (seq i k) (λ i, x <- getElem src i ;; y <- into x ;; setElem (mkSlice o 0 (slLen src)) i y))
    (λ _, copying (slLen src)) h'.
Proof.
  revert i h'. induction k as [|k IH]; intros i h' Hk Hc; simpl; [apply wp_ret; by replace (slLen src) with i by lia|].
  apply wp_bind. eapply wp_mono; [apply copy_step; [lia|done]|]. intros [] h2 Hc2. apply IH; [lia|done].
Qed.
End Copying.

(** A copied slice denotes the same list, in new memory. *)
Lemma copySlice_copies (z : A) (into : A → M (heap L) A) : deepCopies into → deepCopies (copySlice z into).
Proof.
  intros Hinto h [src|] vs Hv; simpl in *.
  2: { apply wp_ret. simpl. split_and!; [done..|set_solver]. }
  apply bind_Some in Hv as (xs & Hsrc & Hvs). apply wp_bind, wp_bind, wp_alloc. intros o Ho. apply wp_ret.
  apply wp_bind. eapply wp_mono.
  { apply (copy_loop z into Hinto h src xs vs o Hsrc Hvs Ho _ 0); [done|]. exists []. simpl.
    rewrite lookup_insert_eq, Nat.sub_0_r. split_and!; [by apply insert_subseteq|done..|]. apply disjoint_empty_l. }
  intros [] h' (ys & Hh & Hcell & Hlen & Hys & Hfp). apply wp_ret. destruct (elems_length h src xs vs Hsrc Hvs) as [_ Hvl].
  assert (elemsOf h' (mkSlice o 0 (slLen src)) = Some ys) as He.
  { unfold elemsOf. simpl. rewrite Hcell. simpl. rewrite unbox_box. simpl.
    rewrite Nat.sub_diag, app_nil_r, decide_True by lia. by rewrite drop_0, take_ge by lia. }
  cbn [denote footprint slice_Value]. rewrite He. simpl. split_and!; [done| |].
  - rewrite Hys. by rewrite take_ge by lia.
  - apply not_elem_of_dom in Ho. set_solver.
Qed.
End Slices.

(** *** The structs of the API *)

Definition strings_Value : Value L string string := plainValue.
#[local] Existing Instance strings_Value.
#[local] Instance strings_laws : ValueLaws L string string := plain_laws.

Lemma strings_copies : deepCopies (λ x : string, ret x).
Proof. apply plain_copies. Qed.

#[local] Instance boolPtr_Value : Value L (option loc) (option bool) := {|
  denote h p := match p with
    | None => Some None
    | Some l => b ← h !! l ≫= unbox; Some (Some b)
    end;
  footprint _ p := match p with None => ∅ | Some l => {[ l ]} end |}.

#[export] Instance HAPolicy_Value : Value L gHAPolicy HAPolicy := {|
  denote h x := full ← denote (A := option loc) (V := option bool) h (gRequireFullCoverage x);
    Some (mkHAPolicy (gMinReplicasToWrite x) full (gClusterNodeTimeoutMillis x));
  footprint h x := footprint (A := option loc) (V := option bool) h (gRequireFullCoverage x) |}.

#[export] Instance ShardStatus_Value : Value L gShardStatus ShardStatus := {|
  denote h x := ids ← denote h (gsNodeIDs x);
    Some (mkShardStatus (gsIndex x) (gsPrimaryPod x) (gsPrimaryNodeID x) (gsSlots x) (gsReadyReplicas x) ids);
  footprint h x := footprint h (gsNodeIDs x) |}.

#[export] Instance HAPolicy_laws : ValueLaws L gHAPolicy HAPolicy.
Proof.
  split; intros h.
  - intros h' x Hl. simpl in *. destruct (gRequireFullCoverage x) as [l|]; simpl in *; [|done].
    by rewrite Hl by set_solver.
  - intros x v; simpl. destruct (gRequireFullCoverage x) as [l|]; simpl; [|set_solver].
    intros (? & (b & (c & Hc & _)%bind_Some & _)%bind_Some & _)%bind_Some. apply elem_of_dom_2 in Hc. set_solver.
Qed.

#[export] Instance ShardStatus_laws : ValueLaws L gShardStatus ShardStatus.
Proof.
  split; intros h.
  - intros h' x Hl. cbn [denote footprint ShardStatus_Value] in *. by destruct (denote_frame h h' (gsNodeIDs x) Hl) as [-> ->].
  - intros x v (ids & Hi & _)%bind_Some. exact (footprint_dom _ _ _ Hi).
Qed.

Lemma HAPolicy_copies : deepCopies HAPolicy_DeepCopyInto.
Proof.
  intros h x v Hv. unfold HAPolicy_DeepCopyInto. cbn in Hv. destruct (gRequireFullCoverage x) as [l|] eqn:E; cbn in Hv.
  - apply bind_Some in Hv as (? & (b & Hb & [= <-])%bind_Some & [= <-]).
    apply (wp_copy_cell (B := bool) false b l (λ q, ret (mkGHAPolicy (gMinReplicasToWrite x) (Some q)
      (gClusterNodeTimeoutMillis x)))); [done|]. intros q Hq. apply wp_ret. cbn. rewrite lookup_insert_eq. cbn.
    split_and!; [by apply insert_subseteq|done|]. apply not_elem_of_dom in Hq. set_solver.
  - apply wp_ret. simplify_eq. cbn. rewrite E. cbn. split_and!; [done..|set_solver].
Qed.

Lemma ShardStatus_copies : deepCopies ShardStatus_DeepCopyInto.
Proof.
  intros h x v (ids & Hi & [= <-])%bind_Some. apply wp_bind. eapply wp_mono.
  { apply (copySlice_copies "" ret strings_copies h (gsNodeIDs x) ids Hi). }
  intros y h' (Hh & Hy & Hfp). apply wp_ret. split_and!; [done| |done].
  cbn [denote ShardStatus_Value gsNodeIDs]. by rewrite Hy.
Qed.
End Values.

(** What the theorems assume of the libraries: their types have a meaning, and
    their deep copies are deep copies. *)
Class LibValues (L : GoLib) (ListMeta : Type) := {
  #[global] ObjectMeta_Value :: Value L gObjectMeta ObjectMeta;
  #[global] ListMeta_Value :: Value L gListMeta ListMeta;
  #[global] Resources_Value :: Value L gResources ResourceRequirements;
  #[global] Quantity_Value :: Value L gQuantity Quantity;
  #[global] Condition_Value :: Value L gCondition Condition
}.
Class LibLaws (L : GoLib) (ListMeta : Type) `{!LibCopy} `{!LibValues L ListMeta} := {
  #[global] ObjectMeta_laws :: ValueLaws L gObjectMeta ObjectMeta;
  #[global] ListMeta_laws :: ValueLaws L gListMeta ListMeta;
  #[global] Resources_laws :: ValueLaws L gResources ResourceRequirements;
  #[global] Quantity_laws :: ValueLaws L gQuantity Quantity;
  #[global] Condition_laws :: ValueLaws L gCondition Condition;
  ObjectMeta_copies : deepCopies ObjectMeta_DeepCopyInto;
  ListMeta_copies : deepCopies ListMeta_DeepCopyInto;
  Resources_copies : deepCopies ResourceRequirements_DeepCopyInto;
  Quantity_copies : deepCopies Quantity_DeepCopy;
  Condition_copies : deepCopies Condition_DeepCopyInto
}.

(** One part of a struct is copied, then the rest: what was copied first keeps
    its meaning, and both parts are new. *)
Section Compose.
Context {L : GoLib}.

Lemma wp_copy_part {A V B} `{!Value L A V} (into : A → M (heap L) A) (k : A → M (heap L) B)
    (Q : B → heap L → Prop) h0 h x v :
  deepCopies into → h0 ⊆ h → denote h x = Some v →
  (∀ y h', h0 ⊆ h' → h ⊆ h' → denote h' y = Some v → footprint h' y ## dom h0 → wp (k y) Q h') →
  wp (bind (into x) k) Q h.
Proof.
  intros Hc Hh0 Hv Hk. apply wp_bind. eapply wp_mono; [apply (Hc h x v Hv)|].
  intros y h' (Hh & Hy & Hfp). apply Hk; [by transitivity h|done..|]. apply subseteq_dom in Hh0. set_solver.
Qed.
End Compose.

Section Structs.
Context {L : GoLib} {LM : Type} `{!LibCopy} `{!LibValues L LM} `{!LibLaws L LM}.

#[export] Instance Storage_Value : Value L gStorageSpec StorageSpec := {|
  denote h x := size ← denote h (gSize x); Some (mkStorage size (gStorageClassName x));
  footprint h x := footprint h (gSize x) |}.
#[export] Instance Spec_Value : Value L gSpec ValkeyClusterSpec := {|
  denote h x := storage ← denote h (gStorage x); res ← denote h (gResourcesOf x); ha ← denote h (gHAPolicyOf x);
    Some (mkSpec (gShardsOf x) (gReplicasPerShard x) (gImage x) storage res (gPersistence x) (gPerformance x) ha);
  footprint h x := footprint h (gStorage x) ∪ footprint h (gResourcesOf x) ∪ footprint h (gHAPolicyOf x) |}.
#[export] Instance Status_Value : Value L gStatus ValkeyClusterStatus := {|
  denote h x := shards ← denote h (gShards x); conds ← denote h (gConditions x);
    Some (mkStatus (gPhase x) (gObservedGeneration x) (gReadyShards x) shards conds);
  footprint h x := footprint h (gShards x) ∪ footprint h (gConditions x) |}.
#[export] Instance Cluster_Value : Value L gCluster (TypeMeta * ValkeyCluster) := {|
  denote h x := meta ← denote h (gMeta x); spec ← denote h (gSpecOf x); status ← denote h (gStatusOf x);
    Some (gTypeMeta x, mkCluster meta spec status);
  footprint h x := footprint h (gMeta x) ∪ footprint h (gSpecOf x) ∪ footprint h (gStatusOf x) |}.
#[export] Instance List_Value : Value L gList (TypeMeta * LM * list (TypeMeta * ValkeyCluster)) := {|
  denote h x := meta ← denote h (glListMeta x); items ← denote h (glItems x); Some (glTypeMeta x, meta, items);
  footprint h x := footprint h (glListMeta x) ∪ footprint h (glItems x) |}.

#[export] Instance Storage_laws : ValueLaws L gStorageSpec StorageSpec.
Proof.
  split; intros h.
  - intros h' x Hl. cbn [denote footprint Storage_Value] in *. by destruct (denote_frame h h' (gSize x) Hl) as [-> ->].
  - intros x v (q & Hq & _)%bind_Some. exact (footprint_dom _ _ _ Hq).
Qed.
#[export] Instance Spec_laws : ValueLaws L gSpec ValkeyClusterSpec.
Proof.
  split; intros h.
  - intros h' x Hl. cbn [denote footprint Spec_Value] in *.
    destruct (denote_frame h h' (gStorage x)) as [-> ->]; [set_solver|].
    destruct (denote_frame h h' (gResourcesOf x)) as [-> ->]; [set_solver|].
    by destruct (denote_frame h h' (gHAPolicyOf x)) as [-> ->]; [set_solver|].
  - intros x v (a & Ha & (b & Hb & (c & Hc & _)%bind_Some)%bind_Some)%bind_Some.
    apply footprint_dom in Ha, Hb, Hc. cbn [footprint Spec_Value]. set_solver.
Qed.
#[export] Instance Status_laws : ValueLaws L gStatus ValkeyClusterStatus.
Proof.
  split; intros h.
  - intros h' x Hl. cbn [denote footprint Status_Value] in *.
    destruct (denote_frame h h' (gShards x)) as [-> ->]; [set_solver|].
    by destruct (denote_frame h h' (gConditions x)) as [-> ->]; [set_solver|].
  - intros x v (a & Ha & (b & Hb & _)%bind_Some)%bind_Some.
    apply footprint_dom in Ha, Hb. cbn [footprint Status_Value]. set_solver.
Qed.
#[export] Instance Cluster_laws : ValueLaws L gCluster (TypeMeta * ValkeyCluster).
Proof.
  split; intros h.
  - intros h' x Hl. cbn [denote footprint Cluster_Value] in *.
    destruct (denote_frame h h' (gMeta x)) as [-> ->]; [set_solver|].
    destruct (denote_frame h h' (gSpecOf x)) as [-> ->]; [set_solver|].
    by destruct (denote_frame h h' (gStatusOf x)) as [-> ->]; [set_solver|].
  - intros x v (a & Ha & (b & Hb & (c & Hc & _)%bind_Some)%bind_Some)%bind_Some.
    apply footprint_dom in Ha, Hb, Hc. cbn [footprint Cluster_Value]. set_solver.
Qed.
#[export] Instance List_laws : ValueLaws L gList (TypeMeta * LM * list (TypeMeta * ValkeyCluster)).
Proof.
  split; intros h.
  - intros h' x Hl. cbn [denote footprint List_Value] in *.
    destruct (denote_frame h h' (glListMeta x)) as [-> ->]; [set_solver|].
    by destruct (denote_frame h h' (glItems x)) as [-> ->]; [set_solver|].
  - intros x v (a & Ha & (b & Hb & _)%bind_Some)%bind_Some.
    apply footprint_dom in Ha, Hb. cbn [footprint List_Value]. set_solver.
Qed.

Lemma Storage_copies : deepCopies StorageSpec_DeepCopyInto.
Proof.
  intros h x v (q & Hq & [= <-])%bind_Some.
  eapply wp_copy_part; [apply Quantity_copies|reflexivity|exact Hq|]. intros y h1 Hh _ Hy Hf. apply wp_ret.
  split_and!; [done| |done]. cbn [denote Storage_Value gSize]. by rewrite Hy.
Qed.

Lemma Spec_copies : deepCopies ValkeyClusterSpec_DeepCopyInto.
Proof.
  intros h x v (a & Ha & (b & Hb & (c & Hc & [= <-])%bind_Some)%bind_Some)%bind_Some.
  eapply wp_copy_part; [apply Storage_copies|reflexivity|exact Ha|]. intros y1 h1 H1 _ D1 F1.
  eapply wp_copy_part; [apply Resources_copies|exact H1|by apply (denote_mono h h1)|]. intros y2 h2 H2 H12 D2 F2.
  eapply wp_copy_part; [apply HAPolicy_copies|exact H2|by apply (denote_mono h h2)|]. intros y3 h3 H3 H23 D3 F3.
  apply wp_ret. destruct (denote_mono h1 h3 y1 _ (transitivity H12 H23) D1) as [E1 G1].
  destruct (denote_mono h2 h3 y2 _ H23 D2) as [E2 G2].
  cbn [denote footprint Spec_Value gStorage gResourcesOf gHAPolicyOf]. rewrite E1, E2, D3, G1, G2.
  split_and!; [done..|set_solver].
Qed.

Lemma Status_copies : deepCopies ValkeyClusterStatus_DeepCopyInto.
Proof.
  intros h x v (a & Ha & (b & Hb & [= <-])%bind_Some)%bind_Some.
  eapply wp_copy_part; [apply copySlice_copies, ShardStatus_copies|reflexivity|exact Ha|]. intros y1 h1 H1 _ D1 F1.
  eapply wp_copy_part; [apply copySlice_copies, Condition_copies|exact H1|by apply (denote_mono h h1)|].
  intros y2 h2 H2 H12 D2 F2. apply wp_ret. destruct (denote_mono h1 h2 y1 _ H12 D1) as [E1 G1].
  cbn [denote footprint Status_Value gShards gConditions]. rewrite E1, D2, G1. split_and!; [done..|set_solver].
Qed.

Lemma Cluster_copies : deepCopies ValkeyCluster_DeepCopyInto.
Proof.
  intros h x v (a & Ha & (b & Hb & (c & Hc & [= <-])%bind_Some)%bind_Some)%bind_Some.
  eapply wp_copy_part; [apply ObjectMeta_copies|reflexivity|exact Ha|]. intros y1 h1 H1 _ D1 F1.
  eapply wp_copy_part; [apply Spec_copies|exact H1|by apply (denote_mono h h1)|]. intros y2 h2 H2 H12 D2 F2.
  eapply wp_copy_part; [apply Status_copies|exact H2|by apply (denote_mono h h2)|]. intros y3 h3 H3 H23 D3 F3.
  apply wp_ret. destruct (denote_mono h1 h3 y1 _ (transitivity H12 H23) D1) as [E1 G1].
  destruct (denote_mono h2 h3 y2 _ H23 D2) as [E2 G2].
  cbn [denote footprint Cluster_Value gMeta gSpecOf gStatusOf]. rewrite E1, E2, D3, G1, G2.
  split_and!; [done..|set_solver].
Qed.

Lemma List_copies : deepCopies ValkeyClusterList_DeepCopyInto.
Proof.
  intros h x v (a & Ha & (b & Hb & [= <-])%bind_Some)%bind_Some.
  eapply wp_copy_part; [apply ListMeta_copies|reflexivity|exact Ha|]. intros y1 h1 H1 _ D1 F1.
  eapply wp_copy_part; [apply copySlice_copies, Cluster_copies|exact H1|by apply (denote_mono h h1)|].
  intros y2 h2 H2 H12 D2 F2. apply wp_ret. destruct (denote_mono h1 h2 y1 _ H12 D1) as [E1 G1].
  cbn [denote footprint List_Value glListMeta glItems]. rewrite E1, D2, G1. split_and!; [done..|set_solver].
Qed.

(** *** Pointers *)

(** What a pointer to a variable of type [A] denotes, and all it reaches. *)
Definition denoteAt {A V} `{!Boxed (L := L) A} `{!Value L A V} (h : heap L) (p : loc) : option V :=
  x ← h !! p ≫= unbox; denote (A := A) h x.
Definition reach {A V} `{!Boxed (L := L) A} `{!Value L A V} (h : heap L) (p : loc) : gset loc :=
  {[ p ]} ∪ match h !! p ≫= unbox with Some x => footprint (A := A) h x | None => ∅ end.

Section Pointer.
Context {A V : Type} `{!Boxed (L := L) A} `{!Value L A V} `{!ValueLaws L A V}.
Context (into : A → M (heap L) A) (Hinto : deepCopies into).
Local Abbreviation at_ := (denoteAt (A := A)).
Local Abbreviation all_ := (reach (A := A)).

Lemma denoteAt_frame (h h' : heap L) p : (∀ l, l ∈ all_ h p → h' !! l = h !! l) → at_ h' p = at_ h p.
Proof.
  unfold reach, denoteAt. intros Hl. rewrite (Hl p) by set_solver.
  destruct (h !! p ≫= unbox) as [x|] eqn:E; simpl; [|done].
  destruct (denote_frame h h' x) as [-> _]; [set_solver|done].
Qed.

Lemma reach_dom (h : heap L) p v : at_ h p = Some v → all_ h p ⊆ dom h.
Proof.
  unfold reach, denoteAt. intros (x & E & Hx)%bind_Some. rewrite E. apply footprint_dom in Hx.
  apply bind_Some in E as (c & Hc & _). apply elem_of_dom_2 in Hc. set_solver.
Qed.

(** [DeepCopy]: a new variable that denotes the same value, in memory that the
    original does not reach. *)
Lemma deepCopyOf_copies h p v : at_ h p = Some v →
  ∃ q h', deepCopyOf into (Some p) h = Some (Some q, h') ∧ h ⊆ h' ∧ at_ h' q = Some v ∧
    all_ h' q ## dom h ∧ all_ h' p = all_ h p.
Proof.
  intros (x & (c & Hc & Ex)%bind_Some & Hx)%bind_Some.
  cut (wp (deepCopyOf into (Some p)) (λ r h', ∃ q, r = Some q ∧ h ⊆ h' ∧ at_ h' q = Some v ∧ all_ h' q ## dom h) h).
  { intros (r & h' & E & q & -> & Hh & Hq & Hf). exists q, h'. split_and!; [done..|]. unfold reach.
    rewrite (lookup_weaken _ _ _ _ Hc Hh), Hc. simpl. rewrite Ex.
    by rewrite (proj2 (denote_mono h h' x v Hh Hx)). }
  unfold deepCopyOf. apply wp_bind, wp_alloc. intros q Hq. pose proof (insert_subseteq h q (box zero) Hq) as Hh1.
  apply wp_bind. eapply wp_load; [by rewrite (lookup_weaken _ _ _ _ Hc Hh1)|].
  eapply wp_copy_part; [exact Hinto|reflexivity|by apply (denote_mono h)|]. intros y h2 Hh2 _ Hy Hf.
  pose proof (lookup_weaken _ _ _ _ (lookup_insert_eq h q (box zero)) Hh2) as Hq2.
  apply wp_bind, wp_store; [by rewrite Hq2|]. apply wp_ret. exists q. split; [done|].
  destruct (denote_frame h2 (<[q := box y]> h2) y) as [Hy3 Hf3].
  { intros l Hl. rewrite lookup_insert_ne; [done|]. intros ->. apply (Hf l Hl). rewrite dom_insert_L. set_solver. }
  split_and!.
  - apply insert_subseteq_r; [done|]. by transitivity (<[q := box zero]> h).
  - unfold denoteAt. rewrite lookup_insert_eq. simpl. rewrite unbox_box. simpl. by rewrite Hy3.
  - unfold reach. rewrite lookup_insert_eq. simpl. rewrite unbox_box. rewrite Hf3.
    rewrite dom_insert_L in Hf. apply not_elem_of_dom in Hq. set_solver.
Qed.

(** Original and copy are independent: whatever is written to memory that one
    of them reaches, the other still denotes the same value. *)
Lemma deepCopyOf_independent h p v : at_ h p = Some v →
  ∃ q h', deepCopyOf into (Some p) h = Some (Some q, h') ∧ h ⊆ h' ∧ at_ h' q = Some v ∧
    (∀ l c, l ∈ all_ h' p → at_ (<[l := c]> h') q = Some v) ∧
    (∀ l c, l ∈ all_ h' q → at_ (<[l := c]> h') p = Some v).
Proof.
  intros Hv. destruct (deepCopyOf_copies h p v Hv) as (q & h' & E & Hh & Hq & Hf & Hp).
  pose proof (reach_dom h p v Hv) as Hdom. exists q, h'. split_and!; [done..| |]; intros l c Hl.
  - rewrite (denoteAt_frame h'); [done|]. intros l' Hl'. rewrite lookup_insert_ne; [done|].
    intros ->. rewrite Hp in Hl. set_solver.
  - rewrite (denoteAt_frame h).
    + done.
    + intros l' Hl'. rewrite lookup_insert_ne by (intros ->; set_solver).
      apply Hdom, elem_of_dom in Hl' as [c' Hc']. rewrite Hc'. by eapply lookup_weaken.
Qed.
End Pointer.

(** [q] denotes [v] in [h'], a heap that extends [h], and no write to what [p]
    reaches can be seen through [q], nor the other way round. *)
Definition independentCopy (A : Type) {V} `{!Boxed (L := L) A} `{!Value L A V}
    (h : heap L) (p : loc) (v : V) (q : loc) (h' : heap L) : Prop :=
  h ⊆ h' ∧ denoteAt (A := A) h' q = Some v ∧
  (∀ l c, l ∈ reach (A := A) h' p → denoteAt (A := A) (<[l := c]> h') q = Some v) ∧
  (∀ l c, l ∈ reach (A := A) h' q → denoteAt (A := A) (<[l := c]> h') p = Some v).

(** A generated [DeepCopy]: a completely readable object gives an independent
    copy, nil gives nil. *)
Definition copiesDeeply (A : Type) {V} `{!Boxed (L := L) A} `{!Value L A V} (copy : option loc → M (heap L) (option loc)) : Prop :=
  ∀ h, copy None h = Some (None, h) ∧
    ∀ p v, denoteAt (A := A) h p = Some v → ∃ q h', copy (Some p) h = Some (Some q, h') ∧ independentCopy A h p v q h'.

Lemma deepCopyOf_deeply {A V : Type} `{!Boxed (L := L) A} `{!Value L A V} `{!ValueLaws L A V} (into : A → M (heap L) A) :
  deepCopies into → copiesDeeply A (deepCopyOf into).
Proof. intros Hinto h. split; [done|]. intros p v Hv. exact (deepCopyOf_independent into Hinto h p v Hv). Qed.

(** C28: deep copies are deep.  Each of the nine generated [DeepCopy], of an
    object that is completely readable in the heap, returns a pointer to an
    object that reads the same, down to the labels, the
    [RequireFullCoverage] flag, the shards with their node IDs and the
    conditions; nothing that was in the heap is changed; and whatever is later
    written to any memory that the original reaches cannot be seen in the copy,
    nor the other way round; a nil pointer gives nil.  [DeepCopyObject] does
    the same under the interface type, and nil gives the nil object. *)
Theorem deep_copy_independent :
  copiesDeeply gHAPolicy HAPolicy_DeepCopy ∧ copiesDeeply (Value0 := plainValue) PerformanceSpec PerformanceSpec_DeepCopy ∧
  copiesDeeply (Value0 := plainValue) PersistenceSpec PersistenceSpec_DeepCopy ∧ copiesDeeply gShardStatus ShardStatus_DeepCopy ∧
  copiesDeeply gStorageSpec StorageSpec_DeepCopy ∧ copiesDeeply gSpec ValkeyClusterSpec_DeepCopy ∧
  copiesDeeply gStatus ValkeyClusterStatus_DeepCopy ∧ copiesDeeply gCluster ValkeyCluster_DeepCopy ∧
  copiesDeeply gList ValkeyClusterList_DeepCopy ∧
  (∀ h p, denoteAt (A := gCluster) h p ≠ None →
     ∃ q h', ValkeyCluster_DeepCopy (Some p) h = Some (Some q, h') ∧ ValkeyCluster_DeepCopyObject (Some p) h = Some (ClusterObject q, h')) ∧
  (∀ h p, denoteAt (A := gList) h p ≠ None →
     ∃ q h', ValkeyClusterList_DeepCopy (Some p) h = Some (Some q, h') ∧ ValkeyClusterList_DeepCopyObject (Some p) h = Some (ListObject q, h')) ∧
  (∀ h, ValkeyCluster_DeepCopyObject None h = Some (NilObject, h) ∧ ValkeyClusterList_DeepCopyObject None h = Some (NilObject, h)).
Proof.
  pose proof (@plain_laws). split_and!; try (apply deepCopyOf_deeply; auto using HAPolicy_copies, ShardStatus_copies, Storage_copies, Spec_copies,
    Status_copies, Cluster_copies, List_copies, plain_copies; fail); [intros h p [v Hv]%not_eq_None_Some..|done].
  - destruct (proj2 (deepCopyOf_deeply _ Cluster_copies h) p v Hv) as (q & h' & E & _). exists q, h'. split; [exact E|].
    unfold ValkeyCluster_DeepCopyObject, ValkeyCluster_DeepCopy, bind. by rewrite E.
  - destruct (proj2 (deepCopyOf_deeply _ List_copies h) p v Hv) as (q & h' & E & _). exists q, h'. split; [exact E|].
    unfold ValkeyClusterList_DeepCopyObject, ValkeyClusterList_DeepCopy, bind. by rewrite E.
Qed.
End Structs.

(** ** A concrete library

    Metadata is a name and a pointer to a map of labels; the other library
    types hold no pointers. *)

#[local] Instance memLib : GoLib := {|
  gObjectMeta := string * option loc; zeroObjectMeta := ("", None);
  gListMeta := string; zeroListMeta := "";
  gResources := ResourceRequirements; zeroResources := mkResources ∅ ∅;
  gQuantity := Quantity; zeroQuantity := mkQuantity 0 true;
  gCondition := Condition; zeroCondition := mkCondition "" ConditionUnknown "" "" 0 0;
  gOther := gmap string string |}.

#[local, refine] Instance Boxed_labels : Boxed (L := memLib) (gmap string string) :=
  {| box := COther (L := memLib);
     unbox (c : cell memLib) := match c with COther x => Some (x : gmap string string) | _ => None end;
     zero := ∅ |}.
Proof. done. Defined.

Definition memMeta_DeepCopyInto (m : string * option loc) : M (heap memLib) (string * option loc) :=
  match m.2 with
  | None => ret m
  | Some p =>
      q <- alloc (box (∅ : gmap string string)) ;;
      x <- load (A := gmap string string) p ;;
      _ <- store q x ;; ret (m.1, Some q)
  end.

#[local] Instance memCopy : LibCopy (L := memLib) := {|
  ObjectMeta_DeepCopyInto := memMeta_DeepCopyInto;
  ListMeta_DeepCopyInto := ret;
  ResourceRequirements_DeepCopyInto := ret;
  Quantity_DeepCopy := ret;
  Condition_DeepCopyInto := ret |}.

Definition memMeta_denote (h : heap memLib) (m : string * option loc) : option ObjectMeta :=
  match m.2 with
  | None => Some (metaOf m.1 "")
  | Some l => x ← h !! l ≫= unbox; Some (set_mLabels x (metaOf m.1 ""))
  end.
Definition memMeta_footprint (_ : heap memLib) (m : string * option loc) : gset loc :=
  match m.2 with None => ∅ | Some l => {[ l ]} end.

#[local] Instance memMeta_Value : Value memLib (gObjectMeta (GoLib := memLib)) ObjectMeta := {|
  denote := memMeta_denote; footprint := memMeta_footprint |}.

#[local] Instance memValues : LibValues memLib string := {|
  ObjectMeta_Value := memMeta_Value; ListMeta_Value := plainValue; Resources_Value := plainValue;
  Quantity_Value := plainValue; Condition_Value := plainValue |}.

#[local] Instance memLaws : LibLaws memLib string.
Proof.
  split; try apply plain_laws; try apply plain_copies.
  - split; intros h.
    + intros h' [n [l|]] Hl; [|done]. cbn [denote footprint ObjectMeta_Value memValues memMeta_Value] in *.
      unfold memMeta_denote, memMeta_footprint in *. cbn [snd fst] in *. by rewrite Hl by set_solver.
    + intros [n [l|]] v; cbn; [|set_solver]. intros (x & (c & Hc & _)%bind_Some & _)%bind_Some.
      apply elem_of_dom_2 in Hc. set_solver.
  - intros h [n [l|]] v Hv; cbn in Hv; cbn [ObjectMeta_DeepCopyInto memCopy]; unfold memMeta_DeepCopyInto; cbn [snd fst].
    + apply bind_Some in Hv as (x & Hb & [= <-]).
      apply (wp_copy_cell (B := gmap string string) ∅ x l (λ q, ret (n, Some q))); [done|]. intros q Hq. apply wp_ret. cbn. rewrite lookup_insert_eq. cbn.
      split_and!; [by apply insert_subseteq|done|]. apply not_elem_of_dom in Hq. set_solver.
    + apply wp_ret. simplify_eq. cbn. split_and!; [done..|set_solver].
Qed.

(** One resource with a label, the flag, a shard with two nodes and a
    condition. *)
Definition sampleCell : cell memLib := CCluster (L := memLib) (mkGCluster (L := memLib)
  (mkTypeMeta "ValkeyCluster" "v1alpha1") ("demo", Some 2%positive)
  (mkGSpec (L := memLib) 3 1 "valkey:8" (mkGStorage (L := memLib) (mkQuantity 1 false) "") (mkResources ∅ ∅)
     (mkPersistence "AOF" "") (mkPerformance 0 "") (mkGHAPolicy 1 (Some 3%positive) 5000))
  (mkGStatus (L := memLib) PhaseReady 1 3 (Some (mkSlice 4%positive 0 1)) (Some (mkSlice 5%positive 1 1)))).
Definition sampleHeap : heap memLib :=
  list_to_map [
    (1%positive, sampleCell);
    (2%positive, COther (L := memLib) ({[ "app" := "valkey" ]} : gmap string string));
    (3%positive, CBool true);
    (4%positive, CShards [mkGShardStatus 0 "demo-0-0" "a" "0-5461" 1 (Some (mkSlice 8%positive 0 2))]);
    (5%positive, CConditions (L := memLib) [mkCondition "Old" ConditionFalse "" "" 0 0;
                                             mkCondition "Available" ConditionTrue "Ready" "" 1 7]);
    (8%positive, CStrings ["a"; "b"; "c"])].

Lemma deep_copy_independent_witness :
  ∃ q h' v, denoteAt (A := gCluster) sampleHeap 1%positive = Some v ∧ ssNodeIDs <$> stShards (crStatus v.2) = [["a"; "b"]] ∧
    ValkeyCluster_DeepCopy (Some 1%positive) sampleHeap = Some (Some q, h') ∧
    independentCopy gCluster sampleHeap 1%positive v q h'.
Proof.
  destruct (denoteAt (A := gCluster) sampleHeap 1%positive) as [v|] eqn:E; [|exfalso; revert E; by vm_compute].
  destruct (deep_copy_independent (L := memLib) (LM := string)) as (_ & _ & _ & _ & _ & _ & _ & Hcl & _).
  destruct (proj2 (Hcl sampleHeap) 1%positive v E) as (q & h' & Hc). exists q, h', v. split; [done|]. split; [|exact Hc].
  injection E as <-. reflexivity.
Defined.
