(* ===== verification/ResourceBuilders.v ===== *)
(** * The Kubernetes objects of a cluster

    Models [internal/resources/builders.go].  SHA-256 is the only function of
    another package the builders call: it is a parameter. *)

From S2P Require Import Prelude GoStrings API.
From Stdlib Require Import Ascii String.
Local Open Scope string_scope.
Local Open Scope list_scope.
Local Open Scope Z_scope.

Definition clientPort : Z := 6379.
Definition busPort : Z := 16379.
Definition dataVolume := "data".
Definition confVolume := "conf".
Definition confMount := "/conf".
Definition dataMount := "/data".
Definition labelName := "app.kubernetes.io/name".
Definition labelInstance := "app.kubernetes.io/instance".
Definition labelManagedBy := "app.kubernetes.io/managed-by".
Definition LabelShard := "valkey.razkevich.dev/shard".
Definition configHashAnnotation := "valkey.razkevich.dev/config-hash".

Definition nl : string := String (ascii_of_nat 10) "".
Definition dq : string := String (ascii_of_nat 34) "".

(** ** Names *)

Definition HeadlessServiceName (cr : ValkeyCluster) : string := crName cr +:+ "-nodes".
Definition ConfigMapName (cr : ValkeyCluster) : string := crName cr +:+ "-config".
Definition StatefulSetName (cr : ValkeyCluster) (shard : Z) : string :=
  crName cr +:+ "-shard-" +:+ Itoa shard.
Definition PodName (cr : ValkeyCluster) (shard ordinal : Z) : string :=
  StatefulSetName cr shard +:+ "-" +:+ Itoa ordinal.
Definition PodFQDN (cr : ValkeyCluster) (shard ordinal : Z) : string :=
  PodName cr shard ordinal +:+ "." +:+ HeadlessServiceName cr +:+ "." +:+ crNamespace cr +:+ ".svc".

(** ** Labels *)

Definition commonLabels (cr : ValkeyCluster) : gmap string string :=
  <[labelName := "valkeycluster"]> (<[labelInstance := crName cr]>
    (<[labelManagedBy := "valkeycluster-operator"]> ∅)).

Definition shardLabels (cr : ValkeyCluster) (shard : Z) : gmap string string :=
  <[LabelShard := Itoa shard]> (commonLabels cr).

(** ** valkey.conf *)

(** One [fmt.Fprintf(&b, "key value\n")]. *)
Definition line (key value : string) : string := key +:+ " " +:+ value +:+ nl.

Definition memoryLimit (cr : ValkeyCluster) : option Quantity := Limits (Resources (crSpec cr)) !! "memory".

Definition maxBytes (lim : Quantity) : Z := Z.quot (wrap64 (qValue lim * 70)) 100.

Definition RenderValkeyConf (cr : ValkeyCluster) : string :=
  let hp := HAPolicyOf (crSpec cr) in
  let fullCoverage :=
    match RequireFullCoverage hp with Some false => "no" | _ => "yes" end in
  let timeout := if ClusterNodeTimeoutMillis hp =? 0 then 5000 else ClusterNodeTimeoutMillis hp in
  let mode := if String.eqb (Mode (Persistence (crSpec cr))) "" then PersistenceAOF
              else Mode (Persistence (crSpec cr)) in
  let fsync := if String.eqb (AppendFsync (Persistence (crSpec cr))) "" then "everysec"
               else AppendFsync (Persistence (crSpec cr)) in
  let aofOn := String.eqb mode PersistenceAOF || String.eqb mode PersistenceAOFAndRDB in
  let rdbOn := String.eqb mode PersistenceRDB || String.eqb mode PersistenceAOFAndRDB in
  let ioThreads := if IOThreads (Performance (crSpec cr)) <? 1 then 1
                   else IOThreads (Performance (crSpec cr)) in
  let policy := if String.eqb (MaxmemoryPolicy (Performance (crSpec cr))) "" then "noeviction"
                else MaxmemoryPolicy (Performance (crSpec cr)) in
  line "cluster-enabled" "yes" +:+
  line "cluster-config-file" (dataMount +:+ "/nodes.conf") +:+
  line "cluster-node-timeout" (Itoa timeout) +:+
  line "cluster-require-full-coverage" fullCoverage +:+
  line "cluster-preferred-endpoint-type" "hostname" +:+
  line "cluster-port" (Itoa busPort) +:+
  line "port" (Itoa clientPort) +:+
  line "min-replicas-to-write" (Itoa (MinReplicasToWrite hp)) +:+
  line "dir" dataMount +:+
  line "io-threads" (Itoa ioThreads) +:+
  line "maxmemory-policy" policy +:+
  (if aofOn then line "appendonly" "yes" +:+ line "appendfsync" fsync
   else line "appendonly" "no") +:+
  (if rdbOn then line "save" "3600 1 300 100 60 10000" else line "save" (dq +:+ dq)) +:+
  match memoryLimit cr with
  | Some lim => if negb (qIsZero lim) then line "maxmemory" (Itoa (maxBytes lim)) else ""
  | None => ""
  end.

(** ** Objects *)

Definition HeadlessService (cr : ValkeyCluster) : Service :=
  mkService (set_mLabels (commonLabels cr) (metaOf (HeadlessServiceName cr) (crNamespace cr)))
    "None" true {[ labelInstance := crName cr ]}
    [mkServicePort "client" clientPort clientPort; mkServicePort "cluster-bus" busPort busPort].

Definition ConfigMap (cr : ValkeyCluster) : ConfigMapObj :=
  mkConfigMap (set_mLabels (commonLabels cr) (metaOf (ConfigMapName cr) (crNamespace cr)))
    {[ "valkey.conf" := RenderValkeyConf cr ]}.

Definition startupScript : string :=
  "set -eu" +:+ nl +:+
  "FQDN=" +:+ dq +:+ "${POD_NAME}.${SVC_NAME}.${POD_NAMESPACE}.svc" +:+ dq +:+ nl +:+
  "cp " +:+ confMount +:+ "/valkey.conf " +:+ dataMount +:+ "/valkey.conf" +:+ nl +:+
  "{" +:+ nl +:+
  "  echo " +:+ dq +:+ "cluster-announce-hostname ${FQDN}" +:+ dq +:+ nl +:+
  "  echo " +:+ dq +:+ "cluster-announce-ip ${POD_IP}" +:+ dq +:+ nl +:+
  "  echo " +:+ dq +:+ "cluster-announce-port " +:+ Itoa clientPort +:+ dq +:+ nl +:+
  "  echo " +:+ dq +:+ "cluster-announce-bus-port " +:+ Itoa busPort +:+ dq +:+ nl +:+
  "} >> " +:+ dataMount +:+ "/valkey.conf" +:+ nl +:+
  "exec valkey-server " +:+ dataMount +:+ "/valkey.conf".

Definition hexDigit (n : N) : ascii :=
  ascii_of_N (if (n <? 10)%N then n + 48 else n + 87)%N.

(** [hex.EncodeToString] *)
Fixpoint hexEncode (s : string) : string :=
  match s with
  | EmptyString => ""
  | String c s' => String (hexDigit (N_of_ascii c / 16)) (String (hexDigit (N_of_ascii c mod 16)) (hexEncode s'))
  end.

Section Builders.

(** [sha256.Sum256], 32 bytes. *)
Variable sha256 : string → string.

Definition configHash (cr : ValkeyCluster) : string :=
  hexEncode (take_str 8 (sha256 (RenderValkeyConf cr))).

(** The pod template of [StatefulSet]. *)
Definition podTemplate (cr : ValkeyCluster) (shard : Z) : PodTemplate :=
  mkTemplate (shardLabels cr shard) {[ configHashAnnotation := configHash cr ]}
    [mkAffinityTerm 100 "kubernetes.io/hostname"
       (<[LabelShard := Itoa shard]> (<[labelInstance := crName cr]> ∅))]
    [mkContainer "valkey" (Image (crSpec cr)) ["sh"; "-c"; startupScript] (Resources (crSpec cr))
       [("client", clientPort); ("cluster-bus", busPort)]
       [("POD_NAME", EnvField "metadata.name"); ("POD_NAMESPACE", EnvField "metadata.namespace");
        ("POD_IP", EnvField "status.podIP"); ("SVC_NAME", EnvLiteral (HeadlessServiceName cr))]
       [(dataVolume, dataMount); (confVolume, confMount)]
       (mkProbe ["valkey-cli"; "-p"; Itoa clientPort; "ping"] 5 5 5)]
    [(confVolume, ConfigMapName cr)].

Definition StatefulSet (cr : ValkeyCluster) (shard : Z) : StatefulSetObj :=
  let replicas := wrap32 (1 + crReplicas cr) in
  let labels := shardLabels cr shard in
  let class := StorageClassName (Storage (crSpec cr)) in
  let vct := mkClaim dataVolume ["ReadWriteOnce"] {[ "storage" := Size (Storage (crSpec cr)) ]}
               (if String.eqb class "" then None else Some class) in
  mkStatefulSet (set_mLabels labels (metaOf (StatefulSetName cr shard) (crNamespace cr)))
    (HeadlessServiceName cr) replicas "Parallel" labels (podTemplate cr shard) [vct] 0.

End Builders.
