(* ===== verification/ResourceProofs.v ===== *)
(** * Correctness of the object builders *)

From S2P Require Import Prelude GoStrings API ResourceBuilders.
From Stdlib Require Import Ascii String.
Local Open Scope string_scope.
Local Open Scope list_scope.
Local Open Scope Z_scope.

(** ** Names identify pods *)

Lemma StatefulSetName_inj cr cr' i i' :
  0 ≤ i < 2 ^ 63 → 0 ≤ i' < 2 ^ 63 →
  StatefulSetName cr i = StatefulSetName cr' i' → crName cr = crName cr' ∧ i = i'.
Proof.
  intros Hi Hi' E. unfold StatefulSetName in E.
  assert (∀ s d, s +:+ "-shard-" +:+ d = (s +:+ "-shard") +:+ String "-" d) as Hsplit
    by (intros; by rewrite str_app_assoc).
  rewrite !Hsplit in E.
  apply (str_suffix_unique "-") in E as [E Ei]; [|by apply Itoa_lacks; [|lia]..].
  apply Itoa_inj in Ei as ->; [|unfold in_int64; lia..].
  by apply str_app_inv_tail in E.
Qed.

Lemma PodName_inj cr cr' i j i' j' :
  0 ≤ i < 2 ^ 63 → 0 ≤ j < 2 ^ 63 → 0 ≤ i' < 2 ^ 63 → 0 ≤ j' < 2 ^ 63 →
  PodName cr i j = PodName cr' i' j' → crName cr = crName cr' ∧ i = i' ∧ j = j'.
Proof.
  intros Hi Hj Hi' Hj' E. unfold PodName in E.
  apply (str_suffix_unique "-") in E as [E Ej]; [|by apply Itoa_lacks; [|lia]..].
  apply Itoa_inj in Ej as ->; [|unfold in_int64; lia..].
  by apply StatefulSetName_inj in E as [-> ->].
Qed.

Lemma PodFQDN_inj cr i j i' j' :
  0 ≤ i < 2 ^ 63 → 0 ≤ j < 2 ^ 63 → 0 ≤ i' < 2 ^ 63 → 0 ≤ j' < 2 ^ 63 →
  PodFQDN cr i j = PodFQDN cr i' j' → i = i' ∧ j = j'.
Proof.
  intros Hi Hj Hi' Hj' E. unfold PodFQDN in E. apply str_app_inv_tail in E.
  by apply (PodName_inj cr cr i j i' j') in E as (_ & -> & ->).
Qed.

Lemma PodFQDN_nonempty cr i j : PodFQDN cr i j ≠ "".
Proof.
  intros E. apply (f_equal String.length) in E. unfold PodFQDN in E.
  rewrite !str_app_length in E. simpl in E. lia.
Qed.

(** C34: pod names identify pods across all clusters: two pods with one name
    belong to clusters of one name and have the same shard and ordinal,
    although the parts are joined by hyphens that a cluster's name may itself
    contain. *)
Theorem pod_names_unique (cr cr' : ValkeyCluster) (i j i' j' : Z) :
  0 ≤ i < 2 ^ 63 → 0 ≤ j < 2 ^ 63 → 0 ≤ i' < 2 ^ 63 → 0 ≤ j' < 2 ^ 63 →
  PodName cr i j = PodName cr' i' j' ↔ crName cr = crName cr' ∧ i = i' ∧ j = j'.
Proof.
  intros. split; [by apply PodName_inj|]. intros (En & -> & ->).
  unfold PodName, StatefulSetName. by rewrite En.
Qed.

Definition sampleSpec (shards replicas : Z) : ValkeyClusterSpec :=
  mkSpec shards replicas "valkey/valkey:8" (mkStorage (mkQuantity 1073741824 false) "")
    (mkResources ∅ ∅) (mkPersistence "" "") (mkPerformance 0 "") (mkHAPolicy 0 None 0).
Definition sampleCR (name : string) (shards replicas : Z) : ValkeyCluster :=
  mkCluster (metaOf name "ns") (sampleSpec shards replicas) (mkStatus PhaseUnset 0 0 [] []).

Lemma pod_names_unique_witness :
  PodName (sampleCR "demo" 3 1) 1 0 = "demo-shard-1-0" ∧
  (PodName (sampleCR "demo" 3 1) 1 0 = PodName (sampleCR "demo-shard-1" 3 1) 1 0 ↔
   crName (sampleCR "demo" 3 1) = crName (sampleCR "demo-shard-1" 3 1) ∧ 1 = 1 ∧ 0 = 0).
Proof.
  split; [vm_compute; reflexivity|].
  apply (pod_names_unique (sampleCR "demo" 3 1) (sampleCR "demo-shard-1" 3 1) 1 0 1 0); lia.
Defined.

(** ** The rendered configuration *)

(** The directives of a configuration file: key and value of each line. *)
Definition parseConf (s : string) : list (string * string) :=
  omap (λ l, let '(k, v, ok) := Cut l " " in if ok : bool then Some (k, v) else None)
    (Split s (ascii_of_nat 10)).

Lemma parseConf_line k v rest :
  lacks " " k && lacks (ascii_of_nat 10) k && lacks (ascii_of_nat 10) v = true →
  parseConf (line k v +:+ rest) = (k, v) :: parseConf rest.
Proof.
  intros [[Hk Hk']%andb_true_iff Hv]%andb_true_iff. unfold line.
  rewrite !str_app_assoc. change (nl +:+ rest) with (String (ascii_of_nat 10) rest).
  rewrite <- (str_app_assoc " "), <- str_app_assoc. unfold parseConf.
  rewrite Split_app by (by rewrite !lacks_app, Hk', Hv).
  rewrite omap_cons. change (" " +:+ v) with (String " " v). by rewrite Cut_lacks.
Qed.

Lemma parseConf_last k v :
  lacks " " k && lacks (ascii_of_nat 10) k && lacks (ascii_of_nat 10) v = true →
  parseConf (line k v) = [(k, v)].
Proof. intros H. rewrite <- (str_app_nil_r (line k v)). by rewrite parseConf_line. Qed.

(** The settings a spec asks for, with the documented defaults. *)
Definition wantMode (cr : ValkeyCluster) : string :=
  let m := Mode (Persistence (crSpec cr)) in if String.eqb m "" then PersistenceAOF else m.
Definition wantAOF (cr : ValkeyCluster) : bool :=
  bool_decide (wantMode cr ∈ [PersistenceAOF; PersistenceAOFAndRDB]).
Definition wantRDB (cr : ValkeyCluster) : bool :=
  bool_decide (wantMode cr ∈ [PersistenceRDB; PersistenceAOFAndRDB]).
Definition orDefault (s d : string) : string := if String.eqb s "" then d else s.

Definition settings (cr : ValkeyCluster) : list (string * string) :=
  let hp := HAPolicyOf (crSpec cr) in
  [("cluster-enabled", "yes"); ("cluster-config-file", "/data/nodes.conf");
   ("cluster-node-timeout",
      Itoa (if ClusterNodeTimeoutMillis hp =? 0 then 5000 else ClusterNodeTimeoutMillis hp));
   ("cluster-require-full-coverage", if default true (RequireFullCoverage hp) then "yes" else "no");
   ("cluster-preferred-endpoint-type", "hostname"); ("cluster-port", "16379"); ("port", "6379");
   ("min-replicas-to-write", Itoa (MinReplicasToWrite hp)); ("dir", "/data");
   ("io-threads", Itoa (Z.max 1 (IOThreads (Performance (crSpec cr)))));
   ("maxmemory-policy", orDefault (MaxmemoryPolicy (Performance (crSpec cr))) "noeviction");
   ("appendonly", if wantAOF cr then "yes" else "no")] ++
  (if wantAOF cr then [("appendfsync", orDefault (AppendFsync (Persistence (crSpec cr))) "everysec")] else []) ++
  [("save", if wantRDB cr then "3600 1 300 100 60 10000" else dq +:+ dq)] ++
  match memoryLimit cr with
  | Some lim => if qIsZero lim then [] else [("maxmemory", Itoa (maxBytes lim))]
  | None => []
  end.

Lemma valid_enum_lf s l :
  s = "" ∨ s ∈ l → forallb (lacks (ascii_of_nat 10)) l = true → lacks (ascii_of_nat 10) s = true.
Proof.
  intros [->|Hs] Hl; [done|]. rewrite forallb_forall in Hl. apply Hl. by apply list_elem_of_In.
Qed.

Lemma elem_of_pair_eqb (m a b : string) : String.eqb m a || String.eqb m b = bool_decide (m ∈ [a; b]).
Proof.
  destruct (String.eqb_spec m a) as [->|Ha]; simpl; [symmetry; apply bool_decide_eq_true; left|].
  destruct (String.eqb_spec m b) as [->|Hb]; simpl; symmetry.
  - apply bool_decide_eq_true. right. left.
  - apply bool_decide_eq_false. intros [?|[?|[]%elem_of_nil]%elem_of_cons]%elem_of_cons; done.
Qed.

(** C35: the rendered [valkey.conf] says exactly what a valid spec asks for:
    read line by line it gives the settings with their documented defaults,
    no value can smuggle in a further line, and no directive occurs twice. *)
Theorem render_conf_settings (cr : ValkeyCluster) :
  spec_valid (crSpec cr) →
  parseConf (RenderValkeyConf cr) = settings cr ∧ NoDup (map fst (settings cr)).
Proof.
  intros Hv. split.
  - assert (lacks (ascii_of_nat 10) (AppendFsync (Persistence (crSpec cr))) = true) as Hf
      by (eapply valid_enum_lf; [apply Hv|done]).
    assert (lacks (ascii_of_nat 10) (MaxmemoryPolicy (Performance (crSpec cr))) = true) as Hp
      by (eapply valid_enum_lf; [apply Hv|done]).
    assert (∀ z, lacks (ascii_of_nat 10) (Itoa z) = true) as Hz by (intros; by apply Itoa_lacks_any).
    assert (∀ s d, lacks (ascii_of_nat 10) s = true → lacks (ascii_of_nat 10) d = true →
      lacks (ascii_of_nat 10) (if String.eqb s "" then d else s) = true) as Hd
      by (intros; by destruct (String.eqb _ _)).
    assert (∀ x : Z, (if x <? 1 then 1 else x) = Z.max 1 x) as Hmax
      by (intros x; destruct (Z.ltb_spec x 1); lia).
    unfold RenderValkeyConf. rewrite Hmax, !elem_of_pair_eqb. fold (wantMode cr).
    fold (wantAOF cr) (wantRDB cr).
    assert (match RequireFullCoverage (HAPolicyOf (crSpec cr)) with Some false => "no" | _ => "yes" end
      = if default true (RequireFullCoverage (HAPolicyOf (crSpec cr))) then "yes" else "no") as ->
      by (by destruct (RequireFullCoverage _) as [[]|]).
    rewrite !parseConf_line by (rewrite ?Hz, ?Hd by done; by repeat case_match).
    unfold settings, orDefault.
    destruct (wantAOF cr), (wantRDB cr); rewrite ?str_app_assoc, !parseConf_line by (rewrite ?Hd by done; done);
      destruct (memoryLimit cr) as [lim|]; try done; destruct (qIsZero lim); try done;
      cbn [negb]; by rewrite parseConf_last by (by rewrite Hz).
  - unfold settings. destruct (wantAOF cr), (memoryLimit cr) as [lim|]; try destruct (qIsZero lim);
      apply (bool_decide_unpack _); vm_compute; done.
Qed.

Lemma sampleSpec_valid s r :
  (s = 1 ∨ 3 ≤ s) → s ≤ 16 → 0 ≤ r ≤ 5 → spec_valid (sampleSpec s r).
Proof. intros. constructor; simpl; try lia; try (by left). Qed.

Lemma render_conf_settings_witness :
  parseConf (RenderValkeyConf (sampleCR "demo" 3 1)) = settings (sampleCR "demo" 3 1) ∧
  NoDup (map fst (settings (sampleCR "demo" 3 1))).
Proof. apply (render_conf_settings (sampleCR "demo" 3 1)). apply sampleSpec_valid; lia. Defined.

(** C36: the memory cap leaves headroom and cannot overflow for any limit a
    machine can have: below [2^63 / 70] bytes (131 PB) it is seven tenths of
    the limit rounded down; above, the multiplication wraps around and the
    cap can come out negative. *)
Theorem maxmemory_bounds (lim : Quantity) :
  0 < qValue lim < 2 ^ 63 →
  (qValue lim * 70 < 2 ^ 63 →
     maxBytes lim = qValue lim * 70 / 100 ∧ 0 ≤ maxBytes lim < qValue lim) ∧
  (2 ^ 63 ≤ qValue lim * 70 < 2 ^ 64 → maxBytes lim ≤ 0).
Proof.
  intros Hl. unfold maxBytes. split; intros Hv.
  - rewrite wrap64_id by (unfold in_int64; lia). rewrite Z.quot_div_nonneg by lia.
    split; [done|]. split; [apply Z.div_pos; lia|]. apply Z.div_lt_upper_bound; lia.
  - assert (wrap64 (qValue lim * 70) = qValue lim * 70 - 2 ^ 64) as ->.
    { unfold wrap64, wrap. change (64 - 1) with 63.
      rewrite <- (Z_mod_plus_full _ (-1)), Z.mod_small; lia. }
    rewrite <- (Z.opp_involutive (qValue lim * 70 - 2 ^ 64)), Z.quot_opp_l, Z.quot_div_nonneg by lia.
    pose proof (Z.div_pos (- (qValue lim * 70 - 2 ^ 64)) 100). lia.
Qed.

Lemma maxmemory_bounds_witness :
  maxBytes (mkQuantity 2147483648 false) = 1503238553 ∧
  maxBytes (mkQuantity (2 ^ 57) false) = -83586809083996405 ∧
  ((2 ^ 57) * 70 < 2 ^ 63 →
     maxBytes (mkQuantity (2 ^ 57) false) = (2 ^ 57) * 70 / 100 ∧
     0 ≤ maxBytes (mkQuantity (2 ^ 57) false) < 2 ^ 57) ∧
  (2 ^ 63 ≤ (2 ^ 57) * 70 < 2 ^ 64 → maxBytes (mkQuantity (2 ^ 57) false) ≤ 0).
Proof.
  split; [vm_compute; reflexivity|]. split; [vm_compute; reflexivity|].
  apply (maxmemory_bounds (mkQuantity (2 ^ 57) false)). simpl. lia.
Defined.

(** The objects of a shard fit together: the StatefulSet's selector
    matches its own pods, the headless Service selects them, the
    anti-affinity rule ranges over the pods of the same shard and of no
    other shard of the cluster, and the label read back by scale-in gives the
    shard's index. *)
Theorem shard_labels_consistent (sha256 : string → string) (cr : ValkeyCluster) (i j : Z) :
  0 ≤ i < 2 ^ 63 → 0 ≤ j < 2 ^ 63 → i ≠ j →
  let sts := StatefulSet sha256 cr i in
  stsSelector sts ⊆ ptLabels (stsTemplate sts) ∧
  svcSelector (HeadlessService cr) ⊆ ptLabels (stsTemplate sts) ∧
  Forall (λ t, paMatchLabels t ⊆ ptLabels (stsTemplate sts) ∧
               ¬ paMatchLabels t ⊆ ptLabels (stsTemplate (StatefulSet sha256 cr j)))
    (ptAntiAffinity (stsTemplate sts)) ∧
  Atoi <$> mLabels (stsMeta sts) !! LabelShard = Some (i, None).
Proof.
  intros Hi Hj Hij sts.
  assert (shardLabels cr i !! labelInstance = Some (crName cr)) as Hinst by done.
  assert (∀ k, shardLabels cr k !! LabelShard = Some (Itoa k)) as Hshard.
  { intros k. unfold shardLabels. apply lookup_insert_eq. }
  split; [done|]. split; [by apply map_singleton_subseteq_l|]. split.
  - apply Forall_singleton. simpl. split.
    + apply insert_subseteq_l; [apply Hshard|]. apply insert_subseteq_l; [done|]. apply map_empty_subseteq.
    + intros Hsub. eapply lookup_weaken in Hsub; [|apply lookup_insert_eq].
      rewrite Hshard in Hsub. injection Hsub as E. apply Itoa_inj in E; [congruence|unfold in_int64; lia..].
  - change (mLabels (stsMeta sts)) with (shardLabels cr i). rewrite Hshard. simpl.
    rewrite Atoi_Itoa; [done|unfold in_int64; lia].
Qed.

Lemma shard_labels_consistent_witness :
  let sts := StatefulSet (λ s, s) (sampleCR "demo" 3 1) 1 in
  stsSelector sts ⊆ ptLabels (stsTemplate sts) ∧
  svcSelector (HeadlessService (sampleCR "demo" 3 1)) ⊆ ptLabels (stsTemplate sts) ∧
  Forall (λ t, paMatchLabels t ⊆ ptLabels (stsTemplate sts) ∧
               ¬ paMatchLabels t ⊆ ptLabels (stsTemplate (StatefulSet (λ s, s) (sampleCR "demo" 3 1) 2)))
    (ptAntiAffinity (stsTemplate sts)) ∧
  Atoi <$> mLabels (stsMeta sts) !! LabelShard = Some (1, None).
Proof. apply (shard_labels_consistent (λ s, s) (sampleCR "demo" 3 1) 1 2); lia. Defined.

(** C33: changing the topology or the storage of a cluster never restarts a
    pod: the pod template of a shard depends on the name, the image, the
    resources and the rendered configuration only. *)
Theorem template_stable_under_scaling (sha256 : string → string) (cr cr' : ValkeyCluster) (i : Z) :
  crName cr = crName cr' → Image (crSpec cr) = Image (crSpec cr') →
  Resources (crSpec cr) = Resources (crSpec cr') → Persistence (crSpec cr) = Persistence (crSpec cr') →
  Performance (crSpec cr) = Performance (crSpec cr') → HAPolicyOf (crSpec cr) = HAPolicyOf (crSpec cr') →
  stsTemplate (StatefulSet sha256 cr i) = stsTemplate (StatefulSet sha256 cr' i).
Proof.
  intros En Ei Er Ep Ef Eh.
  assert (RenderValkeyConf cr = RenderValkeyConf cr') as Ec.
  { unfold RenderValkeyConf, memoryLimit. by rewrite Er, Ep, Ef, Eh. }
  simpl. unfold podTemplate, configHash, shardLabels, commonLabels, ConfigMapName, HeadlessServiceName.
  by rewrite En, Ei, Er, Ec.
Qed.

Lemma template_stable_under_scaling_witness :
  stsReplicas (StatefulSet (λ s, s) (sampleCR "demo" 3 1) 0) = 2 ∧
  stsReplicas (StatefulSet (λ s, s) (sampleCR "demo" 5 2) 0) = 3 ∧
  stsTemplate (StatefulSet (λ s, s) (sampleCR "demo" 3 1) 0)
  = stsTemplate (StatefulSet (λ s, s) (sampleCR "demo" 5 2) 0).
Proof.
  split; [vm_compute; reflexivity|]. split; [vm_compute; reflexivity|].
  apply (template_stable_under_scaling (λ s, s) (sampleCR "demo" 3 1) (sampleCR "demo" 5 2) 0); reflexivity.
Defined.
