(* ===== verification/Platform.v ===== *)
(** * What the operator is built on

    The API server (through controller-runtime's client), the helper functions
    of controller-runtime and client-go, the clock, SHA-256 and the iteration
    order of Go maps are not part of the repository.  They are the operations
    of a type class over the world, and every definition of the controller
    takes them as an argument.  [PlatformLaws] states the documented behaviour
    that the theorems rely on. *)

From S2P Require Import Prelude GoStrings Cluster API.
Local Open Scope string_scope.
Local Open Scope list_scope.
Local Open Scope Z_scope.

Record NamespacedName := mkKey { keyName : string; keyNamespace : string }.

Class Platform (W : Type) := {
  (** [client.Client] on the custom resource *)
  getCR : NamespacedName → M W (result ValkeyCluster);
  updateCR : ValkeyCluster → M W (result ValkeyCluster);
  updateStatusCR : ValkeyCluster → M W (result unit);
  (** [controllerutil.CreateOrUpdate]: the function changes the object as read,
      or one that has only its name and namespace *)
  createOrUpdateConfigMap : NamespacedName → (ConfigMapObj → result ConfigMapObj) → M W (result unit);
  createOrUpdateService : NamespacedName → (Service → result Service) → M W (result unit);
  createOrUpdateStatefulSet : NamespacedName → (StatefulSetObj → result StatefulSetObj) → M W (result unit);
  (** [client.Client] on the owned objects *)
  getStatefulSet : NamespacedName → M W (result StatefulSetObj);
  listStatefulSets : string → gmap string string → M W (result (list StatefulSetObj));
  deleteStatefulSet : NamespacedName → M W (result unit);
  listPVCs : string → gmap string string → M W (result (list ObjectMeta));
  deletePVC : ObjectMeta → M W (result unit);
  (** [controllerutil] *)
  setControllerReference : ValkeyCluster → ObjectMeta → result ObjectMeta;
  containsFinalizer : ValkeyCluster → string → bool;
  addFinalizer : ValkeyCluster → string → ValkeyCluster;
  removeFinalizer : ValkeyCluster → string → ValkeyCluster;
  (** [retry.RetryOnConflict(retry.DefaultRetry, fn)] *)
  retryOnConflict : M W (result unit) → M W (result unit);
  (** [metav1.Now] *)
  now : M W Z;
  (** the order of [for k, v := range m] *)
  mapRange : gmap string NodeInfo → M W (list (string * NodeInfo));
  (** [sha256.Sum256] *)
  sum256 : string → string
}.

(** [apierrors.IsNotFound], which looks through wrapped errors. *)
Fixpoint IsNotFound (e : error) : bool :=
  match e with
  | ErrNotFound _ => true
  | ErrWrap _ e' | ErrWrapAround _ e' _ => IsNotFound e'
  | _ => false
  end.

Fixpoint IsConflict (e : error) : bool :=
  match e with
  | ErrConflict _ => true
  | ErrWrap _ e' | ErrWrapAround _ e' _ => IsConflict e'
  | _ => false
  end.

(** [client.IgnoreNotFound(err)] in [return v, client.IgnoreNotFound(err)]. *)
Definition ignoreNotFoundWith {A} (v : A) (e : error) : result A :=
  if IsNotFound e then Ok v else Err e.

(** [ignoreNotFound] of the controller package around a call. *)
Definition ignoreNotFound {W} (m : M W (result unit)) : M W (result unit) :=
  r <- m ;; ret match r with Ok _ => Ok tt | Err e => if IsNotFound e then Ok tt else Err e end.

(** [steps] runs of [fn], each but the last ending in a conflict. *)
Inductive retried {W} (fn : M W (result unit)) : nat → W → result unit → W → Prop :=
| retried_last w r w' : fn w = Some (r, w') → retried fn 1 w r w'
| retried_again n w e w1 r w' :
    fn w = Some (Err e, w1) → IsConflict e = true → retried fn n w1 r w' → retried fn (S n) w r w'.

(** Documented behaviour of the libraries. *)
Class PlatformLaws (W : Type) `{Platform W} := {
  (** the function is run at least once, at most five times ([DefaultRetry]),
      and again only after a conflict *)
  retryOnConflict_runs fn w r w' :
    retryOnConflict fn w = Some (r, w') → ∃ n, (1 ≤ n ≤ 5)%nat ∧ retried fn n w r w';
  (** a range visits every entry once *)
  mapRange_perm m w l w' : mapRange m w = Some (l, w') → l ≡ₚ map_to_list m;
  containsFinalizer_add cr f : containsFinalizer (addFinalizer cr f) f = true;
  containsFinalizer_remove cr f : containsFinalizer (removeFinalizer cr f) f = false
}.
