(* ===== verification/Controller.v ===== *)
(** * The reconciler: observation, membership and status

    Models [internal/controller/]: endpoints and owned objects
    ([resources.go]), replica attachment and forgetting ([membership.go]), the
    status and the summary of the observed cluster ([status.go]).  Every
    function takes the platform and a [ClusterAdmin] over the same world. *)

From S2P Require Import Prelude GoStrings Cluster Slots Topology API ResourceBuilders Platform.
From Stdlib Require Import Ascii.
Local Open Scope string_scope.
Local Open Scope list_scope.
Local Open Scope Z_scope.

(** ** Pure helpers of status.go *)

Definition byID (state : ClusterState) : gmap string NodeInfo :=
  fold_left (λ m n, <[nID n := n]> m) (csNodes state) ∅.

Definition hostIndex (state : ClusterState) : gmap string NodeInfo :=
  fold_left (λ m n, <[nHost n := n]> m) (csNodes state) ∅.

(** [idx[id]] as an expression: the zero value if absent. *)
Definition nodeAt (idx : gmap string NodeInfo) (id : string) : NodeInfo :=
  default NodeInfo_zero (idx !! id).

Definition podNameFromHost (host : string) : string :=
  match Index host "." with
  | Some i => take_str i host
  | None => host
  end.

(** A shard is a master that owns slots. *)
Definition ownsSlots (n : NodeInfo) : bool := IsPrimary n && (0 <? SlotCount n).

Definition summarize (state : ClusterState) : Observed :=
  let replicaByPrimary : gmap string Z :=
    fold_left (λ m n, if negb (IsPrimary n) && negb (String.eqb (nMasterID n) "")
                      then <[nMasterID n := default 0 (m !! nMasterID n) + 1]> m else m)
      (csNodes state) ∅ in
  let '(primaries, counts) :=
    fold_left (λ '(primaries, counts) n,
      if ownsSlots n then (primaries + 1, counts ++ [default 0 (replicaByPrimary !! nID n)])
      else (primaries, counts)) (csNodes state) (0, []) in
  mkObserved (csFormed state) (csSlotsCovered state && negb (csOpenSlots state)) primaries counts.

(** [setCond]: the clock is read by the caller. *)
Fixpoint replaceCond (meta : Condition) (cs : list Condition) : list Condition :=
  match cs with
  | [] => [meta]
  | c :: cs' =>
      if String.eqb (cType c) (cType meta)
      then mkCondition (cType meta) (cStatus meta) (cReason meta) (cMessage meta) (cObservedGeneration meta)
             (if bool_decide (cStatus c = cStatus meta) then cLastTransitionTime c
              else cLastTransitionTime meta) :: cs'
      else c :: replaceCond meta cs'
  end.

Definition set_stConditions (cs : list Condition) (s : ValkeyClusterStatus) : ValkeyClusterStatus :=
  mkStatus (stPhase s) (stObservedGeneration s) (stReadyShards s) (stShards s) cs.
Definition set_stPhase (p : ValkeyClusterPhase) (s : ValkeyClusterStatus) : ValkeyClusterStatus :=
  mkStatus p (stObservedGeneration s) (stReadyShards s) (stShards s) (stConditions s).
Definition onStatus (g : ValkeyClusterStatus → ValkeyClusterStatus) (cr : ValkeyCluster) : ValkeyCluster :=
  mkCluster (crMeta cr) (crSpec cr) (g (crStatus cr)).

Definition setCondAt (t : Z) (cr : ValkeyCluster) (condType : string) (status : ConditionStatus)
    (reason msg : string) : ValkeyCluster :=
  let meta := mkCondition condType status reason msg (mGeneration (crMeta cr)) t in
  onStatus (λ s, set_stConditions (replaceCond meta (stConditions s)) s) cr.

(** The loop over the pods of shard [i]: node IDs and the primary found last. *)
Definition shardPods (cr : ValkeyCluster) (byHost : gmap string NodeInfo) (i : Z) :
    list string * option NodeInfo :=
  fold_left (λ '(ids, primary) j,
    match byHost !! PodFQDN cr i j with
    | None => (ids, primary)
    | Some n => (ids ++ [nID n], if ownsSlots n then Some n else primary)
    end) (seqZ 0 (crReplicas cr + 1)) ([], None).

Definition shardStatus (cr : ValkeyCluster) (state : ClusterState) (byHost : gmap string NodeInfo) (i : Z) :
    ShardStatus * bool :=
  let '(ids, primary) := shardPods cr byHost i in
  match primary with
  | None => (mkShardStatus (wrap32 i) "" "" "" 0 ids, false)
  | Some p =>
      let readyReplicas := Z.of_nat (length (List.filter (λ n, String.eqb (nMasterID n) (nID p) && nConnected n)
                                          (csNodes state))) in
      (mkShardStatus (wrap32 i) (podNameFromHost (nHost p)) (nID p) (FormatRanges (nSlots p))
         (wrap32 readyReplicas) ids, true)
  end.

Record StatusView := mkView {
  vShards : list ShardStatus;
  vReady : Z;
  vActualShards : Z;
  vAllReady : bool
}.

(** The part of [updateStatus] before the write. *)
Definition computeStatus (cr : ValkeyCluster) (state : ClusterState) : StatusView :=
  let byHost := hostIndex state in
  let per := map (shardStatus cr state byHost) (seqZ 0 (crShards cr)) in
  let ready := Z.of_nat (length (List.filter snd per)) in
  let actualShards := Z.of_nat (length (List.filter ownsSlots (csNodes state))) in
  let desired := crShards cr in
  mkView (map fst per) ready actualShards
    ((ready =? desired) && (actualShards =? desired) && csSlotsCovered state && negb (csOpenSlots state)).

(** The phase and the conditions to set, one case per branch of the switch. *)
Definition statusDecision (cr : ValkeyCluster) (state : ClusterState) (v : StatusView) :
    ValkeyClusterPhase * list (string * ConditionStatus * string * string) :=
  if vAllReady v then
    (PhaseReady,
     [(ConditionAvailable, ConditionTrue, "Ready", "all shards serving, full keyspace covered");
      (ConditionProgressing, ConditionFalse, "Ready", "converged");
      (ConditionDegraded, ConditionFalse, "Ready", "healthy")])
  else if (crShards cr <? vActualShards v) && (0 <? vReady v) then
    (PhaseResharding,
     [(ConditionProgressing, ConditionTrue, "Resharding", "removing shards");
      (ConditionAvailable, ConditionTrue, "Serving", "primaries serving during scale-in")])
  else if csOpenSlots state && (0 <? vReady v) then
    (PhaseResharding,
     [(ConditionProgressing, ConditionTrue, "Resharding", "slot migration in progress");
      (ConditionAvailable, ConditionTrue, "Serving", "primaries serving during migration")])
  else if vReady v =? 0 then
    (PhaseDegraded,
     [(ConditionAvailable, ConditionFalse, "NoPrimaries", "no shard has a reachable primary");
      (ConditionDegraded, ConditionTrue, "NoPrimaries", "no shard has a reachable primary")])
  else
    (PhaseDegraded,
     [(ConditionAvailable, ConditionFalse, "PartialCoverage",
       "not all shards serving or keyspace not fully covered");
      (ConditionDegraded, ConditionTrue, "PartialCoverage", "degraded")]).

(** ** Endpoints *)

Definition endpoint (cr : ValkeyCluster) (shard ordinal : Z) : Endpoint :=
  mkEndpoint (PodFQDN cr shard ordinal) ResourceBuilders.clientPort (PodName cr shard ordinal) (crNamespace cr).

Definition seed (cr : ValkeyCluster) : Endpoint := endpoint cr 0 0.

Definition ordinals (cr : ValkeyCluster) : list Z := seqZ 0 (crReplicas cr + 1).

Definition allEndpoints (cr : ValkeyCluster) : list Endpoint :=
  mjoin (map (λ i, map (endpoint cr i) (ordinals cr)) (seqZ 0 (crShards cr))).

Section Controller.
Context {W : Type} `{!Platform W} `{!ClusterAdmin W}.

(** ** Status writes *)

Definition setCond (cr : ValkeyCluster) (condType : string) (status : ConditionStatus)
    (reason msg : string) : M W ValkeyCluster :=
  t <- now ;; ret (setCondAt t cr condType status reason msg).

Fixpoint setConds (cr : ValkeyCluster) (cs : list (string * ConditionStatus * string * string)) :
    M W ValkeyCluster :=
  match cs with
  | [] => ret cr
  | (ty, st, reason, msg) :: cs' => cr <- setCond cr ty st reason msg ;; setConds cr cs'
  end.

Definition crKey (cr : ValkeyCluster) : NamespacedName := mkKey (crName cr) (crNamespace cr).

Definition updateStatus (cr : ValkeyCluster) (state : ClusterState) : M W (result unit) :=
  let v := computeStatus cr state in
  retryOnConflict (
    latest <-? getCR (crKey cr) ;;
    let '(phase, conds) := statusDecision cr state v in
    let latest := onStatus (λ s, mkStatus phase (mGeneration (crMeta latest)) (wrap32 (vReady v))
                                   (vShards v) (stConditions s)) latest in
    latest <- setConds latest conds ;;
    updateStatusCR latest).

Definition setPhase (cr : ValkeyCluster) (phase : ValkeyClusterPhase) (reason msg : string) :
    M W (result unit) :=
  retryOnConflict (
    latest <-? getCR (crKey cr) ;;
    latest <- setCond (onStatus (set_stPhase phase) latest) ConditionProgressing ConditionTrue reason msg ;;
    updateStatusCR latest).

(** ** Owned objects (resources.go) *)

Definition onResult {A B} (r : result A) (g : A → B) : result B :=
  match r with Ok a => Ok (g a) | Err e => Err e end.

Definition ensureConfigMap (cr : ValkeyCluster) : M W (result unit) :=
  let desired := ConfigMap cr in
  createOrUpdateConfigMap (mkKey (mName (cmMeta desired)) (mNamespace (cmMeta desired))) (λ cm,
    let m := set_mLabels (mLabels (cmMeta desired)) (cmMeta cm) in
    onResult (setControllerReference cr m) (λ m, mkConfigMap m (cmData desired))).

Definition ensureHeadlessService (cr : ValkeyCluster) : M W (result unit) :=
  let desired := HeadlessService cr in
  createOrUpdateService (mkKey (mName (svcMeta desired)) (mNamespace (svcMeta desired))) (λ svc,
    let m := set_mLabels (mLabels (svcMeta desired)) (svcMeta svc) in
    onResult (setControllerReference cr m) (λ m,
      mkService m "None" true (svcSelector desired) (svcPorts desired))).

(** The mutation of [ensureStatefulSets]: immutable fields are set only on an
    object that does not exist yet. *)
Definition mutateStatefulSet (cr : ValkeyCluster) (desired sts : StatefulSetObj) : result StatefulSetObj :=
  let fresh := match mCreationTimestamp (stsMeta sts) with None => true | Some _ => false end in
  let m := set_mLabels (mLabels (stsMeta desired)) (stsMeta sts) in
  onResult (setControllerReference cr m) (λ m,
    mkStatefulSet m
      (if fresh then stsServiceName desired else stsServiceName sts)
      (stsReplicas desired)
      (if fresh then stsPodManagement desired else stsPodManagement sts)
      (if fresh then stsSelector desired else stsSelector sts)
      (stsTemplate desired)
      (if fresh then stsClaims desired else stsClaims sts)
      (stsReadyReplicas sts)).

Definition ensureStatefulSets (cr : ValkeyCluster) : M W (result unit) :=
  forE (seqZ 0 (crShards cr)) (λ i,
    let desired := StatefulSet sum256 cr i in
    createOrUpdateStatefulSet (mkKey (mName (stsMeta desired)) (mNamespace (stsMeta desired)))
      (mutateStatefulSet cr desired)).

Fixpoint shardsReadyFrom (cr : ValkeyCluster) (want : Z) (shards : list Z) : M W (result bool) :=
  match shards with
  | [] => ret (Ok true)
  | i :: shards' =>
      r <- getStatefulSet (mkKey (StatefulSetName cr i) (crNamespace cr)) ;;
      match r with
      | Err e => ret (ignoreNotFoundWith false e)
      | Ok sts => if negb (stsReadyReplicas sts =? want) then ret (Ok false)
                  else shardsReadyFrom cr want shards'
      end
  end.

Definition shardsReady (cr : ValkeyCluster) : M W (result bool) :=
  shardsReadyFrom cr (wrap32 (1 + crReplicas cr)) (seqZ 0 (crShards cr)).

(** ** Membership (membership.go) *)

Fixpoint findShardPrimaryIn (cr : ValkeyCluster) (shard : Z) (idx : gmap string NodeInfo) (js : list Z) :
    M W (option (string * Z)) :=
  match js with
  | [] => ret None
  | j :: js' =>
      r <- MyID (endpoint cr shard j) ;;
      match r with
      | Err _ => findShardPrimaryIn cr shard idx js'
      | Ok id =>
          match idx !! id with
          | Some n => if ownsSlots n then ret (Some (id, j)) else findShardPrimaryIn cr shard idx js'
          | None => findShardPrimaryIn cr shard idx js'
          end
      end
  end.

Definition findShardPrimary (cr : ValkeyCluster) (shard : Z) (idx : gmap string NodeInfo) : M W (string * Z) :=
  found <- findShardPrimaryIn cr shard idx (ordinals cr) ;;
  match found with
  | Some p => ret p
  | None =>
      r <- MyID (endpoint cr shard 0) ;;
      match r with
      | Ok id => ret (id, 0)
      | Err _ => ret ("", -1)
      end
  end.

(** The pods of one shard, except its primary. *)
Definition attachPod (cr : ValkeyCluster) (idx : gmap string NodeInfo) (i : Z) (primaryID : string)
    (primaryOrd j : Z) : M W (result unit) :=
  if j =? primaryOrd then ret (Ok tt)
  else
    let ep := endpoint cr i j in
    r <- MyID ep ;;
    match r with
    | Err _ => ret (Ok tt)
    | Ok id =>
        if match idx !! id with Some n => String.eqb (nMasterID n) primaryID | None => false end
        then ret (Ok tt)
        else wrapE ("replicate " +:+ epHost ep) (Replicate ep primaryID)
    end.

Definition attachReplicas (cr : ValkeyCluster) (state : ClusterState) : M W (result unit) :=
  let idx := byID state in
  forE (seqZ 0 (crShards cr)) (λ i,
    p <- findShardPrimary cr i idx ;;
    let '(primaryID, primaryOrd) := p in
    if String.eqb primaryID "" then ret (Ok tt)
    else forE (ordinals cr) (attachPod cr idx i primaryID primaryOrd)).

Definition forgetEverywhere (cr : ValkeyCluster) (nodeID : string) : M W unit :=
  forM (allEndpoints cr) (λ ep, _ <- Forget ep nodeID ;; ret tt).

Definition existingShardIndexes (cr : ValkeyCluster) : M W (result (list Z)) :=
  items <-? listStatefulSets (crNamespace cr) {[ "app.kubernetes.io/instance" := crName cr ]} ;;
  ret (Ok (merge_sort Z.le (omap (λ sts,
    match mLabels (stsMeta sts) !! LabelShard with
    | None => None
    | Some v => match Atoi v with (n, None) => Some n | (_, Some _) => None end
    end) items))).

Definition existingPodHosts (cr : ValkeyCluster) : M W (result (gset string)) :=
  idxs <-? existingShardIndexes cr ;;
  ret (Ok (list_to_set (mjoin (map (λ i, map (PodFQDN cr i) (ordinals cr)) idxs)))).

Definition forgetStaleNodes (cr : ValkeyCluster) (state : ClusterState) : M W unit :=
  r <- existingPodHosts cr ;;
  match r with
  | Err _ => ret tt
  | Ok want =>
      forM (csNodes state) (λ n,
        if negb (String.eqb (nHost n) "") && negb (bool_decide (nHost n ∈ want))
        then forgetEverywhere cr (nID n) else ret tt)
  end.

(** The set [want] of desired hosts that the Go function also builds is never
    read. *)
Definition reconcileMembership (cr : ValkeyCluster) (state : ClusterState) : M W (result unit) :=
  let byHost := hostIndex state in
  _ <-? forE (allEndpoints cr) (λ ep,
    match byHost !! epHost ep with
    | Some _ => ret (Ok tt)
    | None => Meet (seed cr) ep
    end) ;;
  _ <-? attachReplicas cr state ;;
  _ <- forgetStaleNodes cr state ;;
  ret (Ok tt).

End Controller.
