(* ===== verification/Reconcile.v ===== *)
(** * The reconciler: scaling and the reconcile loop

    Models [scaling.go], [reconcile.go] and [valkeycluster_controller.go] of
    [internal/controller/]. *)

From S2P Require Import Prelude GoStrings Cluster Slots Topology API ResourceBuilders Platform.
From S2P Require Import Controller.
Local Open Scope string_scope.
Local Open Scope list_scope.
Local Open Scope Z_scope.

Definition drainBatchSlots : Z := 1024.

(** ** Scaling (scaling.go) *)

(** [fattestPrimary] over the entries of the map in the order they are
    visited. *)
Definition fattestPrimary (entries : list (string * NodeInfo)) (excludeID : string) : string * Z :=
  fold_left (λ '(bestID, best) '(id, n),
    if String.eqb id excludeID || negb (IsPrimary n) then (bestID, best)
    else if best <? SlotCount n then (id, SlotCount n) else (bestID, best)) entries ("", 0).

Section Scaling.
Context {W : Type} `{!Platform W} `{!ClusterAdmin W}.

(** [for need > 0 { ... }] of [scaleOut], on fuel. *)
Fixpoint fillLoop (fuel : nat) (cr : ValkeyCluster) (i : Z) (id : string) (idx : gmap string NodeInfo)
    (need : Z) : M W (result unit) :=
  if need <=? 0 then ret (Ok tt)
  else match fuel with
  | O => out_of_fuel
  | S fuel' =>
      entries <- mapRange idx ;;
      let '(srcID, srcSlots) := fattestPrimary entries id in
      if String.eqb srcID "" || (srcSlots =? 0) then ret (Ok tt)
      else
        let take := if srcSlots <? need then srcSlots else need in
        mv <- MoveSlots (seed cr) srcID id take ;;
        let '(moved, err) := mv in
        match err with
        | Some e => ret (Err (ErrWrap ("fill shard " +:+ Itoa i) e))
        | None =>
            if moved =? 0 then ret (Ok tt)
            else st <-? State (seed cr) ;;
                 fillLoop fuel' cr i id (byID st) (need - moved)
        end
  end.

(** Filling one new shard; [need] iterations are enough for a slot mover that
    moves at least one slot unless it reports none. *)
Definition fillShard (cr : ValkeyCluster) (perShard i : Z) : M W (result unit) :=
  r <- MyID (endpoint cr i 0) ;;
  let msg := "resolve new primary " +:+ Itoa i +:+ " id" in
  match r with
  | Err e => ret (Err (ErrWrap msg e))
  | Ok id =>
      if String.eqb id "" then ret (Err (ErrWrapNil msg))
      else
        st <-? State (seed cr) ;;
        let idx := byID st in
        let need := perShard - SlotCount (nodeAt idx id) in
        fillLoop (Z.to_nat need) cr i id idx need
  end.

Definition newShards (cr : ValkeyCluster) (oldShards : Z) : list Z :=
  seqZ oldShards (crShards cr - oldShards).

Definition scaleOut (cr : ValkeyCluster) (oldShards : Z) : M W (result unit) :=
  let desired := crShards cr in
  let perShard := Z.quot TotalSlots desired in
  _ <-? forE (newShards cr oldShards) (λ i,
    forE (ordinals cr) (λ j, Meet (seed cr) (endpoint cr i j))) ;;
  state <-? State (seed cr) ;;
  _ <-? attachReplicas cr state ;;
  _ <-? forE (newShards cr oldShards) (fillShard cr perShard) ;;
  state <-? State (seed cr) ;;
  attachReplicas cr state.

Definition hasExcessShardStatefulSets (cr : ValkeyCluster) : M W (result bool) :=
  idxs <-? existingShardIndexes cr ;;
  ret (Ok (existsb (λ i, crShards cr <=? i) idxs)).

Fixpoint firstSurvivorIn (cr : ValkeyCluster) (idx : gmap string NodeInfo) (excludeID : string)
    (shards : list Z) : M W string :=
  match shards with
  | [] => ret ""
  | s :: shards' =>
      p <- findShardPrimary cr s idx ;;
      let id := fst p in
      if negb (String.eqb id "") && negb (String.eqb id excludeID) then ret id
      else firstSurvivorIn cr idx excludeID shards'
  end.

Definition firstSurvivorPrimary (cr : ValkeyCluster) (idx : gmap string NodeInfo) (excludeID : string)
    (desired : Z) : M W string :=
  firstSurvivorIn cr idx excludeID (seqZ 0 desired).

Definition deletePVCs (pvcs : list ObjectMeta) : M W (result unit) :=
  forE pvcs (λ pvc, ignoreNotFound (deletePVC pvc)).

Definition deleteShardPVCs (cr : ValkeyCluster) (shard : Z) : M W (result unit) :=
  pvcs <-? listPVCs (crNamespace cr)
    (<[LabelShard := Itoa shard]> {[ "app.kubernetes.io/instance" := crName cr ]}) ;;
  deletePVCs pvcs.

Definition deleteShard (cr : ValkeyCluster) (shard : Z) : M W (result unit) :=
  _ <-? ignoreNotFound (deleteStatefulSet (mkKey (StatefulSetName cr shard) (crNamespace cr))) ;;
  deleteShardPVCs cr shard.

Definition deleteOwnedPVCs (cr : ValkeyCluster) : M W (result unit) :=
  pvcs <-? listPVCs (crNamespace cr) {[ "app.kubernetes.io/instance" := crName cr ]} ;;
  deletePVCs pvcs.

(** One departing shard: [Ok true] when it has been deleted and the loop goes
    on, [Ok false] when a batch of its slots was drained and [scaleIn] returns. *)
Definition retireShard (cr : ValkeyCluster) (i : Z) : M W (result bool) :=
  let desired := crShards cr in
  st <-? State (seed cr) ;;
  let idx := byID st in
  p <- findShardPrimary cr i idx ;;
  let departID := fst p in
  let departSlots := SlotCount (nodeAt idx departID) in
  if negb (String.eqb departID "") && (0 <? departSlots) then
    survID <- firstSurvivorPrimary cr idx departID desired ;;
    if String.eqb survID "" then
      ret (Err (ErrText ("no surviving primary to drain shard " +:+ Itoa i +:+ " into")))
    else
      let batch := if departSlots <? drainBatchSlots then departSlots else drainBatchSlots in
      mv <- MoveSlots (seed cr) departID survID batch ;;
      let '(moved, err) := mv in
      match err with
      | Some e => ret (Err (ErrWrap ("drain shard " +:+ Itoa i +:+ " (moved " +:+ Itoa moved
                              +:+ " before error)") e))
      | None => ret (Ok false)
      end
  else
    _ <- forM (ordinals cr) (λ j,
      r <- MyID (endpoint cr i j) ;;
      match r with
      | Ok id => if negb (String.eqb id "") then forgetEverywhere cr id else ret tt
      | Err _ => ret tt
      end) ;;
    _ <-? deleteShard cr i ;;
    ret (Ok true).

Fixpoint retireShards (cr : ValkeyCluster) (idxs : list Z) : M W (result unit) :=
  match idxs with
  | [] => ret (Ok tt)
  | i :: idxs' =>
      if i <? crShards cr then retireShards cr idxs'
      else
        go_on <-? retireShard cr i ;;
        if go_on : bool then retireShards cr idxs' else ret (Ok tt)
  end.

Definition scaleIn (cr : ValkeyCluster) : M W (result unit) :=
  r <- State (seed cr) ;;
  _ <- match r with
       | Ok st => forgetStaleNodes cr st
       | Err _ => ret tt
       end ;;
  idxs <-? existingShardIndexes cr ;;
  retireShards cr idxs.

(** ** Observe, decide, act (reconcile.go) *)

Definition formCluster (cr : ValkeyCluster) : M W (result unit) :=
  _ <-? forE (allEndpoints cr) (λ ep,
    if String.eqb (epHost ep) (epHost (seed cr)) then ret (Ok tt)
    else wrapE ("meet " +:+ epHost ep) (Meet (seed cr) ep)) ;;
  let dist := Distribute (crShards cr) in
  _ <-? forE (seqZ 0 (crShards cr)) (λ i,
    wrapE ("addslots shard " +:+ Itoa i)
      (AddSlots (endpoint cr i 0) [default (mkRange 0 0) (dist !! Z.to_nat i)])) ;;
  state <-? State (seed cr) ;;
  attachReplicas cr state.

Definition desiredOf (cr : ValkeyCluster) : Desired := mkDesired (crShards cr) (crReplicas cr).

(** A form, repair or shard change is several steps: requeue fast. *)
Definition isProgressing (k : ActionKind) : bool :=
  bool_decide (k = ActionForm) || bool_decide (k = ActionRepair) ||
  bool_decide (k = ActionScaleOutShards) || bool_decide (k = ActionScaleInShards).

(** The plan after the override for StatefulSets beyond the desired count. *)
Definition choosePlan (cr : ValkeyCluster) (observed : Observed) : M W (result Plan) :=
  let plan := Decide (desiredOf cr) observed in
  if negb (bool_decide (Kind plan = ActionForm)) && negb (bool_decide (Kind plan = ActionScaleOutShards))
  then
    excess <-? hasExcessShardStatefulSets cr ;;
    ret (Ok (if excess : bool then planOf ActionScaleInShards else plan))
  else ret (Ok plan).

Definition actOn (cr : ValkeyCluster) (state : ClusterState) (observed : Observed) (plan : Plan) :
    M W (result unit) :=
  match Kind plan with
  | ActionForm =>
      _ <- setPhase cr PhaseForming "Forming" "bootstrapping cluster" ;;
      formCluster cr
  | ActionRepair =>
      _ <- setPhase cr PhaseResharding "Repairing" "fixing open slots" ;;
      _ <- RepairSlots (seed cr) ;;
      ret (Ok tt)
  | ActionScaleOutShards =>
      _ <- setPhase cr PhaseResharding "Resharding" "adding shards" ;;
      scaleOut cr (oPrimaryCount observed)
  | ActionScaleInShards =>
      _ <- setPhase cr PhaseResharding "Resharding" "removing shards" ;;
      scaleIn cr
  | ActionScaleReplicas =>
      _ <- setPhase cr PhaseScalingReplicas "ScalingReplicas" "adjusting replicas" ;;
      reconcileMembership cr state
  | ActionNone => reconcileMembership cr state
  end.

Definition reconcileCluster (cr : ValkeyCluster) : M W (result bool) :=
  state <-? wrapE "observe cluster" (State (seed cr)) ;;
  let observed := summarize state in
  plan <-? choosePlan cr observed ;;
  _ <-? actOn cr state observed plan ;;
  state <-? wrapE "observe cluster (post-action)" (State (seed cr)) ;;
  _ <-? updateStatus cr state ;;
  ret (Ok (isProgressing (Kind plan))).

(** ** The reconciler (valkeycluster_controller.go) *)

Definition finalizer := "cache.razkevich.dev/finalizer".

(** [ctrl.Result] by its [RequeueAfter], in seconds; 0 is no requeue. *)
Definition requeueAfter : Z := 15.
Definition reshardRequeue : Z := 1.

Definition reconcileDelete (cr : ValkeyCluster) : M W (result Z) :=
  if containsFinalizer cr finalizer then
    _ <-? deleteOwnedPVCs cr ;;
    _ <-? updateCR (removeFinalizer cr finalizer) ;;
    ret (Ok 0)
  else ret (Ok 0).

(** The part of [Reconcile] after the finalizer is in place. *)
Definition reconcileLive (cr : ValkeyCluster) : M W (result Z) :=
  _ <-? ensureConfigMap cr ;;
  _ <-? ensureHeadlessService cr ;;
  _ <-? ensureStatefulSets cr ;;
  ready <-? shardsReady cr ;;
  if negb ready then
    _ <- setPhase cr PhaseProvisioning "Provisioning" "waiting for shard pods" ;;
    ret (Ok requeueAfter)
  else
    r <- reconcileCluster cr ;;
    match r with
    | Err _ => ret (Ok requeueAfter)
    | Ok progressing => ret (Ok (if progressing : bool then reshardRequeue else requeueAfter))
    end.

Definition Reconcile (req : NamespacedName) : M W (result Z) :=
  r <- getCR req ;;
  match r with
  | Err e => ret (ignoreNotFoundWith 0 e)
  | Ok cr =>
      match mDeletionTimestamp (crMeta cr) with
      | Some _ => reconcileDelete cr
      | None =>
          if containsFinalizer cr finalizer then reconcileLive cr
          else cr <-? updateCR (addFinalizer cr finalizer) ;; reconcileLive cr
      end
  end.

End Scaling.
