(* ===== verification/TestBed.v ===== *)
(** * A concrete world

    An in-memory API server next to a cluster, in the way the repository's own
    tests run the reconciler against envtest and the fake cluster.  It
    instantiates the interfaces the theorems are stated against, so that each
    of their hypotheses is met by an executable world.  [Flaky] adds pods
    that cannot be reached. *)

From S2P Require Import Prelude GoStrings Cluster Slots Fake API ResourceBuilders Platform.
Local Open Scope string_scope.
Local Open Scope list_scope.
Local Open Scope Z_scope.

Record KubeWorld := mkKube {
  kCRs : gmap (string * string) ValkeyCluster;
  kConfigMaps : gmap (string * string) ConfigMapObj;
  kServices : gmap (string * string) Service;
  kSets : gmap (string * string) StatefulSetObj;
  kPVCs : list ObjectMeta;
  kClock : Z
}.

Definition keyOf (k : NamespacedName) : string * string := (keyName k, keyNamespace k).
Definition metaKey (m : ObjectMeta) : string * string := (mName m, mNamespace m).

Definition emptyKube : KubeWorld := mkKube ∅ ∅ ∅ ∅ [] 0.

(** A server that holds one custom resource. *)
Definition kubeWith (cr : ValkeyCluster) : KubeWorld :=
  mkKube (<[metaKey (crMeta cr) := cr]> ∅) ∅ ∅ ∅ [] 0.

(** The world a computation leaves behind. *)
Definition worldAfter {W A} (m : M W A) (w : W) : W :=
  match m w with Some (_, w') => w' | None => w end.

Definition stamped (t : Z) (m : ObjectMeta) : ObjectMeta :=
  mkMeta (mName m) (mNamespace m) (mLabels m) (mFinalizers m) (mOwners m) (mGeneration m)
    (mResourceVersion m) (Some (default t (mCreationTimestamp m))) (mDeletionTimestamp m).

Definition set_mFinalizers (fs : list string) (m : ObjectMeta) : ObjectMeta :=
  mkMeta (mName m) (mNamespace m) (mLabels m) fs (mOwners m) (mGeneration m)
    (mResourceVersion m) (mCreationTimestamp m) (mDeletionTimestamp m).
Definition set_mOwners (os : list string) (m : ObjectMeta) : ObjectMeta :=
  mkMeta (mName m) (mNamespace m) (mLabels m) (mFinalizers m) os (mGeneration m)
    (mResourceVersion m) (mCreationTimestamp m) (mDeletionTimestamp m).

Section Server.
Context {V : Type}.

Definition kread {A} (g : KubeWorld → A) : M (KubeWorld * V) A := λ w, Some (g w.1, w).
Definition kwrite (g : KubeWorld → KubeWorld) : M (KubeWorld * V) (result unit) :=
  λ w, Some (Ok tt, (g w.1, w.2)).
Definition orNotFound {A} (name : string) (o : option A) : result A :=
  match o with Some a => Ok a | None => Err (ErrNotFound name) end.

Fixpoint retryN (n : nat) (fn : M (KubeWorld * V) (result unit)) : M (KubeWorld * V) (result unit) :=
  r <- fn ;;
  match r, n with
  | Err e, S n' => if IsConflict e then retryN n' fn else ret (Err e)
  | _, _ => ret r
  end.

#[export] Instance server_Platform : Platform (KubeWorld * V) := {|
  getCR k := kread (λ w, orNotFound (keyName k) (kCRs w !! keyOf k));
  updateCR cr := λ w, Some (Ok cr, (mkKube (<[metaKey (crMeta cr) := cr]> (kCRs w.1)) (kConfigMaps w.1)
    (kServices w.1) (kSets w.1) (kPVCs w.1) (kClock w.1), w.2));
  updateStatusCR cr := kwrite (λ w, mkKube (<[metaKey (crMeta cr) := cr]> (kCRs w)) (kConfigMaps w)
    (kServices w) (kSets w) (kPVCs w) (kClock w));
  createOrUpdateConfigMap k f := λ w,
    match f (default (mkConfigMap (metaOf (keyName k) (keyNamespace k)) ∅) (kConfigMaps w.1 !! keyOf k)) with
    | Err e => Some (Err e, w)
    | Ok c => Some (Ok tt, (mkKube (kCRs w.1) (<[keyOf k := c]> (kConfigMaps w.1)) (kServices w.1)
                (kSets w.1) (kPVCs w.1) (kClock w.1), w.2))
    end;
  createOrUpdateService k f := λ w,
    match f (default (mkService (metaOf (keyName k) (keyNamespace k)) "" false ∅ []) (kServices w.1 !! keyOf k)) with
    | Err e => Some (Err e, w)
    | Ok c => Some (Ok tt, (mkKube (kCRs w.1) (kConfigMaps w.1) (<[keyOf k := c]> (kServices w.1))
                (kSets w.1) (kPVCs w.1) (kClock w.1), w.2))
    end;
  createOrUpdateStatefulSet k f := λ w,
    match f (default (mkStatefulSet (metaOf (keyName k) (keyNamespace k)) "" 0 "" ∅
               (mkTemplate ∅ ∅ [] [] []) [] 0) (kSets w.1 !! keyOf k)) with
    | Err e => Some (Err e, w)
    | Ok s => Some (Ok tt, (mkKube (kCRs w.1) (kConfigMaps w.1) (kServices w.1)
                (<[keyOf k := mkStatefulSet (stamped (kClock w.1) (stsMeta s)) (stsServiceName s) (stsReplicas s)
                     (stsPodManagement s) (stsSelector s) (stsTemplate s) (stsClaims s) (stsReadyReplicas s)]>
                   (kSets w.1)) (kPVCs w.1) (kClock w.1), w.2))
    end;
  getStatefulSet k := kread (λ w, orNotFound (keyName k) (kSets w !! keyOf k));
  listStatefulSets ns sel := kread (λ w, Ok (List.filter (λ s, String.eqb (mNamespace (stsMeta s)) ns
    && bool_decide (sel ⊆ mLabels (stsMeta s))) (map snd (map_to_list (kSets w)))));
  deleteStatefulSet k := λ w,
    match kSets w.1 !! keyOf k with
    | None => Some (Err (ErrNotFound (keyName k)), w)
    | Some _ => Some (Ok tt, (mkKube (kCRs w.1) (kConfigMaps w.1) (kServices w.1)
                  (delete (keyOf k) (kSets w.1)) (kPVCs w.1) (kClock w.1), w.2))
    end;
  listPVCs ns sel := kread (λ w, Ok (List.filter (λ m, String.eqb (mNamespace m) ns
    && bool_decide (sel ⊆ mLabels m)) (kPVCs w)));
  deletePVC m := kwrite (λ w, mkKube (kCRs w) (kConfigMaps w) (kServices w) (kSets w)
    (List.filter (λ p, negb (bool_decide (metaKey p = metaKey m))) (kPVCs w)) (kClock w));
  setControllerReference cr m := Ok (set_mOwners [crName cr] m);
  containsFinalizer cr f := bool_decide (f ∈ mFinalizers (crMeta cr));
  addFinalizer cr f := mkCluster (set_mFinalizers (mFinalizers (crMeta cr) ++ [f]) (crMeta cr)) (crSpec cr) (crStatus cr);
  removeFinalizer cr f := mkCluster (set_mFinalizers (List.filter (λ x, negb (String.eqb x f))
    (mFinalizers (crMeta cr))) (crMeta cr)) (crSpec cr) (crStatus cr);
  retryOnConflict := retryN 4;
  now := λ w, Some (kClock w.1, (mkKube (kCRs w.1) (kConfigMaps w.1) (kServices w.1) (kSets w.1)
    (kPVCs w.1) (kClock w.1 + 1), w.2));
  mapRange m := ret (map_to_list m);
  sum256 s := s
|}.

Lemma retryN_runs n fn w r w' :
  retryN n fn w = Some (r, w') → ∃ k, (1 ≤ k ≤ S n)%nat ∧ retried fn k w r w'.
Proof.
  revert w. induction n as [|n IH]; intros w; simpl; unfold bind;
    destruct (fn w) as [[r1 w1]|] eqn:E; try done.
  - intros H. assert (r1 = r ∧ w1 = w') as [-> ->] by (destruct r1; injection H as <- <-; done).
    exists 1%nat. split; [lia|]. by constructor.
  - destruct r1 as [a|e].
    + intros [= <- <-]. exists 1%nat. split; [lia|]. by constructor.
    + destruct (IsConflict e) eqn:Ec.
      * intros (k & Hk & Hr)%IH. exists (S k). split; [lia|]. by eapply retried_again.
      * intros [= <- <-]. exists 1%nat. split; [lia|]. by constructor.
Qed.

#[export] Instance server_PlatformLaws : PlatformLaws (KubeWorld * V).
Proof.
  constructor.
  - intros fn w r w' H. by apply (retryN_runs 4).
  - intros m w l w' [= <- _]. done.
  - intros cr f. simpl. apply bool_decide_eq_true. set_solver.
  - intros cr f. simpl. apply bool_decide_eq_false. intros Hin%list_elem_of_In%filter_In.
    destruct Hin as [_ Hin]. by rewrite String.eqb_refl in Hin.
Qed.

(** A [ClusterAdmin] next to the server. *)
Definition onRight {A} (m : M V A) : M (KubeWorld * V) A :=
  λ w, match m w.2 with Some (a, v) => Some (a, (w.1, v)) | None => None end.

#[export] Instance right_ClusterAdmin `{ClusterAdmin V} : ClusterAdmin (KubeWorld * V) := {|
  State s := onRight (State s);
  MyID e := onRight (MyID e);
  Meet a b := onRight (Meet a b);
  AddSlots e r := onRight (AddSlots e r);
  Replicate e p := onRight (Replicate e p);
  Forget e n := onRight (Forget e n);
  Failover e := onRight (Failover e);
  Rebalance s o := onRight (Rebalance s o);
  Reshard s f t n := onRight (Reshard s f t n);
  MoveSlots s f t n := onRight (MoveSlots s f t n);
  Fix s := onRight (Fix s);
  RepairSlots s := onRight (RepairSlots s)
|}.

End Server.

(** ** A cluster some of whose pods do not answer *)

Record FlakyWorld := mkFlaky { unreachable : gset string; cluster : gmap string NodeInfo }.

Definition onCluster {A} (m : M (gmap string NodeInfo) A) : M FlakyWorld A :=
  λ w, match m (cluster w) with
       | Some (a, f) => Some (a, mkFlaky (unreachable w) f)
       | None => None
       end.

(** A call that dials the pod fails when the pod does not answer. *)
Definition dialing {A} (ep : Endpoint) (m : M (gmap string NodeInfo) (result A)) : M FlakyWorld (result A) :=
  λ w, if bool_decide (epHost ep ∈ unreachable w)
       then Some (Err (ErrText ("dial " +:+ epHost ep +:+ ": i/o timeout")), w)
       else onCluster m w.

#[export] Instance Flaky_ClusterAdmin : ClusterAdmin FlakyWorld := {|
  State s := dialing s (Fake.State s);
  MyID e := dialing e (Fake.MyID e);
  Meet a b := dialing a (Fake.Meet a b);
  AddSlots e r := dialing e (Fake.AddSlots e r);
  Replicate e p := dialing e (Fake.Replicate e p);
  Forget e n := dialing e (Fake.Forget e n);
  Failover e := dialing e (Fake.Failover e);
  Rebalance s o := dialing s (Fake.Rebalance s o);
  Reshard s f t n := dialing s (Fake.Reshard s f t n);
  MoveSlots s f t n := onCluster (Fake.MoveSlots s f t n);
  Fix s := dialing s (Fake.Fix s);
  RepairSlots s := onCluster (Fake.RepairSlots s)
|}.
