(* ===== verification/StatusProofs.v ===== *)
(** * Correctness of observation and status

    The indexes and the summary of an observed cluster, the conditions, and the
    truthfulness of the published phase. *)

From S2P Require Import Prelude GoStrings Cluster Slots Topology API ResourceBuilders.
From S2P Require Import ResourceProofs Platform Controller Reconcile Fake FakeProofs TestBed.
From Stdlib Require Import Ascii.
Local Open Scope string_scope.
Local Open Scope list_scope.
Local Open Scope Z_scope.

(** ** Indexes *)

Section Index.
Context (key : NodeInfo → string).

Lemma fold_index_spec ns (m : gmap string NodeInfo) k n :
  fold_left (λ m n, <[key n := n]> m) ns m !! k = Some n →
  (n ∈ ns ∧ key n = k) ∨ m !! k = Some n.
Proof.
  revert m. induction ns as [|x ns IH]; intros m; simpl; [by right|].
  intros [[Hn Hk]|Hm]%IH; [left; split; [by right|done]|].
  apply lookup_insert_Some in Hm as [[<- <-]|[_ Hm]]; [left; split; [left|done]|by right].
Qed.

Lemma fold_index_nodup ns (m : gmap string NodeInfo) n :
  NoDup (map key ns) → n ∈ ns → fold_left (λ m n, <[key n := n]> m) ns m !! key n = Some n.
Proof.
  assert (∀ ns (m : gmap string NodeInfo) k, k ∉ map key ns → fold_left (λ m n, <[key n := n]> m) ns m !! k = m !! k) as Hother.
  { clear. induction ns as [|x ns IH]; intros m k Hk; [done|]. simpl in *.
    apply not_elem_of_cons in Hk as [? ?]. rewrite IH by done. by rewrite lookup_insert_ne. }
  revert m. induction ns as [|x ns IH]; intros m Hnd Hin; [by apply not_elem_of_nil in Hin|].
  simpl in *. apply NoDup_cons in Hnd as [Hx Hnd]. apply elem_of_cons in Hin as [->|Hin]; [|by apply IH].
  rewrite Hother by done. apply lookup_insert_eq.
Qed.
End Index.

Lemma byID_sound st k n : byID st !! k = Some n → n ∈ csNodes st ∧ nID n = k.
Proof. intros H. apply fold_index_spec in H as [H|H]; [done|]. by rewrite lookup_empty in H. Qed.

Lemma byID_complete st n : NoDup (map nID (csNodes st)) → n ∈ csNodes st → byID st !! nID n = Some n.
Proof. apply fold_index_nodup. Qed.

Lemma hostIndex_sound st k n : hostIndex st !! k = Some n → n ∈ csNodes st ∧ nHost n = k.
Proof. intros H. apply fold_index_spec in H as [H|H]; [done|]. by rewrite lookup_empty in H. Qed.

Lemma hostIndex_complete st n :
  NoDup (map nHost (csNodes st)) → n ∈ csNodes st → hostIndex st !! nHost n = Some n.
Proof. apply fold_index_nodup. Qed.

(** ** The fattest primary *)

Lemma fattest_fold entries ex bid b :
  let r := fold_left (λ '(bestID, best) '(id, n),
    if String.eqb id ex || negb (IsPrimary n) then (bestID, best)
    else if best <? SlotCount n then (id, SlotCount n) else (bestID, best)) entries (bid, b) in
  b ≤ r.2 ∧
  (r = (bid, b) ∨ ∃ n, (r.1, n) ∈ entries ∧ r.1 ≠ ex ∧ IsPrimary n = true ∧ SlotCount n = r.2) ∧
  (∀ id n, (id, n) ∈ entries → id ≠ ex → IsPrimary n = true → SlotCount n ≤ r.2) ∧
  (r.2 = b → r = (bid, b)).
Proof.
  revert bid b. induction entries as [|[id n] l IH]; intros bid b.
  - simpl. split; [done|]. split; [by left|]. split; [|done]. intros ? ? []%elem_of_nil.
  - cbn [fold_left]. destruct (String.eqb_spec id ex) as [->|Hex]; cbn [orb].
    { destruct (IH bid b) as (H1 & H2 & H3 & H4). split; [done|]. split; [|split; [|done]].
      - destruct H2 as [H2|(m & ? & ?)]; [by left|]. right. exists m. split; [by right|done].
      - intros id' n' [Heq|?]%elem_of_cons ? ?; [injection Heq as -> ->; congruence|by eapply H3]. }
    destruct (IsPrimary n) eqn:Ep; cbn [negb].
    2: { destruct (IH bid b) as (H1 & H2 & H3 & H4). split; [done|]. split; [|split; [|done]].
      - destruct H2 as [H2|(m & ? & ?)]; [by left|]. right. exists m. split; [by right|done].
      - intros id' n' [Heq|?]%elem_of_cons ? ?; [injection Heq as -> ->; congruence|by eapply H3]. }
    destruct (Z.ltb_spec b (SlotCount n)) as [Hlt|Hge].
    + destruct (IH id (SlotCount n)) as (H1 & H2 & H3 & H4). split; [lia|]. split; [|split].
      * right. destruct H2 as [->|(m & ? & ?)]; [exists n; split; [left|done]|].
        exists m. split; [by right|done].
      * intros id' n' [Heq|?]%elem_of_cons ? ?; [injection Heq as -> ->; lia|by eapply H3].
      * lia.
    + destruct (IH bid b) as (H1 & H2 & H3 & H4). split; [done|]. split; [|split; [|done]].
      * destruct H2 as [H2|(m & ? & ?)]; [by left|]. right. exists m. split; [by right|done].
      * intros id' n' [Heq|?]%elem_of_cons ? ?; [injection Heq as -> ->; lia|by eapply H3].
Qed.

(** What [fattestPrimary] promises, whatever the order of the range. *)
Lemma fattestPrimary_spec entries ex id c :
  fattestPrimary entries ex = (id, c) →
  0 ≤ c ∧
  (0 < c → ∃ n, (id, n) ∈ entries ∧ id ≠ ex ∧ IsPrimary n = true ∧ SlotCount n = c) ∧
  (c = 0 → id = "") ∧
  (∀ id' n', (id', n') ∈ entries → id' ≠ ex → IsPrimary n' = true → SlotCount n' ≤ c).
Proof.
  intros E. pose proof (fattest_fold entries ex "" 0) as (H1 & H2 & H3 & H4).
  unfold fattestPrimary in E. rewrite E in *. simpl in *. split; [done|]. split; [|split].
  - intros Hc. destruct H2 as [H2|H2]; [|done]. injection H2. lia.
  - intros ->. by injection (H4 eq_refl).
  - done.
Qed.

(** The source [scaleOut] pulls from does not depend on Go's random map
    order: every order yields the same largest slot count, and the node chosen
    is a primary other than the one being filled that holds that many slots. *)
Theorem fattest_primary_maximal (idx : gmap string NodeInfo) (ex : string) entries entries' id c id' c' :
  entries ≡ₚ map_to_list idx → entries' ≡ₚ map_to_list idx →
  fattestPrimary entries ex = (id, c) → fattestPrimary entries' ex = (id', c') →
  c = c' ∧
  (0 < c → ∃ n, idx !! id = Some n ∧ id ≠ ex ∧ IsPrimary n = true ∧ SlotCount n = c) ∧
  (∀ k n, idx !! k = Some n → k ≠ ex → IsPrimary n = true → SlotCount n ≤ c).
Proof.
  intros Hp Hp' E E'. apply fattestPrimary_spec in E as (H0 & H1 & _ & H3), E' as (H0' & H1' & _ & H3').
  assert (∀ k n, (k, n) ∈ entries ↔ idx !! k = Some n) as Hin by (intros; by rewrite Hp, elem_of_map_to_list).
  assert (∀ k n, (k, n) ∈ entries' ↔ idx !! k = Some n) as Hin' by (intros; by rewrite Hp', elem_of_map_to_list).
  assert (c ≤ c').
  { destruct (decide (c = 0)) as [|Hc]; [lia|]. destruct H1 as (n & ?%Hin%Hin' & ? & ? & <-); [lia|]. by eapply H3'. }
  assert (c' ≤ c).
  { destruct (decide (c' = 0)) as [|Hc]; [lia|]. destruct H1' as (n & ?%Hin'%Hin & ? & ? & <-); [lia|]. by eapply H3. }
  split; [lia|]. split.
  - intros (n & ?%Hin & ? & ? & ?)%H1. eauto.
  - intros k n ?%Hin. by apply H3.
Qed.

Definition nodeWith (id : string) (c : Z) : NodeInfo :=
  mkNode id id "" 6379 ["master"] "" [mkRange 0 (c - 1)] true.

Lemma fattest_primary_maximal_witness :
  let idx : gmap string NodeInfo := <["a" := nodeWith "a" 5]> (<["b" := nodeWith "b" 5]> ∅) in
  fattestPrimary [("a", nodeWith "a" 5); ("b", nodeWith "b" 5)] "c" = ("a", 5) ∧
  fattestPrimary [("b", nodeWith "b" 5); ("a", nodeWith "a" 5)] "c" = ("b", 5) ∧
  5 = 5 ∧
  (0 < 5 → ∃ n, idx !! "a" = Some n ∧ "a" ≠ "c" ∧ IsPrimary n = true ∧ SlotCount n = 5) ∧
  (∀ k n, idx !! k = Some n → k ≠ "c" → IsPrimary n = true → SlotCount n ≤ 5).
Proof.
  split; [reflexivity|]. split; [reflexivity|].
  apply (fattest_primary_maximal (<["a" := nodeWith "a" 5]> (<["b" := nodeWith "b" 5]> ∅)) "c"
    [("a", nodeWith "a" 5); ("b", nodeWith "b" 5)] [("b", nodeWith "b" 5); ("a", nodeWith "a" 5)]
    "a" 5 "b" 5); [..|reflexivity|reflexivity].
  - rewrite map_to_list_insert by done. rewrite map_to_list_insert by done. by rewrite map_to_list_empty.
  - rewrite map_to_list_insert by done. rewrite map_to_list_insert by done. rewrite map_to_list_empty.
    apply perm_swap.
Defined.

(** ** Conditions *)

(** The condition of a type, as [meta.FindStatusCondition] reads it. *)
Definition condOf (ty : string) (cs : list Condition) : option Condition :=
  List.find (λ c, String.eqb (cType c) ty) cs.

(** The transition time moves only when the status does. *)
Definition transitionTime (old : option Condition) (st : ConditionStatus) (t : Z) : Z :=
  match old with
  | Some c => if bool_decide (cStatus c = st) then cLastTransitionTime c else t
  | None => t
  end.

Lemma condOf_replaceCond_eq meta cs :
  condOf (cType meta) (replaceCond meta cs) =
  Some (mkCondition (cType meta) (cStatus meta) (cReason meta) (cMessage meta) (cObservedGeneration meta)
          (transitionTime (condOf (cType meta) cs) (cStatus meta) (cLastTransitionTime meta))).
Proof.
  unfold condOf. induction cs as [|c cs IH]; simpl.
  - rewrite String.eqb_refl. by destruct meta.
  - destruct (String.eqb (cType c) (cType meta)) eqn:E; simpl; [by rewrite String.eqb_refl|].
    by rewrite E.
Qed.

Lemma condOf_replaceCond_ne ty meta cs :
  ty ≠ cType meta → condOf ty (replaceCond meta cs) = condOf ty cs.
Proof.
  unfold condOf. intros Hne. induction cs as [|c cs IH]; simpl.
  - destruct (String.eqb_spec (cType meta) ty); congruence.
  - destruct (String.eqb_spec (cType c) (cType meta)) as [E|E]; simpl.
    + destruct (String.eqb_spec (cType meta) ty), (String.eqb_spec (cType c) ty); congruence.
    + by rewrite IH.
Qed.

(** The types keep their order; a new one goes to the end. *)
Lemma replaceCond_types meta cs :
  map cType (replaceCond meta cs) =
  map cType cs ++ (if bool_decide (cType meta ∈ map cType cs) then [] else [cType meta]).
Proof.
  induction cs as [|c cs IH]; cbn [map replaceCond app].
  - rewrite bool_decide_eq_false_2; [done|set_solver].
  - destruct (String.eqb_spec (cType c) (cType meta)) as [E|E]; cbn [map cType].
    + rewrite bool_decide_eq_true_2 by (rewrite E; left). by rewrite app_nil_r, E.
    + rewrite IH. f_equal. f_equal.
      destruct (decide (cType meta ∈ map cType cs)).
      * rewrite !bool_decide_eq_true_2; [done|by right|done].
      * rewrite !bool_decide_eq_false_2; [done| |done]. intros [?|?]%elem_of_cons; congruence.
Qed.

Lemma replaceCond_nodup meta cs :
  NoDup (map cType cs) → NoDup (map cType (replaceCond meta cs)).
Proof.
  intros Hnd. rewrite replaceCond_types. case_bool_decide as Hin; [by rewrite app_nil_r|].
  apply NoDup_app. split; [done|]. split; [|apply NoDup_singleton].
  intros x Hx ->%list_elem_of_singleton. done.
Qed.

(** [setCond] keeps one condition per type, writes exactly the condition it
    is given, moves its transition time only when the status changes, and
    leaves every other condition and the rest of the resource alone. *)
Theorem set_cond_upserts (t : Z) (cr : ValkeyCluster) (ty : string) (st : ConditionStatus) (reason msg : string) :
  let cs := stConditions (crStatus cr) in
  let cr' := setCondAt t cr ty st reason msg in
  let cs' := stConditions (crStatus cr') in
  condOf ty cs' = Some (mkCondition ty st reason msg (mGeneration (crMeta cr))
                          (transitionTime (condOf ty cs) st t)) ∧
  (∀ ty', ty' ≠ ty → condOf ty' cs' = condOf ty' cs) ∧
  (NoDup (map cType cs) → NoDup (map cType cs')) ∧
  (length cs ≤ length cs' ≤ S (length cs))%nat ∧
  crMeta cr' = crMeta cr ∧ crSpec cr' = crSpec cr ∧
  set_stConditions cs (crStatus cr') = crStatus cr.
Proof.
  simpl. split; [apply (condOf_replaceCond_eq (mkCondition ty st reason msg _ t))|].
  split; [intros; by apply condOf_replaceCond_ne|]. split; [apply replaceCond_nodup|].
  split; [|by destruct cr as [? ? []]].
  pose proof (f_equal length (replaceCond_types (mkCondition ty st reason msg (mGeneration (crMeta cr)) t)
    (stConditions (crStatus cr)))) as E.
  rewrite length_app, !length_map in E. case_bool_decide; simpl in E; lia.
Qed.

(** ** The published status *)

(** What [Ready] promises: every declared shard has a pod whose node is a
    primary that owns slots, there are no other slot owners, the keyspace is
    covered and no slot is open. *)
Definition serving (cr : ValkeyCluster) (state : ClusterState) : Prop :=
  (∀ i, 0 ≤ i < crShards cr → ∃ j n, 0 ≤ j ≤ crReplicas cr ∧
     hostIndex state !! PodFQDN cr i j = Some n ∧ ownsSlots n = true) ∧
  Z.of_nat (length (List.filter ownsSlots (csNodes state))) = crShards cr ∧
  csSlotsCovered state = true ∧ csOpenSlots state = false.

Lemma shardPods_primary cr byHost i :
  match snd (shardPods cr byHost i) with
  | Some n => ∃ j, 0 ≤ j ≤ crReplicas cr ∧ byHost !! PodFQDN cr i j = Some n ∧ ownsSlots n = true
  | None => ∀ j n, 0 ≤ j ≤ crReplicas cr → byHost !! PodFQDN cr i j = Some n → ownsSlots n = false
  end.
Proof.
  unfold shardPods.
  enough (∀ js ids p,
    match snd (fold_left (λ '(ids, primary) j,
      match byHost !! PodFQDN cr i j with
      | None => (ids, primary)
      | Some n => (ids ++ [nID n], if ownsSlots n then Some n else primary)
      end) js (ids, p)) with
    | Some n => p = Some n ∨ ∃ j, j ∈ js ∧ byHost !! PodFQDN cr i j = Some n ∧ ownsSlots n = true
    | None => p = None ∧ ∀ j n, j ∈ js → byHost !! PodFQDN cr i j = Some n → ownsSlots n = false
    end) as Haux.
  { specialize (Haux (seqZ 0 (crReplicas cr + 1)) [] None).
    destruct (snd _) as [n|]; setoid_rewrite elem_of_seqZ in Haux.
    - destruct Haux as [|(j & ? & ?)]; [done|]. exists j. split; [lia|done].
    - destruct Haux as [_ Haux]. intros j n Hj. apply Haux. lia. }
  clear. induction js as [|j js IH]; intros ids p; cbn [fold_left].
  - simpl. destruct p; [by left|]. split; [done|]. by intros ? ? ?%elem_of_nil.
  - destruct (byHost !! PodFQDN cr i j) as [m|] eqn:Ej.
    + specialize (IH (ids ++ [nID m]) (if ownsSlots m then Some m else p)).
      destruct (snd _) as [n|].
      * destruct IH as [IH|(k & ? & ?)]; [|right; exists k; split; [by right|done]].
        destruct (ownsSlots m) eqn:Em; [|by left].
        injection IH as ->. right. exists j. split; [left|done].
      * destruct (ownsSlots m) eqn:Em; [by destruct IH|]. destruct IH as [-> IH]. split; [done|].
        intros k n [->|?]%elem_of_cons ?; [congruence|eauto].
    + specialize (IH ids p). destruct (snd _) as [n|].
      * destruct IH as [->|(k & ? & ?)]; [by left|]. right. exists k. split; [by right|done].
      * destruct IH as [-> IH]. split; [done|]. intros k n [->|?]%elem_of_cons ?; [congruence|eauto].
Qed.

Lemma shardStatus_ready cr state i :
  snd (shardStatus cr state (hostIndex state) i) = true ↔
  ∃ j n, 0 ≤ j ≤ crReplicas cr ∧ hostIndex state !! PodFQDN cr i j = Some n ∧ ownsSlots n = true.
Proof.
  unfold shardStatus. pose proof (shardPods_primary cr (hostIndex state) i) as H.
  destruct (shardPods cr (hostIndex state) i) as [ids [p|]]; simpl in *.
  - split; [|done]. intros _. destruct H as (j & ? & ? & ?). eauto.
  - split; [done|]. intros (j & n & ? & ? & ?). rewrite (H j n) in *; done.
Qed.

Lemma filter_length_all {A} (f : A → bool) l :
  length (List.filter f l) = length l ↔ ∀ x, x ∈ l → f x = true.
Proof.
  induction l as [|x l IH]; simpl; [split; [intros _ ? []%elem_of_nil|done]|].
  pose proof (filter_length_le f l). destruct (f x) eqn:E; simpl.
  - rewrite Nat.succ_inj_wd, IH. split; [|intros H' y ?; apply H'; by right].
    intros H' y [->|?]%elem_of_cons; [done|by apply H'].
  - split; [lia|]. intros H'. rewrite (H' x) in E; [done|left].
Qed.

(** [computeStatus] decides [serving]. *)
Lemma computeStatus_allReady cr state : vAllReady (computeStatus cr state) = true ↔ serving cr state.
Proof.
  unfold computeStatus, serving. simpl. rewrite !andb_true_iff, !Z.eqb_eq, negb_true_iff.
  set (per := map (shardStatus cr state (hostIndex state)) (seqZ 0 (crShards cr))).
  assert (0 ≤ crShards cr → Z.of_nat (length (List.filter snd per)) = crShards cr ↔
    ∀ i, 0 ≤ i < crShards cr → ∃ j n, 0 ≤ j ≤ crReplicas cr ∧
     hostIndex state !! PodFQDN cr i j = Some n ∧ ownsSlots n = true) as Hall.
  { intros Hpos. assert (length per = Z.to_nat (crShards cr)) as Hlen
      by (unfold per; rewrite length_map, length_seqZ; lia).
    transitivity (length (List.filter snd per) = length per); [lia|].
    rewrite filter_length_all. setoid_rewrite <- shardStatus_ready. unfold per. split.
    - intros H i Hi. apply H, list_elem_of_fmap. exists i. split; [done|]. apply elem_of_seqZ. lia.
    - intros H x (i & -> & Hi%elem_of_seqZ)%list_elem_of_fmap. apply H. lia. }
  split; intros H; destruct_and! H; (split_and!; [|done..]); apply Hall; lia || done.
Qed.

(** The cases of the phase. *)
Lemma statusDecision_ready cr state :
  fst (statusDecision cr state (computeStatus cr state)) = PhaseReady ↔ serving cr state.
Proof.
  rewrite <- computeStatus_allReady. unfold statusDecision.
  destruct (vAllReady _); [done|]. split; [|done]. by repeat case_match.
Qed.

(** [Available] as the conditions to set say, per phase. *)
Lemma statusDecision_available cr state v :
  let d := statusDecision cr state v in
  ∃ st reason msg, (ConditionAvailable, st, reason, msg) ∈ snd d ∧
  NoDup (map (λ x, fst (fst (fst x))) (snd d)) ∧
  (st = ConditionTrue ↔ fst d = PhaseReady ∨ fst d = PhaseResharding) ∧ st ≠ ConditionUnknown.
Proof.
  simpl. unfold statusDecision.
  repeat case_match; simpl; eexists _, _, _; (split; [repeat (apply list_elem_of_here || apply list_elem_of_further)|]);
    (split; [by apply (bool_decide_unpack _); vm_compute|split; [intuition congruence|done]]).
Qed.

Section Published.
Context {W : Type} `{!Platform W} `{!ClusterAdmin W}.

(** The conditions after [setConds]. *)
Lemma setConds_spec cs cr w :
  NoDup (map (λ x, fst (fst (fst x))) cs) →
  wlp (setConds cr cs) (λ cr' _,
    crMeta cr' = crMeta cr ∧ crSpec cr' = crSpec cr ∧
    set_stConditions (stConditions (crStatus cr)) (crStatus cr') = crStatus cr ∧
    (∀ ty, ty ∉ map (λ x, fst (fst (fst x))) cs →
       condOf ty (stConditions (crStatus cr')) = condOf ty (stConditions (crStatus cr))) ∧
    (∀ ty st reason msg, (ty, st, reason, msg) ∈ cs →
       cStatus <$> condOf ty (stConditions (crStatus cr')) = Some st)) w.
Proof.
  revert cr w. induction cs as [|[[[ty st] reason] msg] cs IH]; intros cr w Hnd; simpl.
  - wlp_step. split_and!; [done|done|by destruct (crStatus cr)|done|].
    by intros ? ? ? ? ?%elem_of_nil.
  - apply NoDup_cons in Hnd as [Hty Hnd]. wlp_step. unfold setCond. wlp_step. intros t w1 _. wlp_step.
    eapply wlp_mono; [by apply IH|]. clear IH. intros cr' w2 (Hm & Hs & Hr & Hout & Hin).
    split_and!; [done|done|..].
    + by destruct cr as [? ? []], cr' as [? ? []]; simplify_eq/=.
    + intros ty' [? ?]%not_elem_of_cons. rewrite Hout by done. by apply condOf_replaceCond_ne.
    + intros ty' st' reason' msg' [E|E]%elem_of_cons; [|by eapply Hin].
      injection E as -> -> -> ->. rewrite Hout by done.
      pose proof (condOf_replaceCond_eq (mkCondition ty st reason msg (mGeneration (crMeta cr)) t)
        (stConditions (crStatus cr))) as Hc. simpl in Hc |- *. by rewrite Hc.
Qed.

(** One attempt of [updateStatus] writes a status computed from the state. *)
Definition published (cr : ValkeyCluster) (state : ClusterState) (latest pub : ValkeyCluster) : Prop :=
  crMeta pub = crMeta latest ∧ crSpec pub = crSpec latest ∧
  stObservedGeneration (crStatus pub) = mGeneration (crMeta latest) ∧
  stShards (crStatus pub) = vShards (computeStatus cr state) ∧
  (stPhase (crStatus pub) = PhaseReady ↔ serving cr state) ∧
  ((cStatus <$> condOf ConditionAvailable (stConditions (crStatus pub))) = Some ConditionTrue ↔
     stPhase (crStatus pub) = PhaseReady ∨ stPhase (crStatus pub) = PhaseResharding) ∧
  (stPhase (crStatus pub) = PhaseResharding →
     condOf ConditionDegraded (stConditions (crStatus pub)) =
     condOf ConditionDegraded (stConditions (crStatus latest))).

Lemma statusDecision_resharding cr state v :
  fst (statusDecision cr state v) = PhaseResharding →
  ConditionDegraded ∉ map (λ x, fst (fst (fst x))) (snd (statusDecision cr state v)).
Proof.
  unfold statusDecision. repeat case_match; simpl; try done; intros _; apply (bool_decide_unpack _); by vm_compute.
Qed.

(** What a call under [RetryOnConflict] ends with is what its body ends with. *)
Lemma retryOnConflict_final `{!PlatformLaws W} (fn : M W (result unit)) (Q : result unit → W → Prop) w :
  (∀ w0, wlp fn Q w0) → wlp (retryOnConflict fn) Q w.
Proof.
  intros HQ r w' (n & _ & Hrun)%retryOnConflict_runs. induction Hrun; [by eapply HQ|done].
Qed.

Lemma updateStatus_writes `{!PlatformLaws W} cr state w :
  wlp (updateStatus cr state) (λ r w', r = Ok tt → ∃ w0 latest w1 pub w2,
    getCR (crKey cr) w0 = Some (Ok latest, w1) ∧ updateStatusCR pub w2 = Some (Ok tt, w') ∧
    published cr state latest pub) w.
Proof.
  apply retryOnConflict_final. intros w0. clear w. rename w0 into w.
  wlp_step. intros [latest|e] w1 Hget; [|done].
  destruct (statusDecision cr state (computeStatus cr state)) as [phase conds] eqn:Ed.
  pose proof (statusDecision_ready cr state) as Hr.
  pose proof (statusDecision_resharding cr state (computeStatus cr state)) as Hresh.
  destruct (statusDecision_available cr state (computeStatus cr state)) as (st & re & ms & Hin & Hnd & Hav & Hnu).
  rewrite Ed in *. simpl in *. wlp_step.
  eapply wlp_mono; [by apply setConds_spec|]. intros pub w2 (Hm & Hs & Hrest & Hout & Hset).
  intros r w' Hup ->. exists w, latest, w1, pub, w2. split; [done|]. split; [done|].
  apply Hset in Hin. unfold published. simpl in *.
  assert (stPhase (crStatus pub) = phase ∧ stObservedGeneration (crStatus pub) = mGeneration (crMeta latest) ∧
    stShards (crStatus pub) = vShards (computeStatus cr state)) as (-> & ? & ?).
  { clear -Hrest. destruct (crStatus pub). unfold set_stConditions in Hrest. simpl in *. by injection Hrest. }
  split_and!; try done.
  - rewrite Hin. rewrite <- Hav. split; [by intros [= ->]|by intros ->].
  - intros ->. by rewrite Hout by auto.
Qed.

(** C11: what [updateStatus] writes is truthful: after a successful call, the
    last write is the resource as last read, its status recomputed from the
    observed state, with phase [Ready] exactly when every declared shard is
    served and nothing else owns slots, and [Available] exactly in the phases
    [Ready] and [Resharding].  While resharding, [Degraded] is left as it was. *)
Theorem update_status_truthful `{!PlatformLaws W} (cr : ValkeyCluster) (state : ClusterState) (w w' : W) :
  updateStatus cr state w = Some (Ok tt, w') →
  ∃ w0 latest w1 pub w2,
    getCR (crKey cr) w0 = Some (Ok latest, w1) ∧
    updateStatusCR pub w2 = Some (Ok tt, w') ∧
    published cr state latest pub.
Proof.
  intros H. by apply (updateStatus_writes cr state w _ _ H).
Qed.
End Published.

(** A cluster of one shard that is serving. *)
Definition soloCR : ValkeyCluster := sampleCR "solo" 1 0.
Definition soloState : ClusterState :=
  mkState true true false [mkNode "n0" (PodFQDN soloCR 0 0) "10.0.0.1" 6379 ["master"] "" [mkRange 0 16383] true].
Definition soloWorld : KubeWorld * gmap string NodeInfo := (kubeWith soloCR, Fake.NewFake).

Lemma update_status_truthful_witness :
  serving soloCR soloState ∧
  ∃ (w0 : KubeWorld * gmap string NodeInfo) latest w1 pub w2,
    getCR (crKey soloCR) w0 = Some (Ok latest, w1) ∧
    updateStatusCR pub w2 = Some (Ok tt, worldAfter (updateStatus soloCR soloState) soloWorld) ∧
    published soloCR soloState latest pub.
Proof.
  split; [apply computeStatus_allReady; vm_compute; reflexivity|].
  apply (update_status_truthful soloCR soloState soloWorld). vm_compute. reflexivity.
Defined.

(** ** The summary and the plan *)

(** The replicas a node has: the non-primaries that name it as their master. *)
Definition replicasOf (state : ClusterState) (id : string) : Z :=
  Z.of_nat (length (List.filter (λ n, negb (IsPrimary n) && String.eqb (nMasterID n) id) (csNodes state))).

(** Only a primary can have no master, so nothing is counted for the empty ID. *)
Lemma count_fold ns (m : gmap string Z) id :
  default 0 (fold_left (λ m n, if negb (IsPrimary n) && negb (String.eqb (nMasterID n) "")
    then <[nMasterID n := default 0 (m !! nMasterID n) + 1]> m else m) ns m !! id) =
  default 0 (m !! id) +
  Z.of_nat (length (List.filter (λ n, negb (IsPrimary n) && String.eqb (nMasterID n) id) ns)).
Proof.
  revert m. induction ns as [|n ns IH]; intros m; cbn [fold_left List.filter length]; [lia|].
  rewrite IH. destruct (IsPrimary n) eqn:Ep; cbn [negb andb]; [done|].
  destruct (String.eqb_spec (nMasterID n) "") as [E|E]; cbn [negb].
  { rewrite (proj2 (IsPrimary_spec n)) in Ep by (by right). done. }
  destruct (String.eqb_spec (nMasterID n) id) as [<-|E'].
  - rewrite lookup_insert_eq. simpl. lia.
  - by rewrite lookup_insert_ne.
Qed.

Lemma summarize_spec state :
  summarize state = mkObserved (csFormed state) (csSlotsCovered state && negb (csOpenSlots state))
    (Z.of_nat (length (List.filter ownsSlots (csNodes state))))
    (map (λ n, replicasOf state (nID n)) (List.filter ownsSlots (csNodes state))).
Proof.
  unfold summarize.
  set (rb := fold_left _ (csNodes state) ∅).
  assert (∀ id, default 0 (rb !! id) = replicasOf state id) as Hrb.
  { intros id. unfold rb. rewrite count_fold, lookup_empty. simpl. unfold replicasOf. lia. }
  assert (∀ ns p c,
    fold_left (λ '(primaries, counts) n,
      if ownsSlots n then (primaries + 1, counts ++ [default 0 (rb !! nID n)])
      else (primaries, counts)) ns (p, c) =
    (p + Z.of_nat (length (List.filter ownsSlots ns)),
     c ++ map (λ n, replicasOf state (nID n)) (List.filter ownsSlots ns))) as Hf.
  { induction ns as [|n ns IH]; intros p c; cbn [fold_left List.filter].
    - simpl. by rewrite Z.add_0_r, app_nil_r.
    - destruct (ownsSlots n); rewrite IH; [|done]. cbn [length map]. f_equal; [lia|].
      rewrite Hrb. by rewrite <- app_assoc. }
  rewrite Hf. by rewrite Z.add_0_l.
Qed.

(** What an implementation of [State] promises the planner: a cluster that it
    reports as covered is also reported as formed. *)
Class ReportsFormed (V : Type) `{!ClusterAdmin V} : Prop :=
  covered_formed : ∀ e v st v', State e v = Some (Ok st, v') → csSlotsCovered st = true → csFormed st = true.

#[export] Instance fake_ReportsFormed : ReportsFormed (gmap string NodeInfo).
Proof.
  intros e f st f' [= <- <-] Hc. simpl in *. apply Z.eqb_eq in Hc. rewrite Hc. apply andb_true_iff. split; [|done].
  destruct (Nat.eqb_spec (size f) 0) as [E|]; [|done]. apply map_size_empty_inv in E as ->. by rewrite assigned_empty in Hc.
Qed.

#[export] Instance right_ReportsFormed {V} `{!ClusterAdmin V} `{!ReportsFormed V} : ReportsFormed (KubeWorld * V).
Proof.
  intros e [k v] st [k' v'] E. simpl in E. unfold onRight in E. simpl in E.
  destruct (State e v) as [[[st0|] v0]|] eqn:E0; [|done..]. injection E as <- <- <-. by apply (covered_formed e v st0 v0).
Qed.

(** The plan, branch by branch, with the StatefulSets that overrule it. *)
Lemma choosePlan_cases {W} `{!Platform W} (cr : ValkeyCluster) (o : Observed) (w w' : W) (p : Plan) :
  choosePlan cr o w = Some (Ok p, w') →
  let d := Decide (desiredOf cr) o in
  (p = d ∧ (Kind d = ActionForm ∨ Kind d = ActionScaleOutShards)) ∨
  ∃ idxs, existingShardIndexes cr w = Some (Ok idxs, w') ∧
    ((p = d ∧ ∀ i, i ∈ idxs → i < crShards cr) ∨ (p = planOf ActionScaleInShards ∧ ∃ i, i ∈ idxs ∧ crShards cr ≤ i)).
Proof.
  unfold choosePlan. cbv zeta. set (d := Decide _ _).
  destruct (negb (bool_decide (Kind d = ActionForm)) && negb (bool_decide (Kind d = ActionScaleOutShards))) eqn:Ek.
  2: { intros [= <- <-]. left. split; [done|]. apply andb_false_iff in Ek as [Ek|Ek]; apply negb_false_iff, bool_decide_eq_true in Ek; auto. }
  unfold hasExcessShardStatefulSets, bindE, bind. destruct (existingShardIndexes cr w) as [[[idxs|e] w1]|]; [|done..].
  intros [= <- <-]. right. exists idxs. split; [done|]. destruct (existsb _ idxs) eqn:Ex.
  - right. split; [done|]. apply existsb_exists in Ex as (i & Hi%list_elem_of_In & Hle%Z.leb_le). by exists i.
  - left. split; [done|]. intros i Hi%list_elem_of_In. destruct (Z.ltb_spec i (crShards cr)); [done|].
    assert (existsb (λ i, crShards cr <=? i) idxs = true); [|congruence].
    apply existsb_exists. exists i. by rewrite Z.leb_le.
Qed.

(** C32: the status and the plan agree.  On the state that a pass observed:
    when [updateStatus] publishes it as Ready, the plan is no form, no repair
    and no growth, and to remove shards only if a StatefulSet beyond the
    declared shards is left, and then always; and the plan is to do nothing
    exactly when the declared number of primaries own slots, each has the
    declared number of replicas, all slots are covered with none open, and no
    StatefulSet beyond the declared shards is left. *)
Theorem ready_agrees_with_plan {W : Type} `{!Platform W} `{!ClusterAdmin W} `{!ReportsFormed W} (cr : ValkeyCluster)
    (state : ClusterState) (w0 w w' : W) (p : Plan) :
  State (seed cr) w0 = Some (Ok state, w) → choosePlan cr (summarize state) w = Some (Ok p, w') →
  (fst (statusDecision cr state (computeStatus cr state)) = PhaseReady →
   ∃ idxs, existingShardIndexes cr w = Some (Ok idxs, w') ∧
     (((Kind p = ActionScaleReplicas ∨ Kind p = ActionNone) ∧ ∀ i, i ∈ idxs → i < crShards cr) ∨
      (Kind p = ActionScaleInShards ∧ ∃ i, i ∈ idxs ∧ crShards cr ≤ i))) ∧
  (Kind p = ActionNone ↔
     Z.of_nat (length (List.filter ownsSlots (csNodes state))) = crShards cr ∧
     csSlotsCovered state = true ∧ csOpenSlots state = false ∧
     (∀ n, n ∈ csNodes state → ownsSlots n = true → replicasOf state (nID n) = crReplicas cr) ∧
     ∃ idxs, existingShardIndexes cr w = Some (Ok idxs, w') ∧ ∀ i, i ∈ idxs → i < crShards cr).
Proof.
  intros Hstate Hp. pose proof (covered_formed _ _ _ _ Hstate) as HF. apply choosePlan_cases in Hp. cbv zeta in Hp.
  pose proof (summarize_spec state) as Eo. set (o := summarize state) in *. set (d := Decide (desiredOf cr) o) in *.
  assert (converged (desiredOf cr) o ↔
     Z.of_nat (length (List.filter ownsSlots (csNodes state))) = crShards cr ∧
     csSlotsCovered state = true ∧ csOpenSlots state = false ∧
     ∀ n, n ∈ csNodes state → ownsSlots n = true → replicasOf state (nID n) = crReplicas cr) as Hc.
  { unfold converged. rewrite Eo. simpl. rewrite andb_true_iff, negb_true_iff, Forall_forall.
    setoid_rewrite list_elem_of_fmap. setoid_rewrite list_elem_of_In. setoid_rewrite filter_In.
    split; intros H; destruct_and! H; split_and!; try done; try (by apply HF); [by eauto|].
    intros rc (n & -> & ? & ?). auto. }
  pose proof (Decide_none_iff (desiredOf cr) o) as Hnone. fold d in Hnone. split.
  - rewrite statusDecision_ready. intros (_ & Hn & Hcov & Hop).
    assert (Kind d = ActionScaleReplicas ∨ Kind d = ActionNone) as Hd.
    { apply (Decide_cases (desiredOf cr) o (λ p, Kind p = ActionScaleReplicas ∨ Kind p = ActionNone));
        rewrite ?Eo; simpl; rewrite ?(HF Hcov), ?Hn, ?Hcov, ?Hop; try done; try lia; auto. }
    destruct Hp as [[-> Hk]|(idxs & E & Hp)]; [destruct Hd as [Hd|Hd]; rewrite Hd in Hk; by destruct Hk|].
    exists idxs. split; [done|]. destruct Hp as [[-> Hno]|[-> Hex]]; [left|right]; done.
  - destruct Hp as [[-> Hk]|(idxs & E & [[-> Hno]|[-> (i & Hi & Hge)]])].
    + split; [intros E; rewrite E in Hk; by destruct Hk|]. intros (? & ? & ? & ? & _). apply Hnone, Hc. by split_and!.
    + rewrite Hnone, Hc. split; [intros H; destruct_and! H; split_and!; [done..|]; by exists idxs|]. tauto.
    + split; [done|]. intros (_ & _ & _ & _ & idxs' & E' & Hno). rewrite E in E'. injection E' as <-. specialize (Hno i Hi). lia.
Qed.

(** One shard that owns all slots, next to the set of a second shard. *)
Definition soloServing : KubeWorld * gmap string NodeInfo :=
  let cr2 := sampleCR "solo" 2 0 in
  let f : gmap string NodeInfo := worldAfter (AddSlots (endpoint soloCR 0 0) [mkRange 0 16383]) Fake.NewFake in
  (fst (worldAfter (ensureStatefulSets cr2) (kubeWith soloCR, f)), f).

Lemma ready_agrees_with_plan_witness :
  let state := Fake.view soloServing.2 in
  fst (statusDecision soloCR state (computeStatus soloCR state)) = PhaseReady ∧
  ∃ idxs, existingShardIndexes soloCR soloServing = Some (Ok idxs, soloServing) ∧
    (((ActionScaleInShards = ActionScaleReplicas ∨ ActionScaleInShards = ActionNone) ∧ ∀ i, i ∈ idxs → i < crShards soloCR) ∨
     (ActionScaleInShards = ActionScaleInShards ∧ ∃ i, i ∈ idxs ∧ crShards soloCR ≤ i)).
Proof.
  intros state. split; [vm_compute; reflexivity|].
  apply (ready_agrees_with_plan soloCR state soloServing soloServing soloServing (planOf ActionScaleInShards));
    [reflexivity|vm_compute; reflexivity|vm_compute; reflexivity].
Defined.

(** ** The pods the status names *)

Lemma podNameFromHost_FQDN cr i j :
  lacks "."%char (crName cr) = true → podNameFromHost (PodFQDN cr i j) = PodName cr i j.
Proof.
  intros Hn. unfold podNameFromHost, PodFQDN.
  set (rest := HeadlessServiceName cr +:+ "." +:+ crNamespace cr +:+ ".svc").
  change ("." +:+ rest) with (String "." rest).
  destruct (Index_lacks "."%char (PodName cr i j) rest)
    as (k & -> & Ht & _); [|exact Ht].
  unfold PodName, StatefulSetName. rewrite !lacks_app, Hn, !Itoa_lacks_any by done. done.
Qed.

(** The shard entries of the status are those of the declared shards in
    order; an entry that names a primary names the pod of this shard whose node
    owns the slots it lists, and an entry without one is a shard none of whose
    pods is known to own slots. *)
Theorem status_names_primary_pod (cr : ValkeyCluster) (state : ClusterState) (i : Z) :
  lacks "."%char (crName cr) = true → 0 ≤ i < crShards cr → crShards cr < 2 ^ 31 →
  ∃ ss, vShards (computeStatus cr state) !! Z.to_nat i = Some ss ∧ ssIndex ss = i ∧
    ((ssPrimaryPod ss = "" ∧
      ∀ j n, 0 ≤ j ≤ crReplicas cr → hostIndex state !! PodFQDN cr i j = Some n → ownsSlots n = false) ∨
     ∃ j n, 0 ≤ j ≤ crReplicas cr ∧ n ∈ csNodes state ∧ nHost n = PodFQDN cr i j ∧ ownsSlots n = true ∧
       ssPrimaryPod ss = PodName cr i j ∧ ssPrimaryNodeID ss = nID n ∧ ssSlots ss = FormatRanges (nSlots n)).
Proof.
  intros Hdot Hi Hmax. pose proof (shardPods_primary cr (hostIndex state) i) as Hp.
  exists (fst (shardStatus cr state (hostIndex state) i)). split; [|split].
  - unfold computeStatus. simpl vShards. rewrite map_map, list_lookup_fmap, lookup_seqZ_lt by lia.
    simpl. do 3 f_equal. lia.
  - unfold shardStatus. destruct (shardPods _ _ _) as [ids [p|]]; simpl;
      apply wrap32_id; unfold in_int32; lia.
  - unfold shardStatus. destruct (shardPods _ _ _) as [ids [p|]]; simpl in *; [right|by left].
    destruct Hp as (j & Hj & Hlk & Ho). apply hostIndex_sound in Hlk as [Hin Hh].
    exists j, p. rewrite Hh. by rewrite podNameFromHost_FQDN.
Qed.

Lemma status_names_primary_pod_witness :
  ∃ ss, vShards (computeStatus soloCR soloState) !! Z.to_nat 0 = Some ss ∧ ssIndex ss = 0 ∧
    ((ssPrimaryPod ss = "" ∧
      ∀ j n, 0 ≤ j ≤ crReplicas soloCR → hostIndex soloState !! PodFQDN soloCR 0 j = Some n → ownsSlots n = false) ∨
     ∃ j n, 0 ≤ j ≤ crReplicas soloCR ∧ n ∈ csNodes soloState ∧ nHost n = PodFQDN soloCR 0 j ∧ ownsSlots n = true ∧
       ssPrimaryPod ss = PodName soloCR 0 j ∧ ssPrimaryNodeID ss = nID n ∧ ssSlots ss = FormatRanges (nSlots n)).
Proof.
  apply (status_names_primary_pod soloCR soloState 0); [reflexivity|vm_compute; split; discriminate || reflexivity|reflexivity].
Defined.
