(* ===== verification/ScaleInProofs.v ===== *)
(** * Scale-in safety

    A departing shard is not deleted while a pod that answers owns slots.  The
    argument is made against the interface [OwnerView]: what the API server and
    the cluster guarantee about one slot-owning pod.  The in-memory world
    discharges the interface.  [Limits] shows that the guarantee stops at pods
    that do not answer. *)

From S2P Require Import Prelude GoStrings Cluster Slots Topology API ResourceBuilders.
From S2P Require Import ResourceProofs Platform Controller Reconcile Fake FakeProofs TestBed.
From S2P Require Import StatusProofs.
Local Open Scope string_scope.
Local Open Scope list_scope.
Local Open Scope Z_scope.

Lemma elem_of_ordinals cr j : j ∈ ordinals cr ↔ 0 ≤ j ≤ crReplicas cr.
Proof. unfold ordinals. rewrite elem_of_seqZ. lia. Qed.

Lemma ownsSlots_count n : ownsSlots n = true → 0 < SlotCount n.
Proof. unfold ownsSlots. rewrite andb_true_iff, Z.ltb_lt. tauto. Qed.

(** Pod [j] of shard [i], whose node [id] owns slots while [K] holds; [J] is
    what must survive the scale-in. *)
Class OwnerView (W : Type) `{!Platform W} `{!ClusterAdmin W} (cr : ValkeyCluster) (i j : Z) (id : string)
    (K J : W → Prop) := {
  ov_state w : K w → wlp (State (seed cr)) (λ r w', K w' ∧ ∀ st, r = Ok st →
    NoDup (map nID (csNodes st)) ∧ (∀ n, n ∈ csNodes st → nID n = "" → ownsSlots n = false) ∧
    ∃ n, byID st !! id = Some n ∧ ownsSlots n = true ∧ nHost n = PodFQDN cr i j) w;
  ov_myid w ep : K w → wlp (MyID ep) (λ r w', K w') w;
  ov_self w : K w → wlp (MyID (endpoint cr i j)) (λ r _, r = Ok id) w;
  ov_other w ep : K w → epHost ep ≠ PodFQDN cr i j → wlp (MyID ep) (λ r _, r ≠ Ok id) w;
  ov_forget w ep id' : K w → id' ≠ id → wlp (Forget ep id') (λ _, K) w;
  ov_sets w : K w →
    wlp (listStatefulSets (crNamespace cr) {[ "app.kubernetes.io/instance" := crName cr ]}) (λ r w', K w' ∧
      ∀ items, r = Ok items → ∃ sts, sts ∈ items ∧ mLabels (stsMeta sts) !! LabelShard = Some (Itoa i)) w;
  ov_delete w i' : K w → 0 ≤ i' → in_int64 i' → i' ≠ i → wlp (deleteShard cr i') (λ _, K) w;
  ov_move w from to n : K w → wlp (MoveSlots (seed cr) from to n) (λ _, J) w;
  ov_weaken w : K w → J w
}.

Section Safety.
Context {W : Type} `{!Platform W} `{!ClusterAdmin W}.

(** The pods of a shard are asked in order; the first that owns slots is the
    primary. *)
Lemma findShardPrimaryIn_spec cr shard idx js (K : W → Prop) w :
  (∀ w ep, K w → wlp (MyID ep) (λ _, K) w) → K w →
  wlp (findShardPrimaryIn cr shard idx js) (λ found w', K w' ∧
    ∀ id o, found = Some (id, o) → o ∈ js ∧ ∃ n, idx !! id = Some n ∧ ownsSlots n = true) w.
Proof.
  intros HK. revert w. induction js as [|o js IH]; intros w Hw; simpl.
  - wlp_step. split; [done|]. intros ? ? [=].
  - assert (∀ w1, K w1 → wlp (findShardPrimaryIn cr shard idx js) (λ found w', K w' ∧
      ∀ id o', found = Some (id, o') → o' ∈ o :: js ∧ ∃ n, idx !! id = Some n ∧ ownsSlots n = true) w1) as Hrest.
    { intros w1 Hw1. eapply wlp_mono; [by apply IH|]. intros found w2 [? H]. split; [done|].
      intros id o' ->. destruct (H id o' eq_refl) as [? ?]. split; [by right|done]. }
    wlp_step. eapply wlp_mono; [by apply HK|]. intros [id|e] w1 Hw1; simpl; [|by apply Hrest].
    destruct (idx !! id) as [n|] eqn:En; [|by apply Hrest].
    destruct (ownsSlots n) eqn:Eo; [|by apply Hrest].
    wlp_step. split; [done|]. intros ? ? [= <- <-]. split; [left|eauto].
Qed.

(** Asking for a primary changes nothing [MyID] does not change. *)
Lemma findShardPrimary_frame cr shard idx (K : W → Prop) w :
  (∀ w ep, K w → wlp (MyID ep) (λ _, K) w) → K w →
  wlp (findShardPrimary cr shard idx) (λ _, K) w.
Proof.
  intros HK Hw. unfold findShardPrimary. wlp_step. eapply wlp_mono; [by apply findShardPrimaryIn_spec|].
  intros [p|] w1 [Hw1 _]; [by wlp_step|]. wlp_step. eapply wlp_mono; [by apply HK|].
  intros [id|e] w2 Hw2; by wlp_step.
Qed.

Lemma firstSurvivor_frame cr idx ex shards (K : W → Prop) w :
  (∀ w ep, K w → wlp (MyID ep) (λ _, K) w) → K w →
  wlp (firstSurvivorIn cr idx ex shards) (λ _, K) w.
Proof.
  intros HK. revert w. induction shards as [|s shards IH]; intros w Hw; simpl; [by wlp_step|].
  wlp_step. eapply wlp_mono; [by apply findShardPrimary_frame|]. intros p w1 Hw1.
  wlp_step; [by wlp_step|by apply IH].
Qed.

Lemma forgetEverywhere_frame cr id (K : W → Prop) w :
  (∀ w ep, K w → wlp (Forget ep id) (λ _, K) w) → K w → wlp (forgetEverywhere cr id) (λ _, K) w.
Proof.
  intros HK Hw. apply wlp_forM; [done|]. intros ep _ w' Hw'. wlp_step.
  eapply wlp_mono; [by apply HK|]. intros r w1 Hw1. by wlp_step.
Qed.

Lemma existingShardIndexes_spec cr (K : W → Prop) (Q : list StatefulSetObj → Prop) w :
  wlp (listStatefulSets (crNamespace cr) {[ "app.kubernetes.io/instance" := crName cr ]})
    (λ r w', K w' ∧ ∀ items, r = Ok items → Q items) w →
  wlp (existingShardIndexes cr) (λ r w', K w' ∧ ∀ idxs, r = Ok idxs → ∃ items, Q items ∧
    ∀ z, z ∈ idxs ↔ ∃ sts v, sts ∈ items ∧ mLabels (stsMeta sts) !! LabelShard = Some v ∧ Atoi v = (z, None)) w.
Proof.
  intros H. unfold existingShardIndexes. wlp_step. eapply wlp_mono; [exact H|]. intros [items|e] w' [Hw' HQ]; [|by split].
  wlp_step. split; [done|]. intros idxs [= <-]. exists items. split; [by apply HQ|].
  intros z. rewrite merge_sort_Permutation, list_elem_of_omap. split.
  - intros (sts & Hin & Hs). destruct (mLabels (stsMeta sts) !! LabelShard) as [v|] eqn:Ev; [|done].
    destruct (Atoi v) as [n [e|]] eqn:Ea; [done|]. simplify_eq. eauto 10.
  - intros (sts & v & Hin & Hv & Ha). exists sts. split; [done|]. by rewrite Hv, Ha.
Qed.

(** [forgetStaleNodes] forgets only nodes whose host is set and belongs to no
    pod of an existing shard. *)
Lemma forgetStaleNodes_frame cr st (K : W → Prop) (Q : gset string → Prop) w :
  wlp (existingPodHosts cr) (λ r w', K w' ∧ ∀ hosts, r = Ok hosts → Q hosts) w →
  (∀ w' n hosts ep, K w' → n ∈ csNodes st → Q hosts → nHost n ≠ "" → nHost n ∉ hosts →
     wlp (Forget ep (nID n)) (λ _, K) w') →
  wlp (forgetStaleNodes cr st) (λ _, K) w.
Proof.
  intros H HF. unfold forgetStaleNodes. wlp_step. eapply wlp_mono; [exact H|]. intros [hosts|e] w' [Hw' HQ]; [|by wlp_step].
  apply wlp_forM; [done|]. intros n Hn w1 Hw1. wlp_step; [|by wlp_step].
  apply andb_true_iff in Heqb as [He%negb_true_iff Hw%negb_true_iff].
  apply String.eqb_neq in He. apply bool_decide_eq_false in Hw.
  apply forgetEverywhere_frame; [|done]. intros. by eapply HF; eauto.
Qed.
End Safety.

Section ScaleIn.
Context {W : Type} `{!Platform W} `{!ClusterAdmin W}.
Context (cr : ValkeyCluster) (i j : Z) (id : string) (K J : W → Prop) `{!OwnerView W cr i j id K J}.
Context (Hshards : 0 ≤ crShards cr ≤ i) (Hi : in_int64 i) (Hj : 0 ≤ j ≤ crReplicas cr) (Hr : in_int32 (crReplicas cr)).

Lemma owner_found idx n w js :
  idx !! id = Some n → ownsSlots n = true → j ∈ js → K w →
  wlp (findShardPrimaryIn cr i idx js) (λ found _, found ≠ None) w.
Proof.
  intros Hn Ho. revert w. induction js as [|o js IH]; intros w Hin Hw; [by apply elem_of_nil in Hin|].
  simpl. wlp_step. intros r w1 E. pose proof (ov_myid w (endpoint cr i o) Hw _ _ E) as Hw1.
  apply elem_of_cons in Hin as [<-|Hin].
  - pose proof (ov_self w Hw _ _ E) as ->. simpl. rewrite Hn, Ho. by wlp_step.
  - specialize (IH w1 Hin Hw1). repeat wlp_step; done.
Qed.

Lemma owner_primary idx n w :
  idx !! id = Some n → ownsSlots n = true → K w →
  wlp (findShardPrimary cr i idx) (λ p w', K w' ∧ ∃ n', idx !! p.1 = Some n' ∧ ownsSlots n' = true) w.
Proof.
  intros Hn Ho Hw. unfold findShardPrimary. wlp_step. intros found w1 E.
  pose proof (owner_found idx n w (ordinals cr) Hn Ho (proj2 (elem_of_ordinals cr j) Hj) Hw _ _ E) as Hf.
  destruct (findShardPrimaryIn_spec cr i idx (ordinals cr) K w (ov_myid (J := J)) Hw _ _ E) as [Hw1 Hs].
  destruct found as [[x o]|]; [|done]. wlp_step. split; [done|]. by apply (Hs x o).
Qed.

(** One departing shard: another one may be deleted, this one is not. *)
Lemma retireShard_spares i' w :
  0 ≤ i' → in_int64 i' → K w →
  wlp (retireShard cr i') (λ r w', match r with Ok true => K w' ∧ i' ≠ i | _ => J w' end) w.
Proof.
  intros Hi' Hi64 Hw. unfold retireShard. wlp_step. eapply wlp_mono; [by apply ov_state|].
  intros [st|e] w1 [Hw1 Hst]; [|by apply ov_weaken].
  destruct (Hst st eq_refl) as (_ & Hids & n & Hn & Ho & _). clear Hst.
  assert (wlp (findShardPrimary cr i' (byID st)) (λ p w', K w' ∧
    (i' = i → ∃ n', byID st !! p.1 = Some n' ∧ ownsSlots n' = true)) w1) as Hp.
  { destruct (decide (i' = i)) as [->|Hne].
    - eapply wlp_mono; [by eapply owner_primary|]. intros p w' [? ?]. by split.
    - eapply wlp_mono; [apply (findShardPrimary_frame _ _ _ K); [apply (ov_myid (J := J))|done]|].
      intros p w' ?. by split. }
  wlp_step. eapply wlp_mono; [exact Hp|]. clear Hp. intros [dep o] w2 [Hw2 Hdep]. simpl in *.
  destruct (negb (String.eqb dep "") && _) eqn:Eg.
  - (* drain a batch *)
    wlp_step. eapply wlp_mono; [apply (firstSurvivor_frame _ _ _ _ K); [apply (ov_myid (J := J))|done]|].
    intros surv w3 Hw3. wlp_step; [wlp_step; by apply ov_weaken|].
    wlp_step. eapply wlp_mono; [by apply (ov_move (K := K))|]. intros [moved [e|]] w4 Hw4; by wlp_step.
  - (* forget and delete *)
    assert (i' ≠ i) as Hne.
    { intros ->. destruct (Hdep eq_refl) as (n' & Hn' & Ho').
      apply andb_false_iff in Eg as [Eg|Eg].
      - apply negb_false_iff, String.eqb_eq in Eg as ->. apply byID_sound in Hn' as [Hin Hid].
        rewrite (Hids n') in Ho'; done.
      - apply ownsSlots_count in Ho'. unfold nodeAt in Eg. rewrite Hn' in Eg. simpl in Eg. apply Z.ltb_ge in Eg. lia. }
    wlp_step. eapply wlp_mono.
    { apply (wlp_forM _ _ K); [done|]. intros o' Ho' w3 Hw3. wlp_step. intros r w4 E.
      pose proof (ov_myid (J := J) _ _ Hw3 _ _ E) as Hw4.
      assert (r ≠ Ok id) as Hrid.
      { refine (ov_other (J := J) _ _ Hw3 _ _ _ E). simpl. intros Hf. apply elem_of_ordinals in Ho'.
        unfold in_int64, in_int32 in *. apply PodFQDN_inj in Hf as [? ?]; [done|lia..]. }
      destruct r as [x|e]; simpl; [|by wlp_step]. destruct (String.eqb x ""); simpl; [by wlp_step|].
      apply forgetEverywhere_frame; [|done]. intros. apply (ov_forget (J := J)); congruence. }
    intros [] w3 Hw3. wlp_step. eapply wlp_mono; [by apply (ov_delete (J := J))|].
    intros [[]|e] w4 Hw4; [by wlp_step|]. by apply ov_weaken.
Qed.

Lemma retireShards_spares idxs w : Forall in_int64 idxs → K w → wlp (retireShards cr idxs) (λ _, J) w.
Proof.
  intros Hall. revert w. induction Hall as [|i' idxs Hi' Hall IH]; intros w Hw; simpl;
    [wlp_step; by apply ov_weaken|].
  destruct (Z.ltb_spec i' (crShards cr)); [by apply IH|]. wlp_step.
  eapply wlp_mono; [apply retireShard_spares; [lia|done..]|]. intros [[]|e] w1; [..|done].
  - intros [Hw1 _]. by apply IH.
  - intros HJ. by wlp_step.
Qed.

Lemma existingShards_has w : K w →
  wlp (existingShardIndexes cr) (λ r w', K w' ∧ ∀ idxs, r = Ok idxs → i ∈ idxs ∧ Forall in_int64 idxs) w.
Proof.
  intros Hw. eapply wlp_mono; [apply existingShardIndexes_spec, ov_sets, Hw|].
  intros r w' [Hw' H]. split; [done|]. intros idxs ->.
  destruct (H idxs eq_refl) as (items & (sts & Hin & Hl) & Hiff). split.
  - apply Hiff. exists sts, (Itoa i). by rewrite Atoi_Itoa.
  - apply Forall_forall. intros z (? & ? & _ & _ & Hz)%Hiff. by eapply Atoi_range.
Qed.

Lemma existingHosts_has w : K w →
  wlp (existingPodHosts cr) (λ r w', K w' ∧ ∀ hosts, r = Ok hosts → PodFQDN cr i j ∈ hosts) w.
Proof.
  intros Hw. unfold existingPodHosts. wlp_step. eapply wlp_mono; [by apply existingShards_has|].
  intros [idxs|e] w' [Hw' H]; [|done]. destruct (H idxs eq_refl) as [Hin _].
  wlp_step. split; [done|]. intros hosts [= <-].
  apply elem_of_list_to_set, list_elem_of_join. exists (map (PodFQDN cr i) (ordinals cr)).
  split; apply list_elem_of_fmap; [|by exists i; auto]. exists j. by rewrite elem_of_ordinals.
Qed.

Lemma scaleIn_spares w : K w → wlp (scaleIn cr) (λ _, J) w.
Proof.
  intros Hw. unfold scaleIn. wlp_step. eapply wlp_mono; [by apply ov_state|]. intros r w1 [Hw1 Hst].
  wlp_step. eapply (wlp_mono _ (λ _, K)).
  { destruct r as [st|e]; [|by wlp_step]. destruct (Hst st eq_refl) as (Hnd & _ & n & Hn & _ & Hh).
    eapply forgetStaleNodes_frame; [by apply existingHosts_has|]. intros w' n' hosts ep Hw' Hin Hhost _ Hout.
    apply (ov_forget (J := J)); [done|]. intros E. apply Hout.
    rewrite <- E in Hn. rewrite byID_complete in Hn by done. injection Hn as ->. by rewrite Hh. }
  intros [] w2 Hw2. wlp_step. eapply wlp_mono; [by apply existingShards_has|].
  intros [idxs|e] w3 [Hw3 H3]; [|by apply ov_weaken]. destruct (H3 idxs eq_refl). by apply retireShards_spares.
Qed.
End ScaleIn.


(** ** The in-memory world meets the interface *)

Lemma elem_of_sortedNodes f n : fake_inv f → n ∈ Fake.sortedNodes f ↔ f !! nID n = Some n.
Proof.
  intros Hf. unfold Fake.sortedNodes. rewrite merge_sort_Permutation, list_elem_of_fmap. split.
  - intros ([k n'] & -> & Hin%elem_of_map_to_list). simpl. by rewrite (ok_id _ _ (Hf _ _ Hin)).
  - intros H. exists (nID n, n). by rewrite elem_of_map_to_list.
Qed.

Lemma sortedNodes_nodup f : fake_inv f → NoDup (map nID (Fake.sortedNodes f)).
Proof.
  intros Hf. unfold Fake.sortedNodes. rewrite merge_sort_Permutation, map_map.
  erewrite (map_ext_in _ fst); [apply NoDup_fst_map_to_list|].
  intros [k n] Hin%list_elem_of_In%elem_of_map_to_list. by apply (ok_id _ _ (Hf _ _ Hin)).
Qed.

Lemma byID_view f id : fake_inv f → byID (Fake.view f) !! id = f !! id.
Proof.
  intros Hf. destruct (f !! id) as [n|] eqn:E.
  - pose proof (ok_id _ _ (Hf _ _ E)) as Hid. rewrite <- Hid. apply byID_complete.
    + by apply sortedNodes_nodup.
    + apply elem_of_sortedNodes; [done|]. by rewrite Hid.
  - destruct (byID (Fake.view f) !! id) as [n|] eqn:E'; [|done].
    apply byID_sound in E' as [Hin%elem_of_sortedNodes <-]; [|done]. congruence.
Qed.

Lemma hostIndex_view f h : fake_inv f → hostIndex (Fake.view f) !! h = f !! h.
Proof.
  intros Hf. assert (map nHost (Fake.sortedNodes f) = map nID (Fake.sortedNodes f)) as Hmap.
  { apply map_ext_in. intros n Hn%list_elem_of_In%elem_of_sortedNodes; [|done].
    by rewrite (ok_host _ _ (Hf _ _ Hn)). }
  destruct (f !! h) as [n|] eqn:E.
  - pose proof (ok_host _ _ (Hf _ _ E)) as Hh. rewrite <- Hh. apply hostIndex_complete.
    + simpl. rewrite Hmap. by apply sortedNodes_nodup.
    + apply elem_of_sortedNodes; [done|]. by rewrite (ok_id _ _ (Hf _ _ E)).
  - destruct (hostIndex (Fake.view f) !! h) as [n|] eqn:E'; [|done].
    apply hostIndex_sound in E' as [Hin%elem_of_sortedNodes Hh]; [|done].
    rewrite (ok_host _ _ (Hf _ _ Hin)) in Hh. congruence.
Qed.

(** The StatefulSet of shard [i] as [ensureStatefulSets] leaves it. *)
Definition shardSet (cr : ValkeyCluster) (i : Z) (sts : StatefulSetObj) : Prop :=
  mNamespace (stsMeta sts) = crNamespace cr ∧
  mLabels (stsMeta sts) !! "app.kubernetes.io/instance" = Some (crName cr) ∧
  mLabels (stsMeta sts) !! LabelShard = Some (Itoa i).

Definition setAt (cr : ValkeyCluster) (i : Z) (sts : StatefulSetObj) (w : KubeWorld * gmap string NodeInfo) : Prop :=
  kSets w.1 !! (StatefulSetName cr i, crNamespace cr) = Some sts.

Definition ownerAt (cr : ValkeyCluster) (i j : Z) (sts : StatefulSetObj) (w : KubeWorld * gmap string NodeInfo) : Prop :=
  setAt cr i sts w ∧ fake_inv w.2 ∧
  (∀ n, w.2 !! "" = Some n → ownsSlots n = false) ∧
  ∃ n, w.2 !! PodFQDN cr i j = Some n ∧ ownsSlots n = true.

Lemma ownerAt_ensure cr i j sts k f e :
  ownerAt cr i j sts (k, f) → ownerAt cr i j sts (k, Fake.ensure e f).
Proof.
  intros (Hs & Hf & He & n & Hn & Ho). split; [done|]. split; [by apply fake_inv_ensure|]. simpl in *.
  unfold Fake.ensure. destruct (f !! epHost e) eqn:Ee; [by eauto|]. split.
  - intros n' [[_ <-]|[_ H']]%lookup_insert_Some; [done|by apply He].
  - exists n. rewrite lookup_insert_ne; [done|]. congruence.
Qed.

Lemma deletePVCs_frame l (w : KubeWorld * gmap string NodeInfo) (K : KubeWorld * gmap string NodeInfo → Prop) :
  (∀ k pvcs f, K (k, f) → K (mkKube (kCRs k) (kConfigMaps k) (kServices k) (kSets k) pvcs (kClock k), f)) →
  K w → wlp (deletePVCs l) (λ _, K) w.
Proof.
  intros HK Hw. apply wlp_forE; [done|]. intros m _ w1 Hw1. unfold ignoreNotFound. wlp_step.
  intros r w2 [= <- <-]. wlp_step. destruct w1. by apply HK.
Qed.

#[export] Instance fake_OwnerView (cr : ValkeyCluster) (i j : Z) (sts : StatefulSetObj) :
  shardSet cr i sts → 0 ≤ i → in_int64 i →
  OwnerView (KubeWorld * gmap string NodeInfo) cr i j (PodFQDN cr i j) (ownerAt cr i j sts) (setAt cr i sts).
Proof.
  intros (Hns & Hinst & Hlab) Hi Hi64. constructor.
  - intros [k f] (Hs & Hf & He & n & Hn & Ho) r w' [= <- <-]. split; [by split_and!; eauto|].
    intros st [= <-]. simpl. split; [by apply sortedNodes_nodup|]. split.
    + intros n' Hin Hid. apply elem_of_sortedNodes in Hin; [|done]. rewrite Hid in Hin. by apply He.
    + exists n. simpl in *. rewrite byID_view by done. by rewrite (ok_host _ _ (Hf _ _ Hn)).
  - intros [k f] ep H r w' [= _ <-]. by apply ownerAt_ensure.
  - intros [k f] (Hs & Hf & He & n & Hn & Ho) r w' [= <- _]. simpl in *. unfold Fake.ensure. simpl.
    rewrite Hn, Hn. simpl. by rewrite (ok_id _ _ (Hf _ _ Hn)).
  - intros [k f] ep (Hs & Hf & _) Hne r w' [= <- _]. simpl in *.
    destruct (ensure_is_some f ep) as [n Hn]. rewrite Hn. simpl.
    rewrite (ok_id _ _ (fake_inv_ensure _ ep Hf _ _ Hn)). congruence.
  - intros [k f] ep id' (Hs & Hf & He & n & Hn & Ho) Hne r w' [= _ <-]. simpl in *.
    split; [done|]. split; [by apply map_Forall_delete|]. simpl. split.
    + intros n' [_ ?]%lookup_delete_Some. by apply He.
    + exists n. by rewrite lookup_delete_ne.
  - intros [k f] H r w' [= <- <-]. split; [done|]. intros items [= <-]. exists sts. split; [|done].
    destruct H as (Hs & _). apply list_elem_of_In, filter_In. split.
    + apply list_elem_of_In, list_elem_of_fmap. eexists (_, sts). split; [done|].
      apply elem_of_map_to_list. exact Hs.
    + apply andb_true_iff. split; [by apply String.eqb_eq|]. apply bool_decide_eq_true.
      by apply map_singleton_subseteq_l.
  - intros [k f] i' H Hi' Hi64' Hne. unfold deleteShard. wlp_step. unfold ignoreNotFound. wlp_step.
    intros r w1 E. assert (ownerAt cr i j sts w1) as Hw1.
    { simpl in E. destruct (kSets k !! _); injection E as <- <-; [|done]. destruct H as (Hs & ?).
      split; [|done]. unfold setAt in *. simpl in *. rewrite lookup_delete_ne; [done|].
      intros [= E]. unfold in_int64 in *. apply StatefulSetName_inj in E as [_ ?]; [done|lia..]. }
    wlp_step. destruct r as [a|e]; [|destruct (IsNotFound e); [|done]]; unfold deleteShardPVCs; wlp_step;
      intros r w2 [= <- <-]; apply deletePVCs_frame; try done.
  - intros [k f] from to n (Hs & _) r w' E. unfold setAt in *. simpl in E. unfold onRight in E.
    destruct (Fake.MoveSlots _ _ _ _ _) as [[? ?]|]; [|done]. by injection E as _ <-.
  - by intros w (Hs & _).
Qed.

(** A cluster of two shards that is to have one. *)
Definition set0 : StatefulSetObj := StatefulSet (λ s, s) soloCR 0.
Definition set1 : StatefulSetObj := StatefulSet (λ s, s) soloCR 1.
Definition pvc1 : ObjectMeta :=
  set_mLabels (<[LabelShard := "1"]> {["app.kubernetes.io/instance" := "solo"]})
    (metaOf "data-solo-shard-1-0" (crNamespace soloCR)).
Definition pairKube : KubeWorld :=
  mkKube ∅ ∅ ∅ (<[(StatefulSetName soloCR 1, crNamespace soloCR) := set1]>
    (<[(StatefulSetName soloCR 0, crNamespace soloCR) := set0]> ∅)) [pvc1] 0.
Definition pairNodes : gmap string NodeInfo :=
  <[PodFQDN soloCR 1 0 := set_nSlots [mkRange 8192 16383] (Fake.freshNode (endpoint soloCR 1 0))]>
  (<[PodFQDN soloCR 0 0 := set_nSlots [mkRange 0 8191] (Fake.freshNode (endpoint soloCR 0 0))]> ∅).

Lemma pairNodes_owner : ownerAt soloCR 1 0 set1 (pairKube, pairNodes).
Proof.
  split; [reflexivity|]. split; [|split; [|by eexists]].
  - apply map_Forall_insert_2; [by constructor|]. apply map_Forall_insert_2; [by constructor|].
    apply map_Forall_empty.
  - intros n H. exfalso. revert H. by vm_compute.
Qed.

