(* ===== verification/Termination.v ===== *)
(** * Every reconcile returns

    The only loop of the reconciler whose bound is not the length of a list is
    the filling of a new shard in [scaleOut].  It terminates because every
    iteration but the last moves at least one slot; so a pass over the whole
    reconciler gives a result whenever the calls it makes do. *)

From S2P Require Import Prelude GoStrings Cluster Slots Topology API ResourceBuilders.
From S2P Require Import ResourceProofs Platform Controller Reconcile Fake FakeProofs TestBed.
From S2P Require Import StatusProofs ScaleInProofs.
Local Open Scope string_scope.
Local Open Scope list_scope.
Local Open Scope Z_scope.

(** [m] gives a result from every world that satisfies [I], keeping [I], and the
    result satisfies [P]. *)
Definition runsTo {W A} (I : W → Prop) (m : M W A) (P : A → Prop) : Prop :=
  ∀ w, I w → ∃ a w', m w = Some (a, w') ∧ P a ∧ I w'.
Definition runs {W A} (I : W → Prop) (m : M W A) : Prop := runsTo I m (λ _, True).

Section Rules.
Context {W : Type} (I : W → Prop).

Lemma runs_ret {A} (a : A) : runs I (ret a).
Proof. intros w Hw. by exists a, w. Qed.

Lemma runs_bind_to {A B} (m : M W A) (k : A → M W B) (P : A → Prop) :
  runsTo I m P → (∀ a, P a → runs I (k a)) → runs I (bind m k).
Proof.
  intros Hm Hk w Hw. destruct (Hm w Hw) as (a & w1 & E & HP & H1). unfold bind. rewrite E. by apply Hk.
Qed.

Lemma runs_bind {A B} (m : M W A) (k : A → M W B) : runs I m → (∀ a, runs I (k a)) → runs I (bind m k).
Proof. intros Hm Hk. eapply runs_bind_to; [exact Hm|auto]. Qed.

Lemma runs_bindE_to {A B} (m : M W (result A)) (k : A → M W (result B)) (P : A → Prop) :
  runsTo I m (λ r, ∀ a, r = Ok a → P a) → (∀ a, P a → runs I (k a)) → runs I (bindE m k).
Proof. intros Hm Hk. eapply runs_bind_to; [exact Hm|]. intros [a|e] HP; [by apply Hk, HP|apply runs_ret]. Qed.

Lemma runs_bindE {A B} (m : M W (result A)) (k : A → M W (result B)) :
  runs I m → (∀ a, runs I (k a)) → runs I (bindE m k).
Proof. intros Hm Hk. apply runs_bind; [done|]. intros [a|e]; [apply Hk|apply runs_ret]. Qed.

Lemma runs_wrapE {A} msg (m : M W (result A)) : runs I m → runs I (wrapE msg m).
Proof. intros Hm. apply runs_bind; [done|]. intros. apply runs_ret. Qed.

Lemma runs_forM {A} (l : list A) (body : A → M W unit) : (∀ x, runs I (body x)) → runs I (forM l body).
Proof. intros H. induction l; [apply runs_ret|]. by apply runs_bind. Qed.

Lemma runs_forE {A} (l : list A) (body : A → M W (result unit)) :
  (∀ x, x ∈ l → runs I (body x)) → runs I (forE l body).
Proof.
  induction l as [|x l IH]; intros H; [apply runs_ret|]. apply runs_bindE; [apply H; left|].
  intros _. apply IH. intros y Hy. apply H. by right.
Qed.

Lemma runs_weaken {A} (m : M W A) (P : A → Prop) : runsTo I m P → runs I m.
Proof. intros Hm w Hw. destruct (Hm w Hw) as (a & w' & ? & _ & ?). by exists a, w'. Qed.

Lemma runs_ignoreNotFound (m : M W (result unit)) : runs I m → runs I (ignoreNotFound m).
Proof. intros Hm. apply runs_bind; [done|]. intros. apply runs_ret. Qed.
End Rules.

(** A custom resource as its types and the schema of its status say. *)
Record typedCR (cr : ValkeyCluster) : Prop := {
  tc_shards : in_int32 (crShards cr);
  tc_generation : 0 ≤ mGeneration (crMeta cr);
  tc_status : status_valid (crStatus cr)
}.
Definition typedResult (r : result ValkeyCluster) : Prop := ∀ cr, r = Ok cr → typedCR cr.

(** An API server all of whose calls return. *)
Class AnsweringPlatform (W : Type) `{!Platform W} (I : W → Prop) := {
  getCR_runs k : runsTo I (getCR k) typedResult;
  updateCR_runs cr : typedCR cr → runsTo I (updateCR cr) typedResult;
  updateStatusCR_runs cr : typedCR cr → runs I (updateStatusCR cr);
  createOrUpdateConfigMap_runs k f : runs I (createOrUpdateConfigMap k f);
  createOrUpdateService_runs k f : runs I (createOrUpdateService k f);
  createOrUpdateStatefulSet_runs k f : runs I (createOrUpdateStatefulSet k f);
  getStatefulSet_runs k : runs I (getStatefulSet k);
  listStatefulSets_runs ns sel : runs I (listStatefulSets ns sel);
  deleteStatefulSet_runs k : runs I (deleteStatefulSet k);
  listPVCs_runs ns sel : runs I (listPVCs ns sel);
  deletePVC_runs m : runs I (deletePVC m);
  retry_runs fn : runs I fn → runs I (retryOnConflict fn);
  now_runs : runs I now;
  mapRange_runs m : runs I (mapRange m);
  addFinalizer_typed cr f : typedCR cr → typedCR (addFinalizer cr f);
  removeFinalizer_typed cr f : typedCR cr → typedCR (removeFinalizer cr f)
}.

(** A cluster all of whose calls return, and whose slot mover reports how many
    slots it moved. *)
Class AnsweringCluster (W : Type) `{!ClusterAdmin W} (I : W → Prop) := {
  State_runs s : runs I (State s);
  MyID_runs e : runs I (MyID e);
  Meet_runs a b : runs I (Meet a b);
  AddSlots_runs e rs : Forall (λ r, 0 ≤ rangeCount r) rs → runs I (AddSlots e rs);
  Replicate_runs e p : runs I (Replicate e p);
  Forget_runs e n : runs I (Forget e n);
  RepairSlots_runs s : runs I (RepairSlots s);
  MoveSlots_runs s f t n : 0 ≤ n → runsTo I (MoveSlots s f t n) (λ '(moved, err), err = None → 0 ≤ moved)
}.

Create HintDb runs.
#[export] Hint Resolve runs_ret runs_bind runs_bindE runs_wrapE runs_forM runs_forE
  runs_ignoreNotFound : runs.
#[export] Hint Resolve createOrUpdateConfigMap_runs
  createOrUpdateService_runs createOrUpdateStatefulSet_runs getStatefulSet_runs listStatefulSets_runs
  deleteStatefulSet_runs listPVCs_runs deletePVC_runs retry_runs now_runs mapRange_runs
  State_runs MyID_runs Meet_runs Replicate_runs Forget_runs RepairSlots_runs : runs.

(** Runs through a straight-line computation. *)
Ltac runs_go :=
  repeat first
    [ solve [auto with runs]
    | lazymatch goal with
      | |- runs _ (bindE _ _) => apply runs_bindE; [|intros ?]
      | |- runs _ (bind _ _) => apply runs_bind; [|intros ?]
      | |- runs _ (wrapE _ _) => apply runs_wrapE
      | |- runs _ (forM _ _) => apply runs_forM; intros ?
      | |- runs _ (forE _ _) => apply runs_forE; intros ? ?
      | |- runs _ (ignoreNotFound _) => apply runs_ignoreNotFound
      | |- runs _ (retryOnConflict _) => apply retry_runs
      | |- runs _ (match ?x with _ => _ end) => destruct x
      end ].

(** ** The statuses that are written are valid *)

(** A type, reason and message that a condition may have. *)
Definition noticeOk (ty re ms : string) : bool :=
  Nat.ltb 0 (String.length ty) && Nat.leb (String.length ty) 316 && validReason re && Nat.leb (String.length re) 1024 &&
  (Z.of_nat (String.length ms) <=? 32768).

Lemma noticeOk_valid ty st re ms g t : noticeOk ty re ms = true → 0 ≤ g → condition_valid (mkCondition ty st re ms g t).
Proof.
  unfold noticeOk. rewrite !andb_true_iff, !Nat.leb_le, Nat.ltb_lt, Z.leb_le. intros ((((? & ?) & ?) & ?) & ?) ?. by constructor.
Qed.

Lemma replaceCond_valid meta cs : condition_valid meta → Forall condition_valid cs → Forall condition_valid (replaceCond meta cs).
Proof.
  intros [? ? ? ?] Hcs. induction Hcs as [|c cs Hc Hcs IH]; simpl; [by constructor; [constructor|]|].
  destruct (String.eqb _ _); [|by constructor]. constructor; [|done]. by constructor.
Qed.

Lemma setCondAt_typed t cr ty st re ms : noticeOk ty re ms = true → typedCR cr → typedCR (setCondAt t cr ty st re ms).
Proof.
  intros Hn [Hs Hg [? ? ? ? ?]]. constructor; [done|done|]. constructor; [done..| |]; simpl.
  - by apply replaceCond_nodup.
  - apply replaceCond_valid; [|done]. by apply noticeOk_valid.
Qed.

Lemma statusDecision_notices cr state v : Forall (λ '(ty, _, re, ms), noticeOk ty re ms = true) (statusDecision cr state v).2.
Proof. unfold statusDecision. repeat case_match; repeat (constructor; [vm_compute; reflexivity|]); constructor. Qed.

(** One entry per declared shard, with distinct indexes. *)
Lemma shardStatus_index cr state byHost i : ssIndex (shardStatus cr state byHost i).1 = wrap32 i ∧
  in_int32 (ssReadyReplicas (shardStatus cr state byHost i).1).
Proof.
  unfold shardStatus. destruct (shardPods cr byHost i) as [ids [p|]]; simpl; [split; [done|apply wrap32_range]|].
  split; [done|]. by unfold in_int32.
Qed.

Lemma updated_typed cr state latest phase g : typedCR cr → typedCR latest →
  typedCR (onStatus (λ s, mkStatus phase g (wrap32 (vReady (computeStatus cr state))) (vShards (computeStatus cr state)) (stConditions s)) latest).
Proof.
  intros [Hs _ _] [Hs' Hg [? ? ? ? ?]]. constructor; [done|done|]. unfold in_int32 in Hs. constructor; simpl; [apply wrap32_range| | |done|done].
  - rewrite !map_map. apply NoDup_fmap_2_strong; [|apply NoDup_seqZ]. intros i i' Hi%elem_of_seqZ Hi'%elem_of_seqZ.
    rewrite !(proj1 (shardStatus_index _ _ _ _)), !wrap32_id by (unfold in_int32; lia). done.
  - apply Forall_forall. intros sh (x & -> & (i & -> & Hi)%list_elem_of_fmap)%list_elem_of_fmap.
    destruct (shardStatus_index cr state (hostIndex state) i) as [-> ?]. split; [apply wrap32_range|done].
Qed.

Section Total.
Context {W : Type} `{!Platform W} `{!ClusterAdmin W} (I : W → Prop) `{!AnsweringPlatform W I} `{!AnsweringCluster W I}.

Lemma setConds_runs cr cs : typedCR cr → Forall (λ '(ty, _, re, ms), noticeOk ty re ms = true) cs → runsTo I (setConds cr cs) typedCR.
Proof.
  intros Ht Hcs. revert cr Ht. induction Hcs as [|[[[ty st] re] ms] cs Hn Hcs IH]; intros cr Ht w Hw; simpl; [by exists cr, w|].
  unfold setCond, bind. destruct (now_runs w Hw) as (t & w1 & E & _ & H1). rewrite E. simpl.
  exact (IH (setCondAt t cr ty st re ms) (setCondAt_typed t cr ty st re ms Hn Ht) w1 H1).
Qed.

Lemma updateStatus_runs cr st : typedCR cr → runs I (updateStatus cr st).
Proof.
  intros Hcr. unfold updateStatus. apply retry_runs. eapply runs_bindE_to; [apply getCR_runs|]. intros latest Ht.
  pose proof (statusDecision_notices cr st (computeStatus cr st)) as Hn. destruct (statusDecision _ _ _) as [phase conds].
  eapply runs_bind_to; [apply setConds_runs; [|exact Hn]|apply updateStatusCR_runs].
  by apply updated_typed.
Qed.

Lemma setPhase_runs cr p re ms : noticeOk ConditionProgressing re ms = true → runs I (setPhase cr p re ms).
Proof.
  intros Hn. unfold setPhase, setCond. apply retry_runs. eapply runs_bindE_to; [apply getCR_runs|]. intros latest Ht.
  eapply runs_bind_to with (P := typedCR); [|apply updateStatusCR_runs].
  intros w Hw. destruct (now_runs w Hw) as (t & w1 & E & _ & H1). unfold bind. rewrite E. eexists _, _. split; [done|]. split; [|done].
  apply setCondAt_typed; [done|]. destruct Ht as [? ? []]. by constructor.
Qed.

Lemma shardsReady_runs cr : runs I (shardsReady cr).
Proof.
  unfold shardsReady. generalize (seqZ 0 (crShards cr)) as l, (wrap32 (1 + crReplicas cr)) as want.
  induction l as [|i l IH]; intros want; simpl; runs_go.
Qed.

Lemma findShardPrimary_runs cr s idx : runs I (findShardPrimary cr s idx).
Proof.
  unfold findShardPrimary. apply runs_bind; [|intros [p|]; runs_go].
  induction (ordinals cr) as [|j js IH]; simpl; runs_go.
Qed.

Lemma attachReplicas_runs cr st : runs I (attachReplicas cr st).
Proof. unfold attachReplicas, attachPod. runs_go; apply findShardPrimary_runs. Qed.

Lemma existingShardIndexes_runs cr : runs I (existingShardIndexes cr).
Proof. unfold existingShardIndexes. runs_go. Qed.

Lemma forgetEverywhere_runs cr id : runs I (forgetEverywhere cr id).
Proof. unfold forgetEverywhere. runs_go. Qed.

Lemma forgetStaleNodes_runs cr st : runs I (forgetStaleNodes cr st).
Proof.
  unfold forgetStaleNodes, existingPodHosts.
  runs_go; auto using existingShardIndexes_runs, forgetEverywhere_runs.
Qed.

Lemma reconcileMembership_runs cr st : runs I (reconcileMembership cr st).
Proof.
  unfold reconcileMembership. runs_go; auto using attachReplicas_runs, forgetStaleNodes_runs.
Qed.

Lemma Distribute_nonneg n i : in_int32 n → 0 ≤ i < n →
  0 ≤ rangeCount (default (mkRange 0 0) (Distribute n !! Z.to_nat i)).
Proof.
  unfold in_int32. intros Hn Hi. rewrite Distribute_lookup by lia. unfold rangeCount. simpl.
  pose proof (splitAt_mono n i (i + 1)). lia.
Qed.

Lemma formCluster_runs cr : typedCR cr → runs I (formCluster cr).
Proof.
  intros Ht. unfold formCluster. runs_go; [|apply attachReplicas_runs].
  apply AddSlots_runs. constructor; [|done]. apply Distribute_nonneg; [apply Ht|].
  match goal with H : _ ∈ seqZ _ _ |- _ => apply elem_of_seqZ in H; lia end.
Qed.

(** [need] iterations are enough: an iteration that goes on has moved a slot. *)
Lemma fillLoop_runs fuel cr i id idx need :
  need ≤ Z.of_nat fuel → runs I (fillLoop fuel cr i id idx need).
Proof.
  revert idx need. induction fuel as [|fuel IH]; intros idx need Hf; simpl;
    destruct (Z.leb_spec need 0); try apply runs_ret; try lia.
  apply runs_bind; [auto with runs|]. intros entries.
  destruct (fattestPrimary entries id) as [src n] eqn:Ef. apply fattestPrimary_spec in Ef as [Hn _].
  destruct (_ || _); [apply runs_ret|].
  eapply runs_bind_to; [apply MoveSlots_runs; destruct (Z.ltb_spec n need); lia|].
  intros [moved [e|]] Hm; [apply runs_ret|]. specialize (Hm eq_refl).
  destruct (Z.eqb_spec moved 0); [apply runs_ret|].
  apply runs_bindE; [apply State_runs|]. intros st. apply IH. lia.
Qed.

Lemma scaleOut_runs cr old : runs I (scaleOut cr old).
Proof.
  unfold scaleOut, fillShard. runs_go; auto using attachReplicas_runs. apply fillLoop_runs. lia.
Qed.

Lemma deleteShard_runs cr i : runs I (deleteShard cr i).
Proof. unfold deleteShard, deleteShardPVCs, deletePVCs. runs_go. Qed.

Lemma firstSurvivor_runs cr idx ex shards : runs I (firstSurvivorIn cr idx ex shards).
Proof. induction shards as [|s l IH]; simpl; runs_go. apply findShardPrimary_runs. Qed.

Lemma retireShard_runs cr i : runs I (retireShard cr i).
Proof.
  unfold retireShard. apply runs_bindE; [apply State_runs|]. intros st.
  apply runs_bind; [apply findShardPrimary_runs|]. intros [dep o]. simpl.
  destruct (negb (String.eqb dep "") && _) eqn:Eg.
  - apply runs_bind; [apply firstSurvivor_runs|]. intros surv. destruct (String.eqb surv ""); [apply runs_ret|].
    apply andb_true_iff in Eg as [_ Hpos%Z.ltb_lt].
    apply runs_bind; [|intros [moved [e|]]; apply runs_ret].
    eapply runs_weaken, MoveSlots_runs. unfold drainBatchSlots. case_match; lia.
  - runs_go; auto using forgetEverywhere_runs, deleteShard_runs.
Qed.

Lemma scaleIn_runs cr : runs I (scaleIn cr).
Proof.
  unfold scaleIn. runs_go; auto using forgetStaleNodes_runs, existingShardIndexes_runs.
  match goal with |- runs _ (retireShards cr ?l) => induction l as [|i l IH]; simpl end; runs_go.
  apply retireShard_runs.
Qed.

Lemma reconcileCluster_runs cr : typedCR cr → runs I (reconcileCluster cr).
Proof.
  intros Ht. unfold reconcileCluster, choosePlan, hasExcessShardStatefulSets, actOn.
  runs_go; try (apply setPhase_runs; vm_compute; reflexivity);
    auto using existingShardIndexes_runs, formCluster_runs, scaleOut_runs, scaleIn_runs, reconcileMembership_runs, updateStatus_runs.
Qed.

Lemma reconcileLive_runs cr : typedCR cr → runs I (reconcileLive cr).
Proof.
  intros Ht. unfold reconcileLive, ensureConfigMap, ensureHeadlessService, ensureStatefulSets.
  runs_go; try (apply setPhase_runs; vm_compute; reflexivity); auto using shardsReady_runs, reconcileCluster_runs.
Qed.

Lemma reconcileDelete_runs cr : typedCR cr → runs I (reconcileDelete cr).
Proof.
  intros Ht. unfold reconcileDelete, deleteOwnedPVCs, deletePVCs. runs_go.
  eapply runs_weaken, updateCR_runs. by apply removeFinalizer_typed.
Qed.

Lemma Reconcile_runs req : runs I (Reconcile req).
Proof.
  unfold Reconcile. eapply runs_bind_to; [apply getCR_runs|]. intros [cr|e] Ht; [|apply runs_ret].
  specialize (Ht cr eq_refl). destruct (mDeletionTimestamp (crMeta cr)); [by apply reconcileDelete_runs|].
  destruct (containsFinalizer cr finalizer); [by apply reconcileLive_runs|].
  eapply runs_bindE_to; [by apply updateCR_runs, (addFinalizer_typed (I := I))|]. intros cr' Ht'.
  by apply reconcileLive_runs.
Qed.
End Total.

(** C12: the reconciler always returns.  Whatever the plan, the size of the
    cluster and the errors on the way, a pass of [Reconcile] gives a result (a
    requeue delay or an error), in any world whose calls return and whose slot
    mover reports a number of slots. *)
Theorem reconcile_terminates {W : Type} `{!Platform W} `{!ClusterAdmin W} (I : W → Prop)
    (req : NamespacedName) (w : W) :
  AnsweringPlatform W I → AnsweringCluster W I → I w →
  ∃ r w', Reconcile req w = Some (r, w') ∧ I w'.
Proof. intros HP HC Hw. destruct (Reconcile_runs I req w Hw) as (r & w' & ? & _ & ?). eauto. Qed.

(** ** The in-memory world answers *)

Definition typedKube (k : KubeWorld) : Prop := map_Forall (λ _, typedCR) (kCRs k).
Definition sideBySide {V} (IV : V → Prop) (w : KubeWorld * V) : Prop := typedKube w.1 ∧ IV w.2.

Lemma typedKube_insert k key cr : typedKube k → typedCR cr → map_Forall (λ _, typedCR) (<[key := cr]> (kCRs k)).
Proof. intros. by apply map_Forall_insert_2. Qed.

Lemma retryN_answers {V} (I : KubeWorld * V → Prop) n fn : runs I fn → runs I (retryN n fn).
Proof.
  intros Hfn. induction n as [|n IH]; simpl; apply runs_bind; try done; intros [a|e]; try apply runs_ret.
  destruct (IsConflict e); [exact IH|apply runs_ret].
Qed.

#[export] Instance server_Answering {V} (IV : V → Prop) : AnsweringPlatform (KubeWorld * V) (sideBySide IV).
Proof.
  constructor; unfold runs, runsTo.
  - intros k w Hw. eexists _, _. split; [reflexivity|]. split; [|done]. intros cr. unfold orNotFound.
    destruct (kCRs w.1 !! keyOf k) eqn:E; [|done]. intros [= <-]. destruct Hw as [Hw _]. by eapply Hw.
  - intros cr Ht w [H1 H2]. eexists _, _. split; [reflexivity|]. split; [by intros ? [= <-]|].
    split; [by apply typedKube_insert|done].
  - intros cr Ht w [H1 H2]. eexists _, _. split; [reflexivity|]. split; [done|].
    split; [by apply typedKube_insert|done].
  - intros k f w Hw. simpl. destruct (f _); by eexists _, _.
  - intros k f w Hw. simpl. destruct (f _); by eexists _, _.
  - intros k f w Hw. simpl. destruct (f _); by eexists _, _.
  - intros k w Hw. by eexists _, _.
  - intros ns sel w Hw. by eexists _, _.
  - intros k w Hw. simpl. destruct (_ !! _); by eexists _, _.
  - intros ns sel w Hw. by eexists _, _.
  - intros m w Hw. by eexists _, _.
  - intros fn Hfn. by apply retryN_answers.
  - intros w Hw. by eexists _, _.
  - intros m w Hw. by eexists _, _.
  - intros cr f [? ? ?]. by constructor.
  - intros cr f [? ? ?]. by constructor.
Qed.

#[export] Instance right_Answering `{!ClusterAdmin V} (IV : V → Prop) :
  AnsweringCluster V IV → AnsweringCluster (KubeWorld * V) (sideBySide IV).
Proof.
  intros HV.
  assert (∀ A (m : M V A) P, runsTo IV m P → runsTo (sideBySide IV) (onRight m) P) as Hr.
  { intros A m P Hm w [H1 H2]. destruct (Hm _ H2) as (a & v & E & HP & Hv). exists a, (w.1, v).
    unfold onRight. by rewrite E. }
  constructor; intros; apply Hr; by apply HV.
Qed.

#[export] Instance fake_Answering : AnsweringCluster (gmap string NodeInfo) fake_inv.
Proof.
  constructor; unfold runs, runsTo.
  - intros s f Hf. by eexists _, _.
  - intros e f Hf. eexists _, _. split_and!; [reflexivity|done|by apply fake_inv_ensure].
  - intros a b f Hf. eexists _, _. split_and!; [reflexivity|done|by do 2 apply fake_inv_ensure].
  - intros e rs Hrs f Hf. eexists _, _. split_and!; [reflexivity|done|].
    eapply fake_inv_step; [done|]. by eapply (step_AddSlots e rs).
  - intros e p f Hf. eexists _, _. split_and!; [reflexivity|done|].
    eapply fake_inv_step; [done|]. by eapply (step_Replicate e p).
  - intros e n f Hf. eexists _, _. split_and!; [reflexivity|done|by apply map_Forall_delete].
  - intros s f Hf. by eexists _, _.
  - intros s from to n Hn f Hf. simpl.
    destruct (f !! from) as [fn|] eqn:Ef; [destruct (f !! to) as [tn|] eqn:Et|].
    + destruct (MoveSlots_effect f s from to n fn tn Hf Hn Ef Et) as (f' & E & _).
      exists (Z.min n (SlotCount fn), None), f'. split_and!; [done| |by eapply fake_inv_MoveSlots].
      intros _. pose proof (ok_count _ _ (Hf _ _ Ef)). lia.
    + eexists (0, None), f. unfold Fake.MoveSlots. by rewrite Ef, Et.
    + eexists (0, None), f. unfold Fake.MoveSlots. by rewrite Ef.
Qed.

Lemma soloWorld_typed : sideBySide fake_inv soloWorld.
Proof.
  split; [|apply map_Forall_empty]. apply map_Forall_singleton. constructor.
  - unfold in_int32. vm_compute. by split.
  - done.
  - constructor; simpl; [by unfold in_int32|constructor..].
Qed.

Lemma reconcile_terminates_witness :
  ∃ r w', Reconcile (crKey soloCR) soloWorld = Some (r, w') ∧ sideBySide fake_inv w'.
Proof. apply (reconcile_terminates (sideBySide fake_inv) (crKey soloCR) soloWorld); [apply _..|]. exact soloWorld_typed. Defined.

(** C17: every status the operator publishes is well-typed.  In a server whose
    resources satisfy the schema, they still do after a pass, over any cluster
    whose calls return: the integers fit their width, there is one entry per
    shard index and per condition type, and every reason and message is one
    that the API server accepts. *)
Theorem reconcile_keeps_types {V : Type} `{!ClusterAdmin V} (IV : V → Prop) (req : NamespacedName) (w : KubeWorld * V) :
  AnsweringCluster V IV → typedKube w.1 → IV w.2 →
  ∃ r w', Reconcile req w = Some (r, w') ∧ map_Forall (λ _ cr, status_valid (crStatus cr)) (kCRs w'.1).
Proof.
  intros HV Ht Hv. destruct (Reconcile_runs (sideBySide IV) req w (conj Ht Hv)) as (r & w' & E & _ & Ht' & _). exists r, w'.
  split; [done|]. intros key cr Hk. apply (Ht' key cr Hk).
Qed.

Lemma reconcile_keeps_types_witness :
  ∃ r w', Reconcile (crKey soloCR) soloWorld = Some (r, w') ∧ map_Forall (λ _ cr, status_valid (crStatus cr)) (kCRs w'.1).
Proof.
  apply (reconcile_keeps_types fake_inv (crKey soloCR) soloWorld); [apply _|exact (proj1 soloWorld_typed)|exact (proj2 soloWorld_typed)].
Defined.
