(* ===== verification/Lifecycle.v ===== *)
(** * Objects, gates and deletion

    What a pass does to the API server: the StatefulSets it ensures, the
    readiness gate before the cluster is touched, the stability gate before a
    topology change, and the removal of the finalizer. *)

From S2P Require Import Prelude GoStrings Cluster Slots Topology API ResourceBuilders.
From S2P Require Import ResourceProofs Platform Controller Reconcile Fake FakeProofs TestBed.
From S2P Require Import StatusProofs ScaleInProofs.
Local Open Scope string_scope.
Local Open Scope list_scope.
Local Open Scope Z_scope.

(** ** Owned StatefulSets *)

Definition setKey (cr : ValkeyCluster) (i : Z) : string * string := (StatefulSetName cr i, crNamespace cr).

Lemma setKey_inj cr i i' :
  0 ≤ i < 2 ^ 63 → 0 ≤ i' < 2 ^ 63 → setKey cr i = setKey cr i' → i = i'.
Proof. intros ? ? [= E]. by apply StatefulSetName_inj in E as [_ ?]. Qed.

(** The set of shard [i] after it was ensured, given what was there before. *)
Record ensuredSet (sum : string → string) (cr : ValkeyCluster) (i : Z) (old : option StatefulSetObj)
    (sts : StatefulSetObj) : Prop := {
  es_replicas : stsReplicas sts = wrap32 (1 + crReplicas cr);
  es_template : stsTemplate sts = stsTemplate (StatefulSet sum cr i);
  es_labels : mLabels (stsMeta sts) = mLabels (stsMeta (StatefulSet sum cr i));
  es_namespace : mNamespace (stsMeta sts) = default (crNamespace cr) ((λ o, mNamespace (stsMeta o)) <$> old);
  es_owner : mOwners (stsMeta sts) = [crName cr];
  es_created : mCreationTimestamp (stsMeta sts) ≠ None;
  es_ready : stsReadyReplicas sts = default 0 (stsReadyReplicas <$> old);
  (** the fields the API server does not let change *)
  es_immutable : ∀ o, old = Some o → mCreationTimestamp (stsMeta o) ≠ None →
    stsServiceName sts = stsServiceName o ∧ stsPodManagement sts = stsPodManagement o ∧
    stsSelector sts = stsSelector o ∧ stsClaims sts = stsClaims o ∧
    mCreationTimestamp (stsMeta sts) = mCreationTimestamp (stsMeta o);
  es_fresh : old = None →
    stsServiceName sts = HeadlessServiceName cr ∧ stsSelector sts = stsSelector (StatefulSet sum cr i) ∧
    stsClaims sts = stsClaims (StatefulSet sum cr i)
}.

Section Server.
Context {V : Type} `{!ClusterAdmin V}.
Implicit Types w : KubeWorld * V.
Local Abbreviation hash := (sum256 (W := KubeWorld * V)).

(** Only the sets of the API server differ. *)
Definition sameButSets (w w' : KubeWorld * V) : Prop :=
  w'.2 = w.2 ∧ kCRs w'.1 = kCRs w.1 ∧ kConfigMaps w'.1 = kConfigMaps w.1 ∧
  kServices w'.1 = kServices w.1 ∧ kPVCs w'.1 = kPVCs w.1.

Lemma ensureStatefulSet_one cr i w :
  ∃ w', createOrUpdateStatefulSet (mkKey (StatefulSetName cr i) (crNamespace cr))
          (mutateStatefulSet (W := KubeWorld * V) cr (StatefulSet hash cr i)) w = Some (Ok tt, w') ∧
    sameButSets w w' ∧
    (∃ sts, kSets w'.1 !! setKey cr i = Some sts ∧ ensuredSet hash cr i (kSets w.1 !! setKey cr i) sts) ∧
    (∀ k, k ≠ setKey cr i → kSets w'.1 !! k = kSets w.1 !! k).
Proof.
  simpl. unfold keyOf. simpl. fold (setKey cr i). eexists. split; [reflexivity|]. simpl.
  split; [by split_and!|]. split; [|intros; by rewrite lookup_insert_ne].
  eexists. split; [apply lookup_insert_eq|].
  destruct (kSets w.1 !! setKey cr i) as [o|] eqn:Eo; simpl.
  - destruct (mCreationTimestamp (stsMeta o)) as [t|] eqn:Et; constructor; simpl; rewrite ?Et; try done.
    + intros o' [= <-] _. by rewrite Et.
    + intros o' [= <-]. by rewrite Et.
  - by constructor.
Qed.

Lemma ensureStatefulSets_loop cr w :
  crShards cr < 2 ^ 63 →
  wp (ensureStatefulSets cr) (λ r w', r = Ok tt ∧ sameButSets w w' ∧
    (∀ i, i ∈ seqZ 0 (crShards cr) → ∃ sts, kSets w'.1 !! setKey cr i = Some sts ∧
       ensuredSet hash cr i (kSets w.1 !! setKey cr i) sts) ∧
    (∀ k, (∀ i, i ∈ seqZ 0 (crShards cr) → k ≠ setKey cr i) → kSets w'.1 !! k = kSets w.1 !! k)) w.
Proof.
  intros Hmax. unfold ensureStatefulSets.
  apply (wp_forE_prefix _ _ (λ pre w', sameButSets w w' ∧
    (∀ i, i ∈ pre → ∃ sts, kSets w'.1 !! setKey cr i = Some sts ∧
       ensuredSet hash cr i (kSets w.1 !! setKey cr i) sts) ∧
    (∀ k, (∀ i, i ∈ pre → k ≠ setKey cr i) → kSets w'.1 !! k = kSets w.1 !! k))).
  { split; [by split_and!|]. split; [by intros ? ?%elem_of_nil|done]. }
  intros pre i post w1 Epre (Hs & Hin & Hout).
  assert (∀ i', i' ∈ pre ++ i :: post → 0 ≤ i' < 2 ^ 63) as Hb.
  { intros i' Hi'. rewrite <- Epre in Hi'. apply elem_of_seqZ in Hi'. lia. }
  assert (i ∉ pre) as Hni.
  { pose proof (NoDup_seqZ 0 (crShards cr)) as Hnd. rewrite Epre in Hnd.
    apply NoDup_app in Hnd as (_ & Hd & _). intros H. by apply (Hd i H); left. }
  assert (∀ i', i' ∈ pre → setKey cr i' ≠ setKey cr i) as Hkey.
  { intros i' Hi' E. apply setKey_inj in E as ->; [done|apply Hb..]; rewrite elem_of_app, ?elem_of_cons; auto. }
  destruct (ensureStatefulSet_one cr i w1) as (w2 & E & Hs2 & (sts & Hl & He) & Ho).
  exists (Ok tt), w2. split; [exact E|]. split; [done|].
  unfold sameButSets in *. destruct_and!. split; [by split_and!; congruence|]. split.
  - intros i' [Hi'| ->%list_elem_of_singleton]%elem_of_app; [rewrite Ho by auto; by apply Hin|].
    exists sts. rewrite <- (Hout (setKey cr i)); [done|]. intros i' Hi' Heq. by apply (Hkey i').
  - intros k Hk. rewrite Ho by (apply Hk; set_solver). apply Hout. set_solver.
Qed.

(** C25: after [ensureStatefulSets], every declared shard has its StatefulSet
    with the declared number of pods, the template of this resource and its
    labels; of a set that existed, the fields the API server refuses to change
    are the ones it had; sets beyond the declared shards, every other object
    and the cluster are left alone. *)
Theorem ensure_statefulsets_spec (cr : ValkeyCluster) (w : KubeWorld * V) :
  crShards cr < 2 ^ 63 →
  ∃ w', ensureStatefulSets cr w = Some (Ok tt, w') ∧ sameButSets w w' ∧
    (∀ i, 0 ≤ i < crShards cr → ∃ sts, kSets w'.1 !! setKey cr i = Some sts ∧
       ensuredSet hash cr i (kSets w.1 !! setKey cr i) sts) ∧
    (∀ k, (∀ i, 0 ≤ i < crShards cr → k ≠ setKey cr i) → kSets w'.1 !! k = kSets w.1 !! k).
Proof.
  intros Hmax. destruct (ensureStatefulSets_loop cr w Hmax) as (r & w' & E & -> & Hs & Hin & Hout).
  exists w'. split; [done|]. split; [done|]. setoid_rewrite elem_of_seqZ in Hin.
  setoid_rewrite elem_of_seqZ in Hout. split; [intros; apply Hin; lia|]. intros k Hk. apply Hout.
  intros i Hi. apply Hk. lia.
Qed.

(** ** The readiness gate *)

Lemma shardsReady_gate cr want l i w :
  i ∈ l → stsReadyReplicas <$> (kSets w.1 !! setKey cr i) ≠ Some want →
  wp (shardsReadyFrom cr want l) (λ r w', r = Ok false ∧ w' = w) w.
Proof.
  intros Hin Hnr. induction l as [|i' l IH]; [by apply elem_of_nil in Hin|]. simpl.
  apply wp_bind. eexists _, w. split; [reflexivity|]. unfold orNotFound, keyOf. simpl.
  fold (setKey cr i'). destruct (kSets w.1 !! setKey cr i') as [sts|] eqn:E; [|by apply wp_ret].
  destruct (Z.eqb_spec (stsReadyReplicas sts) want) as [Hw|Hw]; simpl; [|by apply wp_ret].
  apply elem_of_cons in Hin as [->|Hin]; [|by apply IH].
  exfalso. apply Hnr. rewrite E. simpl. by rewrite Hw.
Qed.

Lemma retryN_frame n (fn : M (KubeWorld * V) (result unit)) (I : KubeWorld * V → Prop) w :
  (∀ w, I w → wp fn (λ _, I) w) → I w → wp (retryN n fn) (λ _, I) w.
Proof.
  intros Hfn. revert w. induction n as [|n IH]; intros w Hw; simpl; apply wp_bind;
    (eapply wp_mono; [by apply Hfn|]); intros [a|e] w1 H1; try by apply wp_ret.
  destruct (IsConflict e); [by apply IH|by apply wp_ret].
Qed.

Lemma setPhase_server cr p re ms w : wp (setPhase cr p re ms) (λ _ w', w'.2 = w.2) w.
Proof.
  apply (retryN_frame 4 _ (λ w', w'.2 = w.2)); [|done]. intros w1 Hw1. apply wp_bindE.
  eexists _, w1. split; [reflexivity|]. unfold orNotFound. destruct (kCRs w1.1 !! _); [|done].
  by eexists _, _.
Qed.

(** The cluster is not touched before every declared pod is ready.  While
    some shard's StatefulSet is missing or has fewer or more ready pods than
    declared, a pass makes no call on the cluster, asks to be run again after
    [requeueAfter] and reports no error. *)
Theorem provisioning_leaves_cluster_alone (cr : ValkeyCluster) (w : KubeWorld * V) (i : Z) :
  crShards cr < 2 ^ 63 → in_int32 (1 + crReplicas cr) → 0 < 1 + crReplicas cr → 0 ≤ i < crShards cr →
  stsReadyReplicas <$> (kSets w.1 !! setKey cr i) ≠ Some (1 + crReplicas cr) →
  ∃ w', reconcileLive cr w = Some (Ok requeueAfter, w') ∧ w'.2 = w.2.
Proof.
  intros Hmax Hr Hpos Hi Hnr.
  cut (wp (reconcileLive cr) (λ r w', r = Ok requeueAfter ∧ w'.2 = w.2) w).
  { intros (r & w' & E & -> & ?). eauto. }
  unfold reconcileLive. apply wp_bindE. eexists _, _. split; [reflexivity|].
  apply wp_bindE. eexists _, _. split; [reflexivity|]. apply wp_bindE.
  match goal with |- wp _ _ ?w1 =>
    destruct (ensureStatefulSets_loop cr w1 Hmax) as (r & w2 & E & -> & (Hv & _) & Hin & _) end.
  eexists _, w2. split; [exact E|]. apply wp_bindE. unfold shardsReady. rewrite wrap32_id by done.
  destruct (Hin i) as (sts & Hl & He); [apply elem_of_seqZ; lia|].
  eapply wp_mono; [eapply (shardsReady_gate _ _ _ i); [apply elem_of_seqZ; lia|]|].
  { rewrite Hl. simpl. rewrite (es_ready _ _ _ _ _ He). simpl. intros [= Heq].
    destruct (kSets w.1 !! setKey cr i); simpl in *; [congruence|lia]. }
  intros r' w' [-> ->]. simpl. apply wp_bind. eapply wp_mono; [apply setPhase_server|].
  intros r3 w3 E3. apply wp_ret. split; [done|]. by rewrite E3, Hv.
Qed.
End Server.

Lemma ensure_statefulsets_spec_witness :
  ∃ w', ensureStatefulSets soloCR soloWorld = Some (Ok tt, w') ∧ sameButSets soloWorld w' ∧
    (∀ i, 0 ≤ i < crShards soloCR → ∃ sts, kSets w'.1 !! setKey soloCR i = Some sts ∧
       ensuredSet (sum256 (W := KubeWorld * gmap string NodeInfo)) soloCR i
         (kSets soloWorld.1 !! setKey soloCR i) sts) ∧
    (∀ k, (∀ i, 0 ≤ i < crShards soloCR → k ≠ setKey soloCR i) → kSets w'.1 !! k = kSets soloWorld.1 !! k).
Proof. apply (ensure_statefulsets_spec soloCR soloWorld). reflexivity. Defined.

Lemma provisioning_leaves_cluster_alone_witness :
  ∃ w', reconcileLive soloCR soloWorld = Some (Ok 15, w') ∧ w'.2 = Fake.NewFake.
Proof.
  apply (provisioning_leaves_cluster_alone soloCR soloWorld 0); [reflexivity| | |by vm_compute; split|].
  - unfold in_int32. vm_compute. by split.
  - reflexivity.
  - vm_compute. discriminate.
Defined.

(** ** Deletion *)

(** The claims [deleteOwnedPVCs] lists. *)
Definition ownedPVC (cr : ValkeyCluster) (m : ObjectMeta) : bool :=
  String.eqb (mNamespace m) (crNamespace cr) &&
  bool_decide ({[ "app.kubernetes.io/instance" := crName cr ]} ⊆ mLabels m).

Definition withPVCs {V} (pvcs : list ObjectMeta) (w : KubeWorld * V) : KubeWorld * V :=
  (mkKube (kCRs w.1) (kConfigMaps w.1) (kServices w.1) (kSets w.1) pvcs (kClock w.1), w.2).

Lemma filter_filter_ext {A} (f g h : A → bool) l :
  (∀ x, h x = f x && g x) → List.filter f (List.filter g l) = List.filter h l.
Proof.
  intros H. induction l as [|x l IH]; simpl; [done|]. rewrite H.
  destruct (g x); simpl; [|by rewrite andb_false_r]. destruct (f x); simpl; by rewrite IH.
Qed.

(** With distinct keys, filtering by the keys of the matches is filtering by the
    match itself. *)
Lemma filter_keys {A B} `{EqDecision B} (key : A → B) (f : A → bool) l :
  NoDup (map key l) →
  List.filter (λ x, negb (bool_decide (key x ∈ map key (List.filter f l)))) l = List.filter (λ x, negb (f x)) l.
Proof.
  intros Hnd. apply filter_ext_in. intros x Hx%list_elem_of_In. f_equal.
  destruct (f x) eqn:Ef.
  - apply bool_decide_eq_true_2, list_elem_of_fmap. exists x. split; [done|].
    by apply list_elem_of_In, filter_In; rewrite <- list_elem_of_In.
  - apply bool_decide_eq_false_2. intros (y & E & [Hy Hf]%list_elem_of_In%filter_In)%list_elem_of_fmap.
    assert (x = y) as <-; [|congruence]. apply list_elem_of_In in Hy.
    apply list_elem_of_lookup in Hx as [a Ha], Hy as [b Hb].
    assert (a = b) as <-; [|congruence]. eapply (NoDup_lookup _ _ _ _ Hnd);
      rewrite list_lookup_fmap; [by rewrite Ha|]. rewrite Hb. simpl. by rewrite E.
Qed.

Lemma deletePVCs_server {V} l (w : KubeWorld * V) :
  deletePVCs l w = Some (Ok tt, withPVCs
    (List.filter (λ p, negb (bool_decide (metaKey p ∈ map metaKey l))) (kPVCs w.1)) w).
Proof.
  unfold deletePVCs. revert w. induction l as [|m l IH]; intros w.
  - simpl. unfold ret, withPVCs. destruct w as [[] ?]. simpl. do 4 f_equal.
    rewrite forallb_filter_id; [done|]. apply forallb_forall. done.
  - simpl forE. unfold bindE at 1, bind at 1. unfold ignoreNotFound, bind. simpl. unfold ret.
    rewrite IH. unfold withPVCs. simpl. do 4 f_equal. apply filter_filter_ext. intros x.
    rewrite <- negb_orb. f_equal.
    destruct (decide (metaKey x = metaKey m)) as [E|E].
    + rewrite (bool_decide_eq_true_2 (metaKey x = _)), orb_true_r by done.
      apply bool_decide_eq_true_2. rewrite E. left.
    + rewrite (bool_decide_eq_false_2 (metaKey x = _)), orb_false_r by done.
      apply bool_decide_ext. rewrite elem_of_cons. tauto.
Qed.

(** C26: deleting the resource reclaims its volumes and nothing else: exactly
    the claims labelled with this instance in its namespace are gone, and the
    finalizer is removed in the same pass; the cluster and the other objects
    are left to the garbage collector. *)
Theorem delete_reclaims_volumes {V : Type} (cr : ValkeyCluster) (w : KubeWorld * V) :
  containsFinalizer (W := KubeWorld * V) cr finalizer = true →
  NoDup (map metaKey (kPVCs w.1)) →
  ∃ w', reconcileDelete cr w = Some (Ok 0, w') ∧
    kPVCs w'.1 = List.filter (λ m, negb (ownedPVC cr m)) (kPVCs w.1) ∧
    kCRs w'.1 = <[metaKey (crMeta cr) := removeFinalizer (W := KubeWorld * V) cr finalizer]> (kCRs w.1) ∧
    containsFinalizer (W := KubeWorld * V) (removeFinalizer (W := KubeWorld * V) cr finalizer) finalizer = false ∧
    kSets w'.1 = kSets w.1 ∧ w'.2 = w.2.
Proof.
  intros Hc Hnd. unfold reconcileDelete. rewrite Hc.
  assert (deleteOwnedPVCs cr w = Some (Ok tt, withPVCs (List.filter (λ m, negb (ownedPVC cr m)) (kPVCs w.1)) w)) as E.
  { etransitivity; [exact (deletePVCs_server (List.filter (ownedPVC cr) (kPVCs w.1)) w)|].
    rewrite filter_keys by done. done. }
  eexists. split; [unfold bindE at 1, bind at 1; rewrite E; reflexivity|]. simpl. split_and!; try done.
  apply bool_decide_eq_false_2. intros [_ Hx]%list_elem_of_In%filter_In. by rewrite String.eqb_refl in Hx.
Qed.

Lemma delete_reclaims_volumes_witness :
  let cr := addFinalizer (W := KubeWorld * unit) soloCR finalizer in
  let w := withPVCs [metaOf "other" "ns"; set_mLabels {["app.kubernetes.io/instance" := "solo"]} (metaOf "mine" "ns")]
             (kubeWith cr, tt) in
  containsFinalizer (W := KubeWorld * unit) cr finalizer = true ∧
  ∃ w', reconcileDelete cr w = Some (Ok 0, w') ∧
    kPVCs w'.1 = [metaOf "other" "ns"] ∧
    kCRs w'.1 = <[metaKey (crMeta cr) := removeFinalizer (W := KubeWorld * unit) cr finalizer]> (kCRs w.1) ∧
    containsFinalizer (W := KubeWorld * unit) (removeFinalizer (W := KubeWorld * unit) cr finalizer) finalizer = false ∧
    kSets w'.1 = kSets w.1 ∧ w'.2 = w.2.
Proof.
  intros cr w. split; [reflexivity|]. apply (delete_reclaims_volumes cr w); [reflexivity|].
  apply (bool_decide_unpack _). by vm_compute.
Defined.

(** ** The stability gate *)

(** C27: on a formed cluster that is not stable (a slot uncovered or open), no
    shard or replica is added: the plan is to repair, unless a StatefulSet
    beyond the declared shards is left, in which case it is to scale in, before
    the repair. *)
Theorem stability_gate {W : Type} `{!Platform W} (cr : ValkeyCluster) (state : ClusterState) (w w' : W) (p : Plan) :
  csFormed state = true → csSlotsCovered state = false ∨ csOpenSlots state = true →
  choosePlan cr (summarize state) w = Some (Ok p, w') →
  ∃ idxs, existingShardIndexes cr w = Some (Ok idxs, w') ∧
    ((Kind p = ActionRepair ∧ ∀ i, i ∈ idxs → i < crShards cr) ∨
     (Kind p = ActionScaleInShards ∧ ∃ i, i ∈ idxs ∧ crShards cr ≤ i)).
Proof.
  intros HF HU. unfold choosePlan.
  assert (Kind (Decide (desiredOf cr) (summarize state)) = ActionRepair) as Hk.
  { assert (oFormed (summarize state) = true ∧ oSlotsCovered (summarize state) = false) as [E1 E2].
    { unfold summarize. destruct (fold_left _ _ (0, [])). simpl. split; [done|].
      destruct HU as [-> | ->]; [done|by rewrite andb_false_r]. }
    unfold Decide. by rewrite E1, E2. }
  rewrite Hk. simpl. unfold bindE, bind, hasExcessShardStatefulSets, bindE, bind.
  destruct (existingShardIndexes cr w) as [[[idxs|e] w1]|] eqn:E; simpl; try done.
  unfold ret. intros [= <- <-]. exists idxs. split; [done|].
  destruct (existsb _ idxs) eqn:Ex.
  - right. apply existsb_exists in Ex as (i & Hi & Hle%Z.leb_le). split; [done|].
    exists i. by rewrite list_elem_of_In.
  - left. split; [done|]. intros i Hi%list_elem_of_In.
    destruct (Z.ltb_spec i (crShards cr)); [done|].
    assert (existsb (λ i, crShards cr <=? i) idxs = true); [|congruence].
    apply existsb_exists. exists i. by rewrite Z.leb_le.
Qed.

(** With a shard left over and a slot open, the scale-in comes first. *)
Lemma stability_gate_witness :
  let state := mkState true true true (csNodes (Fake.view pairNodes)) in
  let w := (pairKube, pairNodes) in
  choosePlan soloCR (summarize state) w = Some (Ok (planOf ActionScaleInShards), w) ∧
  ∃ idxs, existingShardIndexes soloCR w = Some (Ok idxs, w) ∧
    ((ActionScaleInShards = ActionRepair ∧ ∀ i, i ∈ idxs → i < crShards soloCR) ∨
     (ActionScaleInShards = ActionScaleInShards ∧ ∃ i, i ∈ idxs ∧ crShards soloCR ≤ i)).
Proof.
  intros state w. split; [vm_compute; reflexivity|].
  apply (stability_gate soloCR state w w (planOf ActionScaleInShards)); [reflexivity|by right|].
  vm_compute. reflexivity.
Defined.
