(* ===== verification/Formation.v ===== *)
(** * Formation and steady state

    On an empty in-memory cluster, [formCluster] reaches the declared topology
    in one pass: each shard's pod 0 owns the shard's range of [Distribute], the
    other pods replicate it, and the planner has nothing left to do. *)

From S2P Require Import Prelude GoStrings Cluster Slots Topology API ResourceBuilders.
From S2P Require Import ResourceProofs Platform Controller Reconcile Fake FakeProofs TestBed.
From S2P Require Import StatusProofs ScaleInProofs.
Local Open Scope string_scope.
Local Open Scope list_scope.
Local Open Scope Z_scope.

Lemma ensure_insert e (f : gmap string NodeInfo) :
  Fake.ensure e f = <[epHost e := default (Fake.freshNode e) (f !! epHost e)]> f.
Proof. unfold Fake.ensure. destruct (f !! epHost e) eqn:E; simpl; [by rewrite insert_id|done]. Qed.

Lemma alter_insert_id (f : gmap string NodeInfo) g k x : alter g k (<[k := x]> f) = <[k := g x]> f.
Proof.
  apply map_eq. intros k'. destruct (decide (k = k')) as [<-|Hne].
  - by rewrite lookup_alter_eq, !lookup_insert_eq.
  - by rewrite lookup_alter_ne, !lookup_insert_ne.
Qed.

Section Form.
Context (cr : ValkeyCluster).
Local Abbreviation host := (PodFQDN cr).
Local Abbreviation pod i j := (0 ≤ i < crShards cr ∧ 0 ≤ j ≤ crReplicas cr).
Context (Hs : 0 < crShards cr ≤ TotalSlots) (Hr : 0 ≤ crReplicas cr < 2 ^ 31).

Definition fresh (i j : Z) : NodeInfo := Fake.freshNode (endpoint cr i j).

(** The node of a shard's pod 0 after formation, and of its other pods. *)
Definition pnode (i : Z) : NodeInfo :=
  set_nSlots [mkRange (splitAt (crShards cr) i) (splitAt (crShards cr) (i + 1) - 1)] (fresh i 0).
Definition rnode (i j : Z) : NodeInfo :=
  set_nSlots [] (set_nFlags ["slave"] (set_nMasterID (host i 0) (fresh i j))).

(** Every pod's entry is as [Q] says, and there are no others. *)
Definition podsAre (Q : Z → Z → option NodeInfo → Prop) (f : gmap string NodeInfo) : Prop :=
  (∀ i j, pod i j → Q i j (f !! host i j)) ∧
  (∀ h, is_Some (f !! h) → ∃ i j, pod i j ∧ h = host i j).

Definition absentOrFresh (i j : Z) (o : option NodeInfo) : Prop := o = None ∨ o = Some (fresh i j).

Lemma host_inj i j i' j' : pod i j → pod i' j' → host i j = host i' j' → i = i' ∧ j = j'.
Proof. unfold TotalSlots in *. intros ? ?. apply PodFQDN_inj; lia. Qed.

Lemma podsAre_insert (Q Q' : Z → Z → option NodeInfo → Prop) f i j n :
  podsAre Q f → pod i j → Q' i j (Some n) →
  (∀ i' j' o, (i', j') ≠ (i, j) → Q i' j' o → Q' i' j' o) →
  podsAre Q' (<[host i j := n]> f).
Proof.
  intros [HQ Hdom] Hij Hn Hother. split.
  - intros i' j' Hij'. destruct (decide (host i j = host i' j')) as [E|E].
    + apply host_inj in E as [<- <-]; [|done..]. by rewrite lookup_insert_eq.
    + rewrite lookup_insert_ne by done. apply Hother; [|by apply HQ]. congruence.
  - intros h. rewrite lookup_insert_is_Some. intros [<-|[_ H]]; [by exists i, j|by apply Hdom].
Qed.

Lemma podsAre_ensure Q f i j :
  podsAre Q f → pod i j → (∀ o, Q i j o → Q i j (Some (default (fresh i j) o))) →
  podsAre Q (Fake.ensure (endpoint cr i j) f).
Proof.
  intros H Hij HQ. rewrite ensure_insert. apply (podsAre_insert Q); [done..| |done].
  apply HQ. by apply (proj1 H).
Qed.

Lemma podsAre_mono (Q Q' : Z → Z → option NodeInfo → Prop) f :
  podsAre Q f → (∀ i j o, pod i j → Q i j o → Q' i j o) → podsAre Q' f.
Proof. intros [HQ Hd] HQQ. split; [|done]. auto. Qed.

Lemma elem_of_allEndpoints ep : ep ∈ allEndpoints cr ↔ ∃ i j, pod i j ∧ ep = endpoint cr i j.
Proof.
  unfold allEndpoints. rewrite list_elem_of_join. split.
  - intros (l & Hin & (i & -> & Hi%elem_of_seqZ)%list_elem_of_fmap).
    apply list_elem_of_fmap in Hin as (j & -> & Hj%elem_of_ordinals). exists i, j. split; [lia|done].
  - intros (i & j & [Hi Hj] & ->). exists (map (endpoint cr i) (ordinals cr)).
    split; apply list_elem_of_fmap; [exists j; by rewrite elem_of_ordinals|].
    exists i. rewrite elem_of_seqZ. split; [done|lia].
Qed.

Lemma pod_seed : pod 0 0.
Proof. lia. Qed.

(** Meeting every pod. *)
Lemma form_meets :
  wp (forE (allEndpoints cr) (λ ep, if String.eqb (epHost ep) (epHost (seed cr)) then ret (Ok tt)
        else wrapE ("meet " +:+ epHost ep) (Meet (seed cr) ep)))
    (λ r f, r = Ok tt ∧ podsAre absentOrFresh f) Fake.NewFake.
Proof.
  apply (wp_forE_prefix _ _ (λ _ f, podsAre absentOrFresh f)).
  - split; [intros; by left|]. intros h [? H]. unfold Fake.NewFake in H. by rewrite lookup_empty in H.
  - intros pre ep post f E Hf. assert (ep ∈ allEndpoints cr) as Hep by (rewrite E; set_solver).
    apply elem_of_allEndpoints in Hep as (i & j & Hij & ->).
    destruct (String.eqb _ _); [by apply wp_ret|].
    eexists _, _. split; [reflexivity|]. split; [done|].
    assert (∀ i j o, absentOrFresh i j o → absentOrFresh i j (Some (default (fresh i j) o))) as Hd.
    { intros ? ? ? [-> | ->]; by right. }
    apply podsAre_ensure; [|done|apply Hd]. apply podsAre_ensure; [done|apply pod_seed|apply Hd].
Qed.

(** Giving the first [pre] shards their slots. *)
Definition slotsGiven (pre : list Z) (i j : Z) (o : option NodeInfo) : Prop :=
  if decide (j = 0 ∧ i ∈ pre) then o = Some (pnode i) else absentOrFresh i j o.

Lemma form_addslots f :
  podsAre absentOrFresh f →
  wp (forE (seqZ 0 (crShards cr)) (λ i, wrapE ("addslots shard " +:+ Itoa i)
        (AddSlots (endpoint cr i 0) [default (mkRange 0 0) (Distribute (crShards cr) !! Z.to_nat i)])))
    (λ r f', r = Ok tt ∧ podsAre (slotsGiven (seqZ 0 (crShards cr))) f') f.
Proof.
  intros Hf. apply (wp_forE_prefix _ _ (λ pre f', podsAre (slotsGiven pre) f')).
  { eapply podsAre_mono; [done|]. intros i j o _ H. unfold slotsGiven.
    rewrite decide_False; [done|]. by intros [_ ?%elem_of_nil]. }
  intros pre i post f' E Hf'.
  assert (i ∈ seqZ 0 (crShards cr)) as Hi%elem_of_seqZ by (rewrite E; set_solver).
  assert (i ∉ pre) as Hni.
  { pose proof (NoDup_seqZ 0 (crShards cr)) as Hnd. rewrite E in Hnd.
    apply NoDup_app in Hnd as (_ & Hd & _). intros H. by apply (Hd i H); left. }
  eexists _, _. split; [reflexivity|]. split; [done|].
  rewrite ensure_insert, alter_insert_id. assert (pod i 0) as Hp by lia.
  apply (podsAre_insert (slotsGiven pre)); [done..| |].
  - unfold slotsGiven. rewrite decide_True by set_solver. pose proof (proj1 Hf' i 0 Hp) as Ho.
    unfold slotsGiven in Ho. rewrite decide_False in Ho by tauto. simpl.
    rewrite Distribute_lookup by (unfold TotalSlots in *; lia).
    by destruct Ho as [-> | ->].
  - intros i' j' o Hne. unfold slotsGiven. destruct (decide (j' = 0 ∧ i' ∈ pre)) as [Hd|Hd].
    + rewrite decide_True; [done|]. set_solver.
    + rewrite decide_False; [done|]. intros [-> [?|?%list_elem_of_singleton]%elem_of_app]; [tauto|congruence].
Qed.

(** Attaching the replicas of the shards in [done] and, in shard [i], those of
    the ordinals in [js]. *)
Definition attached (done : list Z) (i : Z) (js : list Z) (i' j' : Z) (o : option NodeInfo) : Prop :=
  if decide (j' = 0) then o = Some (pnode i')
  else if decide (i' ∈ done ∨ (i' = i ∧ j' ∈ js)) then o = Some (rnode i' j') else absentOrFresh i' j' o.

Lemma pnode_owns i : 0 ≤ i < crShards cr → ownsSlots (pnode i) = true.
Proof.
  intros Hi. unfold ownsSlots. apply andb_true_iff. split; [done|]. apply Z.ltb_lt.
  rewrite SlotCount_sum. simpl. unfold rangeCount. simpl.
  pose proof (split_size (crShards cr) i). pose proof (Z.div_str_pos TotalSlots (crShards cr)). lia.
Qed.

Lemma podsAre_pnode i done k js f : podsAre (attached done k js) f → 0 ≤ i < crShards cr → f !! host i 0 = Some (pnode i).
Proof.
  intros [H _] Hi. specialize (H i 0). unfold attached in H. rewrite decide_True in H by done. apply H. lia.
Qed.

(** What the state read before the attachment says of the pods. *)
Definition known (idx : gmap string NodeInfo) : Prop :=
  (∀ i, 0 ≤ i < crShards cr → idx !! host i 0 = Some (pnode i)) ∧
  (∀ i j n, pod i j → 0 < j → idx !! host i j = Some n → nMasterID n = "").

Lemma primary_found done k js idx i f :
  known idx → podsAre (attached done k js) f → 0 ≤ i < crShards cr →
  findShardPrimary cr i idx f = Some ((host i 0, 0), f).
Proof.
  intros [Hk _] Hf Hi. pose proof (podsAre_pnode _ _ _ _ _ Hf Hi) as Hp.
  unfold findShardPrimary, ordinals. rewrite seqZ_cons by lia. simpl findShardPrimaryIn.
  unfold bind at 1 2. simpl. unfold Fake.MyID, Fake.ensure. simpl. rewrite Hp, Hp. simpl.
  rewrite Hk, pnode_owns by done. done.
Qed.

Lemma attached_more done i pre j i' j' o :
  (i', j') ≠ (i, j) ∨ j' = 0 → attached done i pre i' j' o → attached done i (pre ++ [j]) i' j' o.
Proof.
  intros Hne. unfold attached. destruct (decide (j' = 0)) as [->|Hj]; [done|].
  assert (i' ∈ done ∨ i' = i ∧ j' ∈ pre ++ [j] ↔ i' ∈ done ∨ i' = i ∧ j' ∈ pre) as Hiff.
  { rewrite elem_of_app, list_elem_of_singleton. split; [|tauto]. intros [?|[-> [?| ->]]]; [tauto..|].
    destruct Hne; congruence. }
  by rewrite (decide_ext _ _ _ _ Hiff).
Qed.

Lemma attached_node done i pre i' j' o :
  j' ≠ 0 → attached done i pre i' j' o →
  set_nSlots [] (set_nFlags ["slave"] (set_nMasterID (host i' 0) (default (fresh i' j') o))) = rnode i' j' ∧
  nID (default (fresh i' j') o) = host i' j'.
Proof.
  intros Hj. unfold attached. rewrite decide_False by done.
  destruct (decide _); [by intros ->|]. by intros [-> | ->].
Qed.

Lemma attach_one idx done i pre j f :
  known idx → pod i j → podsAre (attached done i pre) f →
  wp (attachPod cr idx i (host i 0) 0 j) (λ r f', r = Ok tt ∧ podsAre (attached done i (pre ++ [j])) f') f.
Proof.
  intros [Hk1 Hk2] Hij Hf. unfold attachPod. destruct (Z.eqb_spec j 0) as [->|Hj].
  { apply wp_ret. split; [done|]. eapply podsAre_mono; [done|]. intros i' j' o _. apply attached_more.
    destruct (decide (j' = 0)); [by right|left; congruence]. }
  destruct (attached_node done i pre i j (f !! host i j) Hj (proj1 Hf i j Hij)) as [Hnode Hid].
  apply wp_bind. eexists _, _. split; [reflexivity|]. rewrite ensure_insert. simpl epHost.
  rewrite lookup_insert_eq. simpl default. change (Fake.freshNode (endpoint cr i j)) with (fresh i j).
  rewrite Hid.
  assert ((match idx !! host i j with Some n => String.eqb (nMasterID n) (host i 0) | None => false end) = false) as ->.
  { destruct (idx !! host i j) as [n|] eqn:En; [|done]. rewrite (Hk2 i j n) by (done || lia).
    apply String.eqb_neq. intros E. symmetry in E. by apply PodFQDN_nonempty in E. }
  eexists _, _. split; [reflexivity|]. split; [done|].
  rewrite ensure_insert, alter_insert_id. simpl epHost. rewrite lookup_insert_eq. simpl default.
  rewrite Hnode, insert_insert_eq. apply (podsAre_insert (attached done i pre)); [done..| |].
  - unfold attached. rewrite decide_False by done. rewrite decide_True; [done|]. set_solver.
  - intros i' j' o Hne. apply attached_more. by left.
Qed.

Lemma attach_all st f :
  known (byID st) → podsAre (slotsGiven (seqZ 0 (crShards cr))) f →
  wp (attachReplicas cr st) (λ r f', r = Ok tt ∧ podsAre (attached (seqZ 0 (crShards cr)) 0 []) f') f.
Proof.
  intros Hk Hf. unfold attachReplicas.
  apply (wp_forE_prefix _ _ (λ pre f', podsAre (attached pre 0 []) f')).
  { eapply podsAre_mono; [done|]. intros i j o [Hi _]. unfold slotsGiven, attached.
    destruct (decide (j = 0)) as [->|Hj].
    - rewrite decide_True; [done|]. split; [done|]. apply elem_of_seqZ. lia.
    - rewrite !decide_False; [done|set_solver|tauto]. }
  intros pre i post f1 E Hf1.
  assert (i ∈ seqZ 0 (crShards cr)) as Hi%elem_of_seqZ by (rewrite E; set_solver).
  apply wp_bind. eexists _, f1. split; [eapply primary_found; [done|done|lia]|]. simpl.
  destruct (String.eqb_spec (host i 0) "") as [E0|_]; [by apply PodFQDN_nonempty in E0|].
  eapply wp_mono; [apply (wp_forE_prefix _ _ (λ js f', podsAre (attached pre i js) f'))|].
  - eapply podsAre_mono; [done|]. intros i' j' o _. unfold attached.
    destruct (decide (j' = 0)); [done|]. by rewrite (decide_ext _ (i' ∈ pre ∨ i' = i ∧ j' ∈ [])) by set_solver.
  - intros js j post' f2 E' Hf2. apply attach_one; [done| |done].
    assert (j ∈ ordinals cr) as Hj%elem_of_ordinals by (rewrite E'; set_solver). lia.
  - intros r f2 [-> Hf2]. split; [done|]. eapply podsAre_mono; [done|]. intros i' j' o [_ Hj'].
    unfold attached. destruct (decide (j' = 0)); [done|].
    rewrite (decide_ext _ (i' ∈ pre ++ [i] ∨ i' = 0 ∧ j' ∈ [])); [done|].
    rewrite elem_of_app, list_elem_of_singleton, elem_of_ordinals. set_solver.
Qed.

(** The cluster after formation. *)
Definition formedNode (i j : Z) : NodeInfo := if decide (j = 0) then pnode i else rnode i j.
Definition formedAs (i j : Z) (o : option NodeInfo) : Prop := o = Some (formedNode i j).

Lemma podsAre_inv (Q : Z → Z → option NodeInfo → Prop) f :
  podsAre Q f → (∀ i j n, pod i j → Q i j (Some n) → node_ok (host i j) n) → fake_inv f.
Proof.
  intros [HQ Hd] Hok h n Hn. destruct (Hd h) as (i & j & Hij & ->); [by eauto|].
  apply Hok; [done|]. rewrite <- Hn. by apply HQ.
Qed.

Lemma pnode_ok i : 0 ≤ i < crShards cr → node_ok (host i 0) (pnode i).
Proof. intros Hi. constructor; try done. pose proof (ownsSlots_count _ (pnode_owns i Hi)). lia. Qed.

Lemma fresh_ok i j : node_ok (host i j) (fresh i j).
Proof. by constructor. Qed.

Lemma rnode_ok i j : node_ok (host i j) (rnode i j).
Proof. by constructor. Qed.

Lemma known_after f : podsAre (slotsGiven (seqZ 0 (crShards cr))) f → known (byID (Fake.view f)).
Proof.
  intros Hf. assert (∀ i, 0 ≤ i < crShards cr → 0 = 0 ∧ i ∈ seqZ 0 (crShards cr)) as Hin.
  { intros i Hi. split; [done|]. apply elem_of_seqZ. lia. }
  assert (fake_inv f) as Hinv.
  { eapply podsAre_inv; [done|]. intros i j n [Hi Hj]. unfold slotsGiven. destruct (decide _) as [[-> _]|_].
    - intros [= ->]. by apply pnode_ok.
    - intros [[=]|[= ->]]. apply fresh_ok. }
  split.
  - intros i Hi. rewrite byID_view by done. destruct Hf as [Hf _]. specialize (Hf i 0).
    unfold slotsGiven in Hf. rewrite decide_True in Hf by auto. apply Hf. lia.
  - intros i j n Hij Hj. rewrite byID_view by done. intros E. destruct Hf as [Hf _]. specialize (Hf i j Hij).
    unfold slotsGiven in Hf. rewrite decide_False in Hf by lia. rewrite E in Hf.
    by destruct Hf as [[=]|[= ->]].
Qed.

Lemma form_reaches :
  wp (formCluster cr) (λ r f, r = Ok tt ∧ podsAre formedAs f) Fake.NewFake.
Proof.
  unfold formCluster. apply wp_bindE. eapply wp_mono; [apply form_meets|]. intros r f1 [-> Hf1].
  apply wp_bindE. eapply wp_mono; [by apply form_addslots|]. intros r f2 [-> Hf2].
  apply wp_bindE. eexists _, f2. split; [reflexivity|].
  eapply wp_mono; [apply attach_all; [|done]|].
  - by apply known_after.
  - intros r f3 [-> Hf3]. split; [done|]. eapply podsAre_mono; [done|]. intros i j o [Hi Hj].
    unfold attached, formedAs, formedNode. destruct (decide (j = 0)); [done|]. rewrite decide_True; [done|].
    left. apply elem_of_seqZ. lia.
Qed.

(** ** What the formed cluster looks like *)

Lemma formed_inv f : podsAre formedAs f → fake_inv f.
Proof.
  intros Hf. eapply podsAre_inv; [done|]. intros i j n [Hi _] [= ->]. unfold formedNode.
  destruct (decide (j = 0)) as [->|]; [by apply pnode_ok|apply rnode_ok].
Qed.

Lemma formedNode_id i j : nID (formedNode i j) = host i j.
Proof. unfold formedNode. by destruct (decide (j = 0)) as [->|]. Qed.

Definition formedNodes : list NodeInfo :=
  mjoin (map (λ i, map (formedNode i) (ordinals cr)) (seqZ 0 (crShards cr))).

Lemma elem_of_formedNodes n : n ∈ formedNodes ↔ ∃ i j, pod i j ∧ n = formedNode i j.
Proof.
  unfold formedNodes. rewrite list_elem_of_join. split.
  - intros (l & Hin & (i & -> & Hi%elem_of_seqZ)%list_elem_of_fmap).
    apply list_elem_of_fmap in Hin as (j & -> & Hj%elem_of_ordinals). exists i, j. split; [lia|done].
  - intros (i & j & [Hi Hj] & ->). exists (map (formedNode i) (ordinals cr)).
    split; apply list_elem_of_fmap; [exists j; by rewrite elem_of_ordinals|].
    exists i. rewrite elem_of_seqZ. split; [done|lia].
Qed.

Lemma NoDup_grid (l : list Z) :
  (∀ i, i ∈ l → 0 ≤ i < crShards cr) → NoDup l →
  NoDup (mjoin (map (λ i, map (formedNode i) (ordinals cr)) l)).
Proof.
  intros Hl Hnd. induction Hnd as [|i l Hi Hnd IH]; simpl; [by apply NoDup_nil_2|].
  apply NoDup_app. split_and!.
  - apply NoDup_fmap_2_strong; [|apply NoDup_seqZ]. intros j j' Hj%elem_of_ordinals Hj'%elem_of_ordinals E.
    apply (f_equal nID) in E. rewrite !formedNode_id in E. apply host_inj in E as [_ ?]; [done|..].
    all: split; [apply Hl; left|lia].
  - intros n (j & -> & Hj%elem_of_ordinals)%list_elem_of_fmap (k & Hin & (i' & -> & Hi')%list_elem_of_fmap)%list_elem_of_join.
    apply list_elem_of_fmap in Hin as (j' & E & Hj'%elem_of_ordinals).
    apply (f_equal nID) in E. rewrite !formedNode_id in E. apply host_inj in E as [-> _]; [done|..].
    + split; [apply Hl; left|lia].
    + split; [apply Hl; by right|lia].
  - apply IH. intros i' Hi'. apply Hl. by right.
Qed.

Lemma formed_sorted f : podsAre formedAs f → Fake.sortedNodes f ≡ₚ formedNodes.
Proof.
  intros Hf. pose proof (formed_inv f Hf) as Hinv. apply NoDup_Permutation.
  - eapply NoDup_fmap_1. by apply sortedNodes_nodup.
  - apply NoDup_grid; [|apply NoDup_seqZ]. intros i Hi%elem_of_seqZ. lia.
  - intros n. rewrite elem_of_sortedNodes, elem_of_formedNodes by done. destruct Hf as [HQ Hd]. split.
    + intros Hn. destruct (Hd (nID n)) as (i & j & Hij & E); [by eauto|]. exists i, j. split; [done|].
      specialize (HQ i j Hij). unfold formedAs in HQ. rewrite <- E, Hn in HQ. congruence.
    + intros (i & j & Hij & ->). rewrite formedNode_id. by apply HQ.
Qed.

(** Counting over the grid of pods. *)
Lemma ordinals_cons : ordinals cr = 0 :: seqZ 1 (crReplicas cr).
Proof. unfold ordinals. rewrite seqZ_cons by lia. f_equal. f_equal; lia. Qed.

Lemma rnode_replica i j : IsPrimary (rnode i j) = false.
Proof.
  apply not_true_iff_false. rewrite IsPrimary_spec. simpl. intros [H|H]; [set_solver|].
  by apply PodFQDN_nonempty in H.
Qed.

Lemma formedNode_replica i j : j ∈ seqZ 1 (crReplicas cr) → formedNode i j = rnode i j.
Proof. intros Hj%elem_of_seqZ. unfold formedNode. rewrite decide_False; [done|lia]. Qed.

Lemma filter_row (P : NodeInfo → bool) i :
  List.filter P (map (formedNode i) (ordinals cr)) =
  (if P (pnode i) then [pnode i] else []) ++ List.filter P (map (rnode i) (seqZ 1 (crReplicas cr))).
Proof.
  rewrite ordinals_cons. simpl map. rewrite (map_ext_in _ (rnode i)).
  - cbn [List.filter]. change (formedNode i 0) with (pnode i). by destruct (P (pnode i)).
  - intros j Hj%list_elem_of_In. by apply formedNode_replica.
Qed.

Lemma formed_owners : List.filter ownsSlots formedNodes = map pnode (seqZ 0 (crShards cr)).
Proof.
  unfold formedNodes. rewrite filter_join.
  assert (∀ l, (∀ i, i ∈ l → 0 ≤ i < crShards cr) →
    mjoin (map (λ i, List.filter ownsSlots (map (formedNode i) (ordinals cr))) l) = map pnode l) as H.
  { induction l as [|i l IH]; intros Hl; simpl; [done|]. rewrite filter_row, pnode_owns by (apply Hl; left).
    rewrite (filter_none _ (map (rnode i) _)); [|intros n (j & -> & _)%list_elem_of_fmap; apply andb_false_r].
    rewrite IH; [done|]. intros. apply Hl. by right. }
  apply H. intros i Hi%elem_of_seqZ. lia.
Qed.

Lemma formed_replicas k : 0 ≤ k < crShards cr →
  Z.of_nat (length (List.filter (λ n, negb (IsPrimary n) && String.eqb (nMasterID n) (host k 0)) formedNodes))
  = crReplicas cr.
Proof.
  intros Hk. unfold formedNodes. rewrite filter_join, length_join.
  erewrite map_ext_in; [apply (sum_indicator k (crReplicas cr) (seqZ 0 (crShards cr)));
    [apply NoDup_seqZ|apply elem_of_seqZ; lia]|].
  intros i Hi%list_elem_of_In%elem_of_seqZ. simpl. rewrite filter_row. simpl.
  destruct (decide (i = k)) as [->|Hne].
  - rewrite filter_every; [rewrite length_map, length_seqZ; lia|].
    intros n (j & -> & _)%list_elem_of_fmap. rewrite rnode_replica. apply String.eqb_refl.
  - rewrite filter_none; [done|]. intros n (j & -> & _)%list_elem_of_fmap. rewrite rnode_replica.
    apply String.eqb_neq. intros [? _]%host_inj; [done|lia..].
Qed.

Lemma formed_assigned f : podsAre formedAs f → Fake.assignedSlots f = TotalSlots.
Proof.
  intros Hf. pose proof (formed_inv f Hf) as Hinv.
  assert (∀ i, 0 ≤ i < crShards cr → f !! host i 0 = Some (pnode i)) as Hp.
  { intros i Hi. destruct Hf as [HQ _]. rewrite (HQ i 0) by lia. done. }
  rewrite (assigned_by_keys f (map (λ i, host i 0) (seqZ 0 (crShards cr)))).
  - rewrite map_map. rewrite (map_ext_in _ (λ i, splitAt (crShards cr) (i + 1) - splitAt (crShards cr) i)).
    + pose proof (sum_splits (crShards cr) (Z.to_nat (crShards cr))) as E.
      rewrite Z2Nat.id in E by lia. rewrite E, splitAt_n, splitAt_0 by lia. lia.
    + intros i Hi%list_elem_of_In%elem_of_seqZ. unfold Fake.countAt. rewrite Hp by lia. simpl.
      rewrite SlotCount_sum. simpl. unfold rangeCount. simpl. lia.
  - apply NoDup_fmap_2_strong; [|apply NoDup_seqZ]. intros i i' Hi%elem_of_seqZ Hi'%elem_of_seqZ E.
    apply host_inj in E as [? _]; [done|lia..].
  - intros h (i & -> & Hi%elem_of_seqZ)%list_elem_of_fmap. rewrite Hp by lia. eauto.
  - intros h n Hn Hout. destruct Hf as [HQ Hd]. destruct (Hd h) as (i & j & [Hi Hj] & ->); [by eauto|].
    specialize (HQ i j (conj Hi Hj)). unfold formedAs in HQ. rewrite Hn in HQ. injection HQ as ->.
    unfold formedNode. destruct (decide (j = 0)) as [->|]; [|done].
    exfalso. apply Hout, list_elem_of_fmap. exists i. split; [done|]. apply elem_of_seqZ. lia.
Qed.

Lemma formed_state f :
  podsAre formedAs f →
  csFormed (Fake.view f) = true ∧ serving cr (Fake.view f) ∧
  Kind (Decide (desiredOf cr) (summarize (Fake.view f))) = ActionNone.
Proof.
  intros Hf. pose proof (formed_inv f Hf) as Hinv. pose proof (formed_sorted f Hf) as Hperm.
  pose proof (formed_assigned f Hf) as Ha.
  assert (csFormed (Fake.view f) = true) as HF.
  { simpl. rewrite Ha. apply andb_true_iff. split; [|done].
    destruct (Nat.eqb_spec (size f) 0) as [E|]; [|done]. apply map_size_empty_inv in E as ->.
    by rewrite assigned_empty in Ha. }
  assert (Z.of_nat (length (List.filter ownsSlots (csNodes (Fake.view f)))) = crShards cr) as Hn.
  { simpl. rewrite Hperm, formed_owners, length_map, length_seqZ. lia. }
  assert (csSlotsCovered (Fake.view f) = true) as Hc by (simpl; rewrite Ha; done).
  split; [done|]. split.
  - split_and!; [|done..]. intros i Hi. exists 0, (pnode i). split; [lia|].
    rewrite hostIndex_view, pnode_owns by done. split; [|done].
    destruct Hf as [HQ _]. rewrite (HQ i 0) by lia. done.
  - apply Decide_none_iff. rewrite summarize_spec.
    unfold converged. cbn [oFormed oSlotsCovered oPrimaryCount oReplicaCounts]. rewrite Hc.
    split_and!; [exact HF|done|exact Hn|].
    apply Forall_forall. intros rc (n & -> & [Hin Ho]%list_elem_of_In%filter_In)%list_elem_of_fmap.
    assert (n ∈ map pnode (seqZ 0 (crShards cr))) as Hp.
    { rewrite <- formed_owners. apply list_elem_of_In, filter_In. split; [|done].
      apply list_elem_of_In. rewrite <- Hperm. by apply list_elem_of_In. }
    apply list_elem_of_fmap in Hp as (k & -> & Hk%elem_of_seqZ). unfold replicasOf. simpl csNodes.
    rewrite Hperm. apply formed_replicas. lia.
Qed.
End Form.

(** C6: formation converges in one pass.  On an empty cluster and for every
    declared topology of at most 16384 shards, [formCluster] succeeds; after it
    pod 0 of shard [i] owns exactly range [i] of the even split and the other
    pods of the shard replicate it, there is no other node, the status is
    [Ready] and the planner has nothing left to do. *)
Theorem form_cluster_converges (cr : ValkeyCluster) :
  0 < crShards cr ≤ TotalSlots → 0 ≤ crReplicas cr < 2 ^ 31 →
  ∃ f st, formCluster cr Fake.NewFake = Some (Ok tt, f) ∧
    State (seed cr) f = Some (Ok st, f) ∧
    (∀ i j, 0 ≤ i < crShards cr ∧ 0 ≤ j ≤ crReplicas cr → f !! PodFQDN cr i j = Some (formedNode cr i j)) ∧
    csNodes st ≡ₚ formedNodes cr ∧
    serving cr st ∧
    Kind (Decide (desiredOf cr) (summarize st)) = ActionNone.
Proof.
  intros Hs Hr. destruct (form_reaches cr Hs Hr) as (r & f & E & -> & Hf).
  exists f, (Fake.view f). destruct (formed_state cr Hs Hr f Hf) as (_ & ? & ?).
  split_and!; [done|done| |by apply formed_sorted|done|done]. intros i j Hij. by apply (proj1 Hf).
Qed.

Lemma form_cluster_converges_witness :
  let cr := sampleCR "demo" 3 1 in
  ∃ f st, formCluster cr Fake.NewFake = Some (Ok tt, f) ∧
    State (seed cr) f = Some (Ok st, f) ∧
    (∀ i j, 0 ≤ i < crShards cr ∧ 0 ≤ j ≤ crReplicas cr → f !! PodFQDN cr i j = Some (formedNode cr i j)) ∧
    csNodes st ≡ₚ formedNodes cr ∧
    serving cr st ∧
    Kind (Decide (desiredOf cr) (summarize st)) = ActionNone.
Proof.
  apply (form_cluster_converges (sampleCR "demo" 3 1)); vm_compute; split; discriminate || reflexivity.
Defined.
