(* ===== verification/SteadyState.v ===== *)
(** * Steady state

    Over a cluster that has settled, the membership step of a pass only reads:
    nothing is met, re-attached or forgotten again.  [Quiet] has the whole pass. *)

From S2P Require Import Prelude GoStrings Cluster Slots Topology API ResourceBuilders.
From S2P Require Import ResourceProofs Platform Controller Reconcile Fake FakeProofs TestBed.
From S2P Require Import StatusProofs ScaleInProofs Formation.
Local Open Scope string_scope.
Local Open Scope list_scope.
Local Open Scope Z_scope.

Section Quiet.
Context {W : Type}.

Lemma forE_quiet {A} (l : list A) body (w : W) :
  (∀ x, x ∈ l → body x w = Some (Ok tt, w)) → forE l body w = Some (Ok tt, w).
Proof.
  induction l as [|x l IH]; intros H; simpl; [done|]. unfold bindE, bind.
  rewrite (H x (list_elem_of_here _ _)). apply IH. intros. apply H. by right.
Qed.

Lemma forM_quiet {A} (l : list A) body (w : W) :
  (∀ x, x ∈ l → body x w = Some (tt, w)) → forM l body w = Some (tt, w).
Proof.
  induction l as [|x l IH]; intros H; simpl; [done|]. unfold bind.
  rewrite (H x (list_elem_of_here _ _)). apply IH. intros. apply H. by right.
Qed.
End Quiet.

(** Every pod is a known member, one pod per shard owns slots and the others
    replicate it, and every member is a pod of an existing StatefulSet. *)
Record settled {W : Type} `{!Platform W} `{!ClusterAdmin W} (cr : ValkeyCluster) (state : ClusterState) (w : W)
    (node : Z → Z → NodeInfo) (prim : Z → Z) : Prop := {
  st_known i j : 0 ≤ i < crShards cr ∧ 0 ≤ j ≤ crReplicas cr → hostIndex state !! PodFQDN cr i j ≠ None;
  st_id i j : 0 ≤ i < crShards cr ∧ 0 ≤ j ≤ crReplicas cr →
    MyID (endpoint cr i j) w = Some (Ok (nID (node i j)), w);
  st_index i j : 0 ≤ i < crShards cr ∧ 0 ≤ j ≤ crReplicas cr →
    byID state !! nID (node i j) = Some (node i j);
  st_prim i : 0 ≤ i < crShards cr → 0 ≤ prim i ≤ crReplicas cr ∧ ownsSlots (node i (prim i)) = true;
  st_replica i j : 0 ≤ i < crShards cr ∧ 0 ≤ j ≤ crReplicas cr → j ≠ prim i →
    ownsSlots (node i j) = false ∧ nMasterID (node i j) = nID (node i (prim i));
  st_hosts : ∃ hosts, existingPodHosts cr w = Some (Ok hosts, w) ∧
    ∀ n, n ∈ csNodes state → nHost n = "" ∨ nHost n ∈ hosts
}.

Section Settled.
Context {W : Type} `{!Platform W} `{!ClusterAdmin W}.
Context (cr : ValkeyCluster) (state : ClusterState) (w : W) (node : Z → Z → NodeInfo) (prim : Z → Z).
Context (Hset : settled cr state w node prim).

Lemma settled_primary i : 0 ≤ i < crShards cr →
  findShardPrimary cr i (byID state) w = Some ((nID (node i (prim i)), prim i), w).
Proof.
  intros Hi. destruct (st_prim _ _ _ _ _ Hset i Hi) as [Hp Ho].
  assert (∀ js, (∀ j, j ∈ js → 0 ≤ j ≤ crReplicas cr) → prim i ∈ js →
    findShardPrimaryIn cr i (byID state) js w = Some (Some (nID (node i (prim i)), prim i), w)) as Hin.
  { induction js as [|j js IH]; intros Hjs Hin; [by apply elem_of_nil in Hin|]. simpl. unfold bind.
    assert (0 ≤ i < crShards cr ∧ 0 ≤ j ≤ crReplicas cr) as Hij by (split; [done|apply Hjs; left]).
    rewrite (st_id _ _ _ _ _ Hset i j Hij), (st_index _ _ _ _ _ Hset i j Hij).
    destruct (decide (j = prim i)) as [->|Hne]; [by rewrite Ho|].
    destruct (st_replica _ _ _ _ _ Hset i j Hij Hne) as [-> _].
    apply IH; [intros; apply Hjs; by right|]. apply elem_of_cons in Hin as [?|?]; [congruence|done]. }
  unfold findShardPrimary, bind. rewrite Hin; [done|..].
  - intros j Hj%elem_of_ordinals. lia.
  - apply elem_of_ordinals. lia.
Qed.

Lemma settled_attach : attachReplicas cr state w = Some (Ok tt, w).
Proof.
  apply forE_quiet. intros i Hi%elem_of_seqZ. assert (0 ≤ i < crShards cr) as Hi' by lia.
  unfold bind. rewrite settled_primary by done. destruct (String.eqb _ ""); [done|].
  apply forE_quiet. intros j Hj%elem_of_ordinals. unfold attachPod.
  destruct (Z.eqb_spec j (prim i)) as [|Hne]; [done|]. unfold bind.
  rewrite (st_id _ _ _ _ _ Hset i j (conj Hi' Hj)), (st_index _ _ _ _ _ Hset i j (conj Hi' Hj)).
  destruct (st_replica _ _ _ _ _ Hset i j (conj Hi' Hj) Hne) as [_ ->]. by rewrite String.eqb_refl.
Qed.

Lemma settled_forget : forgetStaleNodes cr state w = Some (tt, w).
Proof.
  destruct (st_hosts _ _ _ _ _ Hset) as (hosts & E & Hh). unfold forgetStaleNodes, bind. rewrite E.
  apply forM_quiet. intros n Hn. destruct (Hh n Hn) as [->|Hin]; [done|].
  rewrite bool_decide_eq_true_2 by done. by rewrite andb_false_r.
Qed.

Lemma settled_membership : reconcileMembership cr state w = Some (Ok tt, w).
Proof.
  unfold reconcileMembership, bindE, bind. rewrite forE_quiet.
  - rewrite settled_attach. by rewrite settled_forget.
  - intros ep (i & j & Hij & ->)%elem_of_allEndpoints. simpl.
    pose proof (st_known _ _ _ _ _ Hset i j Hij). by destruct (hostIndex state !! PodFQDN cr i j).
Qed.
End Settled.
