(* ===== verification/SlotMover.v ===== *)
(** * What scaling asks of a cluster

    Scaling reads slot counts and moves slots; little else of a cluster matters
    to it.  [SlotMover] states that promise over an abstract ledger,
    the slot count of every node; the filling of a new shard and the draining of
    a departing one are proved against it.  The in-memory cluster keeps the promise ([ScaleOutProofs]),
    and so does the production [Admin] on healthy servers ([LiveScaling]). *)

From S2P Require Import Prelude GoStrings Cluster Slots API ResourceBuilders Platform Controller Reconcile.
From S2P Require Import TestBed StatusProofs ScaleInProofs.
Local Open Scope string_scope.
Local Open Scope list_scope.
Local Open Scope Z_scope.

(** ** The ledger *)

Definition ledger := string → Z.

Definition moveCount (from to : string) (n : Z) (L : ledger) : ledger :=
  λ id, if decide (id = to) then L to + n else if decide (id = from) then L from - n else L id.

#[export] Instance ledger_equiv : Equiv ledger := λ L L', ∀ id, L id = L' id.

#[export] Instance ledger_equivalence : Equivalence (≡@{ledger}).
Proof. split; [by intros L id|by intros L L' H id; rewrite H|by intros L1 L2 L3 H1 H2 id; rewrite H1]. Qed.

#[export] Instance moveCount_proper from to n : Proper ((≡) ==> (≡)) (moveCount from to n).
Proof. intros L L' E id. unfold moveCount. by rewrite !E. Qed.

(** Everything is accounted for: counts are not negative, the anonymous node
    has none, and whoever does not own all slots leaves some to another. *)
Record balanced (L : ledger) : Prop := {
  bl_nonneg id : 0 ≤ L id;
  bl_anonymous : L "" = 0;
  bl_rest id : L id < TotalSlots → ∃ src, src ≠ id ∧ 0 < L src
}.

#[export] Instance balanced_proper : Proper ((≡) ==> iff) balanced.
Proof.
  assert (∀ L L', L ≡ L' → balanced L → balanced L') as Himp.
  { intros L L' E [Hn Ha Hr]. constructor; [intros id; by rewrite <- E|by rewrite <- E|].
    intros id. rewrite <- E. intros (src & ? & ?)%Hr. exists src. by rewrite <- E. }
  intros L L' E. split; apply Himp; done.
Qed.

(** A state that shows the ledger: replicas own nothing. *)
Definition reports (st : ClusterState) (L : ledger) : Prop :=
  (∀ id, SlotCount (nodeAt (byID st) id) = L id) ∧
  (∀ id n, byID st !! id = Some n → IsPrimary n = false → SlotCount n = 0).

(** ** The promise *)

Class SlotMover (V : Type) `{!ClusterAdmin V} (seed : Endpoint) := {
  (** the cluster keeps this ledger *)
  keeps : V → ledger → Prop;
  (** a node slots can be moved to *)
  target : V → string → Prop;
  (** what a move leaves as it is *)
  steady : relation V;
  steady_trans :: PreOrder steady;
  steady_target v v' id : steady v v' → target v id → target v' id;
  keeps_balanced v L : keeps v L → balanced L;
  keeps_target v L id : keeps v L → 0 < L id → target v id;
  State_reports v L : keeps v L → ∃ st, State seed v = Some (Ok st, v) ∧ reports st L;
  MoveSlots_moves v L from to n : keeps v L → from ≠ to → 0 < L from → target v to → 0 ≤ n →
    ∃ v', MoveSlots seed from to n v = Some ((Z.min n (L from), None), v') ∧
      keeps v' (moveCount from to (Z.min n (L from)) L) ∧ steady v v'
}.

(** ** Filling a shard *)
Section Fill.
Context {V : Type} `{!ClusterAdmin V} (cr : ValkeyCluster) `{!SlotMover V (seed cr)}.
Context (i : Z) (id : string) (share : Z) (k : KubeWorld) (Hshare : 0 ≤ share ≤ TotalSlots).
Local Abbreviation W := (KubeWorld * V)%type.
Implicit Types (v : V) (L : ledger) (st : ClusterState).

(** The filled shard, and the others: they can only give. *)
Definition filled L (L' : ledger) : Prop :=
  L' id = Z.max share (L id) ∧ ∀ o, o ≠ id → L' o ≤ L o.

Lemma State_server v L : keeps v L → ∃ st, State (seed cr) ((k, v) : W) = Some (Ok st, (k, v)) ∧ reports st L.
Proof.
  intros H. destruct (State_reports v L H) as (st & E & R). exists st. split; [|done].
  simpl. unfold onRight. simpl. by rewrite E.
Qed.

(** The richest other primary has something to give. *)
Lemma fattest_gives st L : reports st L → balanced L → L id < TotalSlots →
  let '(src, c) := fattestPrimary (map_to_list (byID st)) id in src ≠ id ∧ src ≠ "" ∧ c = L src ∧ 0 < c.
Proof.
  intros [Hc Hr] B Hlt. destruct (bl_rest _ B id Hlt) as (o & Hne & Ho).
  destruct (fattestPrimary _ id) as [src c] eqn:E. apply fattestPrimary_spec in E as (_ & Hsrc & _ & Hmax).
  rewrite <- Hc in Ho. unfold nodeAt in Ho. destruct (byID st !! o) as [n|] eqn:En; [|done]. simpl in Ho.
  assert (IsPrimary n = true) as Hp by (destruct (IsPrimary n) eqn:Ep; [done|]; rewrite (Hr o n En Ep) in Ho; lia).
  pose proof (Hmax o n (proj2 (elem_of_map_to_list _ _ _) En) Hne Hp).
  destruct Hsrc as (m & Hm%elem_of_map_to_list & Hsne & _ & Hcm); [lia|].
  assert (L src = c) as HL by (rewrite <- Hc; unfold nodeAt; by rewrite Hm).
  split; [done|]. split; [|split; [done|lia]]. intros ->. rewrite (bl_anonymous _ B) in HL. lia.
Qed.

Lemma fillLoop_fills fuel v L st : keeps v L → reports st L → target v id → share - L id ≤ Z.of_nat fuel →
  ∃ v' L', fillLoop fuel cr i id (byID st) (share - L id) ((k, v) : W) = Some (Ok tt, (k, v')) ∧ keeps v' L' ∧ filled L L'.
Proof.
  revert v L st. induction fuel as [|fuel IH]; intros v L st HL Hst Ht Hn; cbn [fillLoop];
    (destruct (Z.leb_spec (share - L id) 0); [exists v, L; split; [done|]; split; [done|]; split; [lia|done]|]); [lia|].
  pose proof (keeps_balanced v L HL) as B. pose proof (fattest_gives st L Hst B) as Hf.
  unfold bind at 1. change (mapRange (byID st) ((k, v) : W)) with (Some (map_to_list (byID st), ((k, v) : W))). cbv iota.
  destruct (fattestPrimary _ id) as [src c]. destruct Hf as (Hsne & Hse & -> & Hpos); [lia|].
  rewrite (proj2 (String.eqb_neq _ _) Hse), (proj2 (Z.eqb_neq _ 0)) by lia. cbn [orb].
  set (take := if L src <? share - L id then L src else share - L id).
  assert (0 < take ≤ L src ∧ take ≤ share - L id) as Htake by (unfold take; destruct (Z.ltb_spec (L src) (share - L id)); lia).
  destruct (MoveSlots_moves v L src id take HL Hsne Hpos Ht) as (v1 & E1 & HL1 & Hst1'); [lia|].
  rewrite Z.min_l in E1, HL1 by lia. set (L1 := moveCount src id take L) in *.
  assert (L1 id = L id + take) as Hid by (unfold L1, moveCount; by rewrite decide_True).
  destruct (State_server v1 L1 HL1) as (st1 & Es & Hst1).
  destruct (IH v1 L1 st1 HL1 Hst1 (steady_target _ _ _ Hst1' Ht)) as (v' & L' & E' & HL' & Hmax & Hle); [lia|].
  exists v', L'. split.
  { unfold bind at 1. simpl MoveSlots. unfold onRight. simpl snd. rewrite E1. cbn [fst]. rewrite (proj2 (Z.eqb_neq take 0)) by lia.
    unfold bindE, bind. rewrite Es. replace (share - L id - take) with (share - L1 id) by lia. exact E'. }
  split; [done|]. split; [lia|]. intros o Ho. specialize (Hle o Ho). unfold L1, moveCount in Hle.
  rewrite decide_False in Hle by done. destruct (decide (o = src)) as [->|]; lia.
Qed.

(** From its own id on: what [fillShard] does. *)
Lemma fillShard_fills v L : keeps v L → target v id → id ≠ "" → MyID (endpoint cr i 0) v = Some (Ok id, v) →
  ∃ v' L', fillShard cr share i ((k, v) : W) = Some (Ok tt, (k, v')) ∧ keeps v' L' ∧ filled L L'.
Proof.
  intros HL Ht Hid Hmy. destruct (State_server v L HL) as (st & Es & Hst).
  destruct (fillLoop_fills (Z.to_nat (share - L id)) v L st HL Hst Ht) as (v' & L' & E & HL'); [lia|].
  exists v', L'. split; [|done]. unfold fillShard, bind at 1. simpl MyID. unfold onRight. simpl snd. rewrite Hmy.
  cbn [fst]. rewrite (proj2 (String.eqb_neq _ _) Hid). unfold bindE, bind. rewrite Es.
  rewrite (proj1 Hst). exact E.
Qed.
End Fill.

(** ** Draining a shard *)

(** The batches it takes to move [c] slots off a node. *)
Definition batches (c : Z) : Z := (c + (drainBatchSlots - 1)) / drainBatchSlots.

Lemma batches_zero c : 0 ≤ c → batches c = 0 → c = 0.
Proof.
  unfold batches, drainBatchSlots. intros Hc E. destruct (decide (c = 0)); [done|].
  assert (1 ≤ (c + 1023) / 1024) by (apply Z.div_le_lower_bound; lia). change (1024 - 1) with 1023 in E. lia.
Qed.

Lemma batches_step c : 0 < c → batches (c - Z.min drainBatchSlots c) = batches c - 1.
Proof.
  unfold batches, drainBatchSlots. change (1024 - 1) with 1023. intros Hc. destruct (Z.le_gt_cases 1024 c).
  - rewrite Z.min_l by done. replace (c + 1023) with (c - 1024 + 1023 + 1 * 1024) by lia.
    rewrite Z.div_add by lia. lia.
  - rewrite Z.min_r, Z.sub_diag by lia.
    replace ((c + 1023) / 1024) with 1; [done|]. apply Z.div_unique with (c - 1); lia.
Qed.

Lemma batches_nonneg c : 0 ≤ c → 0 ≤ batches c.
Proof. intros. unfold batches, drainBatchSlots. apply Z.div_pos; lia. Qed.


Section Drain.
Context {V : Type} `{!ClusterAdmin V} (cr : ValkeyCluster) `{!SlotMover V (seed cr)} (k : KubeWorld).
Context (Hs : 0 < crShards cr).
(** The nodes of the pods of the departing shard [i] and of shard 0. *)
Context (i : Z) (idOf : Z → Z → string).
Local Abbreviation W := (KubeWorld * V)%type.
Local Abbreviation pod j := (0 ≤ j ≤ crReplicas cr).
Implicit Types (v : V) (L : ledger) (st : ClusterState).

(** Every pod of the two shards answers with its id. *)
Definition answering v : Prop :=
  ∀ s j, s = 0 ∨ s = i → pod j → MyID (endpoint cr s j) v = Some (Ok (idOf s j), v).

Lemma MyID_server v s j : answering v → s = 0 ∨ s = i → pod j →
  MyID (endpoint cr s j) ((k, v) : W) = Some (Ok (idOf s j), (k, v)).
Proof. intros H Hsh Hj. simpl. unfold onRight. simpl. by rewrite H. Qed.

(** With a pod that owns slots, the primary found is one. *)
Lemma findShardPrimary_owner v L st s : answering v → reports st L → s = 0 ∨ s = i → (∃ j, pod j ∧ 0 < L (idOf s j)) →
  ∃ j, pod j ∧ 0 < L (idOf s j) ∧ findShardPrimary cr s (byID st) ((k, v) : W) = Some ((idOf s j, j), (k, v)).
Proof.
  intros Ha [Hc Hr] Hsh (j0 & Hj0 & Hpos).
  assert (∀ js, (∀ j, j ∈ js → pod j) → j0 ∈ js → ∃ j, pod j ∧ 0 < L (idOf s j) ∧
    findShardPrimaryIn cr s (byID st) js ((k, v) : W) = Some (Some (idOf s j, j), (k, v))) as Hin.
  { induction js as [|j js IH]; intros Hjs Hin; [by apply elem_of_nil in Hin|]. cbn [findShardPrimaryIn]. unfold bind.
    assert (pod j) as Hj by (apply Hjs; left). rewrite (MyID_server v s j Ha Hsh Hj). pose proof (Hc (idOf s j)) as HL.
    unfold nodeAt in HL.
    assert (match byID st !! idOf s j with Some n => ownsSlots n | None => false end = (0 <? L (idOf s j))) as Eo.
    { destruct (byID st !! idOf s j) as [n|] eqn:En; simpl in HL; rewrite <- HL; [|done]. unfold ownsSlots.
      destruct (IsPrimary n) eqn:Ep; [done|]. by rewrite (Hr _ n En Ep). }
    destruct (Z.ltb_spec 0 (L (idOf s j))) as [Hlt|Hge].
    - exists j. destruct (byID st !! idOf s j); [|done]. by rewrite Eo.
    - destruct IH as (j1 & ? & ? & E); [intros; apply Hjs; by right|apply elem_of_cons in Hin as [->|]; [lia|done]|].
      exists j1. split; [done|]. split; [done|]. destruct (byID st !! idOf s j); [|done]. by rewrite Eo. }
  destruct (Hin (ordinals cr)) as (j & Hj & Hjp & E); [intros j; apply elem_of_ordinals|by apply elem_of_ordinals|].
  exists j. split; [done|]. split; [done|]. unfold findShardPrimary, bind. by rewrite E.
Qed.

Context (Hdisj : ∀ j j', pod j → pod j' → idOf i j ≠ idOf 0 j').

(** One visit of [scaleIn] to the departing shard: one batch goes to the owner
    of shard 0. *)
Lemma retireShard_drains v L : keeps v L → answering v →
  (∃ j, pod j ∧ 0 < L (idOf i j)) → (∃ j, pod j ∧ 0 < L (idOf 0 j)) →
  ∃ j j' v', pod j ∧ pod j' ∧ 0 < L (idOf i j) ∧ 0 < L (idOf 0 j') ∧
    retireShard cr i ((k, v) : W) = Some (Ok false, (k, v')) ∧ steady v v' ∧
    keeps v' (moveCount (idOf i j) (idOf 0 j') (Z.min drainBatchSlots (L (idOf i j))) L).
Proof.
  intros HL Ha Hi H0. destruct (State_server cr k v L HL) as (st & Es & Hst).
  destruct (findShardPrimary_owner v L st i Ha Hst (or_intror eq_refl) Hi) as (j & Hj & Hp & Ei).
  destruct (findShardPrimary_owner v L st 0 Ha Hst (or_introl eq_refl) H0) as (j' & Hj' & Hp' & E0).
  assert (∀ id, 0 < L id → id ≠ "") as Hne by (intros id Hid ->; rewrite (bl_anonymous _ (keeps_balanced v L HL)) in Hid; lia).
  pose proof (Hdisj j j' Hj Hj') as Hd.
  assert (firstSurvivorPrimary cr (byID st) (idOf i j) (crShards cr) ((k, v) : W) = Some (idOf 0 j', (k, v))) as Esv.
  { unfold firstSurvivorPrimary. rewrite seqZ_cons by lia. cbn [firstSurvivorIn]. unfold bind. rewrite E0. cbn [fst].
    by rewrite (proj2 (String.eqb_neq _ _) (Hne _ Hp')), (proj2 (String.eqb_neq _ _) (not_eq_sym Hd)). }
  destruct (MoveSlots_moves v L (idOf i j) (idOf 0 j') (Z.min drainBatchSlots (L (idOf i j)))) as (v' & Em & HL' & Hv');
    [done|done|done|by apply (keeps_target v L)|unfold drainBatchSlots; lia|].
  rewrite (Z.min_l (Z.min _ _)) in Em, HL' by lia.
  exists j, j', v'. do 4 (split; [done|]). split; [|done].
  unfold retireShard, bindE, bind. cbv zeta. rewrite Es, Ei. cbn [fst]. rewrite (proj1 Hst).
  rewrite (proj2 (String.eqb_neq _ _) (Hne _ Hp)), (proj2 (Z.ltb_lt 0 _) Hp). cbn [negb andb]. cbv iota beta. rewrite Esv.
  rewrite (proj2 (String.eqb_neq _ _) (Hne _ Hp')).
  replace (if L (idOf i j) <? drainBatchSlots then L (idOf i j) else drainBatchSlots)
    with (Z.min drainBatchSlots (L (idOf i j))) by (destruct (Z.ltb_spec (L (idOf i j)) drainBatchSlots); lia).
  simpl MoveSlots. unfold onRight. simpl snd. by rewrite Em.
Qed.

(** Visits, one per pass, as long as none deletes the shard. *)
Fixpoint drainVisits (n : nat) : M W (result bool) :=
  match n with
  | O => ret (Ok false)
  | S n' => deleted <-? retireShard cr i ;; if deleted : bool then ret (Ok true) else drainVisits n'
  end.

(** A shard with one owner is empty after as many visits as it has batches. *)
Lemma drainVisits_empty (P : V → Prop) n v L j0 :
  (∀ v, P v → answering v) → (∀ v v', steady v v' → P v → P v') → keeps v L → P v →
  pod j0 → (∀ j, pod j → 0 < L (idOf i j) → j = j0) → (∃ j, pod j ∧ 0 < L (idOf 0 j)) → batches (L (idOf i j0)) = Z.of_nat n →
  ∃ v' L', drainVisits n ((k, v) : W) = Some (Ok false, (k, v')) ∧ steady v v' ∧ keeps v' L' ∧ L' (idOf i j0) = 0 ∧
    ∀ o, o ≠ idOf i j0 → (∀ j, pod j → o ≠ idOf 0 j) → L' o = L o.
Proof.
  intros Hans Hstable HL Ha Hj0. revert v L HL Ha. induction n as [|n IH]; intros v L HL Ha Hu H0 Hn.
  { exists v, L. split; [done|]. split; [done|]. split; [done|]. split; [|done].
    apply batches_zero; [apply (bl_nonneg _ (keeps_balanced v L HL))|done]. }
  assert (0 < L (idOf i j0)) as Hpos.
  { pose proof (bl_nonneg _ (keeps_balanced v L HL) (idOf i j0)). destruct (decide (L (idOf i j0) = 0)) as [E|]; [|lia].
    rewrite E in Hn. vm_compute in Hn. lia. }
  destruct (retireShard_drains v L HL (Hans v Ha)) as (j & j' & v1 & Hj & Hj' & Hp & Hp' & E & Hst & HL1); [by exists j0|done|].
  assert (j = j0) as -> by (by apply Hu). set (b := Z.min drainBatchSlots (L (idOf i j0))) in *.
  assert (0 < b) as Hb by (unfold b, drainBatchSlots; lia).
  set (L1 := moveCount (idOf i j0) (idOf 0 j') b L) in *.
  assert (L1 (idOf i j0) = L (idOf i j0) - b) as Hdep by (unfold L1, moveCount; by rewrite decide_False, decide_True by auto).
  assert (∀ o, o ≠ idOf i j0 → (∀ j, pod j → o ≠ idOf 0 j) → L1 o = L o) as Hrest
    by (intros o Ho1 Ho2; unfold L1, moveCount; by rewrite !decide_False by auto).
  destruct (IH v1 L1) as (v' & L' & E' & Hst' & HL' & Hz & Hrest'); [done|by eapply Hstable| | | |].
  - intros j Hj1 Hpj. destruct (decide (idOf i j = idOf i j0)) as [Eq|Ne].
    + apply Hu; [done|]. rewrite Eq. lia.
    + apply Hu; [done|]. rewrite <- Hrest; [done|done|auto].
  - exists j'. split; [done|]. unfold L1, moveCount. rewrite decide_True by done. lia.
  - rewrite Hdep. unfold b. rewrite batches_step by done. lia.
  - exists v', L'. split; [cbn [drainVisits]; unfold bindE, bind; by rewrite E|]. split; [by etrans|]. split; [done|]. split; [done|].
    intros o Ho1 Ho2. by rewrite Hrest', Hrest.
Qed.
End Drain.
