(* ===== verification/ScaleOutProofs.v ===== *)
(** * Scale-out

    Each new shard gets its share: from any in-memory cluster that covers the
    keyspace, filling a shard ends with exactly [TotalSlots / shards] slots on
    its primary and no slot lost.  [ScaleUp] has the whole pass, and what it does
    to the shards that give. *)

From S2P Require Import Prelude GoStrings Cluster Slots Topology API ResourceBuilders.
From S2P Require Import ResourceProofs Platform Controller Reconcile Fake FakeProofs TestBed.
From S2P Require Import StatusProofs ScaleInProofs SlotMover.
Local Open Scope string_scope.
Local Open Scope list_scope.
Local Open Scope Z_scope.

Lemma byID_view_eq f : fake_inv f → byID (Fake.view f) = f.
Proof. intros Hf. apply map_eq. intros k. by apply byID_view. Qed.

Lemma assigned_nonneg f : fake_inv f → 0 ≤ Fake.assignedSlots f.
Proof.
  intros Hf. apply sumZ_nonneg. intros x ([k n] & -> & Hin%elem_of_map_to_list)%list_elem_of_fmap.
  apply (ok_count _ _ (Hf _ _ Hin)).
Qed.

(** Assigned slots are owned by a primary. *)
Lemma some_owner f : fake_inv f → 0 < Fake.assignedSlots f → ∃ k m, f !! k = Some m ∧ IsPrimary m = true ∧ 0 < SlotCount m.
Proof.
  intros Hf Hlt.
  destruct (decide (Exists (λ p : string * NodeInfo, 0 < SlotCount p.2) (map_to_list f))) as [He|He].
  - apply Exists_exists in He as ([k m] & Hk%elem_of_map_to_list & Hpos). simpl in Hpos.
    exists k, m. split_and!; [done| |done]. destruct (IsPrimary m) eqn:Ep; [done|].
    rewrite (SlotCount_replica f k m) in Hpos; [lia|done..].
  - exfalso. assert (Fake.assignedSlots f = 0); [|lia]. apply sumZ_map_zero.
    intros [k m] Hin. simpl. assert (¬ 0 < SlotCount m) as Hz.
    { intros Hpos. apply He, Exists_exists. by exists (k, m). }
    apply elem_of_map_to_list in Hin. pose proof (ok_count _ _ (Hf _ _ Hin)). lia.
Qed.

(** If not all slots are on [id], another primary owns some. *)
Lemma other_owner f id n :
  fake_inv f → f !! id = Some n → SlotCount n < Fake.assignedSlots f →
  ∃ k m, k ≠ id ∧ f !! k = Some m ∧ IsPrimary m = true ∧ 0 < SlotCount m.
Proof.
  intros Hf Hn Hlt. rewrite (assigned_delete f id n Hn) in Hlt.
  destruct (some_owner (delete id f)) as (k & m & [Hne Hk]%lookup_delete_Some & Hp & Hpos); [|lia|by exists k, m].
  by apply map_Forall_delete.
Qed.

(** ** The in-memory cluster is a slot mover *)

(** A covered cluster in which [id] is a node. *)
Definition fillable (id : string) (f : gmap string NodeInfo) : Prop :=
  fake_inv f ∧ Fake.assignedSlots f = TotalSlots ∧ is_Some (f !! id) ∧ id ≠ "" ∧
  (∀ n, f !! "" = Some n → SlotCount n = 0).

Record fakeKeeps (f : gmap string NodeInfo) (L : ledger) : Prop := {
  fk_inv : fake_inv f;
  fk_covered : Fake.assignedSlots f = TotalSlots;
  fk_anonymous : L "" = 0;
  fk_count id : L id = Fake.countAt id f
}.

Lemma fakeKeeps_balanced f L : fakeKeeps f L → balanced L.
Proof.
  intros [Hf Hc Ha HL].
  assert (∀ id n, f !! id = Some n → L id = SlotCount n) as Hat by (intros id n Hn; rewrite HL; unfold Fake.countAt; by rewrite Hn).
  assert (∀ id, f !! id = None → L id = 0) as Hnone by (intros id Hn; rewrite HL; unfold Fake.countAt; by rewrite Hn).
  constructor; [|done|].
  - intros id. destruct (f !! id) as [n|] eqn:E; [rewrite (Hat id n E); apply (Hf _ _ E)|by rewrite Hnone].
  - intros id Hlt. destruct (f !! id) as [n|] eqn:E.
    + destruct (other_owner f id n Hf E) as (o & m & Hne & Hm & _ & Hpos); [rewrite <- (Hat id n E); lia|].
      exists o. split; [done|]. by rewrite (Hat o m Hm).
    + destruct (some_owner f Hf) as (o & m & Hm & _ & Hpos); [rewrite Hc; done|]. exists o. split; [congruence|]. by rewrite (Hat o m Hm).
Qed.

#[export, refine] Instance Fake_SlotMover seed : SlotMover (gmap string NodeInfo) seed := {|
  keeps := fakeKeeps;
  target f id := is_Some (f !! id) ∧ id ≠ "";
  steady f f' := dom f' = dom f
|}.
Proof.
  - split; [done|]. intros f1 f2 f3 E1 E2. congruence.
  - intros f f' id E [Hid ?]. split; [|done]. apply elem_of_dom. rewrite E. by apply elem_of_dom.
  - apply fakeKeeps_balanced.
  - intros f L id [_ _ Ha HL] Hpos. split; [|intros ->; lia]. rewrite HL in Hpos. unfold Fake.countAt in Hpos.
    destruct (f !! id); [by eexists|done].
  - intros f L [Hf _ _ HL]. exists (Fake.view f). split; [done|]. unfold reports. rewrite byID_view_eq by done. split.
    + intros id. by rewrite HL.
    + intros id n. by apply SlotCount_replica.
  - intros f L from to n [Hf Hc Ha HL] Hne Hpos [[tn Ht] Hto] Hn. rewrite HL in Hpos |- *. unfold Fake.countAt in *.
    destruct (f !! from) as [fn|] eqn:Ef; [|done]. simpl in *.
    destruct (MoveSlots_effect f seed from to n fn tn Hf Hn Ef Ht) as (f' & E & Hcov & Hcnt & Hrest & Hdom & _).
    destruct (Hcnt Hne) as [Hfrom Hto']. exists f'. split; [done|]. split.
    + constructor; [by eapply fake_inv_MoveSlots|congruence|..].
      * unfold moveCount. rewrite decide_False by done. destruct (decide (_ = from)) as [<-|]; [|done].
        rewrite HL in Ha. unfold Fake.countAt in Ha. rewrite Ef in Ha. simpl in Ha. lia.
      * intros id. unfold moveCount. destruct (decide (id = to)) as [->|Hit].
        { rewrite Hto', HL. unfold Fake.countAt. by rewrite Ht. }
        destruct (decide (id = from)) as [->|Hif]; [rewrite Hfrom, HL; unfold Fake.countAt; by rewrite Ef|].
        rewrite HL. unfold Fake.countAt. by rewrite Hrest.
    + done.
Defined.

Lemma fillable_keeps id f : fillable id f → fakeKeeps f (λ id, Fake.countAt id f).
Proof.
  intros (Hf & Hc & _ & _ & He). constructor; [done..| |done]. unfold Fake.countAt.
  destruct (f !! "") as [n|] eqn:E; [by apply He|done].
Qed.

(** Filling a new shard gives it its share.  From any cluster that covers
    the keyspace and knows the new shard's pod, [fillShard] succeeds within its
    fuel and leaves exactly [share] slots on the new primary (or what it had, if
    more), the keyspace covered, and the API server untouched. *)
Theorem fill_shard_reaches_share (cr : ValkeyCluster) (i share : Z) (k : KubeWorld) (f : gmap string NodeInfo) :
  0 ≤ share ≤ TotalSlots → fillable (PodFQDN cr i 0) f →
  ∃ f', fillShard cr share i (k, f) = Some (Ok tt, (k, f')) ∧
    Fake.countAt (PodFQDN cr i 0) f' = Z.max share (Fake.countAt (PodFQDN cr i 0) f) ∧
    Fake.assignedSlots f' = TotalSlots ∧ fake_inv f'.
Proof.
  intros Hshare Hf. pose proof Hf as (Hinv & _ & [n Hn] & Hid & _).
  destruct (fillShard_fills cr i (PodFQDN cr i 0) share k Hshare f (λ id, Fake.countAt id f))
    as (f' & L' & E & [Hf' Hc' _ HL'] & Hmax & _).
  - by apply (fillable_keeps (PodFQDN cr i 0)).
  - split; [by eexists|done].
  - done.
  - simpl. unfold Fake.MyID, Fake.ensure. simpl. rewrite Hn, Hn. simpl. by rewrite (ok_id _ _ (Hinv _ _ Hn)).
  - exists f'. by rewrite <- HL'.
Qed.

(** The formed cluster of three shards, joined by the pods of two more. *)
Definition crFive : ValkeyCluster := sampleCR "demo" 5 1.
Definition threeShards : gmap string NodeInfo :=
  worldAfter (formCluster (sampleCR "demo" 3 1)) Fake.NewFake.
Definition joined : gmap string NodeInfo := worldAfter (Meet (seed crFive) (endpoint crFive 3 0)) threeShards.

Lemma joined_fillable : fillable (PodFQDN crFive 3 0) joined.
Proof.
  split_and!.
  - assert (map_Forall (λ k n, nID n = k ∧ nHost n = k ∧ 0 ≤ SlotCount n ∧
      (nSlots n = [] ∨ IsPrimary n = true)) joined) as H by (apply (bool_decide_unpack _); by vm_compute).
    intros k n Hk. destruct (H k n Hk) as (? & ? & ? & Hp). constructor; [done..|].
    intros E. destruct Hp; congruence.
  - by vm_compute.
  - apply (bool_decide_unpack _). by vm_compute.
  - discriminate.
  - intros n H. exfalso. revert H. by vm_compute.
Qed.

Lemma fill_shard_reaches_share_witness :
  ∃ f', fillShard crFive 3276 3 (emptyKube, joined) = Some (Ok tt, (emptyKube, f')) ∧
    Fake.countAt (PodFQDN crFive 3 0) f' = 3276 ∧
    Fake.assignedSlots f' = TotalSlots ∧ fake_inv f'.
Proof.
  apply (fill_shard_reaches_share crFive 3 3276 emptyKube joined); [|apply joined_fillable].
  split; discriminate.
Defined.
