(* ===== verification/Drain.v ===== *)
(** * One pass of a scale-in

    Each pass drains one batch of a departing shard or, when the departing
    shards own nothing any more, removes them all.  The invariant of the passes,
    the number of batches that are left, and what [scaleIn] makes of them. *)

From S2P Require Import Prelude GoStrings Cluster Slots Topology API ResourceBuilders.
From S2P Require Import ResourceProofs Platform Controller Reconcile Fake FakeProofs TestBed.
From S2P Require Import StatusProofs ScaleInProofs Lifecycle Formation SteadyState SlotMover ScaleOutProofs.
Local Open Scope string_scope.
Local Open Scope list_scope.
Local Open Scope Z_scope.

(** ** How many passes *)

(** A sum in which one term changes. *)
Lemma sumZ_change {A} `{EqDecision A} (g h : A → Z) l x d :
  NoDup l → x ∈ l → (∀ y, y ∈ l → y ≠ x → h y = g y) → h x = g x + d → sumZ (map h l) = sumZ (map g l) + d.
Proof.
  intros Hnd Hin Hother Hx. induction Hnd as [|y l Hy Hnd IH]; [by apply elem_of_nil in Hin|]. simpl.
  apply elem_of_cons in Hin as [<-|Hin].
  - rewrite Hx. rewrite (map_ext_in h g); [lia|]. intros y Hy'%list_elem_of_In. apply Hother; [by right|congruence].
  - rewrite IH; [|done|intros; apply Hother; [by right|done]]. rewrite (Hother y); [lia|left|congruence].
Qed.

Definition shardBatches (cr : ValkeyCluster) (i : Z) (f : gmap string NodeInfo) : Z :=
  sumZ (map (λ j, batches (Fake.countAt (PodFQDN cr i j) f)) (ordinals cr)).

(** The batches of all departing shards among [I]. *)
Definition drains (cr : ValkeyCluster) (I : gset Z) (f : gmap string NodeInfo) : Z :=
  sumZ (map (λ i, if i <? crShards cr then 0 else shardBatches cr i f) (elements I)).

(** ** The invariant of a scale-in

    [I] are the shards that have a StatefulSet: the declared ones and the
    departing ones.  Every pod of these is a member and there is no other
    member, the keyspace is covered, and in each declared shard exactly one pod
    owns slots. *)

Definition podOwns (cr : ValkeyCluster) (f : gmap string NodeInfo) (i j : Z) : Prop :=
  0 ≤ j ≤ crReplicas cr ∧ 0 < Fake.countAt (PodFQDN cr i j) f.

Record draining (cr : ValkeyCluster) (I : gset Z) (w : KubeWorld * gmap string NodeInfo) : Prop := {
  dr_bounds i : i ∈ I → 0 ≤ i < 2 ^ 31;
  dr_declared i : 0 ≤ i < crShards cr → i ∈ I;
  dr_sets i : i ∈ I → ∃ sts, kSets w.1 !! setKey cr i = Some sts ∧ shardSet cr i sts;
  dr_only key sts : kSets w.1 !! key = Some sts → mNamespace (stsMeta sts) = crNamespace cr →
    mLabels (stsMeta sts) !! "app.kubernetes.io/instance" = Some (crName cr) → ∃ i, i ∈ I ∧ key = setKey cr i;
  dr_claims m i : m ∈ kPVCs w.1 → ownedPVC cr m = true → 0 ≤ i < 2 ^ 31 →
    mLabels m !! LabelShard = Some (Itoa i) → i ∈ I;
  dr_inv : fake_inv w.2;
  dr_covered : Fake.assignedSlots w.2 = TotalSlots;
  dr_pods i j : i ∈ I → 0 ≤ j ≤ crReplicas cr → is_Some (w.2 !! PodFQDN cr i j);
  dr_members h : is_Some (w.2 !! h) → ∃ i j, i ∈ I ∧ 0 ≤ j ≤ crReplicas cr ∧ h = PodFQDN cr i j;
  dr_serving i : 0 ≤ i < crShards cr → ∃ j, podOwns cr w.2 i j ∧ ∀ j', podOwns cr w.2 i j' → j' = j
}.

(** ** Slot counts and owners *)

Lemma countAt_nonneg (f : gmap string NodeInfo) h : fake_inv f → 0 ≤ Fake.countAt h f.
Proof.
  intros Hf. unfold Fake.countAt. destruct (f !! h) as [n|] eqn:E; [|done]. apply (ok_count _ _ (Hf _ _ E)).
Qed.

Lemma owns_countAt (f : gmap string NodeInfo) h n : fake_inv f → f !! h = Some n → ownsSlots n = true ↔ 0 < Fake.countAt h f.
Proof.
  intros Hf Hn. unfold Fake.countAt. rewrite Hn. simpl. unfold ownsSlots. rewrite andb_true_iff, Z.ltb_lt.
  split; [tauto|]. intros Hc. split; [|done]. destruct (IsPrimary n) eqn:Ep; [done|].
  rewrite (SlotCount_replica f h n) in Hc; [lia|done..].
Qed.

Section Drain.
Context (cr : ValkeyCluster) (Hs : 0 < crShards cr < 2 ^ 31) (Hr : 0 ≤ crReplicas cr < 2 ^ 31).
Local Abbreviation host := (PodFQDN cr).
Local Abbreviation W := (KubeWorld * gmap string NodeInfo)%type.
Implicit Types (I : gset Z) (k : KubeWorld) (f : gmap string NodeInfo).

Lemma host_eq i j i' j' : 0 ≤ i < 2 ^ 31 → 0 ≤ j ≤ crReplicas cr → 0 ≤ i' < 2 ^ 31 → 0 ≤ j' ≤ crReplicas cr →
  host i j = host i' j' → i = i' ∧ j = j'.
Proof. intros. apply (PodFQDN_inj cr); [lia..|done]. Qed.

(** A member pod answers with its host and nothing changes. *)
Lemma MyID_pod k f i j n : fake_inv f → f !! host i j = Some n →
  MyID (endpoint cr i j) ((k, f) : W) = Some (Ok (host i j), (k, f)).
Proof.
  intros Hf Hn. simpl. unfold onRight, Fake.MyID, Fake.ensure. simpl. rewrite Hn, Hn. simpl.
  by rewrite (ok_id _ _ (Hf _ _ Hn)).
Qed.

(** The primary of a shard of members: the first pod that owns slots, or pod 0
    if none does. *)
Lemma findShardPrimary_pods k f i : fake_inv f → (∀ j, 0 ≤ j ≤ crReplicas cr → is_Some (f !! host i j)) →
  ∃ j, 0 ≤ j ≤ crReplicas cr ∧ findShardPrimary cr i f ((k, f) : W) = Some ((host i j, j), (k, f)) ∧
    (podOwns cr f i j ∨ ∀ j', 0 ≤ j' ≤ crReplicas cr → Fake.countAt (host i j') f = 0).
Proof.
  intros Hf Hpods. unfold findShardPrimary, bind.
  assert (∀ js, (∀ j, j ∈ js → 0 ≤ j ≤ crReplicas cr) →
    (∃ j, podOwns cr f i j ∧ findShardPrimaryIn cr i f js ((k, f) : W) = Some (Some (host i j, j), (k, f))) ∨
    (findShardPrimaryIn cr i f js ((k, f) : W) = Some (None, (k, f)) ∧
     ∀ j, j ∈ js → Fake.countAt (host i j) f = 0)) as Hin.
  { induction js as [|j js IH]; intros Hjs; [right; split; [done|by intros ? ?%elem_of_nil]|].
    pose proof (Hjs j (list_elem_of_here _ _)) as Hj. destruct (Hpods j Hj) as [n Hn]. cbn [findShardPrimaryIn]. unfold bind.
    rewrite (MyID_pod k f i j n Hf Hn), Hn. pose proof (owns_countAt f _ n Hf Hn) as Ho.
    destruct (ownsSlots n) eqn:Eo; [left; exists j; split; [|done]; by split; [|apply Ho]|].
    destruct IH as [?|[E Hz]]; [intros; apply Hjs; by right|by left|]. right. split; [done|].
    intros j' [->|Hj']%elem_of_cons; [|by apply Hz]. pose proof (countAt_nonneg f (host i j) Hf).
    destruct (decide (0 < Fake.countAt (host i j) f)) as [Hpos%Ho|]; [done|lia]. }
  destruct (Hin (ordinals cr)) as [(j & Hj & E)|[E Hz]]; [intros j; apply elem_of_ordinals|..]; rewrite E.
  - exists j. split; [apply Hj|]. split; [done|by left].
  - exists 0. split; [lia|]. destruct (Hpods 0) as [n Hn]; [lia|]. rewrite (MyID_pod k f i 0 n Hf Hn).
    split; [done|]. right. intros j' Hj'. apply Hz, elem_of_ordinals, Hj'.
Qed.

(** *** The API server *)

Lemma NoDup_omap_inj {A B C} (key : A → C) (g : A → option B) l :
  NoDup (map key l) → (∀ x y b, x ∈ l → y ∈ l → g x = Some b → g y = Some b → key x = key y) → NoDup (omap g l).
Proof.
  induction l as [|x l IH]; intros Hnd Hinj; [by apply NoDup_nil_2|].
  apply NoDup_cons in Hnd as [Hx Hnd]. rewrite omap_cons.
  assert (NoDup (omap g l)) by (apply IH; [done|]; intros; eapply Hinj; try right; eauto).
  destruct (g x) as [b|] eqn:E; [|done]. apply NoDup_cons. split; [|done].
  intros (y & Hy & Eb)%list_elem_of_omap. apply Hx. rewrite (Hinj x y b); [|left|by right|done..].
  apply list_elem_of_fmap. eauto.
Qed.

Lemma omap_filter_map {A B C} (p : B → bool) (h : A → B) (g : B → option C) l :
  omap g (List.filter p (map h l)) = omap (λ x, if p (h x) then g (h x) else None) l.
Proof.
  induction l as [|x l IH]; [done|]. cbn [map List.filter]. rewrite (omap_cons _ x l).
  destruct (p (h x)); [|done]. rewrite omap_cons. by rewrite IH.
Qed.

(** When the sets of the resource are those of the shards [P], these are the
    shards listed, each once. *)
Lemma existing_indexes (P : Z → Prop) k f : (∀ i, P i → 0 ≤ i < 2 ^ 31) →
  (∀ i, P i → ∃ sts, kSets k !! setKey cr i = Some sts ∧ shardSet cr i sts) →
  (∀ key sts, kSets k !! key = Some sts → mNamespace (stsMeta sts) = crNamespace cr →
    mLabels (stsMeta sts) !! "app.kubernetes.io/instance" = Some (crName cr) → ∃ i, P i ∧ key = setKey cr i) →
  ∃ idxs, existingShardIndexes cr ((k, f) : W) = Some (Ok idxs, (k, f)) ∧ NoDup idxs ∧ ∀ i, i ∈ idxs ↔ P i.
Proof.
  intros HB HS HO. eexists. split; [reflexivity|]. simpl.
  set (sel := λ s, String.eqb (mNamespace (stsMeta s)) (crNamespace cr) &&
    bool_decide ({[ "app.kubernetes.io/instance" := crName cr ]} ⊆ mLabels (stsMeta s))).
  set (idx := λ s, match mLabels (stsMeta s) !! LabelShard with
    | Some v => match Atoi v with (n, None) => Some n | (_, Some _) => None end | None => None end).
  assert (∀ key s z, kSets k !! key = Some s → sel s = true → idx s = Some z → P z ∧ key = setKey cr z) as Hsel.
  { intros key s z Hk Hsel Hz. apply andb_true_iff in Hsel as [Hns%String.eqb_eq Hl%bool_decide_eq_true].
    apply map_singleton_subseteq_l in Hl. destruct (HO key s Hk Hns Hl) as (i & Hi & ->).
    destruct (HS i Hi) as (s' & Hs' & _ & _ & Hlab). rewrite Hk in Hs'. injection Hs' as <-.
    unfold idx in Hz. rewrite Hlab in Hz. pose proof (HB i Hi) as Hb.
    rewrite Atoi_Itoa in Hz by (unfold in_int64; lia). by injection Hz as <-. }
  rewrite omap_filter_map. split.
  - rewrite merge_sort_Permutation. apply (NoDup_omap_inj fst); [apply NoDup_fst_map_to_list|].
    intros [k1 s1] [k2 s2] z H1%elem_of_map_to_list H2%elem_of_map_to_list. simpl. fold (sel s1) (sel s2) (idx s1) (idx s2).
    destruct (sel s1) eqn:E1; [|done]. destruct (sel s2) eqn:E2; [|done]. intros Z1 Z2.
    destruct (Hsel _ _ _ H1 E1 Z1) as [_ ->]. by destruct (Hsel _ _ _ H2 E2 Z2) as [_ ->].
  - intros i. rewrite merge_sort_Permutation, list_elem_of_omap. split.
    + intros ([k1 s1] & H1%elem_of_map_to_list & Hz). simpl in Hz. fold (sel s1) (idx s1) in Hz.
      destruct (sel s1) eqn:E1; [|done]. by destruct (Hsel _ _ _ H1 E1 Hz).
    + intros Hi. destruct (HS i Hi) as (s & Hk & Hns & Hinst & Hlab). exists (setKey cr i, s).
      split; [by apply elem_of_map_to_list|]. cbn [snd]. assert (sel s = true) as Hsl.
      { apply andb_true_iff. split; [by apply String.eqb_eq|]. apply bool_decide_eq_true. by apply map_singleton_subseteq_l. }
      assert (idx s = Some i) as Hidx.
      { unfold idx. rewrite Hlab. pose proof (HB i Hi). by rewrite Atoi_Itoa by (unfold in_int64; lia). }
      simpl. fold (sel s) (idx s). by rewrite Hsl, Hidx.
Qed.

Lemma existing_draining I k f : draining cr I (k, f) →
  ∃ idxs, existingShardIndexes cr ((k, f) : W) = Some (Ok idxs, (k, f)) ∧ NoDup idxs ∧ ∀ i, i ∈ idxs ↔ i ∈ I.
Proof. intros D. apply (existing_indexes (λ i, i ∈ I)); apply D. Qed.

(** No member is stale. *)
Lemma forgetStale_draining I k f : draining cr I (k, f) →
  forgetStaleNodes cr (Fake.view f) ((k, f) : W) = Some (tt, (k, f)).
Proof.
  intros D. destruct (existing_draining I k f D) as (idxs & E & _ & Hin).
  unfold forgetStaleNodes, existingPodHosts, bindE, bind. rewrite E. simpl. apply forM_quiet.
  intros n Hn. simpl in Hn. apply (elem_of_sortedNodes f n (dr_inv _ _ _ D)) in Hn.
  destruct (dr_members _ _ _ D (nID n)) as (i & j & Hi & Hj & Hh); [by eexists|].
  rewrite bool_decide_eq_true_2; [by rewrite andb_false_r|].
  rewrite (ok_host _ _ (dr_inv _ _ _ D _ _ Hn)), Hh. apply elem_of_list_to_set, list_elem_of_join.
  exists (map (host i) (ordinals cr)). split; apply list_elem_of_fmap; [|exists i; by rewrite Hin].
  exists j. by rewrite elem_of_ordinals.
Qed.

(** *** Draining one batch *)

Lemma drain_batch I k f i j s : draining cr I (k, f) → i ∈ I → crShards cr ≤ i → podOwns cr f i j → podOwns cr f 0 s →
  ∃ f', Fake.MoveSlots (seed cr) (host i j) (host 0 s) (Z.min drainBatchSlots (Fake.countAt (host i j) f)) f =
      Some ((Z.min drainBatchSlots (Fake.countAt (host i j) f), None), f') ∧
    draining cr I (k, f') ∧ drains cr I f' = drains cr I f - 1.
Proof.
  intros D Hi Hd [Hj Hc] [Hsb Hsc]. pose proof (dr_inv _ _ _ D) as Hf. pose proof (dr_bounds _ _ _ D i Hi) as Hib.
  simpl in Hf.
  destruct (dr_pods _ _ _ D i j Hi Hj) as [fn Hfn]. destruct (dr_pods _ _ _ D 0 s) as [tn Htn]; [by apply (dr_declared _ _ _ D); lia|done|].
  simpl in Hfn, Htn. set (b := Z.min drainBatchSlots (Fake.countAt (host i j) f)).
  assert (host i j ≠ host 0 s) as Hne by (intros E; apply host_eq in E; lia).
  assert (Fake.countAt (host i j) f = SlotCount fn) as Ef by (unfold Fake.countAt; by rewrite Hfn).
  assert (Fake.countAt (host 0 s) f = SlotCount tn) as Et by (unfold Fake.countAt; by rewrite Htn).
  assert (0 < b ≤ SlotCount fn) as Hb by (unfold b, drainBatchSlots; lia).
  destruct (MoveSlots_effect f (seed cr) (host i j) (host 0 s) b fn tn Hf) as (f' & E & Ha & Hcnt & Hrest & Hdom & _);
    [lia|done..|]. destruct (Hcnt Hne) as [C1 C2]. rewrite Z.min_l in E, C1, C2 by lia.
  assert (∀ h, h ≠ host i j → h ≠ host 0 s → Fake.countAt h f' = Fake.countAt h f) as Hsame
    by (intros h ??; unfold Fake.countAt; by rewrite Hrest).
  assert (∀ h, is_Some (f' !! h) ↔ is_Some (f !! h)) as Hd' by (intros h; by rewrite <- !elem_of_dom, Hdom).
  exists f'. split; [done|]. split.
  - destruct D as [B Dc Se On Cl _ Cov Po Me Sv]. constructor; simpl in *; [done..| | | | |].
    + eapply fake_inv_MoveSlots; [|exact Hf|exact E]. lia.
    + congruence.
    + intros i' j' Hi' Hj'. apply Hd'. by apply Po.
    + intros h Hh%Hd'. by apply Me.
    + intros i' Hi'. destruct (Sv i' Hi') as (j0 & [Hj0 Hc0] & Hu).
      assert (∀ j', 0 ≤ j' ≤ crReplicas cr → 0 < Fake.countAt (host i' j') f' ↔ 0 < Fake.countAt (host i' j') f) as Hiff.
      { intros j' Hj'. destruct (decide (host i' j' = host 0 s)) as [E0|N0]; [rewrite E0; lia|].
        rewrite Hsame; [done| |done]. intros E1. apply host_eq in E1; lia. }
      exists j0. split; [split; [done|]; by apply Hiff|]. intros j' [Hj' Hc']. apply Hu. split; [done|]. by apply Hiff.
  - unfold drains. replace (_ - 1) with (sumZ (map (λ i0, if i0 <? crShards cr then 0 else shardBatches cr i0 f) (elements I)) + -1) by lia.
    apply (sumZ_change _ _ _ i); [apply NoDup_elements|by apply elem_of_elements| |].
    + intros i' Hi'%elem_of_elements Hne'. destruct (Z.ltb_spec i' (crShards cr)); [done|]. unfold shardBatches. f_equal.
      apply map_ext_in. intros j' Hj'%list_elem_of_In%elem_of_ordinals. pose proof (dr_bounds _ _ _ D i' Hi').
      rewrite Hsame; [done|..]; intros E1; apply host_eq in E1; lia.
    + rewrite (proj2 (Z.ltb_ge i (crShards cr))) by done. unfold shardBatches.
      apply (sumZ_change _ _ _ j); [apply NoDup_seqZ|by apply elem_of_ordinals| |].
      * intros j' Hj'%elem_of_ordinals Hne'. rewrite Hsame; [done|..]; intros E1; apply host_eq in E1; lia.
      * rewrite C1. unfold b. rewrite Ef. rewrite batches_step by lia. lia.
Qed.

Lemma State_view k f : State (seed cr) ((k, f) : W) = Some (Ok (Fake.view f), (k, f)).
Proof. done. Qed.

(** The shard that takes the slots is shard 0, whose primary owns some. *)
Lemma survivor_draining I k f dep : draining cr I (k, f) → (∀ j, 0 ≤ j ≤ crReplicas cr → host 0 j ≠ dep) →
  ∃ s, podOwns cr f 0 s ∧ firstSurvivorPrimary cr f dep (crShards cr) ((k, f) : W) = Some (host 0 s, (k, f)).
Proof.
  intros D Hdep. destruct (dr_serving _ _ _ D 0) as (s & [Hsb Hsc] & _); [lia|]. simpl in Hsc.
  destruct (findShardPrimary_pods k f 0 (dr_inv _ _ _ D)) as (j & Hj & E & Ho).
  { intros j Hj. apply (dr_pods _ _ _ D); [apply (dr_declared _ _ _ D); lia|done]. }
  exists j. split; [destruct Ho as [|Hz]; [done|]; rewrite (Hz s) in Hsc by done; lia|].
  unfold firstSurvivorPrimary. rewrite seqZ_cons by lia. cbn [firstSurvivorIn]. unfold bind. rewrite E. cbn [fst].
  rewrite (proj2 (String.eqb_neq _ _) (PodFQDN_nonempty cr 0 j)), (proj2 (String.eqb_neq _ _) (Hdep j Hj)). done.
Qed.

(** A departing shard that owns slots loses one batch, and the pass is over. *)
Lemma retire_drains I k f i : draining cr I (k, f) → i ∈ I → crShards cr ≤ i → (∃ j, podOwns cr f i j) →
  ∃ f', retireShard cr i ((k, f) : W) = Some (Ok false, (k, f')) ∧
    draining cr I (k, f') ∧ drains cr I f' = drains cr I f - 1.
Proof.
  intros D Hi Hd [j0 [Hj0 Hc0]]. pose proof (dr_inv _ _ _ D) as Hf. simpl in Hf. pose proof (dr_bounds _ _ _ D i Hi).
  destruct (findShardPrimary_pods k f i Hf) as (j & Hj & E & Ho); [intros; by apply (dr_pods _ _ _ D)|].
  assert (podOwns cr f i j) as Hown by (destruct Ho as [|Hz]; [done|]; rewrite (Hz j0) in Hc0 by done; lia).
  destruct (survivor_draining I k f (host i j) D) as (s & Hso & Es); [intros j' Hj' E'; apply host_eq in E'; lia|].
  destruct (drain_batch I k f i j s D Hi Hd Hown Hso) as (f' & Em & D' & Hdr). exists f'. split; [|done].
  unfold retireShard, bindE, bind. cbv zeta. rewrite State_view, byID_view_eq by done. rewrite E. cbn [fst].
  change (SlotCount (nodeAt f (host i j))) with (Fake.countAt (host i j) f).
  rewrite (proj2 (String.eqb_neq _ _) (PodFQDN_nonempty cr i j)), (proj2 (Z.ltb_lt 0 _)) by apply Hown. cbn [negb andb].
  cbv iota beta. rewrite Es. rewrite (proj2 (String.eqb_neq _ _) (PodFQDN_nonempty cr 0 s)).
  replace (if Fake.countAt (host i j) f <? drainBatchSlots then Fake.countAt (host i j) f else drainBatchSlots)
    with (Z.min drainBatchSlots (Fake.countAt (host i j) f)) by (destruct (Z.ltb_spec (Fake.countAt (host i j) f) drainBatchSlots); lia).
  cbn [MoveSlots right_ClusterAdmin Fake_ClusterAdmin]. unfold onRight. cbn [fst snd]. by rewrite Em.
Qed.

(** *** Removing an empty shard *)

Lemma forgetEverywhere_fake k f id : forgetEverywhere cr id ((k, f) : W) = Some (tt, (k, delete id f)).
Proof.
  assert (allEndpoints cr ≠ []) as Hne.
  { intros E. assert (endpoint cr 0 0 ∈ allEndpoints cr) as Hin; [|by rewrite E in Hin; apply elem_of_nil in Hin].
    apply elem_of_allEndpoints. exists 0, 0. split; [lia|done]. }
  assert (∀ l f, forM l (λ ep, _ <- Forget ep id ;; ret tt) ((k, f) : W) =
    Some (tt, (k, if decide (l = []) then f else delete id f))) as Hl.
  { induction l as [|ep l IH]; intros f0; [done|]. cbn [forM]. unfold bind at 1 2. simpl. unfold onRight. simpl.
    rewrite IH. destruct (decide (l = [])); [done|]. by rewrite delete_delete_eq. }
  unfold forgetEverywhere. rewrite Hl. by rewrite decide_False.
Qed.

(** The pods [js] of shard [i] are forgotten one after the other. *)
Lemma forget_pods k i js f :
  NoDup js → (∀ j, j ∈ js → 0 ≤ j ≤ crReplicas cr ∧ is_Some (f !! host i j)) → 0 ≤ i < 2 ^ 31 → fake_inv f →
  ∃ f', forM js (λ j, r <- MyID (endpoint cr i j) ;;
      match r with
      | Ok id => if negb (String.eqb id "") then forgetEverywhere cr id else ret tt
      | Err _ => ret tt
      end) ((k, f) : W) = Some (tt, (k, f')) ∧
    (∀ j, j ∈ js → f' !! host i j = None) ∧ (∀ h, (∀ j, j ∈ js → h ≠ host i j) → f' !! h = f !! h).
Proof.
  revert f. induction js as [|j js IH]; intros f Hnd Hjs Hi Hf.
  { exists f. split; [done|]. split; [by intros ? ?%elem_of_nil|done]. }
  apply NoDup_cons in Hnd as [Hj Hnd]. destruct (Hjs j (list_elem_of_here _ _)) as [Hjb [n Hn]].
  cbn [forM]. unfold bind at 1 2. rewrite (MyID_pod k f i j n Hf Hn). cbv iota.
  rewrite (proj2 (String.eqb_neq _ _) (PodFQDN_nonempty cr i j)). cbn [negb]. rewrite forgetEverywhere_fake.
  destruct (IH (delete (host i j) f)) as (f' & E & Hgone & Hrest); [done| |done|by apply map_Forall_delete|].
  { intros j' Hj'. destruct (Hjs j' ltac:(by right)) as [Hb Hsm]. split; [done|].
    rewrite lookup_delete_ne; [done|]. intros E. apply host_eq in E as [_ ->]; try done. }
  exists f'. split; [exact E|]. split.
  - intros j' [->|Hj']%elem_of_cons; [|by apply Hgone].
    destruct (decide (j ∈ js)); [by apply Hgone|]. rewrite Hrest, lookup_delete_eq; [done|].
    intros j' Hj' E'. destruct (Hjs j' ltac:(by right)) as [Hb _]. apply host_eq in E' as [_ ->]; done.
  - intros h Hh. rewrite Hrest, lookup_delete_ne; [done|symmetry; apply Hh; left|]. intros j' Hj'. apply Hh. by right.
Qed.

Lemma assigned_subset f f' : f' ⊆ f → (∀ h n, f !! h = Some n → f' !! h = None → SlotCount n = 0) →
  Fake.assignedSlots f' = Fake.assignedSlots f.
Proof.
  intros Hsub Hz.
  assert (∀ h, h ∈ elements (dom f') ↔ is_Some (f' !! h)) as Hdom by (intros h; by rewrite elem_of_elements, elem_of_dom).
  rewrite (assigned_by_keys f (elements (dom f'))), (assigned_by_keys f' (elements (dom f'))).
  - f_equal. apply map_ext_in. intros h [n Hn]%list_elem_of_In%Hdom. unfold Fake.countAt.
    by rewrite Hn, (lookup_weaken _ _ _ _ Hn Hsub).
  - apply NoDup_elements.
  - intros h. by rewrite Hdom.
  - intros h n Hn Hout. exfalso. apply Hout, Hdom. by eexists.
  - apply NoDup_elements.
  - intros h [n Hn]%Hdom. exists n. by eapply lookup_weaken.
  - intros h n Hn Hout. apply (Hz h n Hn). destruct (f' !! h) eqn:E; [|done]. exfalso. apply Hout, Hdom. by eexists.
Qed.

Definition shardPVC (i : Z) (m : ObjectMeta) : bool :=
  String.eqb (mNamespace m) (crNamespace cr) &&
  bool_decide (<[LabelShard := Itoa i]> {[ "app.kubernetes.io/instance" := crName cr ]} ⊆ mLabels m).

(** The server without shard [i]. *)
Definition withoutShard (i : Z) (k : KubeWorld) : KubeWorld :=
  mkKube (kCRs k) (kConfigMaps k) (kServices k) (delete (setKey cr i) (kSets k))
    (List.filter (λ p, negb (bool_decide (metaKey p ∈ map metaKey (List.filter (shardPVC i) (kPVCs k))))) (kPVCs k))
    (kClock k).

Lemma deleteShard_server {V} k (v : V) i sts : kSets k !! setKey cr i = Some sts →
  deleteShard cr i (k, v) = Some (Ok tt, (withoutShard i k, v)).
Proof.
  intros Hk. unfold deleteShard, bindE, bind, ignoreNotFound, bind. simpl. unfold keyOf. simpl. fold (setKey cr i).
  rewrite Hk. unfold ret. unfold deleteShardPVCs, bindE, bind. simpl. exact (deletePVCs_server _ _).
Qed.

Lemma withoutShard_claims i k m : 0 ≤ i < 2 ^ 31 → m ∈ kPVCs (withoutShard i k) →
  m ∈ kPVCs k ∧ (ownedPVC cr m = true → mLabels m !! LabelShard ≠ Some (Itoa i)).
Proof.
  intros Hi [Hin Hk]%list_elem_of_In%filter_In. apply list_elem_of_In in Hin. split; [done|].
  intros [Hns%String.eqb_eq Hl%bool_decide_eq_true]%andb_true_iff Hlab.
  apply negb_true_iff, bool_decide_eq_false in Hk. apply Hk, list_elem_of_fmap. exists m. split; [done|].
  apply list_elem_of_In, filter_In. rewrite <- list_elem_of_In. split; [done|]. unfold shardPVC.
  rewrite Hns, String.eqb_refl. apply bool_decide_eq_true. by apply insert_subseteq_l.
Qed.

(** *** What is left when an empty departing shard is gone *)
Section Without.
Context (I : gset Z) (k : KubeWorld) (f f' : gmap string NodeInfo) (i : Z).
Context (D : draining cr I (k, f)) (Hi : i ∈ I) (Hd : crShards cr ≤ i).
Context (Hz : ∀ j, 0 ≤ j ≤ crReplicas cr → Fake.countAt (host i j) f = 0).
Context (Hgone : ∀ j, j ∈ ordinals cr → f' !! host i j = None).
Context (Hrest : ∀ h, (∀ j, j ∈ ordinals cr → h ≠ host i j) → f' !! h = f !! h).

Lemma without_other i' j : i' ∈ I → i' ≠ i → 0 ≤ j ≤ crReplicas cr → f' !! host i' j = f !! host i' j.
Proof.
  intros Hi' Hne Hj. apply Hrest. intros j' Hj'%elem_of_ordinals E. pose proof (dr_bounds _ _ _ D i Hi).
  pose proof (dr_bounds _ _ _ D i' Hi'). apply host_eq in E as [? _]; [done|done..].
Qed.

Lemma without_subset : f' ⊆ f.
Proof.
  apply map_subseteq_spec. intros h n Hn.
  destruct (decide (Exists (λ j, h = host i j) (ordinals cr))) as [(j & Hj & ->)%Exists_exists|Hno].
  - rewrite Hgone in Hn; done.
  - rewrite <- Hrest; [done|]. intros j Hj ->. apply Hno, Exists_exists. eauto.
Qed.

Lemma without_assigned : Fake.assignedSlots f' = Fake.assignedSlots f.
Proof.
  apply assigned_subset; [apply without_subset|]. intros h n Hn Hnone.
  destruct (dr_members _ _ _ D h) as (i' & j & Hi' & Hj & ->); [by eexists|].
  destruct (decide (i' = i)) as [->|Hne]; [|rewrite without_other in Hnone by done; congruence].
  pose proof (Hz j Hj) as Hc. unfold Fake.countAt in Hc. by rewrite Hn in Hc.
Qed.

Lemma without_drains : drains cr (I ∖ {[ i ]}) f' = drains cr I f.
Proof.
  assert (elements I ≡ₚ i :: elements (I ∖ {[ i ]})) as Hperm.
  { rewrite <- elements_union_singleton by set_solver. by rewrite <- union_difference_singleton_L. }
  unfold drains at 2. rewrite Hperm. cbn [map sumZ foldr].
  rewrite (proj2 (Z.ltb_ge i (crShards cr))) by done.
  assert (shardBatches cr i f = 0) as ->.
  { apply sumZ_map_zero. intros j Hj%elem_of_ordinals. by rewrite Hz. }
  rewrite Z.add_0_l. unfold drains, sumZ. f_equal. apply map_ext_in. intros i' [Hi' Hne]%list_elem_of_In%elem_of_elements%elem_of_difference.
  destruct (i' <? crShards cr); [done|]. unfold shardBatches. f_equal. apply map_ext_in.
  intros j Hj%list_elem_of_In%elem_of_ordinals. unfold Fake.countAt. rewrite without_other; [done|done|set_solver|done].
Qed.

Lemma draining_without : draining cr (I ∖ {[ i ]}) (withoutShard i k, f').
Proof.
  pose proof (dr_bounds _ _ _ D i Hi) as Hib. pose proof without_subset as Hsub. pose proof without_assigned as Ha.
  pose proof without_other as Hother.
  destruct D as [B Dc Se On Cl Inv Cov Po Me Sv]. constructor; simpl in *.
  - intros i' Hi'. apply B. set_solver.
  - intros i' Hi'. apply elem_of_difference. split; [by apply Dc|]. rewrite elem_of_singleton. lia.
  - intros i' [Hi' Hne]%elem_of_difference. rewrite lookup_delete_ne; [by apply Se|].
    intros E. apply setKey_inj in E; [set_solver|lia|]. pose proof (B i' Hi'). lia.
  - intros key sts [Hne Hk]%lookup_delete_Some Hns Hin. destruct (On key sts Hk Hns Hin) as (i' & Hi' & ->).
    exists i'. split; [|done]. apply elem_of_difference. split; [done|]. rewrite elem_of_singleton. by intros ->.
  - intros m i' Hm Hown Hib' Hlab. apply withoutShard_claims in Hm as [Hm Hnot]; [|done]. apply elem_of_difference.
    split; [by eapply Cl|]. rewrite elem_of_singleton. intros ->. by apply Hnot.
  - eapply map_Forall_lookup_2. intros h n Hn. apply (Inv h n). by eapply lookup_weaken.
  - congruence.
  - intros i' j [Hi' Hne]%elem_of_difference Hj. rewrite Hother; [by apply Po|done|set_solver|done].
  - intros h [n Hn]. destruct (Me h) as (i' & j & Hi' & Hj & ->); [exists n; by eapply lookup_weaken|].
    exists i', j. split; [|done]. apply elem_of_difference. split; [done|]. rewrite elem_of_singleton. intros ->.
    rewrite Hgone in Hn; [done|by apply elem_of_ordinals].
  - intros i' Hi'. destruct (Sv i' Hi') as (j0 & [Hj0 Hc0] & Hu).
    assert (∀ j, 0 ≤ j ≤ crReplicas cr → Fake.countAt (host i' j) f' = Fake.countAt (host i' j) f) as Hc.
    { intros j Hj. unfold Fake.countAt. rewrite Hother; [done|by apply Dc|lia|done]. }
    exists j0. split; [split; [done|]; by rewrite Hc|]. intros j [Hj Hcj]. apply Hu. split; [done|]. by rewrite <- Hc.
Qed.
End Without.

(** A departing shard that owns nothing is removed, and the pass goes on. *)
Lemma retire_removes I k f i : draining cr I (k, f) → i ∈ I → crShards cr ≤ i →
  (∀ j, 0 ≤ j ≤ crReplicas cr → Fake.countAt (host i j) f = 0) →
  ∃ f', retireShard cr i ((k, f) : W) = Some (Ok true, (withoutShard i k, f')) ∧
    draining cr (I ∖ {[ i ]}) (withoutShard i k, f') ∧ drains cr (I ∖ {[ i ]}) f' = drains cr I f.
Proof.
  intros D Hi Hd Hz. pose proof (dr_inv _ _ _ D) as Hf. simpl in Hf. pose proof (dr_bounds _ _ _ D i Hi).
  destruct (findShardPrimary_pods k f i Hf) as (j & Hj & E & _); [intros; by apply (dr_pods _ _ _ D)|].
  destruct (forget_pods k i (ordinals cr) f) as (f' & Ef & Hgone & Hrest); [apply NoDup_seqZ| |done|done|].
  { intros j' Hj'%elem_of_ordinals. split; [done|]. by apply (dr_pods _ _ _ D). }
  destruct (dr_sets _ _ _ D i Hi) as (sts & Hk & _).
  exists f'. split; [|by split; [apply (draining_without I k f f' i)|apply (without_drains I k)]].
  unfold retireShard, bindE at 1, bind at 1. cbv zeta. rewrite State_view, byID_view_eq by done.
  unfold bind at 1. rewrite E. cbn [fst]. change (SlotCount (nodeAt f (host i j))) with (Fake.countAt (host i j) f).
  rewrite (Hz j Hj), andb_false_r. unfold bind at 1. rewrite Ef. unfold bindE, bind.
  by rewrite (deleteShard_server k f' i sts Hk).
Qed.

(** *** A whole scale-in pass *)

(** Only the departing shards' sets and claims differ. *)
Definition sameButShards (k k' : KubeWorld) : Prop :=
  kCRs k' = kCRs k ∧ ∀ i, 0 ≤ i < crShards cr → kSets k' !! setKey cr i = kSets k !! setKey cr i.

Lemma sameButShards_without i k : crShards cr ≤ i < 2 ^ 31 → sameButShards k (withoutShard i k).
Proof.
  intros Hi. split; [done|]. intros i' Hi'. simpl. rewrite lookup_delete_ne; [done|].
  intros E. apply setKey_inj in E; lia.
Qed.

Lemma empty_or_owner f i : fake_inv f →
  (∃ j, podOwns cr f i j) ∨ (∀ j, 0 ≤ j ≤ crReplicas cr → Fake.countAt (host i j) f = 0).
Proof.
  intros Hf. destruct (decide (Exists (λ j, 0 < Fake.countAt (host i j) f) (ordinals cr))) as [(j & Hj & Hc)%Exists_exists|Hno].
  - left. exists j. split; [by apply elem_of_ordinals|done].
  - right. intros j Hj. pose proof (countAt_nonneg f (host i j) Hf).
    destruct (decide (0 < Fake.countAt (host i j) f)); [|lia].
    exfalso. apply Hno, Exists_exists. exists j. by rewrite elem_of_ordinals.
Qed.

Lemma retireShards_draining l I k f : draining cr I (k, f) → NoDup l → (∀ i, i ∈ l → i ∈ I) →
  ∃ I' k' f', retireShards cr l ((k, f) : W) = Some (Ok tt, (k', f')) ∧ draining cr I' (k', f') ∧
    sameButShards k k' ∧ I' ⊆ I ∧
    ((drains cr I' f' = drains cr I f - 1 ∧ ∃ i, i ∈ I' ∧ crShards cr ≤ i) ∨
     (drains cr I' f' = drains cr I f ∧ ∀ i, i ∈ l → i ∈ I' → i < crShards cr)).
Proof.
  revert I k f. induction l as [|i l IH]; intros I k f D Hnd Hin.
  { exists I, k, f. split; [done|]. split; [done|]. split; [done|]. split; [done|]. right. split; [done|].
    by intros ? ?%elem_of_nil. }
  apply NoDup_cons in Hnd as [Hil Hnd]. pose proof (Hin i (list_elem_of_here _ _)) as Hi. cbn [retireShards].
  destruct (Z.ltb_spec i (crShards cr)) as [Hlt|Hge].
  - destruct (IH I k f D Hnd) as (I' & k' & f' & E & D' & Hk & HI & Hdr); [intros; apply Hin; by right|].
    exists I', k', f'. split; [done|]. split; [done|]. split; [done|]. split; [done|].
    destruct Hdr as [?|[? Hall]]; [by left|right]. split; [done|].
    intros i' [->|Hi']%elem_of_cons ?; [done|by apply Hall].
  - unfold bindE, bind. destruct (empty_or_owner f i (dr_inv _ _ _ D)) as [Hown|Hz].
    + destruct (retire_drains I k f i D Hi Hge Hown) as (f' & E & D' & Hdr). rewrite E.
      exists I, k, f'. split; [done|]. split; [done|]. split; [done|]. split; [done|left; eauto].
    + destruct (retire_removes I k f i D Hi Hge Hz) as (f1 & E & D1 & Hdr1). rewrite E. cbv iota.
      destruct (IH (I ∖ {[ i ]}) (withoutShard i k) f1 D1 Hnd) as (I' & k' & f' & E' & D' & [Hcrs Hsets] & HI & Hdr).
      { intros i' Hi'. apply elem_of_difference. split; [apply Hin; by right|]. rewrite elem_of_singleton. congruence. }
      exists I', k', f'. split; [done|]. split; [done|].
      destruct (sameButShards_without i k) as [_ Hs1]; [pose proof (dr_bounds _ _ _ D i Hi); lia|].
      split; [split; [done|]; intros; by rewrite Hsets, Hs1|]. split; [set_solver|].
      rewrite <- Hdr1. destruct Hdr as [?|[? Hall]]; [by left|right]. split; [done|].
      intros i' [->|Hi']%elem_of_cons Hin'; [set_solver|by apply Hall].
Qed.

Lemma drains_nonneg I f : fake_inv f → 0 ≤ drains cr I f.
Proof.
  intros Hf. apply sumZ_nonneg. intros x (i & -> & _)%list_elem_of_fmap. destruct (_ <? _); [done|].
  apply sumZ_nonneg. intros x (j & -> & _)%list_elem_of_fmap. by apply batches_nonneg, countAt_nonneg.
Qed.

Lemma drains_declared I f : (∀ i, i ∈ I → i < crShards cr) → drains cr I f = 0.
Proof.
  intros H. apply sumZ_map_zero. intros i Hi%elem_of_elements%H. by rewrite (proj2 (Z.ltb_lt _ _)).
Qed.

(** One [scaleIn]: a batch less, or no departing shard left. *)
Lemma scaleIn_draining I k f : draining cr I (k, f) →
  ∃ I' k' f', scaleIn cr ((k, f) : W) = Some (Ok tt, (k', f')) ∧ draining cr I' (k', f') ∧ sameButShards k k' ∧ I' ⊆ I ∧
    if decide (drains cr I f = 0) then drains cr I' f' = 0 ∧ ∀ i, i ∈ I' → i < crShards cr
    else drains cr I' f' = drains cr I f - 1 ∧ ∃ i, i ∈ I' ∧ crShards cr ≤ i.
Proof.
  intros D. destruct (existing_draining I k f D) as (idxs & E & Hnd & Hin).
  destruct (retireShards_draining idxs I k f D Hnd) as (I' & k' & f' & Er & D' & Hk & HI & Hdr); [intros; by apply Hin|].
  exists I', k', f'. split.
  { unfold scaleIn, bind at 1. rewrite State_view. unfold bind at 1. rewrite (forgetStale_draining I k f D).
    unfold bindE, bind. by rewrite E. }
  split; [done|]. split; [done|]. split; [done|].
  pose proof (drains_nonneg I' f' (dr_inv _ _ _ D')). case_decide as Hz.
  - destruct Hdr as [[? _]|[-> Hall]]; [lia|]. split; [done|]. intros i Hi. apply Hall; [|done]. apply Hin. set_solver.
  - destruct Hdr as [?|[Heq Hall]]; [done|]. exfalso. apply Hz. rewrite <- Heq. apply drains_declared.
    intros i Hi. apply Hall; [|done]. apply Hin. set_solver.
Qed.

(** *** Observation *)

(** The pod of shard [i] that owns slots. *)
Definition ownerOrd f (i : Z) : Z := default 0 (List.find (λ j, 0 <? Fake.countAt (host i j) f) (ordinals cr)).

Lemma ownerOrd_owns I k f i : draining cr I (k, f) → 0 ≤ i < crShards cr →
  podOwns cr f i (ownerOrd f i) ∧ ∀ j, podOwns cr f i j → j = ownerOrd f i.
Proof.
  intros D Hi. destruct (dr_serving _ _ _ D i Hi) as (j & [Hj Hc] & Hu). simpl in *. unfold ownerOrd.
  destruct (List.find _ _) as [j'|] eqn:E; simpl.
  - apply find_some in E as [Hin%list_elem_of_In%elem_of_ordinals Hc'%Z.ltb_lt].
    assert (j' = j) as -> by (by apply Hu). split; [by split|done].
  - exfalso.
    assert ((0 <? Fake.countAt (host i j) f) = false) as H1 by (apply (find_none _ _ E); by apply list_elem_of_In, elem_of_ordinals).
    apply Z.ltb_ge in H1. lia.
Qed.

(** The nodes that own slots are the owning pods. *)
Lemma owners_draining I k f h : draining cr I (k, f) →
  h ∈ map nID (List.filter ownsSlots (csNodes (Fake.view f))) ↔ ∃ i j, i ∈ I ∧ podOwns cr f i j ∧ h = host i j.
Proof.
  intros D. pose proof (dr_inv _ _ _ D) as Hf. simpl in Hf. rewrite list_elem_of_fmap. split.
  - intros (n & -> & [Hin Ho]%list_elem_of_In%filter_In). apply list_elem_of_In in Hin.
    apply (elem_of_sortedNodes f n Hf) in Hin. destruct (dr_members _ _ _ D (nID n)) as (i & j & Hi & Hj & E); [by eexists|].
    exists i, j. split; [done|]. split; [|done]. split; [done|]. rewrite <- E. by apply (owns_countAt f _ n).
  - intros (i & j & Hi & [Hj Hc] & ->). destruct (dr_pods _ _ _ D i j Hi Hj) as [n Hn]. simpl in Hn.
    exists n. split; [by rewrite (ok_id _ _ (Hf _ _ Hn))|]. apply list_elem_of_In, filter_In. rewrite <- list_elem_of_In.
    split; [|by apply (owns_countAt f _ n Hf Hn)]. apply (elem_of_sortedNodes f n Hf). by rewrite (ok_id _ _ (Hf _ _ Hn)).
Qed.

Lemma owners_nodup f : fake_inv f → NoDup (map nID (List.filter ownsSlots (csNodes (Fake.view f)))).
Proof.
  intros Hf. pose proof (sortedNodes_nodup f Hf) as Hnd. simpl. induction (Fake.sortedNodes f) as [|n l IH]; [done|].
  simpl in *. apply NoDup_cons in Hnd as [Hn Hnd]. destruct (ownsSlots n); [|by apply IH]. simpl. apply NoDup_cons.
  split; [|by apply IH]. intros (n' & E & [Hin _]%list_elem_of_In%filter_In)%list_elem_of_fmap. apply Hn.
  apply list_elem_of_fmap. exists n'. by rewrite list_elem_of_In.
Qed.

Lemma declaredOwners_nodup f I k : draining cr I (k, f) → NoDup (map (λ i, host i (ownerOrd f i)) (seqZ 0 (crShards cr))).
Proof.
  intros D. apply NoDup_fmap_2_strong; [|apply NoDup_seqZ]. intros i i' Hi%elem_of_seqZ Hi'%elem_of_seqZ E.
  destruct (ownerOrd_owns I k f i D) as [[? _] _]; [lia|]. destruct (ownerOrd_owns I k f i' D) as [[? _] _]; [lia|].
  apply host_eq in E as [? _]; [done|lia..].
Qed.

(** At least the declared shards own slots, and exactly they when no other is
    left. *)
Lemma owners_count I k f : draining cr I (k, f) →
  let P := Z.of_nat (length (List.filter ownsSlots (csNodes (Fake.view f)))) in
  crShards cr ≤ P ∧ ((∀ i, i ∈ I → i < crShards cr) → P = crShards cr).
Proof.
  intros D P. assert (P = Z.of_nat (length (map nID (List.filter ownsSlots (csNodes (Fake.view f)))))) as HP by (by rewrite length_map).
  set (hs := map (λ i, host i (ownerOrd f i)) (seqZ 0 (crShards cr))).
  assert (Z.of_nat (length hs) = crShards cr) as Hlen by (unfold hs; rewrite length_map, length_seqZ; lia).
  assert (∀ h, h ∈ hs → h ∈ map nID (List.filter ownsSlots (csNodes (Fake.view f)))) as Hin.
  { intros h (i & -> & Hi%elem_of_seqZ)%list_elem_of_fmap. apply (owners_draining I k f _ D).
    exists i, (ownerOrd f i). split; [apply (dr_declared _ _ _ D); lia|]. split; [|done].
    apply (ownerOrd_owns I k f i D). lia. }
  pose proof (declaredOwners_nodup f I k D) as Hnd. fold hs in Hnd. split.
  - rewrite HP, <- Hlen. apply Nat2Z.inj_le, submseteq_length, NoDup_submseteq; done.
  - intros Hall. rewrite HP, <- Hlen. f_equal. apply Permutation_length, NoDup_Permutation; [by apply owners_nodup, (dr_inv _ _ _ D)|done|].
    intros h. split; [|apply Hin]. intros (i & j & Hi & Ho & ->)%(owners_draining I k f _ D).
    pose proof (dr_bounds _ _ _ D i Hi). specialize (Hall i Hi).
    destruct (ownerOrd_owns I k f i D) as [_ Hu]; [lia|]. rewrite (Hu j Ho). apply list_elem_of_fmap.
    exists i. split; [done|]. apply elem_of_seqZ. lia.
Qed.
End Drain.
