(* ===== verification/Converge.v ===== *)
(** * Reconcile converges on a scale-in

    Whole passes of [Reconcile] on the in-memory server: every pass ensures the
    owned objects, finds the departing shards and runs one step of the
    scale-in ([Drain]), then publishes the status.  The last pass publishes
    Ready. *)

From S2P Require Import Prelude GoStrings Cluster Slots Topology API ResourceBuilders.
From S2P Require Import ResourceProofs Platform Controller Reconcile Fake FakeProofs TestBed.
From S2P Require Import StatusProofs ScaleInProofs Lifecycle Formation SteadyState SlotMover ScaleOutProofs Drain.
Local Open Scope string_scope.
Local Open Scope list_scope.
Local Open Scope Z_scope.

Local Abbreviation W := (KubeWorld * gmap string NodeInfo)%type.

(** ** The custom resource in the server *)

(** The server holds the resource, with any status. *)
Definition storedCR (cr : ValkeyCluster) (k : KubeWorld) : Prop :=
  ∃ st, kCRs k !! metaKey (crMeta cr) = Some (mkCluster (crMeta cr) (crSpec cr) st).

(** A write to the status part of the server, the clock aside. *)
Definition statusWritten (cr : ValkeyCluster) (k k' : KubeWorld) (st : ValkeyClusterStatus) : Prop :=
  kCRs k' !! metaKey (crMeta cr) = Some (mkCluster (crMeta cr) (crSpec cr) st) ∧
  kSets k' = kSets k ∧ kPVCs k' = kPVCs k.

Section Writes.
Context (cr : ValkeyCluster) (k : KubeWorld) (f : gmap string NodeInfo) (st0 : ValkeyClusterStatus).
Context (Hcr : kCRs k !! metaKey (crMeta cr) = Some (mkCluster (crMeta cr) (crSpec cr) st0)).

Lemma retryN_ok n (fn : M W (result unit)) w w' : fn w = Some (Ok tt, w') → retryN n fn w = Some (Ok tt, w').
Proof. intros E. destruct n; simpl; unfold bind; by rewrite E. Qed.

Lemma getCR_stored : getCR (crKey cr) ((k, f) : W) = Some (Ok (mkCluster (crMeta cr) (crSpec cr) st0), (k, f)).
Proof. simpl. unfold kread, keyOf. simpl. unfold metaKey in Hcr. unfold crName, crNamespace. by rewrite Hcr. Qed.

Lemma setPhase_stored p re ms : ∃ k' st, setPhase cr p re ms ((k, f) : W) = Some (Ok tt, (k', f)) ∧ statusWritten cr k k' st.
Proof.
  eexists _, _. split.
  - apply (retryN_ok 4). unfold bindE, bind. rewrite getCR_stored. reflexivity.
  - split_and!; [|done..]. simpl. apply lookup_insert_eq.
Qed.

Lemma setConds_server cs c k1 :
  ∃ c' k', setConds (W := W) c cs (k1, f) = Some (c', (k', f)) ∧
    kCRs k' = kCRs k1 ∧ kSets k' = kSets k1 ∧ kPVCs k' = kPVCs k1.
Proof.
  revert c k1. induction cs as [|[[[ty s] re] ms] cs IH]; intros c k1; [by eexists _, _|].
  cbn [setConds]. unfold bind at 1. unfold setCond, bind. simpl.
  edestruct IH as (c' & k' & E & H1 & H2 & H3). rewrite E. eexists _, _. split; [done|]. by rewrite H1, H2, H3.
Qed.

(** The status write publishes the phase that [statusDecision] chose. *)
Lemma updateStatus_stored state : ∃ k' st, updateStatus cr state ((k, f) : W) = Some (Ok tt, (k', f)) ∧
  statusWritten cr k k' st ∧ (stPhase st = PhaseReady ↔ serving cr state).
Proof.
  destruct (statusDecision cr state (computeStatus cr state)) as [phase conds] eqn:Ed.
  set (latest := onStatus (λ s, mkStatus phase (mGeneration (crMeta cr)) (wrap32 (vReady (computeStatus cr state)))
    (vShards (computeStatus cr state)) (stConditions s)) (mkCluster (crMeta cr) (crSpec cr) st0)).
  destruct (setConds_server conds latest k) as (c & k1 & E & E1 & E2 & E3).
  destruct (statusDecision_available cr state (computeStatus cr state)) as (? & ? & ? & _ & Hnd & _). rewrite Ed in Hnd.
  destruct (setConds_spec conds latest (k, f) Hnd _ _ E) as (Hm & Hsp & Hst & _).
  assert (stPhase (crStatus c) = phase) as Hph.
  { apply (f_equal stPhase) in Hst. unfold set_stConditions in Hst. simpl in Hst. done. }
  eexists _, (crStatus c). split; [|split].
  - apply (retryN_ok 4). unfold bindE, bind. rewrite getCR_stored. cbv iota. rewrite Ed.
    match goal with |- context [setConds ?l conds] => change l with latest end. rewrite E. reflexivity.
  - split_and!; simpl; [|by rewrite E2|by rewrite E3]. rewrite Hm. simpl. rewrite lookup_insert_eq. f_equal.
    destruct c as [m s t]. simpl in *. subst. done.
  - rewrite Hph. pose proof (statusDecision_ready cr state) as Hrd. by rewrite Ed in Hrd.
Qed.
End Writes.

(** ** The invariant of the passes *)

Record reconciling (cr : ValkeyCluster) (I : gset Z) (w : W) : Prop := {
  rc_draining : draining cr I w;
  rc_stored : storedCR cr w.1;
  rc_ready i : 0 ≤ i < crShards cr → stsReadyReplicas <$> (kSets w.1 !! setKey cr i) = Some (1 + crReplicas cr)
}.

(** Neither the status nor anything of the server but sets and claims matters. *)
Lemma draining_ext cr I k k' f : kSets k' = kSets k → kPVCs k' = kPVCs k → draining cr I (k, f) → draining cr I (k', f).
Proof. intros E1 E2 [B Dc Se On Cl Inv Cov Po Me Sv]. by constructor; simpl in *; rewrite ?E1, ?E2. Qed.

Lemma draining_status cr st I w : draining cr I w → draining (mkCluster (crMeta cr) (crSpec cr) st) I w.
Proof. intros [B Dc Se On Cl Inv Cov Po Me Sv]. by constructor. Qed.

Lemma draining_status_inv cr st I w : draining (mkCluster (crMeta cr) (crSpec cr) st) I w → draining cr I w.
Proof. intros [B Dc Se On Cl Inv Cov Po Me Sv]. by constructor. Qed.

Section Pass.
Context (cr : ValkeyCluster) (Hs : 0 < crShards cr < 2 ^ 31) (Hr : 0 ≤ crReplicas cr) (Hr32 : crReplicas cr + 1 < 2 ^ 31).
Implicit Types (I : gset Z) (k : KubeWorld) (f : gmap string NodeInfo).

Lemma shardLabels_lookup i :
  shardLabels cr i !! "app.kubernetes.io/instance" = Some (crName cr) ∧ shardLabels cr i !! LabelShard = Some (Itoa i).
Proof. split; [|apply lookup_insert_eq]. unfold shardLabels. rewrite lookup_insert_ne by done. reflexivity. Qed.

(** Ensuring the sets keeps the invariant. *)
Lemma ensure_reconciling I k f : reconciling cr I (k, f) →
  ∃ k', ensureStatefulSets cr ((k, f) : W) = Some (Ok tt, (k', f)) ∧ reconciling cr I (k', f) ∧ kCRs k' = kCRs k.
Proof.
  intros [D St Rd]. destruct (ensureStatefulSets_loop cr ((k, f) : W)) as (r & [k' f'] & E & -> & Hsame & Hin & Hout); [lia|].
  destruct Hsame as (Hf & Hcrs & _ & _ & Hpvc). simpl in *. subst f'. exists k'. split; [done|]. split; [|done].
  assert (∀ i, 0 ≤ i < crShards cr → ∃ old sts, kSets k !! setKey cr i = Some old ∧ kSets k' !! setKey cr i = Some sts ∧
    shardSet cr i sts ∧ stsReadyReplicas sts = stsReadyReplicas old) as Hdecl.
  { intros i Hi. destruct (Hin i) as (sts & Hk & He); [apply elem_of_seqZ; lia|].
    destruct (dr_sets _ _ _ D i) as (old & Ho & Hns & _); [by apply (dr_declared _ _ _ D)|]. simpl in Ho.
    exists old, sts. rewrite Ho in He. split; [done|]. split; [done|]. destruct (shardLabels_lookup i) as [L1 L2].
    split; [|apply (es_ready _ _ _ _ _ He)]. split; [rewrite (es_namespace _ _ _ _ _ He); exact Hns|].
    rewrite (es_labels _ _ _ _ _ He). done. }
  assert (∀ i, i ∈ I → crShards cr ≤ i → kSets k' !! setKey cr i = kSets k !! setKey cr i) as Hdep.
  { intros i Hi Hge. apply Hout. intros i' Hi'%elem_of_seqZ Ek. pose proof (dr_bounds _ _ _ D i Hi).
    apply setKey_inj in Ek; lia. }
  constructor.
  - destruct D as [B Dc Se On Cl Inv Cov Po Me Sv]. constructor; simpl in *; try done.
    + intros i Hi. destruct (Z.lt_ge_cases i (crShards cr)) as [Hlt|Hge].
      * destruct (Hdecl i) as (_ & sts & _ & ? & ? & _); [pose proof (B i Hi); lia|]. eauto.
      * rewrite Hdep by done. by apply Se.
    + intros key sts Hk Hns Hinst. destruct (decide (Exists (λ i, key = setKey cr i) (seqZ 0 (crShards cr)))) as [Hex|Hno].
      * apply Exists_exists in Hex as (i & Hi%elem_of_seqZ & ->). exists i. split; [apply Dc; lia|done].
      * eapply On; [|exact Hns|exact Hinst]. rewrite <- Hout; [exact Hk|]. intros i Hi ->. apply Hno, Exists_exists. eauto.
    + intros m i. rewrite Hpvc. apply Cl.
  - destruct St as [st Hst]. exists st. simpl. by rewrite Hcrs.
  - intros i Hi. destruct (Hdecl i Hi) as (old & sts & Ho & Hk & _ & Hrd). simpl. rewrite Hk. simpl. rewrite Hrd.
    specialize (Rd i Hi). simpl in Rd. by rewrite Ho in Rd.
Qed.

Lemma shardsReady_reconciling I k f : reconciling cr I (k, f) → shardsReady cr ((k, f) : W) = Some (Ok true, (k, f)).
Proof.
  intros R. unfold shardsReady. rewrite wrap32_id by (unfold in_int32; lia).
  assert (∀ i, i ∈ seqZ 0 (crShards cr) → 0 ≤ i < crShards cr) as Hb by (intros i Hi%elem_of_seqZ; lia).
  induction (seqZ 0 (crShards cr)) as [|i l IH]; [done|]. cbn [shardsReadyFrom]. unfold bind. simpl.
  unfold kread, keyOf. simpl. fold (setKey cr i). pose proof (rc_ready _ _ _ R i (Hb i (list_elem_of_here _ _))) as Hrd.
  simpl in Hrd. destruct (kSets k !! setKey cr i) as [sts|]; [|done]. simpl in *. injection Hrd as ->.
  rewrite Z.eqb_refl. simpl. apply IH. intros i' Hi'. apply Hb. by right.
Qed.

(** A departing shard makes the plan a scale-in. *)
Lemma choosePlan_departing I k f : draining cr I (k, f) → (∃ i, i ∈ I ∧ crShards cr ≤ i) →
  choosePlan cr (summarize (Fake.view f)) ((k, f) : W) = Some (Ok (planOf ActionScaleInShards), (k, f)).
Proof.
  intros D (i & Hi & Hge). destruct (existing_draining cr I k f D) as (idxs & E & _ & Hin).
  assert (Kind (Decide (desiredOf cr) (summarize (Fake.view f))) ≠ ActionForm ∧
          Kind (Decide (desiredOf cr) (summarize (Fake.view f))) ≠ ActionScaleOutShards) as [N1 N2].
  { rewrite summarize_spec.
    pose proof (dr_covered _ _ _ D) as Hc. simpl in Hc.
    assert (csFormed (Fake.view f) = true) as ->.
    { simpl. rewrite Hc. apply andb_true_iff. split; [|done].
      destruct (Nat.eqb_spec (size f) 0) as [E0|]; [|done]. apply map_size_empty_inv in E0 as ->.
      by rewrite assigned_empty in Hc. }
    destruct (owners_count cr ltac:(lia) ltac:(lia) I k f D) as [HP _]. unfold Decide. simpl oFormed. simpl oPrimaryCount.
    cbn [negb]. cbv iota. destruct (negb _); [done|]. rewrite (proj2 (Z.ltb_ge _ _)) by exact HP.
    by repeat (case_match; try done). }
  unfold choosePlan. rewrite !bool_decide_eq_false_2 by done. cbn [negb andb]. cbv iota.
  unfold hasExcessShardStatefulSets, bindE, bind. rewrite E. cbv iota. unfold ret.
  assert (existsb (λ i, crShards cr <=? i) idxs = true) as ->; [|done].
  apply existsb_exists. exists i. by rewrite <- list_elem_of_In, Hin, Z.leb_le.
Qed.

Lemma reconciling_ext I k k' f : reconciling cr I (k, f) → kSets k' = kSets k → kPVCs k' = kPVCs k → storedCR cr k' →
  reconciling cr I (k', f).
Proof.
  intros [D St Rd] E1 E2 St'. constructor; [by eapply draining_ext|done|]. intros i Hi. simpl. rewrite E1. by apply Rd.
Qed.

(** The objects that carry no state of the scale-in. *)
Lemma ensure_objects I k f (m : M W (result unit)) : m = ensureConfigMap cr ∨ m = ensureHeadlessService cr →
  reconciling cr I (k, f) → ∃ k', m (k, f) = Some (Ok tt, (k', f)) ∧ reconciling cr I (k', f) ∧ kCRs k' = kCRs k.
Proof.
  intros [-> | ->] R; (eexists; split; [reflexivity|]; split; [|done]);
    (apply (reconciling_ext I k); [done..|]; apply (rc_stored _ _ _ R)).
Qed.

(** When the last departing shard is gone, the cluster serves as declared. *)
Lemma drained_serving I k f : draining cr I (k, f) → (∀ i, i ∈ I → i < crShards cr) → serving cr (Fake.view f).
Proof.
  intros D Hall. split_and!.
  - intros i Hi. destruct (dr_serving _ _ _ D i Hi) as (j & [Hj Hc] & _). simpl in Hc.
    destruct (dr_pods _ _ _ D i j (dr_declared _ _ _ D i Hi) Hj) as [n Hn]. simpl in Hn.
    exists j, n. split; [done|]. split; [|by apply (owns_countAt f _ n (dr_inv _ _ _ D) Hn)].
    rewrite hostIndex_view by apply (dr_inv _ _ _ D). done.
  - destruct (owners_count cr ltac:(lia) ltac:(lia) I k f D) as [_ H]. by apply H.
  - simpl. pose proof (dr_covered _ _ _ D) as Hc. simpl in Hc. by rewrite Hc.
  - done.
Qed.

(** What one pass makes of the shards that have sets. *)
Definition progressed (I I' : gset Z) (w w' : W) : Prop :=
  reconciling cr I' w' ∧
  if decide (drains cr I w.2 = 0)
  then (∀ i, i ∈ I' → i < crShards cr) ∧
       ∃ st, kCRs w'.1 !! metaKey (crMeta cr) = Some (mkCluster (crMeta cr) (crSpec cr) st) ∧ stPhase st = PhaseReady
  else drains cr I' w'.2 = drains cr I w.2 - 1 ∧ ∃ i, i ∈ I' ∧ crShards cr ≤ i.

Lemma reconcileCluster_pass I k f : reconciling cr I (k, f) → (∃ i, i ∈ I ∧ crShards cr ≤ i) →
  ∃ I' k' f', reconcileCluster cr ((k, f) : W) = Some (Ok true, (k', f')) ∧ progressed I I' (k, f) (k', f').
Proof.
  intros R Hd. destruct (rc_stored _ _ _ R) as [st0 Hst]. simpl in Hst.
  destruct (setPhase_stored cr k f st0 Hst PhaseResharding "Resharding" "removing shards") as (k1 & st1 & E1 & Hw1 & Hs1 & Hp1).
  assert (reconciling cr I (k1, f)) as R1 by (eapply reconciling_ext; [done..|by exists st1]).
  destruct (scaleIn_draining cr ltac:(lia) ltac:(lia) I k1 f (rc_draining _ _ _ R1))
    as (I' & k2 & f2 & E2 & D2 & [Hc2 Hs2] & HI & Hdr).
  rewrite <- Hc2 in Hw1.
  destruct (updateStatus_stored cr k2 f2 st1 Hw1 (Fake.view f2)) as (k3 & st3 & E3 & (Hw3 & Hs3 & Hp3) & Hph).
  exists I', k3, f2. split.
  { unfold reconcileCluster, bindE at 1, bind at 1, wrapE, bind at 1. rewrite State_view. unfold ret at 1.
    unfold bindE at 1, bind at 1. rewrite (choosePlan_departing I k f) by (done || apply R).
    unfold bindE at 1, bind at 1, actOn. cbn [Kind planOf]. unfold bind at 1. rewrite E1, E2.
    unfold bindE at 1, bind at 1. unfold bind at 1. rewrite State_view. unfold ret at 1.
    unfold bindE, bind. by rewrite E3. }
  split.
  - assert (reconciling cr I' (k2, f2)) as R2.
    { constructor; [done|by exists st1|]. intros i Hi. simpl. rewrite Hs2 by done. by apply (rc_ready _ _ _ R1). }
    eapply reconciling_ext; [done..|]. by exists st3.
  - simpl. case_decide; [|done]. destruct Hdr as [_ Hall]. split; [done|]. exists st3. split; [done|].
    apply Hph. by apply (drained_serving I' k2).
Qed.

Lemma reconcileLive_pass I k f : reconciling cr I (k, f) → (∃ i, i ∈ I ∧ crShards cr ≤ i) →
  ∃ I' k' f', reconcileLive cr ((k, f) : W) = Some (Ok reshardRequeue, (k', f')) ∧ progressed I I' (k, f) (k', f').
Proof.
  intros R Hd. destruct (ensure_objects I k f _ (or_introl eq_refl) R) as (k1 & E1 & R1 & _).
  destruct (ensure_objects I k1 f _ (or_intror eq_refl) R1) as (k2 & E2 & R2 & _).
  destruct (ensure_reconciling I k2 f R2) as (k3 & E3 & R3 & _).
  destruct (reconcileCluster_pass I k3 f R3 Hd) as (I' & k' & f' & E4 & Hp).
  exists I', k', f'. split; [|done]. unfold reconcileLive, bindE, bind. rewrite E1, E2, E3, (shardsReady_reconciling I k3 f R3).
  cbn [negb]. cbv beta. by rewrite E4.
Qed.
End Pass.

(** ** Passes, one after the other *)

(** [n] reconciles of one key, each requeued by the one before; the last
    result. *)
Fixpoint passes (n : nat) (req : NamespacedName) (r0 : result Z) : M W (result Z) :=
  match n with
  | O => ret r0
  | S n' => r <- Reconcile req ;; passes n' req r
  end.

Section Passes.
Context (cr : ValkeyCluster) (Hs : 0 < crShards cr < 2 ^ 31) (Hr : 0 ≤ crReplicas cr) (Hr32 : crReplicas cr + 1 < 2 ^ 31).
Context (Halive : mDeletionTimestamp (crMeta cr) = None) (Hfin : finalizer ∈ mFinalizers (crMeta cr)).

Lemma reconciling_status st I w : reconciling cr I w ↔ reconciling (mkCluster (crMeta cr) (crSpec cr) st) I w.
Proof.
  split; intros [D St Rd]; constructor; [by apply draining_status| | |by eapply draining_status_inv| |]; done.
Qed.

Lemma Reconcile_pass I w : reconciling cr I w → (∃ i, i ∈ I ∧ crShards cr ≤ i) →
  ∃ I' w', Reconcile (crKey cr) w = Some (Ok reshardRequeue, w') ∧ progressed cr I I' w w'.
Proof.
  destruct w as [k f]. intros R Hd. destruct (rc_stored _ _ _ R) as [st Hst]. simpl in Hst.
  set (cur := mkCluster (crMeta cr) (crSpec cr) st).
  destruct (reconcileLive_pass cur Hs Hr Hr32 I k f) as (I' & k' & f' & E & Hp & Hdr); [by apply (reconciling_status st)|done|].
  exists I', (k', f'). split; [|split; [by apply (reconciling_status st)|exact Hdr]].
  unfold Reconcile, bind. rewrite (getCR_stored cr k f st Hst). cbn [crMeta]. rewrite Halive.
  assert (containsFinalizer (W := W) (mkCluster (crMeta cr) (crSpec cr) st) finalizer = true) as ->; [|exact E].
  by apply bool_decide_eq_true.
Qed.

Lemma passes_converge n I w r0 : reconciling cr I w → (∃ i, i ∈ I ∧ crShards cr ≤ i) → drains cr I w.2 = Z.of_nat n →
  ∃ I' w', passes (S n) (crKey cr) r0 w = Some (Ok reshardRequeue, w') ∧ reconciling cr I' w' ∧ (∀ i, i ∈ I' → i < crShards cr) ∧
    ∃ st, kCRs w'.1 !! metaKey (crMeta cr) = Some (mkCluster (crMeta cr) (crSpec cr) st) ∧ stPhase st = PhaseReady.
Proof.
  revert I w r0. induction n as [|n IH]; intros I w r0 R Hd Hn;
    destruct (Reconcile_pass I w R Hd) as (I' & w' & E & R' & Hp); cbn [passes] in *; unfold bind at 1; rewrite E;
    case_decide as Hz; try lia.
  - destruct Hp. by exists I', w'.
  - destruct Hp as [Hdr Hd']. apply (IH I'); [done..|lia].
Qed.
End Passes.

(** C7: scale-in converges, and in a known number of passes.  Take a cluster
    in which shards beyond [spec.shards] still have StatefulSets, whose
    declared pods are ready and whose keyspace is covered.  After one
    [Reconcile] per batch of [drainBatchSlots] that the departing pods still
    own, and one more, no StatefulSet, volume claim or member of a departing
    shard is left, every pod of the declared shards is still a member, all
    slots are assigned and the published phase is Ready.  Every pass succeeds
    and asks for the next one. *)
Theorem scale_in_converges (cr : ValkeyCluster) (I : gset Z) (k : KubeWorld) (f : gmap string NodeInfo) (r0 : result Z) :
  0 < crShards cr < 2 ^ 31 → 0 ≤ crReplicas cr → crReplicas cr + 1 < 2 ^ 31 →
  mDeletionTimestamp (crMeta cr) = None → finalizer ∈ mFinalizers (crMeta cr) →
  reconciling cr I (k, f) → (∃ i, i ∈ I ∧ crShards cr ≤ i) →
  ∃ k' f', passes (S (Z.to_nat (drains cr I f))) (crKey cr) r0 (k, f) = Some (Ok reshardRequeue, (k', f')) ∧
    (∀ key sts, kSets k' !! key = Some sts → mNamespace (stsMeta sts) = crNamespace cr →
       mLabels (stsMeta sts) !! "app.kubernetes.io/instance" = Some (crName cr) →
       ∃ i, 0 ≤ i < crShards cr ∧ key = setKey cr i) ∧
    (∀ m i, m ∈ kPVCs k' → ownedPVC cr m = true → 0 ≤ i < 2 ^ 31 → mLabels m !! LabelShard = Some (Itoa i) → i < crShards cr) ∧
    (∀ h, is_Some (f' !! h) ↔ ∃ i j, 0 ≤ i < crShards cr ∧ 0 ≤ j ≤ crReplicas cr ∧ h = PodFQDN cr i j) ∧
    Fake.assignedSlots f' = TotalSlots ∧
    ∃ st, kCRs k' !! metaKey (crMeta cr) = Some (mkCluster (crMeta cr) (crSpec cr) st) ∧ stPhase st = PhaseReady.
Proof.
  intros Hs Hr Hr32 Ha Hf R Hd.
  destruct (passes_converge cr Hs Hr Hr32 Ha Hf (Z.to_nat (drains cr I f)) I (k, f) r0 R Hd)
    as (I' & [k' f'] & E & [D _ _] & Hall & Hst).
  { pose proof (drains_nonneg cr I f (dr_inv _ _ _ (rc_draining _ _ _ R))). simpl. lia. }
  exists k', f'. split; [exact E|]. destruct D as [B Dc Se On Cl Inv Cov Po Me Sv]. simpl in *. split_and!; [..|done|done].
  - intros key sts H1 H2 H3. destruct (On key sts H1 H2 H3) as (i & Hi & ->). exists i. split; [|done].
    pose proof (B i Hi). specialize (Hall i Hi). lia.
  - intros m i Hm Ho Hi Hl. by eapply Hall, Cl.
  - intros h. split; [|intros (i & j & Hi & Hj & ->); apply Po; [by apply Dc|done]].
    intros (i & j & Hi & Hj & ->)%Me. exists i, j. pose proof (B i Hi). specialize (Hall i Hi). split; [lia|done].
Qed.

(** A cluster that went from two shards to one: the second shard owns half of
    the slots. *)
Definition shrunkCR : ValkeyCluster := mkCluster (set_mFinalizers [finalizer] (crMeta soloCR)) (crSpec soloCR) (crStatus soloCR).
Definition readySet (i : Z) : StatefulSetObj :=
  let s := StatefulSet (λ s, s) shrunkCR i in
  mkStatefulSet (stsMeta s) (stsServiceName s) (stsReplicas s) (stsPodManagement s) (stsSelector s) (stsTemplate s)
    (stsClaims s) 1.
Definition shrunkKube : KubeWorld :=
  mkKube (<[metaKey (crMeta shrunkCR) := shrunkCR]> ∅) ∅ ∅
    (<[setKey shrunkCR 1 := readySet 1]> (<[setKey shrunkCR 0 := readySet 0]> ∅)) [pvc1] 0.

Lemma shrunk_reconciling : reconciling shrunkCR {[0; 1]} (shrunkKube, pairNodes).
Proof.
  assert (∀ i : Z, i ∈ ({[0; 1]} : gset Z) ↔ i = 0 ∨ i = 1) as HI by set_solver.
  assert (∀ j, 0 ≤ j ≤ crReplicas shrunkCR → j = 0) as Hj0
    by (intros j; change (crReplicas shrunkCR) with 0; lia).
  constructor; [constructor|by eexists|]; simpl.
  - intros i [-> | ->]%HI; lia.
  - intros i Hi. change (crShards shrunkCR) with 1 in Hi. apply HI. lia.
  - intros i [-> | ->]%HI; [exists (readySet 0); rewrite lookup_insert_ne by done|exists (readySet 1)];
      (split; [apply lookup_insert_eq|]; split; [done|apply shardLabels_lookup]).
  - intros key sts [[<- _]|[_ [[<- _]|[_ ?]]%lookup_insert_Some]]%lookup_insert_Some _ _; [exists 1|exists 0|done]; set_solver.
  - intros m i ->%list_elem_of_singleton _ Hi Hl. unfold pvc1 in Hl. cbn [mLabels set_mLabels] in Hl.
    rewrite lookup_insert_eq in Hl. injection Hl as Hl. change "1" with (Itoa 1) in Hl. apply HI. right.
    apply Itoa_inj; [..|symmetry; exact Hl]; unfold in_int64; lia.
  - apply map_Forall_insert_2; [by constructor|]. apply map_Forall_insert_2; [by constructor|]. apply map_Forall_empty.
  - vm_compute. reflexivity.
  - intros i j [-> | ->]%HI ->%Hj0; eexists; vm_compute; reflexivity.
  - intros h [n Hn]. unfold pairNodes in Hn. apply lookup_insert_Some in Hn as [[<- _]|[_ [[<- _]|[_ ?]]%lookup_insert_Some]];
      [exists 1, 0|exists 0, 0|done]; by split_and!; [set_solver|..].
  - intros i Hi. change (crShards shrunkCR) with 1 in Hi. assert (i = 0) as -> by lia. exists 0.
    split; [by vm_compute|]. intros j [Hj%Hj0 _]. done.
  - intros i Hi. change (crShards shrunkCR) with 1 in Hi. assert (i = 0) as -> by lia. vm_compute. reflexivity.
Qed.

Lemma scale_in_converges_witness :
  drains shrunkCR {[0; 1]} pairNodes = 8 ∧
  ∃ k' f', passes 9 (crKey shrunkCR) (Ok 0) (shrunkKube, pairNodes) = Some (Ok reshardRequeue, (k', f')) ∧
    (∀ h, is_Some (f' !! h) ↔ ∃ i j, 0 ≤ i < 1 ∧ 0 ≤ j ≤ 0 ∧ h = PodFQDN shrunkCR i j).
Proof.
  split; [vm_compute; reflexivity|].
  destruct (scale_in_converges shrunkCR {[0; 1]} shrunkKube pairNodes (Ok 0)) as (k' & f' & E & _ & _ & Hm & _).
  - by vm_compute.
  - by vm_compute.
  - by vm_compute.
  - reflexivity.
  - left.
  - apply shrunk_reconciling.
  - exists 1. split; [set_solver|]. by vm_compute.
  - exists k', f'. split; [exact E|exact Hm].
Defined.
