(* ===== verification/Passes.v ===== *)
(** * One pass, step by step

    A pass of [Reconcile] next to the in-memory server is: ensure the owned
    objects, wait for the pods, or act once on the cluster and publish the
    status.  The lemmas of this file take a whole pass to the one action it
    runs, so that a client has to reason about this action only. *)

From S2P Require Import Prelude GoStrings Cluster Slots Topology API ResourceBuilders.
From S2P Require Import ResourceProofs Platform Controller Reconcile Fake FakeProofs TestBed.
From S2P Require Import StatusProofs ScaleInProofs Lifecycle Formation SteadyState SlotMover ScaleOutProofs Drain.
From S2P Require Import Converge.
Local Open Scope string_scope.
Local Open Scope list_scope.
Local Open Scope Z_scope.

Local Abbreviation W := (KubeWorld * gmap string NodeInfo)%type.

(** ** What a pass does to the server *)

(** The same sets and claims: a write of the status, the config map or the
    service. *)
Definition sameShape : relation KubeWorld := λ k k', kSets k' = kSets k ∧ kPVCs k' = kPVCs k.

#[export] Instance sameShape_preorder : PreOrder sameShape.
Proof. split; [done|]. intros k1 k2 k3 [E1 E2] [E3 E4]. split; congruence. Qed.

Lemma statusWritten_shape cr k k' st : statusWritten cr k k' st → sameShape k k'.
Proof. by intros (_ & ? & ?). Qed.

(** The declared sets are there, with the readiness they had; no other set and
    no claim is touched. *)
Record ensuredKube (cr : ValkeyCluster) (k k' : KubeWorld) : Prop := {
  ek_crs : kCRs k' = kCRs k;
  ek_claims : kPVCs k' = kPVCs k;
  ek_declared i : 0 ≤ i < crShards cr → ∃ sts, kSets k' !! setKey cr i = Some sts ∧
    ensuredSet (sum256 (W := W)) cr i (kSets k !! setKey cr i) sts;
  ek_other key : (∀ i, 0 ≤ i < crShards cr → key ≠ setKey cr i) → kSets k' !! key = kSets k !! key
}.

(** Every pod of the declared shards is ready. *)
Definition podsReady (cr : ValkeyCluster) (k : KubeWorld) : Prop :=
  ∀ i, 0 ≤ i < crShards cr → stsReadyReplicas <$> (kSets k !! setKey cr i) = Some (1 + crReplicas cr).

Lemma podsReady_shape cr k k' : sameShape k k' → podsReady cr k → podsReady cr k'.
Proof. intros [E _] H i Hi. rewrite E. by apply H. Qed.

Lemma podsReady_ensured cr k k' : ensuredKube cr k k' → podsReady cr k → podsReady cr k'.
Proof.
  intros E H i Hi. destruct (ek_declared _ _ _ E i Hi) as (sts & -> & He). simpl.
  rewrite (es_ready _ _ _ _ _ He). specialize (H i Hi). destruct (kSets k !! setKey cr i); [|done].
  simpl in *. by injection H as ->.
Qed.

(** A set that is ensured is the set of its shard, if it was not in another
    namespace. *)
Lemma ensuredSet_shardSet sum cr i old sts : ensuredSet sum cr i old sts →
  (∀ o, old = Some o → mNamespace (stsMeta o) = crNamespace cr) → shardSet cr i sts.
Proof.
  intros He Hns. destruct (shardLabels_lookup cr i) as [L1 L2]. split; [|rewrite (es_labels _ _ _ _ _ He); done].
  rewrite (es_namespace _ _ _ _ _ He). destruct old as [o|]; [|done]. by apply Hns.
Qed.

Section Gate.
Context (cr : ValkeyCluster) (Hs : 0 < crShards cr < 2 ^ 31) (Hr : 0 ≤ crReplicas cr) (Hr32 : crReplicas cr + 1 < 2 ^ 31).
Implicit Types (k : KubeWorld) (f : gmap string NodeInfo).

Lemma ensure_steps k f : ∃ k1 k2 k', ensureConfigMap cr ((k, f) : W) = Some (Ok tt, (k1, f)) ∧
  ensureHeadlessService cr ((k1, f) : W) = Some (Ok tt, (k2, f)) ∧ ensureStatefulSets cr ((k2, f) : W) = Some (Ok tt, (k', f)) ∧
  kConfigMaps k' = kConfigMaps k1 ∧ kServices k' = kServices k2 ∧ ensuredKube cr k k'.
Proof.
  set (k1 := (worldAfter (ensureConfigMap cr) ((k, f) : W)).1).
  set (k2 := (worldAfter (ensureHeadlessService cr) ((k1, f) : W)).1).
  destruct (ensureStatefulSets_loop cr ((k2, f) : W)) as (r & [k' f'] & E & -> & Hsame & Hin & Hout); [lia|].
  destruct Hsame as (Hf & Hcrs & Hcm & Hsv & Hpvc). cbn [fst snd] in *. subst f'. exists k1, k2, k'. do 5 (split; [done|]).
  constructor; [by rewrite Hcrs|by rewrite Hpvc| |].
  - intros i Hi. apply Hin, elem_of_seqZ. lia.
  - intros key Hk. apply Hout. intros i Hi%elem_of_seqZ. apply Hk. lia.
Qed.

Lemma ensures k f : ∃ k', ensuredKube cr k k' ∧
  reconcileLive cr ((k, f) : W) = (ready <-? shardsReady cr ;;
    if negb ready then
      _ <- setPhase cr PhaseProvisioning "Provisioning" "waiting for shard pods" ;;
      ret (Ok requeueAfter)
    else
      r <- reconcileCluster cr ;;
      match r with
      | Err _ => ret (Ok requeueAfter)
      | Ok progressing => ret (Ok (if progressing : bool then reshardRequeue else requeueAfter))
      end) ((k', f) : W).
Proof.
  destruct (ensure_steps k f) as (k1 & k2 & k' & E1 & E2 & E3 & _ & _ & He). exists k'. split; [done|].
  unfold reconcileLive, bindE at 1, bind at 1. rewrite E1. cbv iota. unfold bindE at 1, bind at 1. rewrite E2.
  cbv iota. unfold bindE at 1, bind at 1. by rewrite E3.
Qed.

Lemma shardsReady_decides k f : ∃ b, shardsReady cr ((k, f) : W) = Some (Ok b, (k, f)) ∧ (b = true ↔ podsReady cr k).
Proof.
  destruct (decide (Forall (λ i, stsReadyReplicas <$> (kSets k !! setKey cr i) = Some (1 + crReplicas cr)) (seqZ 0 (crShards cr))))
    as [Hall|Hno]; unfold shardsReady; rewrite wrap32_id by (unfold in_int32; lia).
  - exists true. rewrite Forall_forall in Hall. split; [|split; [|done]; intros _ i Hi; apply Hall, elem_of_seqZ; lia].
    induction (seqZ 0 (crShards cr)) as [|i l IH]; [done|]. cbn [shardsReadyFrom]. unfold bind. simpl.
    unfold kread, keyOf. simpl. fold (setKey cr i). pose proof (Hall i (list_elem_of_here _ _)) as Hrd.
    destruct (kSets k !! setKey cr i) as [sts|]; [|done]. simpl in *. injection Hrd as ->. rewrite Z.eqb_refl. simpl.
    apply IH. intros i' Hi'. apply Hall. by right.
  - exists false. apply not_Forall_Exists in Hno; [|intros x; apply _]. apply Exists_exists in Hno as (i & Hi & Hne).
    destruct (shardsReady_gate cr (1 + crReplicas cr) (seqZ 0 (crShards cr)) i ((k, f) : W) Hi Hne) as (r & w' & E & -> & ->).
    split; [exact E|]. split; [done|]. intros H. exfalso. apply Hne, H. apply elem_of_seqZ in Hi. lia.
Qed.
End Gate.

(** ** The action of a pass *)

(** [actOn] without the announcement of the phase. *)
Definition action {W} `{!Platform W} `{!ClusterAdmin W} (cr : ValkeyCluster) (state : ClusterState) (observed : Observed)
    (kind : ActionKind) : M W (result unit) :=
  match kind with
  | ActionForm => formCluster cr
  | ActionRepair => _ <- RepairSlots (seed cr) ;; ret (Ok tt)
  | ActionScaleOutShards => scaleOut cr (oPrimaryCount observed)
  | ActionScaleInShards => scaleIn cr
  | ActionScaleReplicas | ActionNone => reconcileMembership cr state
  end.

(** What an action does to the world, whatever the status says at the time. *)
Definition acts (cr : ValkeyCluster) (kind : ActionKind) (k : KubeWorld) (f : gmap string NodeInfo)
    (Q : KubeWorld → gmap string NodeInfo → Prop) : Prop :=
  ∀ k1, sameShape k k1 → ∃ k2 f2, action cr (Fake.view f) (summarize (Fake.view f)) kind ((k1, f) : W) = Some (Ok tt, (k2, f2)) ∧
    kCRs k2 = kCRs k1 ∧ ∀ k3, sameShape k2 k3 → Q k3 f2.

(** The resource as the server holds it after a status write. *)
Definition publishedAs (cr : ValkeyCluster) (k : KubeWorld) (f : gmap string NodeInfo) : Prop :=
  ∃ st, kCRs k !! metaKey (crMeta cr) = Some (mkCluster (crMeta cr) (crSpec cr) st) ∧
    (stPhase st = PhaseReady ↔ serving cr (Fake.view f)).

Section Act.
Context (cr : ValkeyCluster).
Implicit Types (k : KubeWorld) (f : gmap string NodeInfo).

Lemma actOn_action k f kind n m d Q : storedCR cr k → acts cr kind k f Q →
  ∃ k2 f2, actOn cr (Fake.view f) (summarize (Fake.view f)) (mkPlan kind n m d) ((k, f) : W) = Some (Ok tt, (k2, f2)) ∧
    storedCR cr k2 ∧ ∀ k3, sameShape k2 k3 → Q k3 f2.
Proof.
  intros [st Hst] Ha.
  assert (∀ p re ms, ∃ k2 f2, (_ <- setPhase cr p re ms ;; action cr (Fake.view f) (summarize (Fake.view f)) kind) ((k, f) : W) =
    Some (Ok tt, (k2, f2)) ∧ storedCR cr k2 ∧ ∀ k3, sameShape k2 k3 → Q k3 f2) as Hannounced.
  { intros p re ms. destruct (setPhase_stored cr k f st Hst p re ms) as (k1 & st1 & E & Hw).
    destruct (Ha k1 (statusWritten_shape _ _ _ _ Hw)) as (k2 & f2 & E2 & Hc & HQ). exists k2, f2. unfold bind. rewrite E.
    split; [exact E2|]. split; [|done]. exists st1. rewrite Hc. apply Hw. }
  destruct kind; try (by apply Hannounced). destruct (Ha k) as (k2 & f2 & E2 & Hc & HQ); [done|].
  exists k2, f2. split; [exact E2|]. split; [|done]. exists st. by rewrite Hc.
Qed.

Lemma reconcileCluster_acts k f p Q : storedCR cr k → choosePlan cr (summarize (Fake.view f)) ((k, f) : W) = Some (Ok p, (k, f)) →
  acts cr (Kind p) k f Q →
  ∃ k2 f2, reconcileCluster cr ((k, f) : W) = Some (Ok (isProgressing (Kind p)), (k2, f2)) ∧ Q k2 f2 ∧ publishedAs cr k2 f2.
Proof.
  intros Hst Ep Ha. destruct p as [kind n m d]. destruct (actOn_action k f kind n m d Q Hst Ha) as (k2 & f2 & E & [st2 Hst2] & HQ).
  destruct (updateStatus_stored cr k2 f2 st2 Hst2 (Fake.view f2)) as (k3 & st3 & E3 & Hw & Hph).
  exists k3, f2. split; [|split; [apply HQ; by eapply statusWritten_shape|]; exists st3; by split; [apply Hw|]].
  unfold reconcileCluster, bindE at 1, bind at 1, wrapE, bind at 1. rewrite State_view. unfold ret at 1.
  unfold bindE at 1, bind at 1. rewrite Ep. unfold bindE at 1, bind at 1. rewrite E.
  unfold bindE at 1, bind at 1. unfold bind at 1. rewrite State_view. unfold ret at 1. unfold bindE, bind. by rewrite E3.
Qed.

(** The plan of a pass: the server never refuses to list the sets. *)
Lemma existing_server k f : ∃ idxs, existingShardIndexes cr ((k, f) : W) = Some (Ok idxs, (k, f)).
Proof. by eexists. Qed.

Lemma choosePlan_server k f o : ∃ p, choosePlan cr o ((k, f) : W) = Some (Ok p, (k, f)) ∧
  (p = Decide (desiredOf cr) o ∨
   (p = planOf ActionScaleInShards ∧ ∃ idxs i, existingShardIndexes cr ((k, f) : W) = Some (Ok idxs, (k, f)) ∧ i ∈ idxs ∧ crShards cr ≤ i)).
Proof.
  unfold choosePlan. destruct (_ && _); [|eexists; split; [done|by left]].
  destruct (existing_server k f) as [idxs E]. unfold hasExcessShardStatefulSets, bindE, bind. rewrite E. cbv iota. unfold ret.
  eexists. split; [done|]. destruct (existsb _ idxs) eqn:Ex; [|by left]. right. split; [done|].
  apply existsb_exists in Ex as (i & Hi%list_elem_of_In & Hle%Z.leb_le). by exists idxs, i.
Qed.
End Act.

(** ** The plan for a covered cluster *)

(** The nodes that own slots, as the planner counts them. *)
Definition ownerCount (f : gmap string NodeInfo) : Z :=
  Z.of_nat (length (List.filter ownsSlots (csNodes (Fake.view f)))).

Lemma summarize_covered f : Fake.assignedSlots f = TotalSlots →
  summarize (Fake.view f) = mkObserved true true (ownerCount f)
    (map (λ n, replicasOf (Fake.view f) (nID n)) (List.filter ownsSlots (csNodes (Fake.view f)))).
Proof.
  intros Hc. assert (csSlotsCovered (Fake.view f) = true) as Hcov by (simpl; by rewrite Hc).
  by rewrite summarize_spec, Hcov, (covered_formed (mkEndpoint "" 0 "" "") f (Fake.view f) f).
Qed.

(** Too few owners: the plan is to add shards, whatever sets there are. *)
Lemma plan_scaleOut cr f k : Fake.assignedSlots f = TotalSlots → ownerCount f < crShards cr →
  ∃ n, choosePlan cr (summarize (Fake.view f)) ((k, f) : W) = Some (Ok (mkPlan ActionScaleOutShards n 0 0), (k, f)) ∧
    oPrimaryCount (summarize (Fake.view f)) = ownerCount f.
Proof.
  intros Hc Hlt. rewrite summarize_covered by done. exists (wrap64 (crShards cr - ownerCount f)). split; [|done].
  unfold choosePlan, Decide. cbn [oFormed oSlotsCovered oPrimaryCount desiredOf dShards negb]. cbv iota.
  by rewrite (proj2 (Z.ltb_lt _ _) Hlt).
Qed.

(** ** The whole pass *)

Lemma cluster_eta cr : mkCluster (crMeta cr) (crSpec cr) (crStatus cr) = cr.
Proof. by destruct cr. Qed.

Section Whole.
Context (cr : ValkeyCluster) (Hs : 0 < crShards cr < 2 ^ 31) (Hr : 0 ≤ crReplicas cr) (Hr32 : crReplicas cr + 1 < 2 ^ 31).
Context (Halive : mDeletionTimestamp (crMeta cr) = None) (Hfin : finalizer ∈ mFinalizers (crMeta cr)).
Implicit Types (k : KubeWorld) (f : gmap string NodeInfo).

Lemma Reconcile_live k f : kCRs k !! metaKey (crMeta cr) = Some cr →
  Reconcile (crKey cr) ((k, f) : W) = reconcileLive cr ((k, f) : W).
Proof using Halive Hfin.
  intros Hst. pose proof (getCR_stored cr k f (crStatus cr)) as Hget. rewrite cluster_eta in Hget. unfold Reconcile, bind. rewrite (Hget Hst), Halive.
  assert (containsFinalizer (W := W) cr finalizer = true) as ->; [|done]. by apply bool_decide_eq_true.
Qed.

(** Either some pod is not ready, and only the server is written, or the pass
    runs the action it plans and publishes what it sees afterwards. *)
Lemma Reconcile_acts k f : kCRs k !! metaKey (crMeta cr) = Some cr →
  ∃ k1, ensuredKube cr k k1 ∧
    if decide (Forall (λ i, stsReadyReplicas <$> (kSets k !! setKey cr i) = Some (1 + crReplicas cr)) (seqZ 0 (crShards cr)))
    then ∀ p Q, choosePlan cr (summarize (Fake.view f)) ((k1, f) : W) = Some (Ok p, (k1, f)) → acts cr (Kind p) k1 f Q →
      ∃ k2 f2, Reconcile (crKey cr) ((k, f) : W) =
          Some (Ok (if isProgressing (Kind p) then reshardRequeue else requeueAfter), (k2, f2)) ∧
        Q k2 f2 ∧ publishedAs cr k2 f2
    else ∃ k2, Reconcile (crKey cr) ((k, f) : W) = Some (Ok requeueAfter, (k2, f)) ∧ sameShape k1 k2 ∧ storedCR cr k2.
Proof.
  intros Hst. rewrite (Reconcile_live k f Hst). destruct (ensures cr ltac:(lia) k f) as (k1 & He & ->).
  exists k1. split; [done|].
  assert (storedCR cr k1) as Hst1 by (exists (crStatus cr); rewrite (ek_crs _ _ _ He), Hst; by destruct cr).
  destruct (shardsReady_decides cr Hr Hr32 k1 f) as (b & Eb & Hb).
  case_decide as Hrd; rewrite Forall_forall in Hrd.
  - assert (b = true) as ->.
    { apply Hb, (podsReady_ensured cr k); [done|]. intros i Hi. apply Hrd, elem_of_seqZ. lia. }
    intros p Q Ep Ha. destruct (reconcileCluster_acts cr k1 f p Q Hst1 Ep Ha) as (k2 & f2 & E2 & HQ & Hp).
    exists k2, f2. split; [|done]. unfold bindE at 1, bind at 1. rewrite Eb. cbn [negb]. cbv iota beta. unfold bind. rewrite E2. by destruct (isProgressing _).
  - destruct b.
    { exfalso. apply Hrd. intros i Hi%elem_of_seqZ. destruct (ek_declared _ _ _ He i) as (sts & Hk & Hes); [lia|].
      pose proof (proj1 Hb eq_refl i ltac:(lia)) as H. rewrite Hk in H. simpl in H. rewrite (es_ready _ _ _ _ _ Hes) in H.
      destruct (kSets k !! setKey cr i) as [o|]; [done|]. simpl in H. injection H as H. lia. }
    destruct Hst1 as [st1 Hst1]. destruct (setPhase_stored cr k1 f st1 Hst1 PhaseProvisioning "Provisioning" "waiting for shard pods")
      as (k2 & st2 & E2 & Hw).
    exists k2. unfold bindE at 1, bind at 1. rewrite Eb. cbn [negb]. cbv iota beta. unfold bind. rewrite E2. split; [done|].
    split; [by eapply statusWritten_shape|]. exists st2. apply Hw.
Qed.
End Whole.

(** ** The world around the operator *)

(** A user edits the spec; [editSize] is an edit of the size alone. *)
Definition respec (spec : ValkeyClusterSpec) (cr : ValkeyCluster) : ValkeyCluster :=
  let m := crMeta cr in
  mkCluster
    (mkMeta (mName m) (mNamespace m) (mLabels m) (mFinalizers m) (mOwners m) (mGeneration m + 1)
       (mResourceVersion m) (mCreationTimestamp m) (mDeletionTimestamp m))
    spec (crStatus cr).

Definition editWith (key : string * string) (g : ValkeyClusterSpec → ValkeyClusterSpec) (w : W) : W :=
  let k := w.1 in
  (mkKube (alter (λ cr, respec (g (crSpec cr)) cr) key (kCRs k)) (kConfigMaps k) (kServices k) (kSets k) (kPVCs k) (kClock k), w.2).

Definition resize (shards replicas : Z) (s : ValkeyClusterSpec) : ValkeyClusterSpec :=
  mkSpec shards replicas (Image s) (Storage s) (Resources s) (Persistence s) (Performance s) (HAPolicyOf s).
Definition editSize (key : string * string) (shards replicas : Z) : W → W := editWith key (resize shards replicas).

(** The StatefulSet controller reports [n] ready pods of one set. *)
Definition reportReady (key : string * string) (n : Z) (w : W) : W :=
  let k := w.1 in
  (mkKube (kCRs k) (kConfigMaps k) (kServices k)
     (alter (λ s, mkStatefulSet (stsMeta s) (stsServiceName s) (stsReplicas s) (stsPodManagement s) (stsSelector s)
                    (stsTemplate s) (stsClaims s) n) key (kSets k)) (kPVCs k) (kClock k), w.2).

(** The servers promote the replica in pod [j] of shard [i]. *)
Definition failOver (cr : ValkeyCluster) (i j : Z) (w : W) : W := worldAfter (Failover (endpoint cr i j)) w.
