(* ===== verification/Hazards.v ===== *)
(** * A gap that scale-out never fills

    When the number of shards is raised while an earlier scale-in is under way,
    a shard without slots can be left between shards that have some.  The cluster
    then gets stuck, in a fixed point of [Reconcile] that is not Ready. *)

From S2P Require Import Prelude GoStrings Cluster Slots Topology API ResourceBuilders.
From S2P Require Import ResourceProofs Platform Controller Reconcile Fake FakeProofs TestBed.
From S2P Require Import StatusProofs ScaleInProofs Lifecycle Formation SteadyState SlotMover ScaleOutProofs Drain.
From S2P Require Import Converge Passes.
Local Open Scope string_scope.
Local Open Scope list_scope.
Local Open Scope Z_scope.

Local Abbreviation W := (KubeWorld * gmap string NodeInfo)%type.

(** ** A shard that scale-out never fills *)

(** Every pod is a member that follows the primary of its shard; fewer shards
    own slots than declared, and yet each shard from that number on has its
    share: the one that has none is before. *)
Record gapped (cr : ValkeyCluster) (f : gmap string NodeInfo) : Prop := {
  gp_inv : fake_inv f;
  gp_anonymous : f !! "" = None;
  gp_covered : Fake.assignedSlots f = TotalSlots;
  gp_pods i j : 0 ≤ i < crShards cr → 0 ≤ j ≤ crReplicas cr → is_Some (f !! PodFQDN cr i j);
  gp_replicas i j : 0 ≤ i < crShards cr → 0 ≤ j ≤ crReplicas cr → j ≠ ownerOrd cr f i →
    nMasterID (nodeAt f (PodFQDN cr i j)) = PodFQDN cr i (ownerOrd cr f i);
  gp_few : ownerCount f < crShards cr;
  gp_full i : ownerCount f ≤ i < crShards cr → TotalSlots `quot` crShards cr ≤ Fake.countAt (PodFQDN cr i 0) f
}.

Section Members.
Context (cr : ValkeyCluster) (Hs : 0 < crShards cr < 2 ^ 31) (Hr : 0 ≤ crReplicas cr < 2 ^ 31).
Implicit Types (k : KubeWorld) (f : gmap string NodeInfo).
Local Abbreviation host := (PodFQDN cr).

(** The primary found in a shard of members. *)
Lemma findShardPrimary_ord k f i : fake_inv f → (∀ j, 0 ≤ j ≤ crReplicas cr → is_Some (f !! host i j)) →
  findShardPrimary cr i f ((k, f) : W) = Some ((host i (ownerOrd cr f i), ownerOrd cr f i), (k, f)).
Proof.
  intros Hf Hpods.
  assert (∀ js, (∀ j, j ∈ js → 0 ≤ j ≤ crReplicas cr) → findShardPrimaryIn cr i f js ((k, f) : W) =
    Some ((λ j, (host i j, j)) <$> List.find (λ j, 0 <? Fake.countAt (host i j) f) js, (k, f))) as Hin.
  { induction js as [|j js IH]; intros Hjs; [done|]. destruct (Hpods j (Hjs j (list_elem_of_here _ _))) as [n Hn].
    cbn [findShardPrimaryIn List.find]. unfold bind. rewrite (MyID_pod cr k f i j n Hf Hn), Hn.
    pose proof (owns_countAt f _ n Hf Hn) as Ho. rewrite <- Z.ltb_lt in Ho.
    rewrite <- Bool.eq_iff_eq_true in Ho. rewrite Ho. destruct (0 <? Fake.countAt (host i j) f); [done|]. apply IH. intros j' Hj'. apply Hjs. by right. }
  unfold findShardPrimary, bind. rewrite Hin by (intros j; apply elem_of_ordinals). unfold ownerOrd.
  destruct (List.find _ _) as [j|]; [done|]. cbn [default fmap option_fmap option_map]. destruct (Hpods 0) as [n Hn]; [lia|]. by rewrite (MyID_pod cr k f i 0 n Hf Hn).
Qed.

Lemma ownerOrd_bounds f i : 0 ≤ ownerOrd cr f i ≤ crReplicas cr.
Proof.
  unfold ownerOrd. destruct (List.find _ _) as [j|] eqn:E; simpl; [|lia].
  apply find_some in E as [Hin%list_elem_of_In%elem_of_ordinals _]. done.
Qed.

(** Nothing is attached again. *)
Lemma attachReplicas_quiet k f : fake_inv f →
  (∀ i j, 0 ≤ i < crShards cr → 0 ≤ j ≤ crReplicas cr → is_Some (f !! host i j)) →
  (∀ i j, 0 ≤ i < crShards cr → 0 ≤ j ≤ crReplicas cr → j ≠ ownerOrd cr f i →
     nMasterID (nodeAt f (host i j)) = host i (ownerOrd cr f i)) →
  attachReplicas cr (Fake.view f) ((k, f) : W) = Some (Ok tt, (k, f)).
Proof.
  intros Hf Hpods Hrep. unfold attachReplicas. cbv zeta. rewrite byID_view_eq by done. apply forE_quiet.
  intros i Hi%elem_of_seqZ. unfold bind. rewrite findShardPrimary_ord; [|done|intros; apply Hpods; lia].
  rewrite (proj2 (String.eqb_neq _ _) (PodFQDN_nonempty cr i _)). apply forE_quiet. intros j Hj%elem_of_ordinals.
  unfold attachPod. destruct (Z.eqb_spec j (ownerOrd cr f i)) as [|Hne]; [done|]. unfold bind.
  destruct (Hpods i j) as [n Hn]; [lia|done|]. rewrite (MyID_pod cr k f i j n Hf Hn), Hn.
  pose proof (Hrep i j ltac:(lia) Hj Hne) as Hm. unfold nodeAt in Hm. rewrite Hn in Hm. simpl in Hm.
  by rewrite Hm, String.eqb_refl.
Qed.

Lemma Meet_members k f e1 e2 : is_Some (f !! epHost e1) → is_Some (f !! epHost e2) →
  Meet e1 e2 ((k, f) : W) = Some (Ok tt, (k, f)).
Proof.
  intros [n1 H1] [n2 H2]. simpl. unfold onRight, Fake.Meet, Fake.ensure. cbn [fst snd]. by rewrite H1, H2.
Qed.
End Members.

Section Gap.
Context (cr : ValkeyCluster) (Hs : 0 < crShards cr < 2 ^ 31) (Hr : 0 ≤ crReplicas cr) (Hr32 : crReplicas cr + 1 < 2 ^ 31).
Context (f : gmap string NodeInfo) (G : gapped cr f).
Implicit Types (k : KubeWorld).

Lemma gapped_scaleOut k : scaleOut cr (ownerCount f) ((k, f) : W) = Some (Ok tt, (k, f)).
Proof.
  pose proof (gp_inv _ _ G) as Hf. pose proof (gp_pods _ _ G) as Hp.
  assert (0 ≤ ownerCount f) as Hnn by (unfold ownerCount; lia).
  assert (∀ i, i ∈ newShards cr (ownerCount f) → ownerCount f ≤ i < crShards cr) as Hnew
    by (intros i Hi%elem_of_seqZ; lia).
  pose proof (attachReplicas_quiet cr ltac:(lia) k f Hf Hp (gp_replicas _ _ G)) as Ha.
  unfold scaleOut, bindE at 1, bind at 1. rewrite forE_quiet.
  2: { intros i Hi%Hnew. apply forE_quiet. intros j Hj%elem_of_ordinals.
       apply Meet_members; [apply (Hp 0 0); lia|apply (Hp i j); lia]. }
  unfold bindE at 1, bind at 1. rewrite State_view. unfold bindE at 1, bind at 1. rewrite Ha.
  unfold bindE at 1, bind at 1. rewrite forE_quiet; [unfold bindE, bind; by rewrite State_view, Ha|].
  intros i Hi%Hnew. destruct (Hp i 0) as [n Hn]; [lia..|]. unfold fillShard, bind at 1.
  rewrite (MyID_pod cr k f i 0 n Hf Hn), (proj2 (String.eqb_neq _ _) (PodFQDN_nonempty cr i 0)).
  unfold bindE, bind. rewrite State_view, byID_view_eq by done.
  change (SlotCount (nodeAt f (PodFQDN cr i 0))) with (Fake.countAt (PodFQDN cr i 0) f).
  pose proof (gp_full _ _ G i Hi). rewrite (Z2Nat.nonpos (_ - _)) by lia. cbn [fillLoop].
  by rewrite (proj2 (Z.leb_le _ 0)) by lia.
Qed.

Context (Halive : mDeletionTimestamp (crMeta cr) = None) (Hfin : finalizer ∈ mFinalizers (crMeta cr)).

Lemma gapped_pass k : kCRs k !! metaKey (crMeta cr) = Some cr → podsReady cr k →
  ∃ k', Reconcile (crKey cr) ((k, f) : W) = Some (Ok reshardRequeue, (k', f)) ∧ podsReady cr k' ∧ publishedAs cr k' f.
Proof.
  intros Hst Hrd. destruct (Reconcile_acts cr Hs Hr Hr32 Halive Hfin k f Hst) as (k1 & He & Hpass).
  rewrite decide_True in Hpass by (apply Forall_forall; intros i Hi%elem_of_seqZ; apply Hrd; lia).
  destruct (plan_scaleOut cr f k1 (gp_covered _ _ G) (gp_few _ _ G)) as (n & Ep & Eo).
  destruct (Hpass _ (λ k' f', podsReady cr k' ∧ f' = f) Ep) as (k2 & f2 & E & [Hrd2 ->] & Hp); [|by exists k2].
  intros k2 Hk2. exists k2, f. split; [cbn [action Kind]; rewrite Eo; apply gapped_scaleOut|]. split; [done|].
  intros k3 Hk3. split; [|done]. apply (podsReady_shape cr k1); [by etrans|]. by apply (podsReady_ensured cr k k1).
Qed.
End Gap.

(** The status does not matter. *)
Lemma gapped_status cr st f : gapped cr f → gapped (mkCluster (crMeta cr) (crSpec cr) st) f.
Proof. intros []. by constructor. Qed.

Lemma gapped_passes cr f n k r0 : 0 < crShards cr < 2 ^ 31 → 0 ≤ crReplicas cr → crReplicas cr + 1 < 2 ^ 31 →
  mDeletionTimestamp (crMeta cr) = None → finalizer ∈ mFinalizers (crMeta cr) → gapped cr f → storedCR cr k → podsReady cr k →
  ∃ k', passes (S n) (crKey cr) r0 ((k, f) : W) = Some (Ok reshardRequeue, (k', f)) ∧ publishedAs cr k' f.
Proof.
  intros Hs Hr Hr32 Ha Hf G. revert k r0. induction n as [|n IH]; intros k r0 [st Hst] Hrd;
    destruct (gapped_pass (mkCluster (crMeta cr) (crSpec cr) st) Hs Hr Hr32 f (gapped_status cr st f G) Ha Hf k Hst Hrd)
      as (k1 & E & Hrd1 & Hp);
    change (crKey (mkCluster (crMeta cr) (crSpec cr) st)) with (crKey cr) in E;
    match goal with |- context [passes (S ?m) ?q ?r] => change (passes (S m) q r) with (r <- Reconcile q ;; passes m q r) end;
    unfold bind at 1; rewrite E; [by exists k1; split; [|exact Hp]|].
  apply IH; [|done]. destruct Hp as (st' & Hp & _). by exists st'.
Qed.


(** ** How the gap comes about

    Five shards are formed; the spec goes to three, and after four passes, when
    shard 3 has been drained and shard 4 has not, back to five. *)

Definition withFinalizer (cr : ValkeyCluster) : ValkeyCluster :=
  mkCluster (set_mFinalizers [finalizer] (crMeta cr)) (crSpec cr) (crStatus cr).

(** The server with the resource and its sets, all pods ready. *)
Definition runningKube (cr : ValkeyCluster) : KubeWorld :=
  let w : W := (kubeWith cr, Fake.NewFake) in
  let w := worldAfter (ensureStatefulSets cr) w in
  fst (foldr (λ i, reportReady (setKey cr i) (1 + crReplicas cr)) w (seqZ 0 (crShards cr))).

Definition runningCluster (cr : ValkeyCluster) : W := (runningKube cr, worldAfter (formCluster cr) Fake.NewFake).

Definition gapCR : ValkeyCluster := withFinalizer (sampleCR "gap" 5 0).
Definition gapWorld : W :=
  let key := metaKey (crMeta gapCR) in
  editSize key 5 0 (worldAfter (passes 4 (crKey gapCR) (Ok 0)) (editSize key 3 0 (runningCluster gapCR))).
Definition gapCRnow : ValkeyCluster := default gapCR (kCRs gapWorld.1 !! metaKey (crMeta gapCR)).

Lemma gapWorld_counts : map (λ i, Fake.countAt (PodFQDN gapCRnow i 0) gapWorld.2) (seqZ 0 5) = [6553; 3277; 3277; 0; 3277].
Proof. vm_compute. reflexivity. Qed.

(** [fake_inv] by evaluation. *)
Lemma fake_inv_check f : map_Forall (λ k n, nID n = k ∧ nHost n = k ∧ 0 ≤ SlotCount n ∧
  (nSlots n = [] ∨ IsPrimary n = true)) f → fake_inv f.
Proof.
  intros H k n Hk. destruct (H k n Hk) as (? & ? & ? & Hp). constructor; [done..|]. intros E. destruct Hp; congruence.
Qed.

Lemma gapWorld_gapped : gapped gapCRnow gapWorld.2.
Proof.
  assert (crShards gapCRnow = 5 ∧ crReplicas gapCRnow = 0) as [Es Er] by (by vm_compute).
  assert (∀ j, 0 ≤ j ≤ crReplicas gapCRnow → j = 0) as Hj0 by (intros j; rewrite Er; lia).
  assert (ownerCount gapWorld.2 = 4) as Ec by (by vm_compute).
  constructor.
  - apply fake_inv_check, (bool_decide_unpack _). by vm_compute.
  - by vm_compute.
  - by vm_compute.
  - intros i j Hi ->%Hj0. rewrite Es in Hi.
    assert (i = 0 ∨ i = 1 ∨ i = 2 ∨ i = 3 ∨ i = 4) as [-> |[-> |[-> |[-> | ->]]]] by lia; eexists; vm_compute; reflexivity.
  - intros i j Hi ->%Hj0 Hne. exfalso. apply Hne. symmetry. apply Hj0, (ownerOrd_bounds gapCRnow). rewrite Er. lia.
  - rewrite Ec, Es. done.
  - rewrite Ec, Es. intros i Hi. assert (i = 4) as -> by lia. by vm_compute.
Qed.

