(* ===== verification/Ownership.v ===== *)
(** * Who owns the slots

    Most of what the reconciler does to a cluster does not move slots: nodes
    join, replicas are attached, stale nodes are forgotten.  [tracks] ties the
    in-memory cluster to the ledger of its slot counts; the operations of
    [membership.go] are shown to keep the ledger as it is, and a move and a
    failover to change it as they should. *)

From S2P Require Import Prelude GoStrings Cluster Slots Topology API ResourceBuilders.
From S2P Require Import ResourceProofs Platform Controller Reconcile Fake FakeProofs TestBed.
From S2P Require Import StatusProofs ScaleInProofs Lifecycle Formation SteadyState SlotMover ScaleOutProofs Drain.
From S2P Require Import Converge Passes Hazards.
Local Open Scope string_scope.
Local Open Scope list_scope.
Local Open Scope Z_scope.

Local Abbreviation W := (KubeWorld * gmap string NodeInfo)%type.

(** ** The ledger of a cluster *)

Definition ordinal (j : Z) : Prop := 0 ≤ j < 2 ^ 31.

(** The members are pods of the resource, and a node that names a master is
    empty and follows another pod of its own shard. *)
Record membersOk (cr : ValkeyCluster) (f : gmap string NodeInfo) : Prop := {
  mo_inv : fake_inv f;
  mo_pod h : is_Some (f !! h) → ∃ i j, ordinal i ∧ ordinal j ∧ h = PodFQDN cr i j;
  mo_follows i j n : ordinal i → ordinal j → f !! PodFQDN cr i j = Some n → nMasterID n = "" ∨
    nSlots n = [] ∧ ∃ j', ordinal j' ∧ j' ≠ j ∧ nMasterID n = PodFQDN cr i j'
}.

Record tracks (cr : ValkeyCluster) (L : ledger) (f : gmap string NodeInfo) : Prop := {
  tr_members : membersOk cr f;
  tr_count h : Fake.countAt h f = L h
}.

Lemma tracks_self cr f : membersOk cr f → tracks cr (λ h, Fake.countAt h f) f.
Proof. by constructor. Qed.

#[export] Instance tracks_proper cr : Proper ((≡@{ledger}) ==> (=) ==> iff) (tracks cr).
Proof.
  intros L L' E f _ <-. split; intros [Hm Hc]; constructor; [done|..|done|]; intros h; rewrite Hc; [|symmetry]; apply E.
Qed.

(** The total does not change when no count does. *)
Lemma assigned_counts f f' : (∀ h, Fake.countAt h f' = Fake.countAt h f) → Fake.assignedSlots f' = Fake.assignedSlots f.
Proof.
  intros E. set (ks := elements (dom f ∩ dom f')).
  assert (∀ h, h ∈ ks ↔ is_Some (f !! h) ∧ is_Some (f' !! h)) as Hks.
  { intros h. unfold ks. by rewrite elem_of_elements, elem_of_intersection, !elem_of_dom. }
  assert (∀ g h n, g !! h = Some n → Fake.countAt h g = SlotCount n) as Hat by (intros g h n Hn; unfold Fake.countAt; by rewrite Hn).
  assert (∀ g h, g !! h = None → Fake.countAt h g = 0) as Hnone by (intros g h Hn; unfold Fake.countAt; by rewrite Hn).
  rewrite (assigned_by_keys f ks), (assigned_by_keys f' ks).
  - f_equal. apply map_ext. intros h. apply E.
  - apply NoDup_elements.
  - intros h [_ ?]%Hks. done.
  - intros h n Hn Hout. destruct (f !! h) eqn:Ef; [exfalso; apply Hout, Hks; split; by eexists|].
    rewrite <- (Hat f' h n Hn), E. by apply Hnone.
  - apply NoDup_elements.
  - intros h [? _]%Hks. done.
  - intros h n Hn Hout. destruct (f' !! h) eqn:Ef; [exfalso; apply Hout, Hks; split; by eexists|].
    rewrite <- (Hat f h n Hn), <- E. by apply Hnone.
Qed.

Section Steps.
Context (cr : ValkeyCluster).
Implicit Types (k : KubeWorld) (f : gmap string NodeInfo) (L : ledger).
Local Abbreviation host := (PodFQDN cr).

Lemma pod_host_inj i j i' j' : ordinal i → ordinal j → ordinal i' → ordinal j' → host i j = host i' j' → i = i' ∧ j = j'.
Proof. unfold ordinal. intros. apply (PodFQDN_inj cr); [lia..|done]. Qed.

Lemma tracks_nonneg L f h : tracks cr L f → 0 ≤ L h.
Proof. intros T. rewrite <- (tr_count _ _ _ T). apply countAt_nonneg, T. Qed.

Lemma membersOk_anonymous f : membersOk cr f → f !! "" = None.
Proof.
  intros M. destruct (f !! "") eqn:E; [|done]. destruct (mo_pod _ _ M "") as (i & j & _ & _ & Eh); [by eexists|].
  by destruct (PodFQDN_nonempty cr i j).
Qed.

(** An owner is a member. *)
Lemma tracks_member L f h : tracks cr L f → 0 < L h → ∃ n, f !! h = Some n ∧ SlotCount n = L h ∧ ownsSlots n = true ∧ nMasterID n = "".
Proof.
  intros T Hpos. pose proof (tr_count _ _ _ T h) as Hc. pose proof (mo_inv _ _ (tr_members _ _ _ T)) as Hf.
  destruct (f !! h) as [n|] eqn:En; [|unfold Fake.countAt in Hc; rewrite En in Hc; simpl in Hc; rewrite <- Hc in Hpos; done].
  assert (SlotCount n = L h) as Hn by (unfold Fake.countAt in Hc; by rewrite En in Hc).
  exists n. split; [done|]. split; [done|]. split; [apply (owns_countAt f h n Hf En); lia|].
  destruct (mo_pod _ _ (tr_members _ _ _ T) h) as (i & j & Hi & Hj & ->); [by eexists|].
  destruct (mo_follows _ _ (tr_members _ _ _ T) i j n Hi Hj En) as [|[Hs _]]; [done|].
  rewrite (SlotCount_nil n Hs) in Hn. lia.
Qed.

Lemma tracks_ensure L f i j : ordinal i → ordinal j → tracks cr L f → tracks cr L (Fake.ensure (endpoint cr i j) f).
Proof.
  intros Hi Hj [[Hf Hp Hm] Hc]. unfold Fake.ensure. cbn [epHost endpoint]. destruct (f !! host i j) eqn:E; [by constructor|].
  constructor; [constructor|].
  - apply map_Forall_insert_2; [by constructor|done].
  - intros h [<-|[_ H]]%lookup_insert_is_Some; [by exists i, j|by apply Hp].
  - intros i' j' n Hi' Hj' [[Eh <-]|[_ H]]%lookup_insert_Some; [by left|by apply Hm].
  - intros h. rewrite <- Hc. unfold Fake.countAt. destruct (decide (h = host i j)) as [->|Hne]; [by rewrite lookup_insert_eq, E|].
    by rewrite lookup_insert_ne.
Qed.

(** Attaching an empty pod to another pod of its shard. *)
Lemma tracks_replicate L f i j p : ordinal i → ordinal j → ordinal p → p ≠ j → L (host i j) = 0 → tracks cr L f →
  tracks cr L (alter (λ n, set_nSlots [] (set_nFlags ["slave"] (set_nMasterID (host i p) n))) (host i j) f).
Proof.
  intros Hi Hj Hp Hne Hz [[Hf Hpo Hm] Hc]. constructor; [constructor|].
  - apply fake_inv_alter; [done|]. intros n _ [? ? ? ?]. by constructor.
  - intros h Hh. apply Hpo. by rewrite lookup_alter_is_Some in Hh.
  - intros i' j' n Hi' Hj'. rewrite lookup_alter_Some. intros [(Eh & n0 & _ & ->)|[_ H]]; [|by apply Hm].
    apply pod_host_inj in Eh as [<- <-]; [|done..]. right. split; [done|]. by exists p.
  - intros h. rewrite <- Hc. destruct (decide (h = host i j)) as [->|]; [|by rewrite countAt_alter_ne by done].
    rewrite Hc, Hz. unfold Fake.countAt. rewrite lookup_alter_eq. by destruct (f !! host i j).
Qed.

Lemma tracks_delete L f id : L id = 0 → tracks cr L f → tracks cr L (delete id f).
Proof.
  intros Hz [[Hf Hpo Hm] Hc]. constructor; [constructor|].
  - by apply map_Forall_delete.
  - intros h [_ H]%lookup_delete_is_Some. by apply Hpo.
  - intros i j n Hi Hj [_ H]%lookup_delete_Some. by apply Hm.
  - intros h. rewrite <- Hc. unfold Fake.countAt. destruct (decide (h = id)) as [->|]; [|by rewrite lookup_delete_ne].
    rewrite lookup_delete_eq. pose proof (Hc id) as E. rewrite Hz in E. symmetry. exact E.
Qed.

(** A move between members changes two entries. *)
Lemma tracks_move L f e from to n : tracks cr L f → from ≠ to → 0 < L from → is_Some (f !! to) → 0 ≤ n ≤ L from →
  ∃ f', Fake.MoveSlots e from to n f = Some ((n, None), f') ∧ tracks cr (moveCount from to n L) f' ∧
    Fake.assignedSlots f' = Fake.assignedSlots f ∧ dom f' = dom f.
Proof.
  intros T Hne Hpos [tn Ht] Hn. destruct (tracks_member L f from T Hpos) as (fn & Ef & Hcf & _ & Hmf).
  pose proof (mo_inv _ _ (tr_members _ _ _ T)) as Hf. pose proof (tr_count _ _ _ T) as Hc.
  destruct (MoveSlots_effect f e from to n fn tn Hf) as (f' & E & Ha & Hcnt & Hrest & Hdom & _); [lia|done..|].
  destruct (Hcnt Hne) as [C1 C2]. rewrite Z.min_l in E, C1, C2 by lia.
  assert (∀ m h, f' !! h = Some m → h = from ∨ h = to → nMasterID m = "") as Hms.
  { intros m h Hm Hor. unfold Fake.MoveSlots in E. rewrite Ef, Ht in E.
    replace (if SlotCount fn <? n then SlotCount fn else n) with n in E by (destruct (Z.ltb_spec (SlotCount fn) n); lia).
    injection E as <-. unfold Fake.setCount in Hm. destruct Hor as [-> | ->].
    - rewrite lookup_alter_ne, lookup_alter_ne, lookup_alter_eq, Ef in Hm by done. by injection Hm as <-.
    - rewrite lookup_alter_eq, lookup_alter_eq, lookup_alter_ne, Ht in Hm by done. by injection Hm as <-. }
  exists f'. split; [done|]. split; [constructor; [constructor|]|done].
  - eapply fake_inv_MoveSlots; [|exact Hf|exact E]. lia.
  - intros h Hh. apply (mo_pod _ _ (tr_members _ _ _ T)). by rewrite <- !elem_of_dom, Hdom in *.
  - intros i j m Hi Hj Hm. destruct (decide (host i j = from ∨ host i j = to)) as [Hor|Hno].
    + left. by apply (Hms m (host i j)).
    + apply (mo_follows _ _ (tr_members _ _ _ T)); [done..|]. rewrite <- Hrest; [done|tauto..].
  - intros h. unfold moveCount. destruct (decide (h = to)) as [->|]; [rewrite C2, <- Hc; unfold Fake.countAt; by rewrite Ht|].
    destruct (decide (h = from)) as [->|]; [by rewrite C1, Hcf|]. unfold Fake.countAt. rewrite Hrest by done. apply Hc.
Qed.

(** A failover within a shard: the promoted pod takes all that its master has. *)
Lemma tracks_failover L f i j : ordinal i → ordinal j → tracks cr L f →
  ∃ f', Fake.Failover (endpoint cr i j) f = Some (Ok tt, f') ∧ Fake.assignedSlots f' = Fake.assignedSlots f ∧
    (f' = f ∨ ∃ j', ordinal j' ∧ j' ≠ j ∧ L (host i j) = 0 ∧
       tracks cr (moveCount (host i j') (host i j) (L (host i j')) L) f').
Proof.
  intros Hi Hj T. pose proof (tr_members _ _ _ T) as [Hf Hpo Hm]. pose proof (tr_count _ _ _ T) as Hc.
  destruct (f !! host i j) as [r|] eqn:Er; [|exists f; split; [unfold Fake.Failover; cbn [epHost endpoint]; by rewrite Er|auto]].
  destruct (Hm i j r Hi Hj Er) as [Em|[Hs (j' & Hj' & Hne & Em)]].
  { exists f. split; [unfold Fake.Failover; cbn [epHost endpoint]; by rewrite Er, Em|auto]. }
  destruct (f !! host i j') as [m|] eqn:En.
  2: { exists f. split; [|auto]. unfold Fake.Failover. cbn [epHost endpoint]. rewrite Er, Em, En.
       by rewrite (proj2 (String.eqb_neq _ _) (PodFQDN_nonempty cr i j')). }
  assert (host i j' ≠ host i j) as Hhne by (intros [_ ?]%pod_host_inj; done).
  destruct (fake_failover_swaps f (endpoint cr i j) r m) as (f' & r' & m' & E & Er' & Em' & Hsr & Hpr & Hmr & Hsm & Hmm & _ & Ha & Hrest);
    cbn [epHost endpoint]; rewrite ?Em; [done|apply PodFQDN_nonempty|done..|].
  rewrite Em in Em', Hrest. cbn [epHost endpoint] in *. exists f'. split; [done|]. split; [done|]. right. exists j'.
  assert (L (host i j) = 0) as Hz by (rewrite <- Hc; unfold Fake.countAt; rewrite Er; by apply SlotCount_nil).
  do 3 (split; [done|]). constructor; [constructor|].
  - by eapply fake_inv_Failover.
  - intros h Hh. apply Hpo. destruct (decide (h = host i j)) as [->|]; [by eexists|].
    destruct (decide (h = host i j')) as [->|]; [by eexists|]. by rewrite <- Hrest.
  - intros i1 j1 n Hi1 Hj1 Hn. destruct (decide (host i1 j1 = host i j)) as [Eh|N1].
    { rewrite Eh, Er' in Hn. injection Hn as <-. by left. }
    destruct (decide (host i1 j1 = host i j')) as [Eh|N2]; [|apply Hm; [done..|]; by rewrite <- Hrest].
    rewrite Eh, Em' in Hn. injection Hn as <-. apply pod_host_inj in Eh as [-> ->]; [|done..]. right. split; [done|].
    exists j. split; [done|]. split; [done|]. rewrite Hmm. apply (ok_id _ _ (Hf _ _ Er)).
  - intros h. unfold moveCount. destruct (decide (h = host i j)) as [->|N1].
    { unfold Fake.countAt at 1. rewrite Er'. simpl. rewrite (SlotCount_ext r' m Hsr), Hz, <- Hc. unfold Fake.countAt. by rewrite En. }
    destruct (decide (h = host i j')) as [->|N2].
    { unfold Fake.countAt. rewrite Em'. simpl. rewrite (SlotCount_nil m' Hsm). lia. }
    unfold Fake.countAt. rewrite Hrest by done. apply Hc.
Qed.
End Steps.

(** [membersOk] by evaluation, given the pods. *)
Lemma membersOk_check cr f (pods : list (Z * Z)) : Forall (λ p, ordinal p.1 ∧ ordinal p.2) pods →
  map_Forall (λ h n, nID n = h ∧ nHost n = h ∧ 0 ≤ SlotCount n ∧ (nSlots n = [] ∨ IsPrimary n = true) ∧
    Exists (λ p, h = PodFQDN cr p.1 p.2 ∧ (nMasterID n = "" ∨
      nSlots n = [] ∧ Exists (λ q, q.1 = p.1 ∧ q.2 ≠ p.2 ∧ nMasterID n = PodFQDN cr q.1 q.2) pods)) pods) f →
  membersOk cr f.
Proof.
  intros Hp H. rewrite Forall_forall in Hp.
  assert (∀ h n, f !! h = Some n → ∃ p, p ∈ pods ∧ h = PodFQDN cr p.1 p.2 ∧ (nMasterID n = "" ∨
    nSlots n = [] ∧ ∃ q, q ∈ pods ∧ q.1 = p.1 ∧ q.2 ≠ p.2 ∧ nMasterID n = PodFQDN cr q.1 q.2)) as Hall.
  { intros h n Hn. destruct (H h n Hn) as (_ & _ & _ & _ & (p & Hin & Eh & Hm)%Exists_exists). exists p. split; [done|]. split; [done|].
    destruct Hm as [|[? (q & ? & ? & ? & ?)%Exists_exists]]; [by left|right]. split; [done|]. by exists q. }
  constructor.
  - intros h n Hn. destruct (H h n Hn) as (? & ? & ? & Ho & _). constructor; [done..|]. intros E. destruct Ho; congruence.
  - intros h [n Hn]. destruct (Hall h n Hn) as ([i j] & [? ?]%Hp & Eh & _). by exists i, j.
  - intros i j n Hi Hj Hn. destruct (Hall _ n Hn) as ([i' j'] & [? ?]%Hp & Eh & Hm). simpl in *.
    apply (pod_host_inj cr) in Eh as [<- <-]; [|done..]. destruct Hm as [|[? ([i2 j2] & [? ?]%Hp & ? & ? & ?)]]; [by left|right].
    simpl in *. subst i2. split; [done|]. by exists j2.
Qed.

(** ** The operations of membership.go *)
Section Operations.
Context (cr : ValkeyCluster) (Hs : 0 < crShards cr < 2 ^ 31) (Hr : 0 ≤ crReplicas cr < 2 ^ 31) (k : KubeWorld) (L : ledger).
Local Abbreviation host := (PodFQDN cr).
Implicit Types (f : gmap string NodeInfo).

(** The server is as it was, and so are the slot counts. *)
Definition holds (w : W) : Prop := w.1 = k ∧ tracks cr L w.2.

(** An index that shows the owners. *)
Definition knows (idx : gmap string NodeInfo) : Prop :=
  ∀ h, match idx !! h with Some n => ownsSlots n | None => false end = (0 <? L h).

Lemma knows_view f : tracks cr L f → knows (byID (Fake.view f)).
Proof.
  intros T h. pose proof (mo_inv _ _ (tr_members _ _ _ T)) as Hf. rewrite byID_view_eq by done. pose proof (tr_count _ _ _ T h) as Hc.
  destruct (f !! h) as [n|] eqn:En.
  - apply Bool.eq_iff_eq_true. rewrite (owns_countAt f h n Hf En), Hc, Z.ltb_lt. done.
  - symmetry. apply Z.ltb_ge. rewrite <- Hc. unfold Fake.countAt. rewrite En. done.
Qed.

Lemma declared_ordinal i : i ∈ seqZ 0 (crShards cr) → 0 ≤ i < crShards cr ∧ ordinal i.
Proof. unfold ordinal. intros Hi%elem_of_seqZ. lia. Qed.

Lemma pod_ordinal j : j ∈ ordinals cr → 0 ≤ j ≤ crReplicas cr ∧ ordinal j.
Proof. unfold ordinal. intros Hj%elem_of_ordinals. lia. Qed.

Lemma MyID_holds i j w : ordinal i → ordinal j → holds w →
  wp (MyID (endpoint cr i j)) (λ r w', r = Ok (host i j) ∧ holds w' ∧ is_Some (w'.2 !! host i j)) w.
Proof.
  intros Hi Hj [Hk T]. destruct w as [k' f]. simpl in Hk, T. pose proof (tracks_ensure cr L f i j Hi Hj T) as T'.
  destruct (ensure_is_some f (endpoint cr i j)) as [n Hn].
  eexists _, _. split; [reflexivity|]. cbn [fst snd]. split; [|by split; [|eexists]]. rewrite Hn. simpl.
  by rewrite (ok_id _ _ (mo_inv _ _ (tr_members _ _ _ T') _ _ Hn)).
Qed.

Lemma Meet_holds i j i' j' w : ordinal i → ordinal j → ordinal i' → ordinal j' → holds w →
  wp (Meet (endpoint cr i j) (endpoint cr i' j')) (λ r w', r = Ok tt ∧ holds w') w.
Proof.
  intros ???? [Hk T]. eexists _, _. split; [reflexivity|]. split; [done|]. split; [done|]. cbn [snd].
  apply tracks_ensure; [done..|]. by apply tracks_ensure.
Qed.

Lemma Replicate_holds i j p w : ordinal i → ordinal j → ordinal p → p ≠ j → L (host i j) = 0 → holds w →
  wp (Replicate (endpoint cr i j) (host i p)) (λ r w', r = Ok tt ∧ holds w') w.
Proof.
  intros ????? [Hk T]. eexists _, _. split; [reflexivity|]. split; [done|]. split; [done|]. cbn [snd].
  apply tracks_replicate; [done..|]. by apply tracks_ensure.
Qed.

(** The primary found: an owner, or the first pod of a shard without one. *)
Definition primaryOf (i p : Z) : Prop :=
  0 ≤ p ≤ crReplicas cr ∧ (0 < L (host i p) ∨ p = 0 ∧ ∀ j, 0 ≤ j ≤ crReplicas cr → L (host i j) ≤ 0).

Lemma findShardPrimary_holds i idx w : ordinal i → knows idx → holds w →
  wp (findShardPrimary cr i idx) (λ r w', (∃ p, r = (host i p, p) ∧ primaryOf i p) ∧ holds w') w.
Proof.
  intros Hi Hidx Hw.
  assert (∀ js w, (∀ j, j ∈ js → j ∈ ordinals cr) → holds w → wp (findShardPrimaryIn cr i idx js)
    (λ r w', holds w' ∧ match r with
                        | Some (h, p) => h = host i p ∧ 0 ≤ p ≤ crReplicas cr ∧ 0 < L (host i p)
                        | None => ∀ j, j ∈ js → L (host i j) ≤ 0
                        end) w) as Hin.
  { clear w Hw. induction js as [|j js IH]; intros w Hjs Hw; cbn [findShardPrimaryIn].
    { apply wp_ret. split; [done|]. by intros ? ?%elem_of_nil. }
    destruct (pod_ordinal j (Hjs j (list_elem_of_here _ _))) as [Hj Hjo].
    apply wp_bind. eapply wp_mono; [by apply MyID_holds|]. intros r w' (-> & Hw' & _). pose proof (Hidx (host i j)) as Ho.
    assert (wp (if 0 <? L (host i j) then ret (Some (host i j, j)) else findShardPrimaryIn cr i idx js)
      (λ r w', holds w' ∧ match r with
                        | Some (h, p) => h = host i p ∧ 0 ≤ p ≤ crReplicas cr ∧ 0 < L (host i p)
                        | None => ∀ j', j' ∈ j :: js → L (host i j') ≤ 0
                        end) w') as H; [|destruct (idx !! host i j) as [n|]; rewrite <- Ho in H; exact H].
    destruct (Z.ltb_spec 0 (L (host i j))); [by apply wp_ret|].
    eapply wp_mono; [apply IH; [intros; apply Hjs; by right|done]|]. intros [[h p]|] w'' [? Hp]; [done|]. split; [done|].
    intros j' [->|]%elem_of_cons; [lia|by apply Hp]. }
  unfold findShardPrimary. apply wp_bind. eapply wp_mono; [by apply (Hin (ordinals cr))|]. intros [[h p]|] w' [Hw' Hp].
  - apply wp_ret. destruct Hp as (-> & ? & ?). split; [|done]. exists p. split; [done|]. split; [done|by left].
  - apply wp_bind. eapply wp_mono; [apply (MyID_holds i 0); [done|unfold ordinal; lia|done]|]. intros r w'' (-> & Hw'' & _).
    apply wp_ret. split; [|done]. exists 0. split; [done|]. split; [lia|]. right. split; [done|]. intros j Hj.
    by apply Hp, elem_of_ordinals.
Qed.

Context (Huniq : ∀ i j j', 0 ≤ i < crShards cr → 0 ≤ j ≤ crReplicas cr → 0 ≤ j' ≤ crReplicas cr →
  0 < L (host i j) → 0 < L (host i j') → j = j').

Lemma attachReplicas_holds st w : knows (byID st) → holds w → wp (attachReplicas cr st) (λ r w', r = Ok tt ∧ holds w') w.
Proof.
  intros Hidx Hw. unfold attachReplicas. apply (wp_forE_prefix _ _ (λ _, holds)); [done|].
  intros pre i post w1 El Hw1. destruct (declared_ordinal i) as [Hi Hio]; [rewrite El; set_solver|].
  apply wp_bind. eapply wp_mono; [by apply findShardPrimary_holds|]. intros r w2 [(p & -> & Hp & Hpr) Hw2].
  rewrite (proj2 (String.eqb_neq _ _) (PodFQDN_nonempty cr i p)).
  apply (wp_forE_prefix _ _ (λ _, holds)); [done|]. intros pre' j post' w3 El' Hw3.
  destruct (pod_ordinal j) as [Hj Hjo]; [rewrite El'; set_solver|]. unfold attachPod.
  destruct (Z.eqb_spec j p) as [|Hne]; [by apply wp_ret|]. apply wp_bind. eapply wp_mono; [by apply MyID_holds|].
  intros r w4 (-> & Hw4 & _). match goal with |- wp (if ?b then _ else _) _ _ => destruct b; [by apply wp_ret|] end.
  assert (L (host i j) = 0) as Hz.
  { pose proof (tracks_nonneg cr L w4.2 (host i j) (proj2 Hw4)). destruct (decide (0 < L (host i j))); [|lia].
    destruct Hpr as [Hpr|[_ Hpr]]; [by destruct Hne; apply (Huniq i)|]. specialize (Hpr j Hj). lia. }
  unfold wrapE. apply wp_bind. eapply wp_mono; [apply Replicate_holds; [done|done|unfold ordinal; lia|done..]|].
  intros r w5 [-> Hw5]. by apply wp_ret.
Qed.

Lemma forgetEverywhere_holds id w : L id = 0 → holds w → wp (forgetEverywhere cr id) (λ _, holds) w.
Proof.
  intros Hz [Hk T]. destruct w as [k' f]. eexists _, _. split; [apply (forgetEverywhere_fake cr); lia|]. split; [done|].
  by apply tracks_delete.
Qed.

(** Nothing that owns slots is forgotten, if every owner is a pod of a set. *)
Lemma forgetStale_holds f0 w hosts : tracks cr L f0 → existingPodHosts cr w = Some (Ok hosts, w) → (∀ h, 0 < L h → h ∈ hosts) →
  holds w → wp (forgetStaleNodes cr (Fake.view f0)) (λ _, holds) w.
Proof.
  intros T0 Eh Hown Hw. unfold forgetStaleNodes. apply wp_bind. eexists _, _. split; [exact Eh|]. cbv iota beta.
  apply wp_forM; [done|]. intros n Hn w' Hw'. pose proof (mo_inv _ _ (tr_members _ _ _ T0)) as Hf.
  simpl in Hn. apply (elem_of_sortedNodes f0 n Hf) in Hn.
  destruct (negb _ && negb _) eqn:E; [|by apply wp_ret]. apply andb_true_iff in E as [_ E%negb_true_iff%bool_decide_eq_false].
  apply forgetEverywhere_holds; [|done]. pose proof (tracks_nonneg cr L f0 (nID n) T0).
  destruct (decide (0 < L (nID n))) as [Hpos%Hown|]; [|lia]. rewrite (ok_host _ _ (Hf _ _ Hn)) in E. done.
Qed.

Lemma existingPodHosts_server k' f f' : existingPodHosts cr ((k', f) : W) = Some (Ok (match existingPodHosts cr ((k', f') : W) with
  | Some (Ok hosts, _) => hosts | _ => ∅ end), (k', f)).
Proof. done. Qed.

Lemma reconcileMembership_holds f hosts : tracks cr L f → existingPodHosts cr ((k, f) : W) = Some (Ok hosts, (k, f)) →
  (∀ h, 0 < L h → h ∈ hosts) → wp (reconcileMembership cr (Fake.view f)) (λ r w', r = Ok tt ∧ holds w') ((k, f) : W).
Proof.
  intros T Eh Hown. unfold reconcileMembership. apply wp_bindE. eapply wp_mono.
  { apply (wp_forE_prefix _ _ (λ _, holds)); [by split|]. intros pre ep post w El Hw.
    assert (ep ∈ allEndpoints cr) as (i & j & [Hi Hj] & ->)%elem_of_allEndpoints by (rewrite El; set_solver).
    cbn [epHost endpoint]. destruct (hostIndex _ !! _); [by apply wp_ret|]. unfold seed.
    apply Meet_holds; unfold ordinal; [lia..|done]. }
  intros r w1 [-> Hw1]. apply wp_bindE. eapply wp_mono; [apply attachReplicas_holds; [by apply knows_view|done]|].
  intros r w2 [-> Hw2]. apply wp_bind. eapply wp_mono.
  { apply (forgetStale_holds f w2 hosts); [done| |done|done]. destruct w2 as [k2 f2], Hw2 as [Hk2 _]. simpl in Hk2. subst k2.
    by rewrite (existingPodHosts_server k f2 f), Eh. }
  intros [] w3 Hw3. by apply wp_ret.
Qed.
End Operations.
