(* ===== verification/Attach.v ===== *)
(** * Replicas

    What [reconcileMembership] is for: after it every declared pod is a member
    that owns slots or follows the owner of its shard, and no node of a pod
    that its StatefulSets do not run is left.  [Ownership] shows that the slots
    stay where they are; this file shows where the members end up. *)

From S2P Require Import Prelude GoStrings Cluster Slots Topology API ResourceBuilders.
From S2P Require Import ResourceProofs Platform Controller Reconcile Fake FakeProofs TestBed.
From S2P Require Import StatusProofs ScaleInProofs Lifecycle Formation SteadyState SlotMover ScaleOutProofs Drain.
From S2P Require Import Converge Passes Hazards Ownership.
Local Open Scope string_scope.
Local Open Scope list_scope.
Local Open Scope Z_scope.

Local Abbreviation W := (KubeWorld * gmap string NodeInfo)%type.

(** Two facts about the one outcome of a computation. *)
Lemma wp_conj {V A} (m : M V A) (Q Q' : A → V → Prop) v : wp m Q v → wp m Q' v → wp m (λ a v', Q a v' ∧ Q' a v') v.
Proof. intros (a & v' & E & H) (a' & v'' & E' & H'). rewrite E in E'. injection E' as <- <-. by exists a, v'. Qed.

Section Attach.
Context (cr : ValkeyCluster) (Hs : 0 < crShards cr < 2 ^ 31) (Hr : 0 ≤ crReplicas cr < 2 ^ 31) (k : KubeWorld) (L : ledger).
Context (Huniq : ∀ i j j', 0 ≤ i < crShards cr → 0 ≤ j ≤ crReplicas cr → 0 ≤ j' ≤ crReplicas cr →
  0 < L (PodFQDN cr i j) → 0 < L (PodFQDN cr i j') → j = j').
Context (Hall : ∀ i, 0 ≤ i < crShards cr → ∃ p, 0 ≤ p ≤ crReplicas cr ∧ 0 < L (PodFQDN cr i p)).
Local Abbreviation host := (PodFQDN cr).
Local Abbreviation pod i j := (0 ≤ i < crShards cr ∧ 0 ≤ j ≤ crReplicas cr).
Implicit Types (f : gmap string NodeInfo).

(** Pod [j] of shard [i] follows an owner of its shard. *)
Definition follows f (i j : Z) : Prop :=
  ∃ n p, f !! host i j = Some n ∧ 0 ≤ p ≤ crReplicas cr ∧ 0 < L (host i p) ∧ nMasterID n = host i p.

Lemma follows_ensure f e i j : follows f i j → follows (Fake.ensure e f) i j.
Proof.
  intros (n & p & Hn & Hp). exists n, p. split; [|done]. unfold Fake.ensure. destruct (f !! epHost e) eqn:E; [done|].
  by rewrite lookup_insert_ne by congruence.
Qed.

Lemma pod_eq i j a b : pod i j → pod a b → host a b = host i j → a = i ∧ b = j.
Proof. intros [] []. apply (pod_host_inj cr); unfold ordinal; lia. Qed.

Lemma follows_replicate f a b p i j : pod a b → pod i j → 0 ≤ p ≤ crReplicas cr → 0 < L (host a p) → is_Some (f !! host a b) →
  follows f i j ∨ (a = i ∧ b = j) →
  follows (alter (λ n, set_nSlots [] (set_nFlags ["slave"] (set_nMasterID (host a p) n))) (host a b) f) i j.
Proof.
  intros Hab Hij Hp Hpos [n0 Hn0] Hfol. destruct (decide (host a b = host i j)) as [E|Hne].
  - apply pod_eq in E as [-> ->]; [|done..]. eexists _, p. rewrite lookup_alter_eq, Hn0. done.
  - destruct Hfol as [(n & q & Hn & Hq)|[-> ->]]; [|done]. exists n, q. by rewrite lookup_alter_ne.
Qed.

(** What the steps of a membership pass keep: every pod in [S] and every pod
    that followed at the start follows, and only declared pods have joined. *)
Definition joined f0 (S : Z → Z → Prop) (w : W) : Prop :=
  holds cr k L w ∧ (∀ i j, pod i j → follows f0 i j ∨ S i j → follows w.2 i j) ∧
  ∀ h, is_Some (w.2 !! h) → is_Some (f0 !! h) ∨ ∃ i j, pod i j ∧ h = host i j.

Lemma joined_ensure f0 S i j k' f : pod i j → joined f0 S (k', f) → joined f0 S (k', Fake.ensure (endpoint cr i j) f).
Proof.
  intros Hij ([Hk T] & Hf & Hd). split; [split; [done|apply tracks_ensure; [unfold ordinal; lia..|done]]|]. split.
  - intros a b Hab H. by apply follows_ensure, Hf.
  - intros h. simpl. unfold Fake.ensure. destruct (f !! epHost (endpoint cr i j)); [by apply Hd|].
    intros [<-|[_ H]]%lookup_insert_is_Some; [right; by exists i, j|by apply Hd].
Qed.

Lemma joined_more f0 (S S' : Z → Z → Prop) w : (∀ i j, S' i j → S i j ∨ follows w.2 i j) → joined f0 S w → joined f0 S' w.
Proof.
  intros HS (Hh & Hf & Hd). split; [done|]. split; [|done]. intros i j Hij [H|H%HS]; [apply Hf; auto|].
  destruct H; [apply Hf; auto|done].
Qed.

Lemma MyID_joined f0 S i j w : pod i j → joined f0 S w →
  wp (MyID (endpoint cr i j)) (λ r w', r = Ok (host i j) ∧ joined f0 S w' ∧ is_Some (w'.2 !! host i j)) w.
Proof.
  intros Hij Hw. destruct w as [k' f]. assert (ordinal i ∧ ordinal j) as [Hi Hj] by (unfold ordinal; lia).
  eapply wp_mono; [eapply (wp_conj _ _ (λ _ w', joined f0 S w')); [by apply (MyID_holds cr k L i j), Hw|]|by intros r w' ((-> & _ & ?) & ?)].
  eexists _, _. split; [reflexivity|]. by apply joined_ensure.
Qed.

Lemma findShardPrimary_joined f0 S i idx w : 0 ≤ i < crShards cr → knows L idx → joined f0 S w →
  wp (findShardPrimary cr i idx) (λ r w', (∃ p, r = (host i p, p) ∧ 0 ≤ p ≤ crReplicas cr ∧ 0 < L (host i p)) ∧ joined f0 S w') w.
Proof.
  intros Hi Hidx Hw. assert (ordinal i) as Hio by (unfold ordinal; lia). eapply wp_mono.
  { eapply (wp_conj _ _ (λ _ w', joined f0 S w')); [by apply (findShardPrimary_holds cr Hr k L i idx w Hio Hidx), Hw|].
    assert (∀ js w, (∀ j, j ∈ js → 0 ≤ j ≤ crReplicas cr) → joined f0 S w →
      wp (findShardPrimaryIn cr i idx js) (λ _ w', joined f0 S w') w) as Hin.
    { clear w Hw. induction js as [|j js IH]; intros w Hjs Hw; cbn [findShardPrimaryIn]; [by apply wp_ret|].
      apply wp_bind. eapply wp_mono; [apply (MyID_joined f0 S i j); [split; [done|apply Hjs; left]|done]|].
      intros r w' (-> & Hw' & _). destruct (idx !! host i j) as [n|]; [destruct (ownsSlots n); [by apply wp_ret|]|];
        (apply IH; [intros; apply Hjs; by right|done]). }
    unfold findShardPrimary. apply wp_bind. eapply wp_mono; [apply Hin; [|done]|].
    - intros j Hj%elem_of_ordinals. lia.
    - intros [p|] w' Hw'; [by apply wp_ret|]. apply wp_bind. eapply wp_mono; [apply (MyID_joined f0 S i 0); [lia|done]|].
      intros r w'' (-> & Hw'' & _). by apply wp_ret. }
  intros r w' [[(p & -> & Hp & Hpr) _] Hw']. split; [|done]. exists p. split; [done|]. split; [done|].
  destruct Hpr as [|[_ Hz]]; [done|]. destruct (Hall i Hi) as (q & Hq & Hpos). specialize (Hz q Hq). lia.
Qed.

(** The shards from the first on, and of the current one the pods from the
    first on. *)
Lemma attachPod_joined f0 S i p j st w : pod i j → 0 ≤ p ≤ crReplicas cr → 0 < L (host i p) → byID st = f0 → joined f0 S w →
  wp (attachPod cr (byID st) i (host i p) p j)
    (λ r w', r = Ok tt ∧ joined f0 (λ a b, S a b ∨ (a = i ∧ b = j ∧ j ≠ p)) w') w.
Proof.
  intros Hij Hp Hpos Est Hw. unfold attachPod. destruct (Z.eqb_spec j p) as [->|Hne].
  { apply wp_ret. split; [done|]. revert Hw. apply joined_more. intros a b [|(_ & _ & ?)]; [by left|done]. }
  apply wp_bind. eapply wp_mono; [by apply (MyID_joined f0 S)|]. intros r w1 (-> & Hw1 & Hmem). rewrite Est.
  destruct (match f0 !! host i j with Some n => String.eqb (nMasterID n) (host i p) | None => false end) eqn:Eb.
  { apply wp_ret. split; [done|]. assert (follows f0 i j) as Hfol.
    { destruct (f0 !! host i j) as [n|] eqn:En; [|done]. exists n, p. apply String.eqb_eq in Eb. done. }
    pose proof (proj1 (proj2 Hw1) i j Hij (or_introl Hfol)). revert Hw1. apply joined_more. intros a b [|(-> & -> & _)]; auto. }
  assert (ordinal i ∧ ordinal j ∧ ordinal p) as (Hi & Hj & Hpo) by (unfold ordinal; lia).
  assert (L (host i j) = 0) as Hz.
  { pose proof (tracks_nonneg cr L w1.2 (host i j) (proj2 (proj1 Hw1))). destruct (decide (0 < L (host i j))); [|lia].
    destruct Hne. destruct Hij. by apply (Huniq i). }
  unfold wrapE. apply wp_bind. destruct w1 as [k1 f1]. eexists _, _. split; [reflexivity|]. cbv iota beta. apply wp_ret. split; [done|].
  destruct (joined_ensure f0 S i j k1 f1 Hij Hw1) as ([Hk T] & Hf & Hd). cbn [fst snd epHost endpoint] in *.
  assert (is_Some (Fake.ensure (endpoint cr i j) f1 !! host i j)) as Hmem' by apply (ensure_is_some f1 (endpoint cr i j)).
  split; [split; [done|]|split; cbn [fst snd]].
  - by apply tracks_replicate.
  - intros a b Hab Hor. apply (follows_replicate _ i j p a b Hij Hab Hp Hpos Hmem').
    destruct Hor as [|[|(-> & -> & _)]]; [left; apply Hf; auto..|by right].
  - intros h H. apply Hd. by rewrite lookup_alter_is_Some in H.
Qed.

Lemma attachReplicas_joined f0 st w : knows L (byID st) → byID st = f0 → joined f0 (λ _ _, False) w →
  wp (attachReplicas cr st) (λ r w', r = Ok tt ∧ joined f0 (λ i j, pod i j ∧ L (host i j) = 0) w') w.
Proof.
  intros Hidx Est Hw. unfold attachReplicas.
  set (S := λ (done : list Z) i j, i ∈ done ∧ pod i j ∧ L (host i j) = 0).
  eapply wp_mono.
  { apply (wp_forE_prefix _ _ (λ done, joined f0 (S done))).
    { revert Hw. apply joined_more. by intros i j [?%elem_of_nil _]. }
    intros pre i post w1 El Hw1. assert (0 ≤ i < crShards cr) as Hi.
    { assert (i ∈ seqZ 0 (crShards cr)) as ?%elem_of_seqZ by (rewrite El; set_solver). lia. }
    apply wp_bind. eapply wp_mono; [by apply (findShardPrimary_joined f0 (S pre))|]. intros r w2 [(p & -> & Hp & Hpos) Hw2].
    rewrite (proj2 (String.eqb_neq _ _) (PodFQDN_nonempty cr i p)). eapply wp_mono.
    { apply (wp_forE_prefix _ _ (λ js, joined f0 (λ a b, S pre a b ∨ (a = i ∧ b ∈ js ∧ b ≠ p)))).
      { revert Hw2. apply joined_more. intros a b [|(_ & ?%elem_of_nil & _)]; [by left|done]. }
      intros pre' j post' w3 El' Hw3. assert (0 ≤ j ≤ crReplicas cr) as Hj.
      { apply elem_of_ordinals. rewrite El'. set_solver. }
      eapply wp_mono; [eapply (attachPod_joined f0 _ i p j); done|]. intros r w4 [-> Hw4]. split; [done|].
      revert Hw4. apply joined_more. intros a b [|(-> & [|E%list_elem_of_singleton]%elem_of_app & ?)]; [by left; left; left|left; left; right; done|].
      left. right. subst b. done. }
    intros r w3 [-> Hw3]. split; [done|]. revert Hw3. apply joined_more.
    intros a b ([|E%list_elem_of_singleton]%elem_of_app & Hab & Hz); [by left; left|]. subst a. left. right.
    split; [done|]. split; [apply elem_of_ordinals; apply Hab|]. intros ->. lia. }
  intros r w' [-> Hw']. split; [done|]. revert Hw'. apply joined_more. intros i j [Hij Hz]. left. split; [|done].
  apply elem_of_seqZ. lia.
Qed.

Lemma Meet_joined f0 S i j w : pod i j → joined f0 S w → wp (Meet (seed cr) (endpoint cr i j)) (λ r w', r = Ok tt ∧ joined f0 S w') w.
Proof.
  intros Hij Hw. destruct w as [k' f]. eexists _, _. split; [reflexivity|]. split; [done|]. cbn [fst snd].
  apply joined_ensure; [done|]. apply joined_ensure; [lia|done].
Qed.

(** Forgetting what is not a pod of a set: all of it, and nothing else. *)
Lemma forgetStale_gone f0 hosts f : fake_inv f0 → existingPodHosts cr ((k, f) : W) = Some (Ok hosts, (k, f)) →
  ∃ f', forgetStaleNodes cr (Fake.view f0) ((k, f) : W) = Some (tt, (k, f')) ∧
    ∀ h, f' !! h = if decide (is_Some (f0 !! h) ∧ h ≠ "" ∧ h ∉ hosts) then None else f !! h.
Proof.
  intros Hf0 Eh. unfold forgetStaleNodes, bind. rewrite Eh.
  assert (∀ l f, ∃ f', forM l (λ n, if negb (String.eqb (nHost n) "") && negb (bool_decide (nHost n ∈ hosts))
      then forgetEverywhere cr (nID n) else ret tt) ((k, f) : W) = Some (tt, (k, f')) ∧
    ∀ h, f' !! h = if decide (Exists (λ n, nID n = h ∧ nHost n ≠ "" ∧ nHost n ∉ hosts) l) then None else f !! h) as Hl.
  { clear f Eh. induction l as [|n l IH]; intros f.
    { exists f. split; [done|]. intros h. rewrite decide_False; [done|]. by intros ?%Exists_nil. }
    cbn [forM]. destruct (decide (nHost n ≠ "" ∧ nHost n ∉ hosts)) as [[H1 H2]|Hno].
    - rewrite (proj2 (String.eqb_neq _ _) H1), bool_decide_eq_false_2 by done. cbn [negb andb]. unfold bind.
      rewrite (forgetEverywhere_fake cr) by lia. destruct (IH (delete (nID n) f)) as (f' & E & Hf'). exists f'. split; [exact E|].
      intros h. rewrite Hf'. destruct (decide (Exists _ l)) as [Hex|Hnex]; [by rewrite decide_True by (by right)|].
      destruct (decide (h = nID n)) as [->|Hne].
      + rewrite lookup_delete_eq, decide_True; [done|]. by left.
      + rewrite lookup_delete_ne, decide_False by (done || by intros [[? _]|]%Exists_cons). done.
    - assert (negb (String.eqb (nHost n) "") && negb (bool_decide (nHost n ∈ hosts)) = false) as ->.
      { apply not_true_is_false. intros [?%negb_true_iff%String.eqb_neq ?%negb_true_iff%bool_decide_eq_false]%andb_true_iff. by apply Hno. }
      unfold bind. cbn [ret]. destruct (IH f) as (f' & E & Hf'). exists f'. split; [exact E|]. intros h. rewrite Hf'.
      apply decide_ext. rewrite Exists_cons. split; [by right|]. intros [(_ & ?)|]; [by destruct Hno|done]. }
  destruct (Hl (Fake.sortedNodes f0) f) as (f' & E & Hf'). exists f'. split; [exact E|]. intros h. rewrite Hf'. apply decide_ext.
  rewrite Exists_exists. split.
  - intros (n & Hn%(elem_of_sortedNodes f0 n Hf0) & <- & H1 & H2). rewrite <- (ok_host _ _ (Hf0 _ _ Hn)) at 2 3. split; [by eexists|done].
  - intros ([n Hn] & H1 & H2). pose proof (ok_id _ _ (Hf0 _ _ Hn)) as Ei. pose proof (ok_host _ _ (Hf0 _ _ Hn)) as Eho.
    exists n. split; [apply (elem_of_sortedNodes f0 n Hf0); by rewrite Ei|]. by rewrite Eho.
Qed.

(** The members are the declared pods: owners, and followers of an owner. *)
Definition arranged f : Prop :=
  (∀ h, is_Some (f !! h) ↔ ∃ i j, pod i j ∧ h = host i j) ∧ ∀ i j, pod i j → 0 < L (host i j) ∨ follows f i j.

Lemma reconcileMembership_arranges f hosts : tracks cr L f → existingPodHosts cr ((k, f) : W) = Some (Ok hosts, (k, f)) →
  (∀ h, h ∈ hosts ↔ ∃ i j, pod i j ∧ h = host i j) →
  wp (reconcileMembership cr (Fake.view f)) (λ _ w', arranged w'.2) ((k, f) : W).
Proof.
  intros T Eh Hhosts. pose proof (mo_inv _ _ (tr_members _ _ _ T)) as Hf. unfold reconcileMembership. apply wp_bindE. eapply wp_mono.
  { apply (wp_forE_prefix _ _ (λ _, joined f (λ _ _, False))).
    { split; [by split|]. split; [by intros i j _ [|]|]. by left. }
    intros pre ep post w El Hw. assert (ep ∈ allEndpoints cr) as (i & j & Hij & ->)%elem_of_allEndpoints by (rewrite El; set_solver).
    cbn [epHost endpoint]. destruct (hostIndex _ !! _); [by apply wp_ret|]. by apply Meet_joined. }
  intros r w1 [-> Hw1]. apply wp_bindE. eapply wp_mono.
  { apply (attachReplicas_joined f (Fake.view f)); [by apply (knows_view cr)|by apply byID_view_eq|done]. }
  intros r [k2 f2] [-> ([Hk T2] & Hfol & Hdom)]. simpl in Hk, T2, Hfol, Hdom. subst k2. apply wp_bind.
  destruct (forgetStale_gone f hosts f2 Hf) as (f3 & E & Hf3); [by rewrite (existingPodHosts_server cr k f2 f), Eh|].
  eexists _, _. split; [exact E|]. apply wp_ret. cbn [snd].
  assert (∀ i j, pod i j → f3 !! host i j = f2 !! host i j) as Hkeep.
  { intros i j Hij. rewrite Hf3, decide_False; [done|]. intros (_ & _ & Hno). apply Hno, Hhosts. by exists i, j. }
  assert (∀ i j, pod i j → 0 < L (host i j) ∨ follows f2 i j) as Hrole.
  { intros i j Hij. destruct (decide (0 < L (host i j))); [by left|right]. apply Hfol; [done|]. right. split; [done|].
    pose proof (tracks_nonneg cr L f2 (host i j) T2). lia. }
  split.
  - intros h. split.
    + rewrite Hf3. case_decide as Hst; [by intros []|]. intros Hh. destruct (Hdom h Hh) as [Hin|]; [|done].
      destruct (decide (h ∈ hosts)) as [|Hno]; [by apply Hhosts|]. destruct Hst. split; [done|]. split; [|done].
      intros ->. rewrite (membersOk_anonymous cr f (tr_members _ _ _ T)) in Hin. by destruct Hin.
    + intros (i & j & Hij & ->). rewrite Hkeep by done. destruct (Hrole i j Hij) as [Hpos|(n & p & -> & _)]; [|by eexists].
      destruct (tracks_member cr L f2 _ T2 Hpos) as (n & -> & _). by eexists.
  - intros i j Hij. destruct (Hrole i j Hij) as [|(n & p & Hn & Hp)]; [by left|right]. exists n, p. by rewrite Hkeep.
Qed.
End Attach.

#[export] Instance arranged_proper cr : Proper ((≡@{ledger}) ==> (=) ==> impl) (arranged cr).
Proof.
  intros L L' E f _ <- [Hm Hr]. split; [done|]. intros i j Hij. destruct (Hr i j Hij) as [H|(n & p & Hn & Hp & Hpos & Em)]; [left; by rewrite <- (E _)|].
  right. exists n, p. split; [done|]. split; [done|]. by rewrite <- (E _).
Qed.
