(* ===== verification/ScaleUp.v ===== *)
(** * Reconcile converges on a scale-out

    From a cluster whose slots are all owned by the first [d] shards, one pass
    gives every new shard its share, in one move each: the richest primary
    always has more than a share, so no shard is emptied on the way.  With fewer
    new shards than old ones, some old primary gives nothing. *)

From S2P Require Import Prelude GoStrings Cluster Slots Topology API ResourceBuilders.
From S2P Require Import ResourceProofs Platform Controller Reconcile Fake FakeProofs TestBed.
From S2P Require Import StatusProofs ScaleInProofs Lifecycle Formation SteadyState SlotMover ScaleOutProofs Drain.
From S2P Require Import Converge Passes Hazards Ownership.
Local Open Scope string_scope.
Local Open Scope list_scope.
Local Open Scope Z_scope.

Local Abbreviation W := (KubeWorld * gmap string NodeInfo)%type.

Lemma size_union_le_singleton (a : Z) (S : gset Z) : Z.of_nat (size ({[a]} ∪ S)) ≤ 1 + Z.of_nat (size S).
Proof. rewrite size_union_alt, size_singleton. pose proof (subseteq_size (S ∖ {[a]}) S ltac:(set_solver)). lia. Qed.

Lemma sumZ_map_le {A} (g : A → Z) l c : (∀ x, x ∈ l → g x ≤ c) → sumZ (map g l) ≤ Z.of_nat (length l) * c.
Proof.
  intros H. induction l as [|x l IH]; simpl; [lia|]. pose proof (H x (list_elem_of_here _ _)).
  assert (sumZ (map g l) ≤ Z.of_nat (length l) * c) by (apply IH; intros; apply H; by right). unfold sumZ in *. lia.
Qed.

(** The position of an element in an interval. *)
Lemma seqZ_prefix a n pre x post : seqZ a n = pre ++ x :: post → x = a + Z.of_nat (length pre) ∧ a ≤ x < a + n.
Proof.
  intros E. assert (seqZ a n !! length pre = Some x) as H by (rewrite E; by apply list_lookup_middle).
  apply lookup_seqZ in H as [-> ?]. lia.
Qed.

(** The slots are owned by the first [m] shards, by pod [o i] in shard [i]. *)
Definition ownedBy (cr : ValkeyCluster) (L : ledger) (m : Z) (o : Z → Z) : Prop :=
  (∀ i, 0 ≤ i < m → 0 ≤ o i ≤ crReplicas cr) ∧
  ∀ h, 0 < L h ↔ ∃ i, 0 ≤ i < m ∧ h = PodFQDN cr i (o i).

Section ScaleUp.
Context (cr : ValkeyCluster) (Hs : 0 < crShards cr < 2 ^ 31) (Hr : 0 ≤ crReplicas cr < 2 ^ 31).
Implicit Types (k : KubeWorld) (f : gmap string NodeInfo) (L : ledger) (o : Z → Z).
Local Abbreviation host := (PodFQDN cr).

Lemma owner_hosts_nodup m o : m ≤ crShards cr → (∀ i, 0 ≤ i < m → 0 ≤ o i ≤ crReplicas cr) →
  NoDup (map (λ i, host i (o i)) (seqZ 0 m)).
Proof.
  intros Hm Ho. apply NoDup_fmap_2_strong; [|apply NoDup_seqZ]. intros i i' Hi%elem_of_seqZ Hi'%elem_of_seqZ E.
  pose proof (Ho i ltac:(lia)). pose proof (Ho i' ltac:(lia)). apply (pod_host_inj cr) in E as [? _]; unfold ordinal; [done|lia..].
Qed.

(** What the owners have is all there is. *)
Lemma owned_total L f m o : tracks cr L f → ownedBy cr L m o → m ≤ crShards cr →
  Fake.assignedSlots f = sumZ (map (λ i, L (host i (o i))) (seqZ 0 m)).
Proof.
  intros T [Ho Hown] Hm. rewrite (assigned_by_keys f (map (λ i, host i (o i)) (seqZ 0 m))).
  - rewrite map_map. f_equal. apply map_ext. intros i. apply (tr_count _ _ _ T).
  - by apply owner_hosts_nodup.
  - intros h (i & -> & Hi%elem_of_seqZ)%list_elem_of_fmap.
    destruct (tracks_member cr L f (host i (o i)) T) as (n & Hn & _); [apply Hown; exists i; split; [lia|done]|by eexists].
  - intros h n Hn Hout. pose proof (tr_count _ _ _ T h) as Hc. pose proof (tracks_nonneg cr L f h T).
    unfold Fake.countAt in Hc. rewrite Hn in Hc. simpl in Hc. rewrite Hc.
    destruct (decide (0 < L h)) as [(i & Hi & ->)%Hown|]; [|lia]. exfalso. apply Hout, list_elem_of_fmap.
    exists i. split; [done|]. apply elem_of_seqZ. lia.
Qed.

Lemma owned_unique L m o i j j' : ownedBy cr L m o → m ≤ crShards cr → 0 ≤ i < crShards cr →
  0 ≤ j ≤ crReplicas cr → 0 ≤ j' ≤ crReplicas cr → 0 < L (host i j) → 0 < L (host i j') → j = j'.
Proof.
  intros [Ho Hown] Hm Hi Hj Hj' (i1 & H1 & E1)%Hown (i2 & H2 & E2)%Hown.
  pose proof (Ho i1 H1). pose proof (Ho i2 H2). apply (pod_host_inj cr) in E1 as [<- ->], E2 as [<- ->]; unfold ordinal; try done; lia.
Qed.

(** As many owners as shards that own. *)
Lemma owned_count L f m o : tracks cr L f → ownedBy cr L m o → 0 ≤ m ≤ crShards cr → ownerCount f = m.
Proof.
  intros T Hown Hm. pose proof (mo_inv _ _ (tr_members _ _ _ T)) as Hf. unfold ownerCount. simpl csNodes.
  rewrite <- (length_map nID). rewrite (Permutation_length (l' := map (λ i, host i (o i)) (seqZ 0 m))).
  { rewrite length_map, length_seqZ. lia. }
  apply NoDup_Permutation; [by apply owners_nodup|apply owner_hosts_nodup; [lia|apply Hown]|].
  intros h. rewrite !list_elem_of_fmap. split.
  - intros (n & -> & [Hin Ho]%list_elem_of_In%filter_In). apply list_elem_of_In, (elem_of_sortedNodes f n Hf) in Hin.
    apply (owns_countAt f _ n Hf Hin) in Ho. rewrite (tr_count _ _ _ T) in Ho. apply Hown in Ho as (i & Hi & E).
    exists i. split; [done|]. apply elem_of_seqZ. lia.
  - intros (i & -> & Hi%elem_of_seqZ). destruct (tracks_member cr L f (host i (o i)) T) as (n & Hn & _ & Ho & _).
    { apply Hown. exists i. split; [lia|done]. }
    pose proof (ok_id _ _ (Hf _ _ Hn)) as Hid. exists n. split; [done|]. apply list_elem_of_In, filter_In. split; [|done].
    apply list_elem_of_In, (elem_of_sortedNodes f n Hf). by rewrite Hid.
Qed.

(** ** One new shard *)

Context (Hmax : crShards cr ≤ TotalSlots).
Local Abbreviation share := (TotalSlots `quot` crShards cr).

Lemma share_bounds : 0 < share ∧ share * crShards cr ≤ TotalSlots.
Proof.
  rewrite Z.quot_div_nonneg by (unfold TotalSlots; lia). split; [apply Z.div_str_pos; lia|].
  rewrite Z.mul_comm. apply Z.mul_div_le. lia.
Qed.

(** Some owner has more than a share, so the richest does. *)
Lemma fattest_rich L f m o i : tracks cr L f → ownedBy cr L m o → Fake.assignedSlots f = TotalSlots → 0 ≤ m < crShards cr → m ≤ i < crShards cr →
  ∃ a, 0 ≤ a < m ∧ share < L (host a (o a)) ∧
    fattestPrimary (map_to_list f) (host i 0) = (host a (o a), L (host a (o a))).
Proof.
  intros T Hown Hc Hm Hi. destruct share_bounds as [Hsh Htot]. pose proof (owned_total L f m o T Hown ltac:(lia)) as Hsum.
  assert (∃ b, 0 ≤ b < m ∧ share < L (host b (o b))) as (b & Hb & Hrich).
  { destruct (decide (Exists (λ b, share < L (host b (o b))) (seqZ 0 m))) as [(b & Hb%elem_of_seqZ & ?)%Exists_exists|Hno].
    - exists b. split; [lia|done].
    - exfalso. pose proof (sumZ_map_le (λ i, L (host i (o i))) (seqZ 0 m) share) as Hle. rewrite length_seqZ in Hle.
      rewrite Hc in Hsum. rewrite <- Hsum in Hle. rewrite Z2Nat.id in Hle by lia.
      assert (TotalSlots ≤ m * share); [|nia]. apply Hle. intros x Hx. apply Z.nlt_ge. intros Hlt.
      apply Hno, Exists_exists. eauto. }
  destruct (fattestPrimary (map_to_list f) (host i 0)) as [src c] eqn:E.
  apply fattestPrimary_spec in E as (Hc0 & Hsrc & _ & Hbest).
  assert (∀ a, 0 ≤ a < m → host a (o a) ≠ host i 0) as Hne.
  { intros a Ha Eh. pose proof (proj1 Hown a Ha). apply (pod_host_inj cr) in Eh as [? _]; unfold ordinal; lia. }
  destruct (tracks_member cr L f (host b (o b)) T) as (n & Hn & Hcn & Hon & _); [lia|].
  apply andb_true_iff in Hon as [Hpn _]. pose proof (Hbest _ n (proj2 (elem_of_map_to_list _ _ _) Hn) (Hne b Hb) Hpn).
  destruct Hsrc as (s & Hs1%elem_of_map_to_list & _ & _ & Hcs); [lia|].
  assert (L src = c) as HL by (rewrite <- (tr_count _ _ _ T); unfold Fake.countAt; by rewrite Hs1).
  assert (0 < L src) as (a & Ha & ->)%(proj2 Hown) by lia. exists a. split; [done|]. split; [lia|]. by rewrite HL.
Qed.

(** The ledger after a share went from shard [a] to the new shard [i]. *)
Lemma owned_extend L m o a : ownedBy cr L m o → 0 ≤ m < crShards cr → o m = 0 → 0 ≤ a < m → share < L (host a (o a)) →
  (∀ h, 0 ≤ L h) → ownedBy cr (moveCount (host a (o a)) (host m 0) share L) (m + 1) o.
Proof.
  intros [Ho Hown] Hm Hom Ha Hrich Hnn. destruct share_bounds as [Hsh _]. split.
  - intros i Hi. destruct (decide (i = m)) as [->|]; [rewrite Hom; lia|apply Ho; lia].
  - intros h. unfold moveCount. destruct (decide (h = host m 0)) as [->|N1].
    { split; [|specialize (Hnn (host m 0)); lia]. intros _. exists m. rewrite Hom. split; [lia|done]. }
    destruct (decide (h = host a (o a))) as [->|N2].
    { split; [|lia]. intros _. exists a. split; [lia|done]. }
    rewrite Hown. split; intros (i & Hi & ->).
    + exists i. split; [lia|done].
    + destruct (decide (i = m)) as [->|]; [by rewrite Hom in N1|]. exists i. split; [lia|done].
Qed.

Lemma fillShard_share L m o k f : tracks cr L f → ownedBy cr L m o → o m = 0 → Fake.assignedSlots f = TotalSlots → 0 ≤ m < crShards cr →
  wp (fillShard cr share m) (λ r w', r = Ok tt ∧ w'.1 = k ∧ Fake.assignedSlots w'.2 = TotalSlots ∧
    ∃ a, 0 ≤ a < m ∧ share < L (host a (o a)) ∧ tracks cr (moveCount (host a (o a)) (host m 0) share L) w'.2) ((k, f) : W).
Proof.
  intros T Hown Hom Hc Hm. destruct share_bounds as [Hsh Htot]. unfold fillShard. apply wp_bind.
  eapply wp_mono; [apply (MyID_holds cr k L m 0); [unfold ordinal; lia..|by split]|].
  intros r [k' f1] (-> & [Hk T1] & Hin). simpl in Hk, T1, Hin. subst k'.
  rewrite (proj2 (String.eqb_neq _ _) (PodFQDN_nonempty cr m 0)).
  assert (Fake.assignedSlots f1 = TotalSlots) as Hc1.
  { rewrite <- Hc. apply assigned_counts. intros h. by rewrite (tr_count _ _ _ T), (tr_count _ _ _ T1). }
  pose proof (mo_inv _ _ (tr_members _ _ _ T1)) as Hf1.
  assert (L (host m 0) = 0) as Hz.
  { pose proof (tracks_nonneg cr L f1 (host m 0) T1). destruct (decide (0 < L (host m 0))) as [(i & Hi & E)%Hown|]; [|lia].
    pose proof (proj1 Hown i Hi). apply (pod_host_inj cr) in E as [? _]; unfold ordinal; lia. }
  destruct (fattest_rich L f1 m o m T1 Hown Hc1 Hm ltac:(lia)) as (a & Ha & Hrich & Efat).
  destruct (tracks_move cr L f1 (seed cr) (host a (o a)) (host m 0) share T1) as (f2 & Em & T2 & Ha2 & _); [|lia|done|lia|].
  { intros E. pose proof (proj1 Hown a Ha). apply (pod_host_inj cr) in E as [? _]; unfold ordinal; lia. }
  exists (Ok tt), (k, f2). split.
  - unfold bindE, bind. rewrite State_view, byID_view_eq by done.
    change (SlotCount (nodeAt f1 (host m 0))) with (Fake.countAt (host m 0) f1). rewrite (tr_count _ _ _ T1), Hz, Z.sub_0_r.
    destruct (Z.to_nat share) as [|fuel] eqn:Efuel; [lia|]. cbn [fillLoop]. rewrite (proj2 (Z.leb_gt share 0)) by lia.
    unfold bind at 1. change (mapRange f1 ((k, f1) : W)) with (Some (map_to_list f1, ((k, f1) : W))). cbv iota. rewrite Efat.
    rewrite (proj2 (String.eqb_neq _ _) (PodFQDN_nonempty cr a (o a))), (proj2 (Z.eqb_neq _ 0)) by lia. cbn [orb].
    rewrite (proj2 (Z.ltb_ge _ share)) by lia. unfold bind at 1. simpl MoveSlots. unfold onRight. cbn [snd fst]. rewrite Em.
    rewrite (proj2 (Z.eqb_neq share 0)) by lia. unfold bindE, bind. rewrite State_view, Z.sub_diag.
    destruct fuel; reflexivity.
  - cbn [fst snd]. split; [done|]. split; [done|]. split; [congruence|]. by exists a.
Qed.

(** ** All new shards *)

(** After the new shards below [m] are filled: each has its share, and the old
    ones have less than before, but not nothing; at most as many old ones have
    lost slots as new ones were filled. *)
Definition grown (d : Z) (o : Z → Z) L (m : Z) (w : W) : Prop :=
  Fake.assignedSlots w.2 = TotalSlots ∧
  ∃ L', tracks cr L' w.2 ∧ ownedBy cr L' m o ∧
    (∀ i, d ≤ i < m → L' (host i 0) = share) ∧ (∀ i, 0 ≤ i < d → L' (host i (o i)) ≤ L (host i (o i))) ∧
    ∃ S : gset Z, Z.of_nat (size S) ≤ m - d ∧ ∀ i, 0 ≤ i < d → i ∉ S → L' (host i (o i)) = L (host i (o i)).

Lemma grown_step d o L m k f : 0 < d → (∀ i, d ≤ i → o i = 0) → d ≤ m < crShards cr → grown d o L m (k, f) →
  wp (fillShard cr share m) (λ r w', r = Ok tt ∧ w'.1 = k ∧ grown d o L (m + 1) w') ((k, f) : W).
Proof.
  intros Hd Ho Hm [Hc (L1 & T1 & Hown & Hnew & Hold & S & HS & Hkept)]. simpl in Hc, T1.
  eapply wp_mono; [apply (fillShard_share L1 m o k f); try done; [apply Ho; lia|lia]|].
  intros r w' (-> & Hk & Hc' & a & Ha & Hrich & T'). split; [done|]. split; [done|]. split; [done|]. eexists. split; [exact T'|].
  split; [apply owned_extend; try done; [lia|apply Ho; lia|intros h; by eapply tracks_nonneg]|].
  assert (∀ i, 0 ≤ i < m → host i (o i) ≠ host m 0) as Hnm.
  { intros i Hi E. pose proof (proj1 Hown i Hi). apply (pod_host_inj cr) in E as [? _]; unfold ordinal; lia. }
  unfold moveCount. split.
  - intros i Hi. destruct (decide (i = m)) as [->|].
    { rewrite decide_True by done. destruct (decide (0 < L1 (host m 0))) as [(i & Hi' & E)%Hown|].
      - destruct (Hnm i Hi'). done.
      - pose proof (tracks_nonneg cr L1 f (host m 0) T1). lia. }
    assert (host i 0 = host i (o i)) as Eo by (by rewrite (Ho i) by lia). pose proof (Hnm i ltac:(lia)) as Hni. rewrite <- Eo in Hni.
    rewrite decide_False by done. rewrite decide_False; [apply Hnew; lia|]. intros E. rewrite <- E, Hnew in Hrich; lia.
  - split.
    + intros i Hi. rewrite decide_False by (apply Hnm; lia). specialize (Hold i Hi). destruct share_bounds as [Hsh _].
      destruct (decide _) as [E|]; [rewrite <- E; lia|done].
    + exists ({[a]} ∪ S). split; [pose proof (size_union_le_singleton a S); lia|]. intros i Hi Hi'. rewrite decide_False by (apply Hnm; lia).
      rewrite decide_False; [apply Hkept; [done|set_solver]|]. intros E. pose proof (proj1 Hown i ltac:(lia)). pose proof (proj1 Hown a Ha).
      apply (pod_host_inj cr) in E as [-> _]; unfold ordinal; [set_solver|lia..].
Qed.

Lemma grown_fills d o L k w : 0 < d < crShards cr → (∀ i, d ≤ i → o i = 0) → w.1 = k → grown d o L d w →
  wp (forE (newShards cr d) (fillShard cr share)) (λ r w', r = Ok tt ∧ w'.1 = k ∧ grown d o L (crShards cr) w') w.
Proof.
  intros Hd Ho Hk HG. eapply wp_mono.
  { apply (wp_forE_prefix _ _ (λ pre w', w'.1 = k ∧ grown d o L (d + Z.of_nat (length pre)) w')).
    - simpl. by rewrite Z.add_0_r.
    - intros pre i post [k' f'] El [Hk' HG']. simpl in Hk'. subst k'. apply seqZ_prefix in El as [Ei Hi]. rewrite <- Ei in HG'.
      eapply wp_mono; [apply (grown_step d o L i k f'); [lia|done|lia|done]|]. intros r w' (-> & ? & ?).
      rewrite length_app. simpl. by replace (d + Z.of_nat (length pre + 1)) with (i + 1) by lia. }
  intros r w' (-> & Hk' & HG'). split; [done|]. split; [done|]. unfold newShards in HG'. rewrite length_seqZ in HG'.
  by replace (d + Z.of_nat (Z.to_nat (crShards cr - d))) with (crShards cr) in HG' by lia.
Qed.

Lemma owned_attach L m o k f : tracks cr L f → ownedBy cr L m o → m ≤ crShards cr → ∀ st, knows L (byID st) →
  wp (attachReplicas cr st) (λ r w', r = Ok tt ∧ holds cr k L w') ((k, f) : W).
Proof.
  intros T Hown Hm st Hst. apply attachReplicas_holds; try done. intros. by apply (owned_unique L m o i).
Qed.

Lemma scaleOut_grows d o L k f : tracks cr L f → ownedBy cr L d o → (∀ i, d ≤ i → o i = 0) → 0 < d < crShards cr →
  Fake.assignedSlots f = TotalSlots →
  wp (scaleOut cr d) (λ r w', r = Ok tt ∧ w'.1 = k ∧ grown d o L (crShards cr) w') ((k, f) : W).
Proof.
  intros T Hown Ho Hd Hc. unfold scaleOut. apply wp_bindE. eapply wp_mono.
  { apply (wp_forE_prefix _ _ (λ _, holds cr k L)); [by split|]. intros pre i post w El Hw. apply seqZ_prefix in El as [_ Hi].
    apply (wp_forE_prefix _ _ (λ _, holds cr k L)); [done|]. intros pre' j post' w' El' Hw'.
    destruct (pod_ordinal cr ltac:(lia) j) as [_ Hj]; [rewrite El'; set_solver|]. unfold seed. apply Meet_holds; unfold ordinal in *; [lia..|done]. }
  intros r [k1 f1] [-> [Hk1 T1]]. simpl in Hk1, T1. subst k1. apply wp_bindE. eexists _, _. split; [apply State_view|]. cbv iota beta.
  apply wp_bindE. eapply wp_mono; [apply (owned_attach L d o k f1 T1 Hown); [lia|by apply (knows_view cr)]|].
  intros r [k2 f2] [-> [Hk2 T2]]. simpl in Hk2, T2. subst k2. apply wp_bindE. eapply wp_mono.
  { apply (grown_fills d o L k (k, f2) Hd Ho); [done|]. split; cbn [snd].
    - rewrite <- Hc. apply assigned_counts. intros h. by rewrite (tr_count _ _ _ T), (tr_count _ _ _ T2).
    - exists L. split; [done|]. split; [done|]. split; [intros i Hi; lia|]. split; [done|]. exists ∅. rewrite size_empty. split; [lia|done]. }
  intros r [k3 f3] (-> & Hk3 & Hc3 & L3 & T3 & Hown3 & Hrest). simpl in Hk3, Hc3, T3. subst k3.
  apply wp_bindE. eexists _, _. split; [apply State_view|]. cbv iota beta.
  eapply wp_mono; [apply (owned_attach L3 (crShards cr) o k f3 T3 Hown3); [lia|by apply (knows_view cr)]|].
  intros r [k4 f4] [-> [Hk4 T4]]. split; [done|]. split; [done|]. split; [|by exists L3]. cbn [snd] in *.
  rewrite <- Hc3. apply assigned_counts. intros h. by rewrite (tr_count _ _ _ T3), (tr_count _ _ _ T4).
Qed.

(** ** What is published *)

Lemma owned_serving L o f : tracks cr L f → ownedBy cr L (crShards cr) o → Fake.assignedSlots f = TotalSlots → serving cr (Fake.view f).
Proof.
  intros T Hown Hc. pose proof (mo_inv _ _ (tr_members _ _ _ T)) as Hf. split_and!.
  - intros i Hi. destruct (tracks_member cr L f (host i (o i)) T) as (n & Hn & _ & Hon & _); [apply Hown; by exists i|].
    exists (o i), n. split; [by apply Hown|]. by rewrite hostIndex_view.
  - apply (owned_count L f _ o T Hown). lia.
  - simpl. by rewrite Hc.
  - done.
Qed.

End ScaleUp.

(** The pods that own slots, for the new shards the first one. *)
Definition ownersAfter (d : Z) (o : Z → Z) (i : Z) : Z := if i <? d then o i else 0.

Lemma ownedBy_after cr L d o : ownedBy cr L d o → ownedBy cr L d (ownersAfter d o).
Proof.
  unfold ownersAfter. intros [Ho Hown]. split.
  - intros i Hi. rewrite (proj2 (Z.ltb_lt i d)) by lia. by apply Ho.
  - intros h. rewrite Hown. split; intros (i & Hi & ->); exists i; by rewrite (proj2 (Z.ltb_lt i d)) by lia.
Qed.

Section Pass.
Context (cr : ValkeyCluster) (k : KubeWorld) (f : gmap string NodeInfo) (d : Z) (o : Z → Z).
Context (Hs : 0 < crShards cr ≤ TotalSlots) (Hr : 0 ≤ crReplicas cr) (Hr32 : crReplicas cr + 1 < 2 ^ 31).
Context (Halive : mDeletionTimestamp (crMeta cr) = None) (Hfin : finalizer ∈ mFinalizers (crMeta cr)).
Context (Hst : kCRs k !! metaKey (crMeta cr) = Some cr) (Hrd : podsReady cr k).
Context (M : membersOk cr f) (Hc : Fake.assignedSlots f = TotalSlots) (Hd : 0 < d < crShards cr).
Context (Hown : ownedBy cr (λ h, Fake.countAt h f) d o).
Local Abbreviation owner := (ownersAfter d o).

Lemma sized_growth : 0 < crShards cr < 2 ^ 31.
Proof. unfold TotalSlots in Hs. lia. Qed.

Lemma owner_old i : 0 ≤ i < d → owner i = o i.
Proof. intros Hi. unfold ownersAfter. by rewrite (proj2 (Z.ltb_lt i d)) by lia. Qed.

(** One pass grows the cluster, and publishes what it is then. *)
Lemma scaleOut_pass : ∃ k' f', Reconcile (crKey cr) ((k, f) : W) = Some (Ok reshardRequeue, (k', f')) ∧
  grown cr d owner (λ h, Fake.countAt h f) (crShards cr) (k', f') ∧
  ∃ st, kCRs k' !! metaKey (crMeta cr) = Some (mkCluster (crMeta cr) (crSpec cr) st) ∧ stPhase st = PhaseReady.
Proof.
  pose proof sized_growth as Hs'. assert (∀ i, d ≤ i → owner i = 0) as Ho'.
  { intros i Hi. unfold ownersAfter. by rewrite (proj2 (Z.ltb_ge i d)) by lia. }
  pose proof (ownedBy_after cr _ d o Hown) as Hown'. pose proof (tracks_self cr f M) as T.
  pose proof (owned_count cr Hs' ltac:(lia) _ f d owner T Hown' ltac:(lia)) as Hcount.
  destruct (Reconcile_acts cr Hs' Hr Hr32 Halive Hfin k f Hst) as (k1 & He & Hpass).
  rewrite decide_True in Hpass by (apply Forall_forall; intros i Hi%elem_of_seqZ; apply Hrd; lia).
  destruct (plan_scaleOut cr f k1 Hc ltac:(lia)) as (n & Ep & Eo).
  destruct (Hpass _ (λ k' f', grown cr d owner (λ h, Fake.countAt h f) (crShards cr) (k', f')) Ep) as (k2 & f2 & E & HG & st & Hk2 & Hph).
  - intros k2 _. cbn [Kind action]. rewrite Eo, Hcount.
    destruct (scaleOut_grows cr Hs' ltac:(lia) ltac:(lia) d owner _ k2 f T Hown' Ho' Hd Hc) as (r & [k3 f3] & E3 & -> & Hk3 & HG).
    simpl in Hk3. subst k3. exists k2, f3. by split_and!.
  - exists k2, f2. split; [exact E|]. split; [done|]. exists st. split; [done|]. destruct HG as [Hc2 (L2 & T2 & Hown2 & _)].
    apply Hph. by apply (owned_serving cr Hs' ltac:(lia) L2 owner).
Qed.

(** Some old owner is not touched when there are fewer new shards. *)
Lemma grown_spares k' f' : crShards cr - d < d → grown cr d owner (λ h, Fake.countAt h f) (crShards cr) (k', f') →
  ∃ a, 0 ≤ a < d ∧ Fake.countAt (PodFQDN cr a (o a)) f' = Fake.countAt (PodFQDN cr a (o a)) f.
Proof.
  intros Hfew [_ (L' & T' & _ & _ & _ & S & HS & Hkept)]. simpl in T'.
  destruct (decide (Exists (λ i, i ∉ S) (seqZ 0 d))) as [(a & Ha%elem_of_seqZ & Hno)%Exists_exists|Hall].
  - exists a. split; [lia|]. rewrite <- (owner_old a) by lia. rewrite (tr_count _ _ _ T'). apply Hkept; [lia|done].
  - exfalso. assert (list_to_set (seqZ 0 d) ⊆ S) as Hsub.
    { intros i Hi%elem_of_list_to_set. destruct (decide (i ∈ S)); [done|]. exfalso. apply Hall, Exists_exists. by exists i. }
    apply subseteq_size in Hsub. rewrite size_list_to_set, length_seqZ in Hsub by apply NoDup_seqZ. lia.
Qed.
End Pass.

(** C8: scale-out converges, in one pass.  Take a cluster whose keyspace is
    covered by the first [d] shards, fewer than declared, with the pods of all
    declared shards ready.  One [Reconcile] gives every new shard exactly
    [TotalSlots / shards] slots on its first pod; no slot is lost, every old
    primary keeps some and gains none, and the published phase is Ready. *)
Theorem scale_out_converges (cr : ValkeyCluster) (k : KubeWorld) (f : gmap string NodeInfo) (d : Z) (o : Z → Z) :
  0 < crShards cr ≤ TotalSlots → 0 ≤ crReplicas cr → crReplicas cr + 1 < 2 ^ 31 →
  mDeletionTimestamp (crMeta cr) = None → finalizer ∈ mFinalizers (crMeta cr) →
  kCRs k !! metaKey (crMeta cr) = Some cr → podsReady cr k →
  membersOk cr f → Fake.assignedSlots f = TotalSlots → 0 < d < crShards cr → ownedBy cr (λ h, Fake.countAt h f) d o →
  ∃ k' f', Reconcile (crKey cr) (k, f) = Some (Ok reshardRequeue, (k', f')) ∧
    Fake.assignedSlots f' = TotalSlots ∧
    (∀ i, d ≤ i < crShards cr → Fake.countAt (PodFQDN cr i 0) f' = TotalSlots `quot` crShards cr) ∧
    (∀ i, 0 ≤ i < d → 0 < Fake.countAt (PodFQDN cr i (o i)) f' ≤ Fake.countAt (PodFQDN cr i (o i)) f) ∧
    ∃ st, kCRs k' !! metaKey (crMeta cr) = Some (mkCluster (crMeta cr) (crSpec cr) st) ∧ stPhase st = PhaseReady.
Proof.
  intros Hs Hr Hr32 Ha Hf Hst Hrd M Hc Hd Hown.
  destruct (scaleOut_pass cr k f d o Hs Hr Hr32 Ha Hf Hst Hrd M Hc Hd Hown) as (k2 & f2 & E & HG & Hpub).
  destruct HG as [Hc2 (L2 & T2 & Hown2 & Hnew & Hold & _)]. simpl in Hc2, T2. exists k2, f2. split; [exact E|]. split; [done|]. split_and!.
  - intros i Hi. rewrite (tr_count _ _ _ T2). by apply Hnew.
  - intros i Hi. rewrite <- (owner_old d o i Hi), (tr_count _ _ _ T2). split; [apply Hown2; exists i; split; [lia|done]|by apply Hold].
  - done.
Qed.

(** C39: scale-out does not balance the cluster.  In the situation of a scale-out
    by fewer shards than there were (the first [d] of them own all slots), some
    old primary keeps every slot it had, since each new shard takes its whole
    share from one old primary: from an even split it is left with the share of
    the smaller cluster.  The pass publishes Ready all the same, and the
    planner finds no shard to add or remove and nothing to repair.  Which primary
    is spared depends on the order in which Go visits a map. *)
Theorem scale_out_leaves_unbalanced (cr : ValkeyCluster) (k : KubeWorld) (f : gmap string NodeInfo) (d : Z) (o : Z → Z) :
  0 < crShards cr ≤ TotalSlots → 0 ≤ crReplicas cr → crReplicas cr + 1 < 2 ^ 31 →
  mDeletionTimestamp (crMeta cr) = None → finalizer ∈ mFinalizers (crMeta cr) →
  kCRs k !! metaKey (crMeta cr) = Some cr → podsReady cr k →
  membersOk cr f → Fake.assignedSlots f = TotalSlots → 0 < d < crShards cr → ownedBy cr (λ h, Fake.countAt h f) d o →
  crShards cr - d < d →
  ∃ k' f', Reconcile (crKey cr) (k, f) = Some (Ok reshardRequeue, (k', f')) ∧
    (∃ a, 0 ≤ a < d ∧ Fake.countAt (PodFQDN cr a (o a)) f' = Fake.countAt (PodFQDN cr a (o a)) f) ∧
    (∃ st, kCRs k' !! metaKey (crMeta cr) = Some (mkCluster (crMeta cr) (crSpec cr) st) ∧ stPhase st = PhaseReady) ∧
    let plan := Decide (desiredOf cr) (summarize (Fake.view f')) in Kind plan = ActionScaleReplicas ∨ Kind plan = ActionNone.
Proof.
  intros Hs Hr Hr32 Ha Hf Hst Hrd M Hc Hd Hown Hfew.
  destruct (scaleOut_pass cr k f d o Hs Hr Hr32 Ha Hf Hst Hrd M Hc Hd Hown) as (k2 & f2 & E & HG & Hpub). exists k2, f2.
  split; [exact E|]. split; [by apply (grown_spares cr f d o Hd k2)|]. split; [done|].
  destruct HG as [Hc2 (L2 & T2 & Hown2 & _)]. simpl in Hc2, T2. pose proof (sized_growth cr Hs) as Hs'.
  pose proof (owned_count cr Hs' ltac:(lia) L2 f2 _ _ T2 Hown2 ltac:(lia)) as Hcount.
  unfold Decide. rewrite summarize_covered by done. simpl. rewrite Hcount, Z.ltb_irrefl. destruct (existsb _ _); auto.
Qed.

(** [ownedBy] by evaluation. *)
Lemma ownedBy_check cr f d o : Forall (λ i, 0 ≤ o i ≤ crReplicas cr ∧ 0 < Fake.countAt (PodFQDN cr i (o i)) f) (seqZ 0 d) →
  map_Forall (λ h n, SlotCount n ≤ 0 ∨ Exists (λ i, h = PodFQDN cr i (o i)) (seqZ 0 d)) f →
  ownedBy cr (λ h, Fake.countAt h f) d o.
Proof.
  intros H1 H2. rewrite Forall_forall in H1. split; [intros i Hi; apply H1, elem_of_seqZ; lia|].
  intros h. split; [|intros (i & Hi & ->); apply H1, elem_of_seqZ; lia].
  unfold Fake.countAt. destruct (f !! h) as [n|] eqn:En; [|done]. simpl. intros Hpos.
  destruct (H2 h n En) as [?|(i & Hi%elem_of_seqZ & ->)%Exists_exists]; [lia|]. exists i. split; [lia|done].
Qed.

(** Three shards with a replica each, in the second of which the replica has been promoted, grow to five. *)
Definition threeCR : ValkeyCluster := withFinalizer (sampleCR "demo" 3 1).
Definition fiveCR : ValkeyCluster := withFinalizer (sampleCR "demo" 5 1).
Definition promotedNodes : gmap string NodeInfo := (failOver threeCR 1 1 (runningCluster threeCR)).2.

Lemma promoted_ready : podsReady fiveCR (runningKube fiveCR).
Proof.
  intros i Hi. change (crShards fiveCR) with 5 in Hi.
  assert (i = 0 ∨ i = 1 ∨ i = 2 ∨ i = 3 ∨ i = 4) as [-> |[-> |[-> |[-> | ->]]]] by lia; vm_compute; reflexivity.
Qed.

Lemma promoted_members : membersOk fiveCR promotedNodes.
Proof.
  apply (membersOk_check fiveCR promotedNodes [(0, 0); (0, 1); (1, 0); (1, 1); (2, 0); (2, 1)]).
  - unfold ordinal. repeat constructor; simpl; lia.
  - apply (bool_decide_unpack _). by vm_compute.
Qed.

Lemma promoted_owned : ownedBy fiveCR (λ h, Fake.countAt h promotedNodes) 3 (λ i, if i =? 1 then 1 else 0).
Proof. apply ownedBy_check; apply (bool_decide_unpack _); by vm_compute. Qed.

Lemma scale_out_converges_witness :
  ∃ k' f', Reconcile (crKey fiveCR) (runningKube fiveCR, promotedNodes) = Some (Ok reshardRequeue, (k', f')) ∧
    Fake.assignedSlots f' = TotalSlots ∧
    (∀ i, 3 ≤ i < 5 → Fake.countAt (PodFQDN fiveCR i 0) f' = 3276) ∧
    (∀ i, 0 ≤ i < 3 → 0 < Fake.countAt (PodFQDN fiveCR i (if i =? 1 then 1 else 0)) f' ≤
                          Fake.countAt (PodFQDN fiveCR i (if i =? 1 then 1 else 0)) promotedNodes) ∧
    ∃ st, kCRs k' !! metaKey (crMeta fiveCR) = Some (mkCluster (crMeta fiveCR) (crSpec fiveCR) st) ∧ stPhase st = PhaseReady.
Proof.
  apply (scale_out_converges fiveCR (runningKube fiveCR) promotedNodes 3 (λ i, if i =? 1 then 1 else 0));
    [split; [reflexivity|discriminate]|discriminate|reflexivity|reflexivity|left|vm_compute; reflexivity|exact promoted_ready|
     exact promoted_members|vm_compute; reflexivity|split; reflexivity|exact promoted_owned].
Defined.

(** Every old shard had a third of the slots, 5461 or 5462, and one still has. *)
Lemma scale_out_leaves_unbalanced_witness :
  Forall (λ i, 5461 ≤ Fake.countAt (PodFQDN fiveCR i (if i =? 1 then 1 else 0)) promotedNodes) (seqZ 0 3) ∧
  ∃ k' f', Reconcile (crKey fiveCR) (runningKube fiveCR, promotedNodes) = Some (Ok reshardRequeue, (k', f')) ∧
    (∃ a, 0 ≤ a < 3 ∧ Fake.countAt (PodFQDN fiveCR a (if a =? 1 then 1 else 0)) f' =
                      Fake.countAt (PodFQDN fiveCR a (if a =? 1 then 1 else 0)) promotedNodes) ∧
    (∃ st, kCRs k' !! metaKey (crMeta fiveCR) = Some (mkCluster (crMeta fiveCR) (crSpec fiveCR) st) ∧ stPhase st = PhaseReady) ∧
    let plan := Decide (desiredOf fiveCR) (summarize (Fake.view f')) in Kind plan = ActionScaleReplicas ∨ Kind plan = ActionNone.
Proof.
  split; [apply (bool_decide_unpack _); by vm_compute|].
  apply (scale_out_leaves_unbalanced fiveCR (runningKube fiveCR) promotedNodes 3 (λ i, if i =? 1 then 1 else 0));
    [split; [reflexivity|discriminate]|discriminate|reflexivity|reflexivity|left|vm_compute; reflexivity|exact promoted_ready|
     exact promoted_members|vm_compute; reflexivity|split; reflexivity|exact promoted_owned|reflexivity].
Defined.
