(* ===== verification/System.v ===== *)
(** * The operator in its environment

    Passes of the reconciler, edits of the spec, pods that come and go and
    failovers of the servers, in any order.  As long as the edits keep to two
    rules (the ones broken in [Hazards] and [Limits]), no slot is ever lost, every pass
    succeeds, and a slot is only ever owned by a pod that its StatefulSet still
    runs. *)

From S2P Require Import Prelude GoStrings Cluster Slots Topology API ResourceBuilders.
From S2P Require Import ResourceProofs Platform Controller Reconcile Fake FakeProofs TestBed.
From S2P Require Import StatusProofs ScaleInProofs Lifecycle Formation SteadyState SlotMover ScaleOutProofs Drain.
From S2P Require Import Converge Passes Hazards Ownership Attach ScaleUp.
Local Open Scope string_scope.
Local Open Scope list_scope.
Local Open Scope Z_scope.

Local Abbreviation W := (KubeWorld * gmap string NodeInfo)%type.

(** ** The invariant *)

(** The sets that carry the instance's labels are sets of its shards. *)
Record setsOk (cr : ValkeyCluster) (k : KubeWorld) : Prop := {
  so_shard i sts : ordinal i → kSets k !! setKey cr i = Some sts → shardSet cr i sts;
  so_only key sts : kSets k !! key = Some sts → mNamespace (stsMeta sts) = crNamespace cr →
    mLabels (stsMeta sts) !! "app.kubernetes.io/instance" = Some (crName cr) → ∃ i, ordinal i ∧ key = setKey cr i
}.

Definition hasSet (cr : ValkeyCluster) (k : KubeWorld) (i : Z) : Prop := ordinal i ∧ is_Some (kSets k !! setKey cr i).

(** Pod [j] of shard [i] runs and owns slots. *)
Definition owns (cr : ValkeyCluster) (L : ledger) (i j : Z) : Prop := 0 ≤ j ≤ crReplicas cr ∧ 0 < L (PodFQDN cr i j).

Definition allOwn (cr : ValkeyCluster) (L : ledger) : Prop := ∀ i, 0 ≤ i < crShards cr → ∃ j, owns cr L i j.
Definition firstOwn (cr : ValkeyCluster) (L : ledger) (d : Z) : Prop :=
  0 < d < crShards cr ∧ ∀ i, ordinal i → (∃ j, owns cr L i j) ↔ i < d.

(** Slots are owned by running pods of existing sets, by one pod of a shard;
    either all declared shards own some (a scale-in may be under way), or
    exactly the first ones do (a scale-out is). *)
Record ownersOk (cr : ValkeyCluster) (k : KubeWorld) (L : ledger) : Prop := {
  ow_pod h : 0 < L h → ∃ i j, hasSet cr k i ∧ owns cr L i j ∧ h = PodFQDN cr i j;
  ow_unique i j j' : ordinal i → owns cr L i j → owns cr L i j' → j = j';
  ow_shards : allOwn cr L ∨ ∃ d, firstOwn cr L d
}.

Definition counts (f : gmap string NodeInfo) : ledger := λ h, Fake.countAt h f.

Record safe (cr : ValkeyCluster) (w : W) : Prop := {
  sf_sets : setsOk cr w.1;
  sf_members : membersOk cr w.2;
  sf_covered : Fake.assignedSlots w.2 = TotalSlots;
  sf_owners : ownersOk cr w.1 (counts w.2)
}.

(** The sizes a spec may have. *)
Definition sized (cr : ValkeyCluster) : Prop :=
  0 < crShards cr ≤ TotalSlots ∧ 0 ≤ crReplicas cr ∧ crReplicas cr + 1 < 2 ^ 31.

(** A choice for each of finitely many shards. *)
Lemma bounded_choice (P : Z → Z → Prop) n : (∀ i, 0 ≤ i < n → ∃ j, P i j) → ∃ o : Z → Z, ∀ i, 0 ≤ i < n → P i (o i).
Proof.
  destruct (decide (0 ≤ n)) as [Hn|]; [|intros _; exists id; lia]. pattern n. apply natlike_ind; [..|done].
  - intros _. exists id. lia.
  - clear n Hn. intros n Hn IH H. destruct IH as [o Ho]; [intros; apply H; lia|]. destruct (H n) as [j Hj]; [lia|].
    exists (λ i, if i =? n then j else o i). intros i Hi. destruct (Z.eqb_spec i n) as [->|]; [done|apply Ho; lia].
Qed.

Section Frame.
Context (cr : ValkeyCluster).
Implicit Types (k : KubeWorld) (f : gmap string NodeInfo) (L : ledger).

#[local] Instance owns_proper : Proper ((≡@{ledger}) ==> (=) ==> (=) ==> iff) (owns cr).
Proof. intros L L' E i _ <- j _ <-. unfold owns. by rewrite (E (PodFQDN cr i j)). Qed.

Lemma ownersOk_equiv k L L' : L ≡ L' → ownersOk cr k L → ownersOk cr k L'.
Proof.
  intros E [H1 H2 H3]. constructor.
  - intros h. rewrite <- (E h). intros (i & j & ? & Ho & ?)%H1. exists i, j. rewrite E in Ho. done.
  - intros i j j'. rewrite <- !E. apply H2.
  - unfold allOwn, firstOwn in *. destruct H3 as [H3|(d & Hd & H3)]; [left|right; exists d; split; [done|]].
    + intros i (j & Ho)%H3. exists j. by rewrite <- E.
    + intros i Hi. rewrite <- H3 by done. split; intros (j & Ho); exists j; [by rewrite E|by rewrite <- E].
Qed.

(** Nothing of the server but the sets matters. *)
Lemma safe_shape k k' f : sameShape k k' → safe cr (k, f) → safe cr (k', f).
Proof.
  intros [E _] [[S1 S2] M C [O1 O2 O3]]. unfold hasSet in O1. constructor; [constructor|done|done|constructor]; unfold hasSet; simpl in *; by rewrite ?E.
Qed.

Lemma safe_status st w : safe cr w → safe (mkCluster (crMeta cr) (crSpec cr) st) w.
Proof. intros [[] [] C []]. constructor; [by constructor|by constructor|done|by constructor]. Qed.

(** A step that keeps every slot count. *)
Lemma safe_holds k f w' : safe cr (k, f) → holds cr k (counts f) w' → safe cr w'.
Proof.
  intros [S M C O] [Hk T]. destruct w' as [k' f']. simpl in *. subst k'. constructor; simpl; [done|apply T| |].
  - rewrite <- C. apply assigned_counts. intros h. apply (tr_count _ _ _ T).
  - apply (ownersOk_equiv k (counts f)); [|done]. intros h. symmetry. apply (tr_count _ _ _ T).
Qed.

Lemma safe_tracks k f : safe cr (k, f) → tracks cr (counts f) f.
Proof. intros S. apply tracks_self, S. Qed.
End Frame.

Section Pass.
Context (cr : ValkeyCluster) (Hsz : sized cr).
Implicit Types (k : KubeWorld) (f : gmap string NodeInfo) (L : ledger).
Local Abbreviation host := (PodFQDN cr).

Lemma sized_shards : 0 < crShards cr < 2 ^ 31.
Proof. destruct Hsz as (? & _ & _). unfold TotalSlots in *. lia. Qed.

Lemma sized_replicas : 0 ≤ crReplicas cr < 2 ^ 31.
Proof. destruct Hsz as (_ & ? & ?). lia. Qed.

Lemma pod_bounds j : 0 ≤ j ≤ crReplicas cr → ordinal j.
Proof. pose proof sized_replicas. unfold ordinal. lia. Qed.

Lemma shard_bounds i : 0 ≤ i < crShards cr → ordinal i.
Proof. pose proof sized_shards. unfold ordinal. lia. Qed.

(** The shards that have a set are those listed. *)
Lemma existing_sets k f : setsOk cr k → ∃ idxs, existingShardIndexes cr ((k, f) : W) = Some (Ok idxs, (k, f)) ∧ NoDup idxs ∧
  ∀ i, i ∈ idxs ↔ hasSet cr k i.
Proof.
  intros [S1 S2]. apply existing_indexes.
  - by intros i [? _].
  - intros i [Hi [sts Hk]]. exists sts. split; [done|]. by apply S1.
  - intros key sts H1 H2 H3. destruct (S2 key sts H1 H2 H3) as (i & Hi & ->). exists i. split; [|done]. split; [done|by eexists].
Qed.

(** Every owner is among the pods of the existing sets. *)
Lemma owner_hosts k f L : setsOk cr k → ownersOk cr k L → ∃ hosts, existingPodHosts cr ((k, f) : W) = Some (Ok hosts, (k, f)) ∧
  ∀ h, 0 < L h → h ∈ hosts.
Proof.
  intros S O. destruct (existing_sets k f S) as (idxs & E & _ & Hin). unfold existingPodHosts, bindE, bind. rewrite E.
  eexists. split; [reflexivity|]. intros h (i & j & Hi & [Hj _] & ->)%(ow_pod _ _ _ O).
  apply elem_of_list_to_set, list_elem_of_join. exists (map (host i) (ordinals cr)). split; apply list_elem_of_fmap; [|exists i; by rewrite Hin].
  exists j. by rewrite elem_of_ordinals.
Qed.

Lemma safe_unique k L i j j' : ownersOk cr k L → 0 ≤ i < crShards cr → 0 ≤ j ≤ crReplicas cr → 0 ≤ j' ≤ crReplicas cr →
  0 < L (host i j) → 0 < L (host i j') → j = j'.
Proof. intros O Hi Hj Hj' H1 H2. apply (ow_unique _ _ _ O i); [by apply shard_bounds|by split..]. Qed.

(** Ensuring the sets. *)
Lemma setsOk_ensured k k' : ensuredKube cr k k' → setsOk cr k →
  setsOk cr k' ∧ (∀ i, 0 ≤ i < crShards cr → hasSet cr k' i) ∧ ∀ i, hasSet cr k i → hasSet cr k' i.
Proof.
  intros E [S1 S2]. pose proof sized_shards as Hs.
  assert (∀ i, 0 ≤ i < crShards cr → ∃ sts, kSets k' !! setKey cr i = Some sts ∧ shardSet cr i sts) as Hdecl.
  { intros i Hi. destruct (ek_declared _ _ _ E i Hi) as (sts & Hk & He). exists sts. split; [done|].
    apply (ensuredSet_shardSet _ _ _ _ _ He). intros o Ho. by apply (S1 i o (shard_bounds i Hi)). }
  assert (∀ i, ordinal i → ¬ 0 ≤ i < crShards cr → kSets k' !! setKey cr i = kSets k !! setKey cr i) as Hother.
  { intros i Hi Hn. apply (ek_other _ _ _ E). intros i' Hi' Ek. unfold ordinal in Hi. apply setKey_inj in Ek; lia. }
  split; [constructor|split].
  - intros i sts Hi Hk. destruct (decide (0 ≤ i < crShards cr)) as [Hd|]; [|rewrite Hother in Hk by done; by apply S1].
    destruct (Hdecl i Hd) as (sts' & Hk' & ?). congruence.
  - intros key sts Hk Hns Hinst. destruct (decide (Exists (λ i, key = setKey cr i) (seqZ 0 (crShards cr)))) as [Hex|Hno].
    + apply Exists_exists in Hex as (i & Hi%elem_of_seqZ & ->). exists i. split; [apply shard_bounds; lia|done].
    + eapply S2; [|exact Hns|exact Hinst]. rewrite <- (ek_other _ _ _ E); [exact Hk|]. intros i Hi ->. apply Hno, Exists_exists.
      exists i. split; [apply elem_of_seqZ; lia|done].
  - intros i Hi. split; [by apply shard_bounds|]. destruct (Hdecl i Hi) as (sts & -> & _). by eexists.
  - intros i [Hi Hk]. split; [done|]. destruct (decide (0 ≤ i < crShards cr)) as [Hd|]; [|by rewrite Hother].
    destruct (Hdecl i Hd) as (sts & -> & _). by eexists.
Qed.

Lemma safe_ensured k k' f : ensuredKube cr k k' → safe cr (k, f) → safe cr (k', f) ∧ ∀ i, 0 ≤ i < crShards cr → hasSet cr k' i.
Proof.
  intros E [S M C [O1 O2 O3]]. destruct (setsOk_ensured k k' E S) as (S' & Hdecl & Hkeep).
  split; [|done]. constructor; [done..|]. constructor; [|done..].
  intros h (i & j & Hi & Ho & Eh)%O1. exists i, j. split; [by apply Hkeep|done].
Qed.

(** ** The actions keep the invariant *)

(** Safe, with every declared shard serving. *)
Definition serves (w : W) : Prop := safe cr w ∧ allOwn cr (counts w.2).

Lemma owner_set k L i j : ownersOk cr k L → ordinal i → owns cr L i j → hasSet cr k i.
Proof.
  intros O Hi [Hj Hpos]. destruct (ow_pod _ _ _ O _ Hpos) as (i' & j' & Hset & [Hj' _] & E).
  by apply (pod_host_inj cr) in E as [-> _]; [..|done|apply pod_bounds|apply Hset|apply pod_bounds].
Qed.

Lemma serves_sets w : serves w → ∀ i, 0 ≤ i < crShards cr → hasSet cr w.1 i.
Proof. intros [Sf Hall] i Hi. destruct (Hall i Hi) as [j Ho]. eapply owner_set; [apply Sf|by apply shard_bounds|done]. Qed.

(** *** Scale-out *)

Lemma firstOwn_owned k f d : safe cr (k, f) → firstOwn cr (counts f) d → ownedBy cr (counts f) d (ownerOrd cr f).
Proof.
  intros Sf [Hd Hown]. pose proof sized_shards as Hs.
  assert (∀ i, 0 ≤ i < d → owns cr (counts f) i (ownerOrd cr f i)) as Hord.
  { intros i Hi. destruct (proj2 (Hown i (shard_bounds i ltac:(lia)))) as (j & Hj & Hc); [lia|].
    unfold ownerOrd. destruct (List.find _ _) as [j'|] eqn:E; simpl.
    - apply find_some in E as [?%list_elem_of_In%elem_of_ordinals ?%Z.ltb_lt]. by split.
    - exfalso. apply elem_of_ordinals, list_elem_of_In in Hj. apply (find_none _ _ E) in Hj. apply Z.ltb_ge in Hj. unfold counts in Hc. lia. }
  split; [intros i Hi; by apply Hord|]. intros h. split; [|intros (i & Hi & ->); by apply Hord].
  intros (i & j & [Hi _] & Ho & ->)%(ow_pod _ _ _ (sf_owners _ _ Sf)). assert (0 ≤ i < d) as Hid.
  { split; [apply Hi|]. apply Hown; [done|by eexists]. }
  exists i. split; [done|]. f_equal. apply (ow_unique _ _ _ (sf_owners _ _ Sf) i); [done|done|by apply Hord].
Qed.

Lemma owned_ownersOk k L o : ownedBy cr L (crShards cr) o → (∀ i, 0 ≤ i < crShards cr → hasSet cr k i) → ownersOk cr k L.
Proof.
  intros [Ho Hown] Hsets. pose proof sized_shards as Hs. constructor.
  - intros h Hpos. pose proof Hpos as (i & Hi & ->)%Hown. exists i, (o i). split; [by apply Hsets|]. split; [|done]. split; [by apply Ho|done].
  - intros i j j' Hi [Hj (i1 & H1 & E1)%Hown] [Hj' (i2 & H2 & E2)%Hown].
    pose proof (pod_bounds _ (Ho i1 H1)). pose proof (pod_bounds _ (Ho i2 H2)).
    apply (pod_host_inj cr) in E1 as [-> ->]; [|done|by apply pod_bounds|by apply shard_bounds|done].
    apply (pod_host_inj cr) in E2 as [-> ->]; [done|done|by apply pod_bounds|by apply shard_bounds|done].
  - left. intros i Hi. exists (o i). split; [by apply Ho|]. apply Hown. by exists i.
Qed.

(** One owner in each declared shard, and no other. *)
Lemma owned_serves k f L o : setsOk cr k → (∀ i, 0 ≤ i < crShards cr → hasSet cr k i) → Fake.assignedSlots f = TotalSlots →
  tracks cr L f → ownedBy cr L (crShards cr) o → serves (k, f).
Proof.
  intros S Hsets Hc T Hown. assert (∀ h, counts f h = L h) as HL by (intros h; apply (tr_count _ _ _ T)). split.
  - constructor; simpl; [done|apply T|done|]. apply (ownersOk_equiv cr k L); [intros h; by rewrite HL|]. by apply (owned_ownersOk k L o).
  - intros i Hi. exists (o i). split; [by apply Hown|]. simpl. rewrite HL. apply Hown. by exists i.
Qed.

Lemma scaleOut_serves k f d : safe cr (k, f) → firstOwn cr (counts f) d → (∀ i, 0 ≤ i < crShards cr → hasSet cr k i) →
  wp (scaleOut cr d) (λ r w', r = Ok tt ∧ w'.1 = k ∧ serves w' ∧
    ∀ i j, 0 ≤ i < d → owns cr (counts f) i j → counts w'.2 (host i j) ≤ counts f (host i j)) ((k, f) : W).
Proof.
  intros Sf Hd Hsets. pose proof (firstOwn_owned k f d Sf Hd) as Hown. apply ownedBy_after in Hown. destruct Hd as [Hd _].
  eapply wp_mono.
  { apply (scaleOut_grows cr sized_shards sized_replicas (proj2 (proj1 Hsz)) d _ (counts f) k f (safe_tracks cr k f Sf) Hown).
    - intros i Hi. unfold ownersAfter. by rewrite (proj2 (Z.ltb_ge i d)) by lia.
    - done.
    - apply Sf. }
  intros r [k' f'] (-> & Hk & Hc & L' & T & Hown' & _ & Hold & _). simpl in *. subst k'. split; [done|]. split; [done|].
  split; [eapply owned_serves; [apply Sf|done..]|]. intros i j Hi Hj. unfold counts at 1. rewrite (tr_count _ _ _ T).
  assert (j = ownersAfter d (ownerOrd cr f) i) as ->; [|by apply Hold]. destruct Hown as [Hb Hown].
  apply (ow_unique _ _ _ (sf_owners _ _ Sf) i); [apply shard_bounds; lia|done|]. split; [by apply Hb|]. apply Hown. by exists i.
Qed.

Lemma firstOwn_count k f d : safe cr (k, f) → firstOwn cr (counts f) d → ownerCount f = d.
Proof.
  intros Sf Hd. pose proof (firstOwn_owned k f d Sf Hd) as Hown. destruct Hd as [Hd _].
  apply (owned_count cr sized_shards sized_replicas (counts f) f d _ (safe_tracks cr k f Sf) Hown). lia.
Qed.

(** With all declared shards owning, there are enough owners. *)
Lemma allOwn_count k f : safe cr (k, f) → allOwn cr (counts f) → crShards cr ≤ ownerCount f.
Proof.
  intros Sf Hall. pose proof sized_shards as Hs. pose proof (mo_inv _ _ (sf_members _ _ Sf)) as Hf. simpl in Hf.
  destruct (bounded_choice (λ i j, owns cr (counts f) i j) (crShards cr) Hall) as [o Ho].
  unfold ownerCount. rewrite <- (length_map nID). set (hs := map (λ i, host i (o i)) (seqZ 0 (crShards cr))).
  replace (crShards cr) with (Z.of_nat (length hs)) by (unfold hs; rewrite length_map, length_seqZ; lia).
  apply Nat2Z.inj_le, submseteq_length, NoDup_submseteq.
  - apply (owner_hosts_nodup cr sized_shards sized_replicas); [lia|]. intros i Hi. by apply Ho.
  - intros h (i & -> & Hi%elem_of_seqZ)%list_elem_of_fmap. destruct (Ho i ltac:(lia)) as [_ Hpos].
    destruct (tracks_member cr (counts f) f _ (safe_tracks cr k f Sf) Hpos) as (n & Hn & _ & Hon & _).
    pose proof (ok_id _ _ (Hf _ _ Hn)) as Hid. apply list_elem_of_fmap. exists n. split; [done|]. apply list_elem_of_In, filter_In.
    split; [|done]. apply list_elem_of_In, (elem_of_sortedNodes f n Hf). by rewrite Hid.
Qed.

(** *** Scale-in *)

Lemma serves_holds k f w' : serves (k, f) → holds cr k (counts f) w' → serves w'.
Proof.
  intros [Sf Hall] Hw. split; [by apply (safe_holds cr k f)|]. intros i (j & Hj & Hc)%Hall. exists j. split; [done|].
  unfold counts at 1. rewrite (tr_count _ _ _ (proj2 Hw)). done.
Qed.

(** The shard that takes the slots is shard 0. *)
Lemma survivor_holds k f dep w : serves (k, f) → (∀ j, ordinal j → dep ≠ host 0 j) → holds cr k (counts f) w →
  wp (firstSurvivorPrimary cr (byID (Fake.view f)) dep (crShards cr))
    (λ id w', (∃ p, id = host 0 p ∧ owns cr (counts f) 0 p) ∧ holds cr k (counts f) w') w.
Proof.
  intros [Sf Hall] Hdep Hw. cbn [snd] in Hall. pose proof sized_shards as Hs. unfold firstSurvivorPrimary. rewrite seqZ_cons by lia. cbn [firstSurvivorIn].
  apply wp_bind. eapply wp_mono.
  { apply (findShardPrimary_holds cr sized_replicas k (counts f)); [unfold ordinal; lia|by apply (knows_view cr), (safe_tracks cr k)|done]. }
  intros r w' [(p & -> & Hp & Hpr) Hw']. cbn [fst].
  rewrite (proj2 (String.eqb_neq _ _) (PodFQDN_nonempty cr 0 p)), (proj2 (String.eqb_neq _ _)) by (apply not_eq_sym, Hdep, pod_bounds, Hp).
  apply wp_ret. split; [|done]. exists p. split; [done|]. split; [done|]. destruct Hpr as [|[_ Hz]]; [done|].
  destruct (Hall 0) as (j & Hj & Hc); [lia|]. specialize (Hz j Hj). lia.
Qed.

(** A batch that goes from a departing shard to shard 0. *)
Lemma serves_move k f f' i j p n : serves (k, f) → ordinal i → crShards cr ≤ i → owns cr (counts f) i j → owns cr (counts f) 0 p →
  0 ≤ n ≤ counts f (host i j) → Fake.assignedSlots f' = Fake.assignedSlots f →
  tracks cr (moveCount (host i j) (host 0 p) n (counts f)) f' → serves (k, f').
Proof.
  intros [[S M C O] Hall] Hi Hge [Hj Hcj] [Hp Hcp] Hn Ha T. simpl in *. pose proof sized_shards as Hs.
  set (L' := moveCount (host i j) (host 0 p) n (counts f)) in *.
  assert (∀ h, counts f' h = L' h) as HL by (intros h; apply (tr_count _ _ _ T)).
  assert (∀ h, 0 < L' h → 0 < counts f h) as Hless.
  { intros h. unfold L', moveCount. destruct (decide (h = host 0 p)) as [->|]; [done|]. destruct (decide (h = host i j)) as [->|]; lia. }
  assert (∀ a b, 0 ≤ a < crShards cr → 0 < counts f (host a b) → 0 ≤ b ≤ crReplicas cr → 0 < L' (host a b)) as Hmore.
  { intros a b Hab Hpos Hb. unfold L', moveCount. destruct (decide (host a b = host 0 p)) as [<-|]; [lia|].
    rewrite decide_False; [done|]. intros E. apply (pod_host_inj cr) in E as [-> _]; [lia|by apply shard_bounds|by apply pod_bounds|done|by apply pod_bounds]. }
  assert (allOwn cr L') as Hall'.
  { intros a Hab. destruct (Hall a Hab) as (b & Hb & Hpos). exists b. split; [done|]. by apply Hmore. }
  assert (ownersOk cr k L') as O'.
  { constructor; [| |by left].
    - intros h Hpos. destruct (ow_pod _ _ _ O h (Hless h Hpos)) as (a & b & Hset & [Hb _] & ->). exists a, b. by repeat split; try apply Hset; try apply Hb.
    - intros a b b' Hab [Hb Hc%Hless] [Hb' Hc'%Hless]. apply (ow_unique _ _ _ O a); [done|by split..]. }
  split; [constructor; simpl; [done|apply T|congruence|]|].
  - apply (ownersOk_equiv cr k L'); [intros h; by rewrite HL|done].
  - intros a Hab. destruct (Hall' a Hab) as (b & Hb & Hpos). exists b. split; [done|]. by rewrite HL.
Qed.

(** A departing shard without slots that is taken away. *)
Lemma serves_without k f i : serves (k, f) → ordinal i → crShards cr ≤ i →
  (∀ j, 0 ≤ j ≤ crReplicas cr → counts f (host i j) ≤ 0) → serves (withoutShard cr i k, f).
Proof.
  intros [[[S1 S2] M C [O1 O2 O3]] Hall] Hi Hge Hz. split; [constructor; simpl in *; [constructor|done|done|constructor]|done]; simpl.
  - intros a sts Ha [_ Hk]%lookup_delete_Some. by apply S1.
  - intros key sts [_ Hk]%lookup_delete_Some. by apply S2.
  - intros h (a & b & [Ha Hset] & Ho & ->)%O1. exists a, b. split; [|done]. split; [done|]. simpl. rewrite lookup_delete_ne; [done|].
    intros E. unfold ordinal in *. apply setKey_inj in E as ->; [|lia..]. destruct Ho as [Hb Hpos]. specialize (Hz b Hb). lia.
  - done.
  - done.
Qed.

(** The pods of a shard without slots are forgotten. *)
Lemma forgetPods_holds k f i w : tracks cr (counts f) f → ordinal i → (∀ j, 0 ≤ j ≤ crReplicas cr → counts f (host i j) ≤ 0) →
  holds cr k (counts f) w →
  wp (forM (ordinals cr) (λ j,
    r <- MyID (endpoint cr i j) ;;
    match r with
    | Ok id => if negb (String.eqb id "") then forgetEverywhere cr id else ret tt
    | Err _ => ret tt
    end)) (λ _, holds cr k (counts f)) w.
Proof.
  intros T Hi Hz Hw. apply wp_forM; [done|]. intros j [Hj Hjo]%(pod_ordinal cr sized_replicas) w' Hw'.
  apply wp_bind. eapply wp_mono; [by apply (MyID_holds cr k (counts f))|]. intros r w'' (-> & Hw'' & _).
  rewrite (proj2 (String.eqb_neq _ _) (PodFQDN_nonempty cr i j)). cbn [negb].
  apply (forgetEverywhere_holds cr sized_shards sized_replicas k (counts f)); [|done].
  pose proof (tracks_nonneg cr _ f (host i j) T). specialize (Hz j Hj). lia.
Qed.

(** One departing shard: either the owner of shard 0 gets some of its slots, or
    it has none and is taken away. *)
Lemma retireShard_serves k f i q0 : serves (k, f) → owns cr (counts f) 0 q0 → hasSet cr k i → crShards cr ≤ i →
  wp (retireShard cr i) (λ r w', serves w' ∧
    ((r = Ok false ∧ w'.1 = k ∧ counts f (host 0 q0) < counts w'.2 (host 0 q0)) ∨
     (r = Ok true ∧ w'.1 = withoutShard cr i k ∧ counts w'.2 (host 0 q0) = counts f (host 0 q0)))) ((k, f) : W).
Proof.
  intros Sv Hq0 [Hi [sts Hk]] Hge. pose proof sized_shards as Hs. pose proof (proj1 Sv) as Sf. pose proof (safe_tracks cr k f Sf) as T.
  unfold retireShard. apply wp_bindE. eexists _, _. split; [apply State_view|]. cbv iota beta zeta. apply wp_bind.
  eapply wp_mono; [apply (findShardPrimary_holds cr sized_replicas k (counts f)); [done|by apply (knows_view cr)|by split]|].
  intros r w1 [(p & -> & Hp & Hpr) Hw1]. cbn [fst]. rewrite byID_view_eq by apply T.
  change (SlotCount (nodeAt f (host i p))) with (counts f (host i p)).
  rewrite (proj2 (String.eqb_neq _ _) (PodFQDN_nonempty cr i p)). cbn [negb andb]. destruct (Z.ltb_spec 0 (counts f (host i p))) as [Hpos|Hz].
  - apply wp_bind. rewrite <- (byID_view_eq f) at 1 by apply T. eapply wp_mono.
    { apply (survivor_holds k f (host i p)); [done| |done]. intros j Hj E.
      apply (pod_host_inj cr) in E as [-> _]; [lia|done|by apply pod_bounds|unfold ordinal; lia|done]. }
    intros id w2 [(q & -> & Hq) Hw2]. assert (q0 = q) as -> by (apply (ow_unique _ _ _ (sf_owners _ _ Sf) 0); [unfold ordinal; lia|done..]). rewrite (proj2 (String.eqb_neq _ _) (PodFQDN_nonempty cr 0 q)).
    destruct w2 as [k2 f2], Hw2 as [Hk2 T2]. simpl in Hk2, T2. subst k2.
    pose proof (serves_holds k f (k, f2) Sv (conj eq_refl T2)) as Sv2.
    replace (if counts f (host i p) <? drainBatchSlots then counts f (host i p) else drainBatchSlots)
      with (Z.min drainBatchSlots (counts f (host i p))) by (destruct (Z.ltb_spec (counts f (host i p)) drainBatchSlots); lia).
    destruct (tracks_member cr (counts f) f2 (host 0 q) T2 (proj2 Hq)) as (nq & Hnq & _).
    destruct (tracks_move cr (counts f) f2 (seed cr) (host i p) (host 0 q) (Z.min drainBatchSlots (counts f (host i p))) T2)
      as (f3 & Em & T3 & Ha3 & _); [|done|by eexists|unfold drainBatchSlots; lia|].
    { intros E. apply (pod_host_inj cr) in E as [-> _]; [lia|done|by apply pod_bounds|unfold ordinal; lia|apply pod_bounds, Hq]. }
    apply wp_bind. eexists _, _. split; [simpl; unfold onRight; cbn [snd fst]; rewrite Em; reflexivity|]. cbv iota beta.
    apply wp_ret. assert (∀ h, counts f2 h = counts f h) as E2 by (intros h; apply (tr_count _ _ _ T2)). split.
    2: { left. split; [done|]. split; [done|]. cbn [snd]. unfold counts at 2. rewrite (tr_count _ _ _ T3). unfold moveCount.
         rewrite decide_True by done. unfold drainBatchSlots. lia. }
    apply (serves_move k f2 f3 i p q (Z.min drainBatchSlots (counts f (host i p)))); try done.
    + split; [done|]. by rewrite E2.
    + split; [apply Hq|]. rewrite E2. apply Hq.
    + rewrite E2. unfold drainBatchSlots. lia.
    + revert T3. apply tracks_proper; [|done]. apply moveCount_proper. intros h. apply E2.
  - assert (∀ j, 0 ≤ j ≤ crReplicas cr → counts f (host i j) ≤ 0) as Hz' by (destruct Hpr as [|[_ ?]]; [lia|done]).
    apply wp_bind. eapply wp_mono; [by apply (forgetPods_holds k f i)|].
    intros [] [k2 f2] Hw2. pose proof (serves_holds k f (k2, f2) Sv Hw2) as Sv2. destruct Hw2 as [Hk2 T2]. simpl in Hk2, T2. subst k2.
    apply wp_bindE. eexists _, _. split; [by apply (deleteShard_server cr k f2 i sts)|]. cbv iota beta. apply wp_ret. split.
    2: { right. split; [done|]. split; [done|]. cbn [snd]. unfold counts at 1. by rewrite (tr_count _ _ _ T2). }
    apply serves_without; try done. intros j Hj. unfold counts at 1. rewrite (tr_count _ _ _ T2). by apply Hz'.
Qed.

Lemma hasSet_without k i a : i ≠ a → ordinal i → hasSet cr k a → hasSet cr (withoutShard cr i k) a.
Proof.
  intros Hne Hi [Ha Hk]. split; [done|]. simpl. rewrite lookup_delete_ne; [done|]. intros E. unfold ordinal in *.
  apply setKey_inj in E; lia.
Qed.

(** The sets that have to go, and what a scale-in has left to do: the slots that
    are not on the owner of shard 0, pod [q], and the sets. *)
Definition departing (k : KubeWorld) (I : gset Z) : Prop := ∀ i, i ∈ I ↔ hasSet cr k i ∧ crShards cr ≤ i.
Definition toDo (q : Z) (w : W) (n : Z) : Prop :=
  owns cr (counts w.2) 0 q ∧ ∃ I, departing w.1 I ∧ n = TotalSlots - counts w.2 (host 0 q) + Z.of_nat (size I).

Lemma departing_exists k : setsOk cr k → ∃ I, departing k I.
Proof.
  intros S. destruct (existing_sets k ∅ S) as (idxs & _ & _ & Hin). exists (list_to_set (filter (λ i, crShards cr ≤ i) idxs)). intros i.
  rewrite elem_of_list_to_set, list_elem_of_filter, Hin. tauto.
Qed.

Lemma departing_or_not k : setsOk cr k → (∃ i, hasSet cr k i ∧ crShards cr ≤ i) ∨ (∀ i, hasSet cr k i → i < crShards cr).
Proof.
  intros S. destruct (departing_exists k S) as [I HI]. destruct (set_choose_or_empty I) as [[i Hi]|E]; [left|right].
  - exists i. by apply HI.
  - intros i Hi. destruct (decide (i < crShards cr)); [done|]. exfalso. apply (not_elem_of_empty (C := gset Z) i). rewrite <- E. apply HI. split; [done|lia].
Qed.

Lemma departing_without k I i : departing k I → ordinal i → departing (withoutShard cr i k) (I ∖ {[i]}).
Proof.
  unfold departing. intros HI Hi a. rewrite elem_of_difference, elem_of_singleton, HI. unfold hasSet. simpl. split.
  - intros [[Ha Hge] Hne]. split; [|done]. apply hasSet_without; [by intros ->|done..].
  - intros [[Ha Hk] Hge]. assert (i ≠ a) as Hne by (intros ->; rewrite lookup_delete_eq in Hk; by destruct Hk).
    split; [|done]. split; [|done]. split; [done|]. rewrite lookup_delete_ne in Hk; [done|]. intros E. unfold ordinal in *.
    apply setKey_inj in E; lia.
Qed.

(** No pod owns more than all slots, so what is left to do is never negative. *)
Lemma count_bound f h : membersOk cr f → Fake.countAt h f ≤ Fake.assignedSlots f.
Proof.
  intros M. pose proof (mo_inv _ _ M) as Hf. unfold Fake.countAt. destruct (f !! h) as [n|] eqn:En; simpl.
  - pose proof (assigned_delete f h n En) as E. pose proof (assigned_nonneg (delete h f) (map_Forall_delete _ _ _ Hf)). lia.
  - by apply assigned_nonneg.
Qed.

Lemma toDo_nonneg q w n : safe cr w → toDo q w n → 0 ≤ n.
Proof.
  intros Sf (_ & I & _ & ->). pose proof (count_bound w.2 (host 0 q) (sf_members _ _ Sf)) as H. rewrite (sf_covered _ _ Sf) in H.
  unfold counts. lia.
Qed.

Lemma retireShards_serves q idxs k f n : serves (k, f) → toDo q (k, f) n →
  NoDup idxs → (∀ i, i ∈ idxs → hasSet cr k i) →
  wp (retireShards cr idxs) (λ r w', (r = Ok tt ∧ kCRs w'.1 = kCRs k ∧ serves w') ∧
    ∃ n', toDo q w' n' ∧ n' ≤ n ∧ (Exists (λ i, crShards cr ≤ i) idxs → n' < n)) ((k, f) : W).
Proof.
  revert k f n. induction idxs as [|i idxs IH]; intros k f n Sv Hn Hnd Hin; cbn [retireShards].
  { apply wp_ret. split; [done|]. exists n. split; [done|]. split; [done|]. by intros ?%Exists_nil. }
  apply NoDup_cons in Hnd as [Hi Hnd]. destruct (Z.ltb_spec i (crShards cr)) as [|Hge].
  { eapply wp_mono; [apply (IH k f n); [done..|intros; apply Hin; by right]|]. intros r w' (? & n' & ? & ? & Hlt). split; [done|].
    exists n'. split; [done|]. split; [done|]. intros [|?]%Exists_cons; [lia|by apply Hlt]. }
  pose proof (Hin i (list_elem_of_here _ _)) as Hset. apply wp_bindE. destruct Hn as (Hq & I & HI & ->). cbn [fst snd] in *.
  eapply wp_mono; [by apply (retireShard_serves k f i q)|]. intros r [k' f'] [Sv' [(-> & Hk & Hc)|(-> & Hk & Hc)]]; simpl in Hk, Hc; subst k'.
  - apply wp_ret. split; [done|]. eexists. split; [split; [split; [apply Hq|destruct Hq; cbn [snd]; lia]|by exists I]|]. simpl. split; [lia|intros _; lia].
  - assert (size I = S (size (I ∖ {[i]}))) as Hsize.
    { rewrite (size_difference_alt I {[i]}), intersection_comm_L, (subseteq_intersection_1_L {[i]} I), size_singleton.
      - assert (size I ≠ 0%nat); [|lia]. intros E%size_empty_inv. apply (not_elem_of_empty (C := gset Z) i). rewrite <- E. apply HI. by split.
      - apply singleton_subseteq_l, HI. by split. }
    eapply wp_mono; [apply (IH _ f' (TotalSlots - counts f' (host 0 q) + Z.of_nat (size (I ∖ {[i]})))); [done| |done|]|].
    + split; [split; [apply Hq|simpl; rewrite Hc; apply Hq]|]. exists (I ∖ {[i]}). split; [|done]. apply departing_without; [done|apply Hset].
    + intros a Ha. apply hasSet_without; [by intros ->|apply Hset|]. apply Hin. by right.
    + intros r w' ((-> & -> & ?) & n' & ? & ? & _). split; [done|]. exists n'. simpl in *. split; [done|]. split; [lia|intros _; lia].
Qed.

Lemma scaleIn_serves q k f n : serves (k, f) → toDo q (k, f) n →
  wp (scaleIn cr) (λ r w', (r = Ok tt ∧ kCRs w'.1 = kCRs k ∧ serves w') ∧
    ∃ n', toDo q w' n' ∧ n' ≤ n ∧ ((∃ i, hasSet cr k i ∧ crShards cr ≤ i) → n' < n)) ((k, f) : W).
Proof.
  intros Sv Hn. pose proof (proj1 Sv) as Sf. destruct (owner_hosts k f _ (sf_sets _ _ Sf) (sf_owners _ _ Sf)) as (hosts & Eh & Hown).
  unfold scaleIn. apply wp_bind. eexists _, _. split; [apply State_view|]. cbv iota beta. apply wp_bind. eapply wp_mono.
  { apply (forgetStale_holds cr sized_shards sized_replicas k (counts f) f _ hosts); [by apply (safe_tracks cr k)|done..|].
    split; [done|by apply (safe_tracks cr k)]. }
  intros [] [k' f'] Hw. pose proof (serves_holds k f _ Sv Hw) as Sv'. destruct Hw as [Hk T]. simpl in Hk. subst k'.
  assert (counts f' (host 0 q) = counts f (host 0 q)) as Ec by (apply (tr_count _ _ _ T)).
  destruct (existing_sets k f' (sf_sets _ _ Sf)) as (idxs & E & Hnd & Hin).
  apply wp_bindE. eexists _, _. split; [exact E|]. cbv iota beta. eapply wp_mono.
  { apply (retireShards_serves q idxs k f' n); [done| |done|intros i; apply Hin].
    destruct Hn as (Hq & I & HI & ->). split; [split; [apply Hq|simpl; rewrite Ec; apply Hq]|]. exists I. split; [done|]. simpl. by rewrite Ec. }
  intros r w' (? & n' & ? & ? & Hlt). split; [done|]. exists n'. split; [done|]. split; [done|].
  intros (i & Hi & Hge). apply Hlt, Exists_exists. exists i. by rewrite Hin.
Qed.

(** ** The plan of a safe cluster, and what it does *)

Lemma summarize_safe k f : safe cr (k, f) → ∃ rs, summarize (Fake.view f) = mkObserved true true (ownerCount f) rs.
Proof.
  intros Sf. eexists. apply summarize_covered, Sf.
Qed.

(** A covered cluster with enough owners is neither formed nor grown, so a set
    beyond the declared shards makes it shrink. *)
Lemma plan_departing k f : serves (k, f) → (∃ i, hasSet cr k i ∧ crShards cr ≤ i) →
  choosePlan cr (summarize (Fake.view f)) ((k, f) : W) = Some (Ok (planOf ActionScaleInShards), (k, f)).
Proof.
  intros [Sf Hall] (i & Hi & Hge). pose proof (allOwn_count k f Sf Hall). destruct (summarize_safe k f Sf) as [rs ->].
  destruct (existing_sets k f (sf_sets _ _ Sf)) as (idxs & E & _ & Hin).
  assert (Kind (Decide (desiredOf cr) (mkObserved true true (ownerCount f) rs)) ≠ ActionForm ∧
          Kind (Decide (desiredOf cr) (mkObserved true true (ownerCount f) rs)) ≠ ActionScaleOutShards) as [N1 N2].
  { unfold Decide. simpl. rewrite (proj2 (Z.ltb_ge (ownerCount f) (crShards cr))) by done. by repeat case_match. }
  unfold choosePlan. rewrite !bool_decide_eq_false_2 by done. cbn [negb andb]. cbv iota.
  unfold hasExcessShardStatefulSets, bindE, bind. rewrite E. cbv iota. unfold ret.
  assert (existsb (λ i, crShards cr <=? i) idxs = true) as ->; [|done].
  apply existsb_exists. exists i. by rewrite <- list_elem_of_In, Hin, Z.leb_le.
Qed.

(** Without such a set, the owners are the declared shards, one pod each. *)
Lemma fitted_owned k f : serves (k, f) → (∀ i, hasSet cr k i → i < crShards cr) → ∃ o, ownedBy cr (counts f) (crShards cr) o.
Proof.
  intros [Sf Hall] Hno. destruct (bounded_choice (λ i j, owns cr (counts f) i j) (crShards cr) Hall) as [o Ho]. exists o. split; [intros i Hi; by apply Ho|].
  intros h. split; [|intros (i & Hi & ->); by apply Ho].
  intros (i & j & Hset & Hj & ->)%(ow_pod _ _ _ (sf_owners _ _ Sf)). assert (0 ≤ i < crShards cr) as Hi by (split; [apply Hset|by apply Hno]).
  exists i. split; [done|]. f_equal. apply (ow_unique _ _ _ (sf_owners _ _ Sf) i); [apply Hset|done|by apply Ho].
Qed.

Lemma plan_fitted k f : serves (k, f) → (∀ i, hasSet cr k i → i < crShards cr) →
  ∃ p, choosePlan cr (summarize (Fake.view f)) ((k, f) : W) = Some (Ok p, (k, f)) ∧ (Kind p = ActionScaleReplicas ∨ Kind p = ActionNone).
Proof.
  intros Sv Hno. pose proof (proj1 Sv) as Sf. destruct (fitted_owned k f Sv Hno) as [o Hown].
  pose proof (owned_count cr sized_shards sized_replicas _ f _ o (safe_tracks cr k f Sf) Hown ltac:(pose proof sized_shards; lia)) as Hcount.
  destruct (summarize_safe k f Sf) as [rs ->]. destruct (choosePlan_server cr k f (mkObserved true true (ownerCount f) rs)) as (p & E & Hp).
  exists p. split; [done|]. destruct Hp as [->|(_ & idxs & i & E' & Hi & Hge)].
  - unfold Decide. simpl. rewrite Hcount, Z.ltb_irrefl. destruct (existsb _ _); auto.
  - exfalso. destruct (existing_sets k f (sf_sets _ _ Sf)) as (idxs' & E'' & _ & Hin). rewrite E'' in E'. injection E' as <-.
    apply Hin, Hno in Hi. lia.
Qed.

(** What the action of a pass does to a safe cluster.  *)
Lemma wp_acts kind k f (Q : W → Prop) : (∀ k2 k3 f2, sameShape k2 k3 → Q (k2, f2) → Q (k3, f2)) →
  (∀ k1, sameShape k k1 → wp (action cr (Fake.view f) (summarize (Fake.view f)) kind)
     (λ r w', r = Ok tt ∧ kCRs w'.1 = kCRs k1 ∧ Q w') ((k1, f) : W)) →
  acts cr kind k f (λ k' f', Q (k', f')).
Proof.
  intros HQ Hwp k1 Hk1. destruct (Hwp k1 Hk1) as (r & [k2 f2] & E & -> & Hk & HQ2). exists k2, f2. split; [done|]. split; [done|].
  intros k3 Hk3. by apply (HQ k2).
Qed.

Lemma acts_mono kind k f (Q Q' : KubeWorld → gmap string NodeInfo → Prop) :
  (∀ k' f', Q k' f' → Q' k' f') → acts cr kind k f Q → acts cr kind k f Q'.
Proof. intros HQ Ha k1 Hk1. destruct (Ha k1 Hk1) as (k2 & f2 & ? & ? & ?). exists k2, f2. auto. Qed.

Lemma serves_shape k k' f : sameShape k k' → serves (k, f) → serves (k', f).
Proof. intros Hk [Sf Hall]. split; [by apply (safe_shape cr k)|done]. Qed.

Lemma hasSet_shape k k' i : sameShape k k' → hasSet cr k' i ↔ hasSet cr k i.
Proof. intros [E _]. unfold hasSet. by rewrite E. Qed.

Lemma toDo_sets q k k' f n : (∀ i, hasSet cr k' i ↔ hasSet cr k i) → toDo q (k, f) n → toDo q (k', f) n.
Proof. intros Hk (Hq & I & HI & ->). split; [done|]. exists I. split; [|done]. intros i. by rewrite (HI i), (Hk i). Qed.

Lemma toDo_exists w : serves w → ∃ q n, toDo q w n.
Proof.
  intros [Sf Hall]. destruct (Hall 0) as [q Hq]; [pose proof sized_shards; lia|]. destruct (departing_exists w.1 (sf_sets _ _ Sf)) as [I HI].
  exists q. eexists. split; [done|]. by exists I.
Qed.

Lemma departing_acts q k f n : serves (k, f) → toDo q (k, f) n → (∃ i, hasSet cr k i ∧ crShards cr ≤ i) →
  acts cr ActionScaleInShards k f (λ k' f', serves (k', f') ∧ ∃ n', toDo q (k', f') n' ∧ n' < n).
Proof.
  intros Sv Hn (i & Hi & Hge). apply (wp_acts ActionScaleInShards k f (λ w', serves w' ∧ ∃ n', toDo q w' n' ∧ n' < n)).
  - intros k2 k3 f2 Hk (Sv2 & n' & Hn' & Hlt). split; [by apply (serves_shape k2)|]. exists n'. split; [|done].
    apply (toDo_sets q k2); [intros a; by apply hasSet_shape|done].
  - intros k1 Hk1. eapply wp_mono.
    { apply (scaleIn_serves q k1 f n); [by apply (serves_shape k)|]. apply (toDo_sets q k); [intros a; by apply hasSet_shape|done]. }
    intros r [k' f'] ((-> & ? & Sv') & n' & Hn' & _ & Hlt). split; [done|]. split; [done|]. split; [done|]. exists n'. split; [done|].
    apply Hlt. exists i. by rewrite (hasSet_shape k k1 i Hk1).
Qed.

(** A cluster with the declared shards and no other; and one whose members are
    the declared pods, each an owner or a replica of the owner of its shard. *)
Definition fitted (w : W) : Prop := serves w ∧ ∀ i, hasSet cr w.1 i → i < crShards cr.
Definition complete (w : W) : Prop := fitted w ∧ arranged cr (counts w.2) w.2.

Lemma fitted_shape k k' f : sameShape k k' → fitted (k, f) → fitted (k', f).
Proof. intros Hk [Sv Hno]. split; [by apply (serves_shape k)|]. intros i. simpl. rewrite (hasSet_shape k k' i Hk). apply Hno. Qed.

Lemma fitted_hosts k f : fitted (k, f) → ∃ hosts, existingPodHosts cr ((k, f) : W) = Some (Ok hosts, (k, f)) ∧
  ∀ h, h ∈ hosts ↔ ∃ i j, (0 ≤ i < crShards cr ∧ 0 ≤ j ≤ crReplicas cr) ∧ h = host i j.
Proof.
  intros [Sv Hno]. destruct (existing_sets k f (sf_sets _ _ (proj1 Sv))) as (idxs & E & _ & Hin). unfold existingPodHosts, bindE, bind. rewrite E.
  eexists. split; [reflexivity|]. intros h. rewrite elem_of_list_to_set, list_elem_of_join. split.
  - intros (l & Hh & (i & -> & Hi%Hin)%list_elem_of_fmap). apply list_elem_of_fmap in Hh as (j & -> & Hj%elem_of_ordinals).
    exists i, j. split; [|done]. split; [|done]. split; [apply Hi|by apply Hno].
  - intros (i & j & [Hi Hj] & ->). exists (map (host i) (ordinals cr)). split; apply list_elem_of_fmap.
    + exists j. by rewrite elem_of_ordinals.
    + exists i. split; [done|]. by apply Hin, (serves_sets _ Sv).
Qed.

(** Membership changes no slot count and no set, and makes the members what they
    should be. *)
Lemma membership_completes k f : fitted (k, f) →
  wp (reconcileMembership cr (Fake.view f)) (λ r w', r = Ok tt ∧ w'.1 = k ∧ complete w' ∧ ∀ h, counts w'.2 h = counts f h) ((k, f) : W).
Proof.
  intros F. pose proof F as [Sv Hno]. pose proof (proj1 Sv) as Sf. destruct (fitted_hosts k f F) as (hosts & Eh & Hhosts).
  assert (∀ h, 0 < counts f h → h ∈ hosts) as Hown.
  { intros h (i & j & Hset & Hj & ->)%(ow_pod _ _ _ (sf_owners _ _ Sf)). apply Hhosts. exists i, j. split; [|done].
    split; [split; [apply Hset|by apply Hno]|apply Hj]. }
  assert (∀ i j j', 0 ≤ i < crShards cr → 0 ≤ j ≤ crReplicas cr → 0 ≤ j' ≤ crReplicas cr →
    0 < counts f (host i j) → 0 < counts f (host i j') → j = j') as Huniq
    by (intros; eapply safe_unique; [apply (sf_owners _ _ Sf)|done..]).
  eapply wp_mono.
  { apply (wp_conj _ (λ r w', r = Ok tt ∧ holds cr k (counts f) w') (λ _ w', arranged cr (counts f) w'.2)).
    - by apply (reconcileMembership_holds cr sized_shards sized_replicas k (counts f) Huniq f hosts); [apply tracks_self, Sf|..].
    - apply (reconcileMembership_arranges cr sized_shards sized_replicas k (counts f) Huniq (proj2 Sv) f hosts); [apply tracks_self, Sf|done..]. }
  intros r [k' f'] [[-> Hw] Harr]. split; [done|]. split; [apply Hw|]. split; [|intros h; apply (tr_count _ _ _ (proj2 Hw))]. split.
  - split; [by apply (serves_holds k f)|]. rewrite (proj1 Hw). apply Hno.
  - revert Harr. apply arranged_proper; [|done]. intros h. symmetry. apply (tr_count _ _ _ (proj2 Hw)).
Qed.

Lemma fitted_acts k f : fitted (k, f) → ∃ p, choosePlan cr (summarize (Fake.view f)) ((k, f) : W) = Some (Ok p, (k, f)) ∧
  acts cr (Kind p) k f (λ k' f', complete (k', f') ∧ ∀ h, counts f' h = counts f h).
Proof.
  intros F. destruct (plan_fitted k f (proj1 F) (proj2 F)) as (p & Ep & Hkind). exists p. split; [done|].
  apply (wp_acts _ k f (λ w', complete w' ∧ ∀ h, counts w'.2 h = counts f h)).
  - intros k2 k3 f2 Hk [[F2 A2] HL]. split; [split; [by apply (fitted_shape k2)|done]|done].
  - intros k1 Hk1. assert (wp (reconcileMembership cr (Fake.view f))
      (λ r w', r = Ok tt ∧ kCRs w'.1 = kCRs k1 ∧ complete w' ∧ ∀ h, counts w'.2 h = counts f h) ((k1, f) : W)) as Hm.
    { eapply wp_mono; [apply membership_completes; by apply (fitted_shape k)|]. by intros r w' (-> & -> & ?). }
    destruct Hkind as [-> | ->]; exact Hm.
Qed.

(** With the first [d] shards owning, the others are given their share; no old
    owner gains. *)
Lemma growing_acts k f d : safe cr (k, f) → firstOwn cr (counts f) d → (∀ i, 0 ≤ i < crShards cr → hasSet cr k i) →
  ∃ p, choosePlan cr (summarize (Fake.view f)) ((k, f) : W) = Some (Ok p, (k, f)) ∧
    acts cr (Kind p) k f (λ k' f', serves (k', f') ∧ (∀ i, hasSet cr k' i ↔ hasSet cr k i) ∧
      ∀ i j, 0 ≤ i < d → owns cr (counts f) i j → counts f' (host i j) ≤ counts f (host i j)).
Proof.
  intros Sf Hd Hsets. pose proof (firstOwn_count k f d Sf Hd) as Hc. destruct (plan_scaleOut cr f k) as (n & Ep & Eo).
  - apply Sf.
  - destruct Hd as [? _]. lia.
  - eexists. split; [exact Ep|]. apply (wp_acts _ k f (λ w', serves w' ∧ (∀ i, hasSet cr w'.1 i ↔ hasSet cr k i) ∧
      ∀ i j, 0 ≤ i < d → owns cr (counts f) i j → counts w'.2 (host i j) ≤ counts f (host i j))).
    { intros k2 k3 f2 Hk (Sv & Hs & Hle). split; [by apply (serves_shape k2)|]. split; [|done]. intros i. simpl. by rewrite (hasSet_shape k2 k3 i Hk), (Hs i). }
    intros k1 Hk1. cbn [action Kind]. rewrite Eo, Hc. eapply wp_mono; [apply scaleOut_serves; [by apply (safe_shape cr k)|done|]|].
    + intros i Hi. apply (hasSet_shape k k1 i Hk1). by apply Hsets.
    + intros r w' (-> & E & Sv & Hle). split; [done|]. split; [by rewrite E|]. split; [done|]. split; [|done].
      intros i. rewrite E. by apply hasSet_shape.
Qed.

(** Whatever a pass plans on a safe cluster, afterwards every declared shard
    serves. *)
Lemma safe_acts k f : safe cr (k, f) → (∀ i, 0 ≤ i < crShards cr → hasSet cr k i) →
  ∃ p, choosePlan cr (summarize (Fake.view f)) ((k, f) : W) = Some (Ok p, (k, f)) ∧ acts cr (Kind p) k f (λ k' f', serves (k', f')).
Proof.
  intros Sf Hsets. destruct (ow_shards _ _ _ (sf_owners _ _ Sf)) as [Hall|[d Hd]]; simpl in *.
  - pose proof (conj Sf Hall : serves (k, f)) as Sv. destruct (toDo_exists _ Sv) as (q & n & Hn).
    destruct (departing_or_not k (sf_sets _ _ Sf)) as [Hex|Hno].
    + eexists. split; [by apply plan_departing|]. eapply acts_mono; [|by apply (departing_acts q k f n)]. by intros k' f' [? _].
    + destruct (fitted_acts k f (conj Sv Hno)) as (p & Ep & Ha). exists p. split; [done|].
      eapply acts_mono; [|exact Ha]. by intros k' f' [[[? _] _] _].
  - destruct (growing_acts k f d Sf Hd Hsets) as (p & Ep & Ha). exists p. split; [done|]. eapply acts_mono; [|exact Ha]. by intros k' f' [? _].
Qed.

(** A whole pass. *)
Lemma pass_safe k f : mDeletionTimestamp (crMeta cr) = None → finalizer ∈ mFinalizers (crMeta cr) →
  kCRs k !! metaKey (crMeta cr) = Some cr → safe cr (k, f) →
  ∃ n k' f', Reconcile (crKey cr) ((k, f) : W) = Some (Ok n, (k', f')) ∧ storedCR cr k' ∧
    (∀ i, 0 ≤ i < crShards cr → hasSet cr k' i) ∧ safe cr (k', f').
Proof.
  intros Ha Hf Hst Sf. destruct Hsz as (_ & Hr & Hr32).
  destruct (Reconcile_acts cr sized_shards Hr Hr32 Ha Hf k f Hst) as (k1 & He & Hpass).
  destruct (safe_ensured k k1 f He Sf) as [Sf1 Hsets]. case_decide.
  - destruct (safe_acts k1 f Sf1 Hsets) as (p & Ep & Hacts).
    destruct (Hpass p _ Ep Hacts) as (k2 & f2 & E & Sv2 & st & Hst2 & _). eexists _, k2, f2. split; [exact E|]. split; [by exists st|].
    split; [apply (serves_sets _ Sv2)|apply Sv2].
  - destruct Hpass as (k2 & E & Hsh & Hst2). exists requeueAfter, k2, f. split; [done|]. split; [done|].
    split; [intros i Hi; apply (hasSet_shape k1 k2 i Hsh), Hsets, Hi|]. by apply (safe_shape cr k1).
Qed.
End Pass.
