(* ===== verification/Limits.v ===== *)
(** * Where the guarantees end

    Two ways in which the reconciler loses slots, each for every cluster in which
    it can happen: a departing shard whose pods do not answer is deleted with the
    slots it owns, and a number of replicas that is lowered below the pod that
    owns the slots of its shard makes the next pass forget the owner. *)

From S2P Require Import Prelude GoStrings Cluster Slots Topology API ResourceBuilders.
From S2P Require Import ResourceProofs Platform Controller Reconcile Fake FakeProofs TestBed.
From S2P Require Import StatusProofs ScaleInProofs Lifecycle Formation SteadyState SlotMover ScaleOutProofs Drain.
From S2P Require Import Converge Passes Hazards Ownership Attach ScaleUp System.
Local Open Scope string_scope.
Local Open Scope list_scope.
Local Open Scope Z_scope.

Local Abbreviation W := (KubeWorld * gmap string NodeInfo)%type.

(** ** A departing shard that does not answer *)

(** The turn of a shard none of whose pods answers, on any platform and cluster:
    whatever slots the state shows, the shard is deleted. *)
Section Unreachable.
Context {W : Type} `{!Platform W} `{!ClusterAdmin W}.
Context (cr : ValkeyCluster) (i : Z) (w : W) (Hr : 0 ≤ crReplicas cr).
Context (Hdead : ∀ j, 0 ≤ j ≤ crReplicas cr → ∃ e, MyID (endpoint cr i j) w = Some (Err e, w)).

Lemma findShardPrimary_dead idx : findShardPrimary cr i idx w = Some (("", -1), w).
Proof.
  assert (∀ js, (∀ j, j ∈ js → 0 ≤ j ≤ crReplicas cr) → findShardPrimaryIn cr i idx js w = Some (None, w)) as Hin.
  { induction js as [|j js IH]; intros Hjs; [done|]. cbn [findShardPrimaryIn]. unfold bind.
    destruct (Hdead j (Hjs j (list_elem_of_here _ _))) as [e ->]. apply IH. intros j' Hj'. apply Hjs. by right. }
  unfold findShardPrimary, bind. rewrite Hin by (intros j; apply elem_of_ordinals). by destruct (Hdead 0 ltac:(lia)) as [e ->].
Qed.

Lemma retireShard_dead st w' : State (seed cr) w = Some (Ok st, w) → deleteShard cr i w = Some (Ok tt, w') →
  retireShard cr i w = Some (Ok true, w').
Proof.
  intros Hst Hdel. unfold retireShard, bindE at 1, bind at 1. cbv zeta. rewrite Hst. unfold bind at 1. rewrite findShardPrimary_dead.
  cbn [fst]. rewrite String.eqb_refl. cbn [negb andb]. unfold bind at 1. rewrite forM_quiet.
  - unfold bindE, bind. by rewrite Hdel.
  - intros j Hj%elem_of_ordinals. unfold bind. by destruct (Hdead j Hj) as [e ->].
Qed.

End Unreachable.

(** The only shard that departs. *)
Lemma retireShards_only {W} `{!Platform W} `{!ClusterAdmin W} cr i (w : W) idxs w' : NoDup idxs → i ∈ idxs → crShards cr ≤ i → (∀ a, a ∈ idxs → crShards cr ≤ a → a = i) →
  retireShard cr i w = Some (Ok true, w') → retireShards cr idxs w = Some (Ok tt, w').
Proof.
  intros Hnd Hin Hge Honly Hret. induction idxs as [|a idxs IH]; [by apply elem_of_nil in Hin|]. apply NoDup_cons in Hnd as [Ha Hnd].
  cbn [retireShards]. destruct (Z.ltb_spec a (crShards cr)) as [Hlt|Hge'].
  - apply IH; [done|..]; [|intros b Hb; apply Honly; by right]. apply elem_of_cons in Hin as [->|]; [lia|done].
  - assert (a = i) as -> by (apply Honly; [left|done]). unfold bindE, bind. rewrite Hret. cbv iota.
    assert (∀ w0, retireShards cr idxs w0 = Some (Ok tt, w0)) as ->; [|done]. intros w0.
    assert (∀ b, b ∈ idxs → b < crShards cr) as Hall.
    { intros b Hb. destruct (Z.ltb_spec b (crShards cr)); [done|]. assert (b = i) as -> by (apply Honly; [by right|done]). done. }
    clear -Hall. induction idxs as [|b idxs IH]; [done|]. cbn [retireShards]. rewrite (proj2 (Z.ltb_lt _ _) (Hall b (list_elem_of_here _ _))).
    apply IH. intros c Hc. apply Hall. by right.
Qed.

(** On the in-memory server and a cluster with pods that do not answer, the sweep
    of stale nodes spares the pods of the sets there are. *)
Lemma forgetStale_flaky cr k U f hosts : fake_inv f → existingPodHosts cr (k, mkFlaky U f) = Some (Ok hosts, (k, mkFlaky U f)) →
  ∃ f', forgetStaleNodes cr (Fake.view f) (k, mkFlaky U f) = Some (tt, (k, mkFlaky U f')) ∧ ∀ h, h ∈ hosts → f' !! h = f !! h.
Proof.
  intros Hf Eh. set (I := λ w : KubeWorld * FlakyWorld, w.1 = k ∧ unreachable w.2 = U ∧ ∀ h, h ∈ hosts → cluster w.2 !! h = f !! h).
  cut (wp (forgetStaleNodes cr (Fake.view f)) (λ _, I) (k, mkFlaky U f)).
  { intros ([] & [k' [U' f']] & E & Hk & HU & Hh). simpl in *. subst. by exists f'. }
  unfold forgetStaleNodes. apply wp_bind. eexists _, _. split; [exact Eh|]. cbv iota. apply wp_forM; [by split_and!|].
  intros n Hn w Hw. simpl in Hn. apply (elem_of_sortedNodes f n Hf) in Hn. pose proof (ok_host _ _ (Hf _ _ Hn)) as Ehn.
  destruct (negb _ && negb _) eqn:E; [|by apply wp_ret]. apply andb_true_iff in E as [_ E%negb_true_iff%bool_decide_eq_false].
  rewrite Ehn in E. unfold forgetEverywhere. apply wp_forM; [done|]. intros ep _ [k' [U' f']] (Hk & HU & Hh). simpl in *. subst k' U'.
  apply wp_bind. destruct (decide (epHost ep ∈ U)) as [HU|HU]; eexists _, _.
  - split; [simpl; unfold onRight, dialing; cbn [snd fst unreachable]; rewrite bool_decide_eq_true_2 by done; reflexivity|].
    apply wp_ret. by split_and!.
  - split; [simpl; unfold onRight, dialing; cbn [snd fst unreachable]; rewrite bool_decide_eq_false_2 by done; reflexivity|].
    apply wp_ret. split_and!; [done|done|]. intros h Hin. simpl. rewrite lookup_delete_ne; [by apply Hh|]. by intros <-.
Qed.

(** C37: the guarantee of scale-in ends with the pods that answer.  Take any
    in-memory cluster whose seed answers and where none of the pods of shard [i],
    the one that departs, answers [CLUSTER MYID] in this pass.  Whatever slots
    these pods own in the state that is read, [scaleIn] succeeds in this one pass
    and deletes the StatefulSet and the volume claims of the shard, while the
    nodes of its pods are still members with all the slots they had. *)
Theorem scale_in_deletes_unreachable_owner (cr : ValkeyCluster) (k : KubeWorld) (U : gset string) (f : gmap string NodeInfo) (i : Z) :
  0 ≤ crReplicas cr → setsOk cr k → fake_inv f → epHost (seed cr) ∉ U → (∀ j, 0 ≤ j ≤ crReplicas cr → PodFQDN cr i j ∈ U) →
  crShards cr ≤ i → hasSet cr k i → (∀ a, hasSet cr k a → crShards cr ≤ a → a = i) →
  ∃ k' f', scaleIn cr (k, mkFlaky U f) = Some (Ok tt, (k', mkFlaky U f')) ∧
    kSets k' !! setKey cr i = None ∧
    (∀ m, m ∈ kPVCs k' → ownedPVC cr m = true → mLabels m !! LabelShard ≠ Some (Itoa i)) ∧
    ∀ j, 0 ≤ j ≤ crReplicas cr → Fake.countAt (PodFQDN cr i j) f' = Fake.countAt (PodFQDN cr i j) f.
Proof.
  intros Hr S Hf Hseed Hdead Hge [Hi [sts Hk]] Honly.
  destruct (existing_sets cr k ∅ S) as (idxs & E & Hnd & Hin).
  assert (∀ v, existingShardIndexes cr (k, v : FlakyWorld) = Some (Ok idxs, (k, v))) as Eidx.
  { intros v. assert (existingShardIndexes cr (k, v) = (r <- (λ w, match existingShardIndexes cr ((w.1, ∅) : W) with
      | Some (r, _) => Some (r, w) | None => None end) ;; ret r) (k, v)) as -> by done. unfold bind. simpl fst. by rewrite E. }
  assert (∀ g, State (seed cr) (k, mkFlaky U g) = Some (Ok (Fake.view g), (k, mkFlaky U g))) as Est.
  { intros g. simpl. unfold onRight, dialing. cbn [snd fst unreachable]. by rewrite bool_decide_eq_false_2. }
  destruct (forgetStale_flaky cr k U f (list_to_set (mjoin (map (λ i, map (PodFQDN cr i) (ordinals cr)) idxs))) Hf) as (f' & Ef & Hkept).
  { unfold existingPodHosts, bindE, bind. by rewrite Eidx. }
  exists (withoutShard cr i k), f'. split_and!.
  - unfold scaleIn, bind at 1. rewrite Est. unfold bind at 1. rewrite Ef. unfold bindE, bind. rewrite Eidx.
    apply (retireShards_only cr i); [done|by apply Hin|done|intros a Ha; apply Honly, Hin, Ha|].
    apply (retireShard_dead cr i _ Hr) with (st := Fake.view f'); [|apply Est|by apply (deleteShard_server cr k _ i sts)].
    intros j Hj. simpl. unfold onRight, dialing. cbn [snd fst unreachable epHost endpoint]. rewrite bool_decide_eq_true_2 by auto. by eexists.
  - apply lookup_delete_eq.
  - intros m Hm Hown. apply (withoutShard_claims cr i k m) in Hm as [_ H]; [by apply H|exact Hi].
  - intros j Hj. unfold Fake.countAt. rewrite Hkept; [done|]. apply elem_of_list_to_set, list_elem_of_join.
    exists (map (PodFQDN cr i) (ordinals cr)). split; apply list_elem_of_fmap; [exists j; by rewrite elem_of_ordinals|].
    exists i. split; [done|]. apply Hin. by split; [|eexists].
Qed.

(** [setsOk] and the sets there are, by evaluation. *)
Lemma setsOk_listed cr k (idxs : list Z) : Forall ordinal idxs →
  map_Forall (λ key sts, Exists (λ i, key = setKey cr i ∧ mNamespace (stsMeta sts) = crNamespace cr ∧
    mLabels (stsMeta sts) !! "app.kubernetes.io/instance" = Some (crName cr) ∧ mLabels (stsMeta sts) !! LabelShard = Some (Itoa i)) idxs) (kSets k) →
  setsOk cr k ∧ ∀ a, hasSet cr k a → a ∈ idxs.
Proof.
  intros Hb H. rewrite Forall_forall in Hb.
  assert (∀ a sts, ordinal a → kSets k !! setKey cr a = Some sts → a ∈ idxs ∧ shardSet cr a sts) as Hall.
  { intros a sts Ha Hk. destruct (proj1 (Exists_exists _ _) (H _ _ Hk)) as (i & Hi & Ek & Hset). unfold ordinal in *. pose proof (Hb i Hi).
    apply setKey_inj in Ek as ->; [done|lia..]. }
  split; [constructor|].
  - intros i sts Hi Hk. by apply (Hall i sts).
  - intros key sts Hk _ _. destruct (proj1 (Exists_exists _ _) (H _ _ Hk)) as (i & Hi & -> & _). exists i. split; [by apply Hb|done].
  - intros a [Ha [sts Hk]]. by apply (Hall a sts).
Qed.

(** The second of two shards owns half of the slots and does not answer. *)
Lemma scale_in_deletes_unreachable_owner_witness :
  Fake.countAt (PodFQDN soloCR 1 0) pairNodes = 8192 ∧
  ∃ k' f', scaleIn soloCR (pairKube, mkFlaky {[PodFQDN soloCR 1 0]} pairNodes) = Some (Ok tt, (k', mkFlaky {[PodFQDN soloCR 1 0]} f')) ∧
    kSets k' !! setKey soloCR 1 = None ∧
    (∀ m, m ∈ kPVCs k' → ownedPVC soloCR m = true → mLabels m !! LabelShard ≠ Some (Itoa 1)) ∧
    ∀ j, 0 ≤ j ≤ crReplicas soloCR → Fake.countAt (PodFQDN soloCR 1 j) f' = Fake.countAt (PodFQDN soloCR 1 j) pairNodes.
Proof.
  split; [vm_compute; reflexivity|]. destruct (setsOk_listed soloCR pairKube [0; 1]) as [S Hsets].
  { unfold ordinal. repeat constructor; lia. }
  { apply (bool_decide_unpack _). by vm_compute. }
  apply (scale_in_deletes_unreachable_owner soloCR pairKube {[PodFQDN soloCR 1 0]} pairNodes 1).
  - discriminate.
  - exact S.
  - apply fake_inv_check, (bool_decide_unpack _). by vm_compute.
  - apply (bool_decide_unpack _). by vm_compute.
  - intros j Hj. change (crReplicas soloCR) with 0 in Hj. assert (j = 0) as -> by lia. by apply elem_of_singleton.
  - discriminate.
  - split; [split; [discriminate|reflexivity]|]. eexists. vm_compute. reflexivity.
  - change (crShards soloCR) with 1. intros a Ha%Hsets. rewrite !elem_of_cons, elem_of_nil in Ha. lia.
Defined.

(** ** A failed-over replica that the spec no longer has *)

(** Counts that only go down. *)
Lemma assigned_mono f f' : fake_inv f' → (∀ h, Fake.countAt h f' ≤ Fake.countAt h f) → Fake.assignedSlots f' ≤ Fake.assignedSlots f.
Proof.
  revert f'. induction f as [|h n f Hh IH] using map_ind; intros f' Hf' Hle.
  - rewrite assigned_empty, (assigned_by_keys f' []); [done|constructor|by intros h ?%elem_of_nil|].
    intros h n Hn _. specialize (Hle h). pose proof (ok_count _ _ (Hf' _ _ Hn)). unfold Fake.countAt in Hle. rewrite Hn, lookup_empty in Hle.
    simpl in Hle. change (SlotCount NodeInfo_zero) with 0 in Hle. lia.
  - rewrite assigned_insert_new by done. assert (Fake.assignedSlots (delete h f') ≤ Fake.assignedSlots f) as Hd.
    { apply IH; [by apply map_Forall_delete|]. intros h'. specialize (Hle h'). unfold Fake.countAt in *. destruct (decide (h' = h)) as [->|Hne].
      - by rewrite lookup_delete_eq, Hh.
      - by rewrite lookup_delete_ne, lookup_insert_ne in * by done. }
    specialize (Hle h). unfold Fake.countAt in Hle. rewrite lookup_insert_eq in Hle. simpl in Hle. destruct (f' !! h) as [n'|] eqn:En; simpl in Hle.
    + rewrite (assigned_delete f' h n' En). lia.
    + rewrite delete_id in Hd by done. change (SlotCount NodeInfo_zero) with 0 in Hle. lia.
Qed.

Section Shrink.
Context (cr : ValkeyCluster) (Hsz : sized cr) (k : KubeWorld) (f : gmap string NodeInfo).
Local Abbreviation host := (PodFQDN cr).

(** The server is as it was, and no count has grown. *)
Definition lessened (w : W) : Prop := w.1 = k ∧ fake_inv w.2 ∧ ∀ h, Fake.countAt h w.2 ≤ Fake.countAt h f.

Lemma lessened_ensure k' g e : lessened (k', g) → lessened (k', Fake.ensure e g).
Proof.
  intros (Hk & Hg & Hle). split; [done|]. split; [by apply fake_inv_ensure|]. intros h. simpl in *. rewrite <- (Hle h).
  unfold Fake.ensure. destruct (g !! epHost e) eqn:E; [done|]. unfold Fake.countAt.
  destruct (decide (h = epHost e)) as [->|]; [by rewrite lookup_insert_eq, E|by rewrite lookup_insert_ne].
Qed.

Lemma MyID_lessened e w : lessened w → wp (MyID e) (λ _, lessened) w.
Proof. destruct w as [k' g]. intros Hw. eexists _, _. split; [reflexivity|]. by apply lessened_ensure. Qed.

Lemma Meet_lessened a b w : lessened w → wp (Meet a b) (λ r w', r = Ok tt ∧ lessened w') w.
Proof. destruct w as [k' g]. intros Hw. eexists _, _. split; [reflexivity|]. split; [done|]. by do 2 apply lessened_ensure. Qed.

Lemma Replicate_lessened e p w : lessened w → wp (Replicate e p) (λ r w', r = Ok tt ∧ lessened w') w.
Proof.
  destruct w as [k' g]. intros (Hk & Hg & Hle)%(lessened_ensure k' g e). eexists _, _. split; [reflexivity|]. split; [done|].
  split; [done|]. split.
  - apply fake_inv_alter; [done|]. intros n _ [? ? ? ?]. by constructor.
  - intros h. simpl in *. specialize (Hle h). destruct (decide (h = epHost e)) as [->|]; [|by rewrite countAt_alter_ne by done].
    unfold Fake.countAt in *. rewrite lookup_alter_eq. destruct (_ !! epHost e) as [n|] eqn:E; [|done]. simpl in *.
    pose proof (ok_count _ _ (Hg _ _ E)). rewrite SlotCount_nil by done. lia.
Qed.

Lemma findShardPrimary_lessened i idx w : lessened w → wp (findShardPrimary cr i idx) (λ _, lessened) w.
Proof.
  intros Hw. unfold findShardPrimary. apply wp_bind. eapply (wp_mono _ (λ _, lessened)).
  - revert w Hw. induction (ordinals cr) as [|j js IH]; intros w Hw; [by apply wp_ret|]. cbn [findShardPrimaryIn].
    apply wp_bind. eapply wp_mono; [by apply MyID_lessened|]. intros [id|e] w' Hw'; [|by apply IH].
    destruct (idx !! id) as [n|]; [|by apply IH]. destruct (ownsSlots n); [by apply wp_ret|by apply IH].
  - intros [p|] w' Hw'; [by apply wp_ret|]. apply wp_bind. eapply wp_mono; [by apply MyID_lessened|]. intros [id|e] w2 Hw2; by apply wp_ret.
Qed.

Lemma attachReplicas_lessened st w : lessened w → wp (attachReplicas cr st) (λ r w', r = Ok tt ∧ lessened w') w.
Proof.
  intros Hw. apply (wp_forE_prefix _ _ (λ _, lessened)); [done|]. intros pre i post w1 _ Hw1.
  apply wp_bind. eapply wp_mono; [by apply findShardPrimary_lessened|]. intros [id p] w2 Hw2.
  destruct (String.eqb id ""); [by apply wp_ret|]. apply (wp_forE_prefix _ _ (λ _, lessened)); [done|]. intros pre' j post' w3 _ Hw3.
  unfold attachPod. destruct (j =? p); [by apply wp_ret|]. apply wp_bind. eapply wp_mono; [by apply MyID_lessened|].
  intros [id'|e] w4 Hw4; [|by apply wp_ret]. match goal with |- wp (if ?b then _ else _) _ _ => destruct b; [by apply wp_ret|] end.
  unfold wrapE. apply wp_bind. eapply wp_mono; [by apply Replicate_lessened|]. intros r w5 [-> Hw5]. by apply wp_ret.
Qed.

(** Membership takes a member that no set runs out of the cluster, with what it
    owns; no other pod gets slots for it. *)
Lemma membership_drops hosts h n : fake_inv f → existingPodHosts cr ((k, f) : W) = Some (Ok hosts, (k, f)) →
  f !! h = Some n → h ≠ "" → h ∉ hosts →
  wp (reconcileMembership cr (Fake.view f)) (λ r w', r = Ok tt ∧ w'.1 = k ∧ w'.2 !! h = None ∧
    Fake.assignedSlots w'.2 ≤ Fake.assignedSlots f - Fake.countAt h f) ((k, f) : W).
Proof.
  intros Hf Eh Hn Hne Hout. unfold reconcileMembership. apply wp_bindE. eapply wp_mono.
  { apply (wp_forE_prefix _ _ (λ _, lessened)); [by split_and!|]. intros pre ep post w _ Hw.
    destruct (hostIndex _ !! _); [by apply wp_ret|by apply Meet_lessened]. }
  intros r w1 [-> Hw1]. apply wp_bindE. eapply wp_mono; [by apply attachReplicas_lessened|].
  intros r [k2 f2] [-> (Hk & Hf2 & Hle)]. simpl in Hk, Hf2, Hle. subst k2. apply wp_bind.
  destruct (forgetStale_gone cr (sized_shards cr Hsz) (sized_replicas cr Hsz) k f hosts f2 Hf) as (f3 & E & Hf3); [by rewrite (existingPodHosts_server cr k f2 f), Eh|].
  eexists _, _. split; [exact E|]. apply wp_ret. split; [done|]. split; [done|]. cbn [snd].
  assert (f3 !! h = None) as Hgone by (rewrite Hf3, decide_True; [done|]; split; [by eexists|done]). split; [done|].
  pose proof (assigned_delete f h n Hn) as Ea. assert (Fake.countAt h f = SlotCount n) as -> by (unfold Fake.countAt; by rewrite Hn).
  assert (Fake.assignedSlots f3 ≤ Fake.assignedSlots (delete h f)); [|lia]. apply assigned_mono.
  - intros h' n' H'. rewrite Hf3 in H'. case_decide; [done|by apply Hf2].
  - intros h'. pose proof (Hle h') as Hl. unfold Fake.countAt in *. destruct (decide (h' = h)) as [->|Hd]; [by rewrite Hgone, lookup_delete_eq|].
    rewrite lookup_delete_ne by done. rewrite Hf3. case_decide; [|done]. simpl. change (SlotCount NodeInfo_zero) with 0.
    destruct (f !! h') as [n'|] eqn:En; [|done]. simpl. by apply (ok_count _ _ (Hf _ _ En)).
Qed.
End Shrink.

(** A pod beyond the declared replicas is no pod of a set. *)
Lemma beyond_replicas cr k f i j : sized cr → setsOk cr k → ordinal i → ordinal j → crReplicas cr < j →
  ∃ hosts, existingPodHosts cr ((k, f) : W) = Some (Ok hosts, (k, f)) ∧ PodFQDN cr i j ∉ hosts.
Proof.
  intros Hsz S Hi Hj Hlt. destruct (existing_sets cr k f S) as (idxs & E & _ & Hin). unfold existingPodHosts, bindE, bind. rewrite E.
  eexists. split; [reflexivity|]. rewrite elem_of_list_to_set, list_elem_of_join. intros (l & Hh & (a & -> & Ha%Hin)%list_elem_of_fmap).
  apply list_elem_of_fmap in Hh as (b & Eh & Hb%elem_of_ordinals).
  apply (pod_host_inj cr) in Eh as [_ ->]; [lia|done|done|apply Ha|by apply (pod_bounds cr Hsz)].
Qed.


(** One shard with one replica: the servers have promoted the replica, which owns
    all slots; then the spec asks for no replica, and one pod is ready. *)
Definition pairCR : ValkeyCluster := withFinalizer (sampleCR "pair" 1 1).
Definition shrinkWorld : W :=
  reportReady (setKey pairCR 0) 1 (editSize (metaKey (crMeta pairCR)) 1 0 (failOver pairCR 0 1 (runningCluster pairCR))).
Definition shrinkCR : ValkeyCluster := default pairCR (kCRs shrinkWorld.1 !! metaKey (crMeta pairCR)).

