(* ===== verification/Operation.v ===== *)
(** * A cluster's whole life

    The reconciler and its environment as a transition system, from the
    creation of the resource on: passes, edits of the spec, pods that become
    ready or not, failovers.  The invariant of [System], extended by the time
    before the cluster is formed, holds in every reachable world. *)

From S2P Require Import Prelude GoStrings Cluster Slots Topology API ResourceBuilders.
From S2P Require Import ResourceProofs Platform Controller Reconcile Fake FakeProofs TestBed.
From S2P Require Import StatusProofs ScaleInProofs Lifecycle Formation SteadyState SlotMover ScaleOutProofs Drain.
From S2P Require Import Converge Passes Hazards Ownership Attach ScaleUp System.
Local Open Scope string_scope.
Local Open Scope list_scope.
Local Open Scope Z_scope.

Local Abbreviation W := (KubeWorld * gmap string NodeInfo)%type.

(** ** Cluster code next to a server *)

(** [m] next to a server does what [m'] does alone. *)
Definition lifts {V A} (m : M (KubeWorld * V) A) (m' : M V A) : Prop := ∀ k v, m (k, v) = onRight m' (k, v).

Section Lift.
Context {V : Type}.

Lemma lifts_ret {A} (a : A) : lifts (V := V) (ret a) (ret a).
Proof. done. Qed.

Lemma lifts_bind {A B} (m : M (KubeWorld * V) A) m' (c : A → M (KubeWorld * V) B) c' :
  lifts m m' → (∀ a, lifts (c a) (c' a)) → lifts (bind m c) (bind m' c').
Proof. intros Hm Hc k v. unfold bind, onRight. rewrite Hm. unfold onRight. simpl. destruct (m' v) as [[a v']|]; [apply Hc|done]. Qed.

Lemma lifts_bindE {A B} (m : M (KubeWorld * V) (result A)) m' (c : A → M (KubeWorld * V) (result B)) c' :
  lifts m m' → (∀ a, lifts (c a) (c' a)) → lifts (bindE m c) (bindE m' c').
Proof. intros Hm Hc. apply lifts_bind; [done|]. intros [a|e]; [apply Hc|apply lifts_ret]. Qed.

Lemma lifts_wrapE {A} msg (m : M (KubeWorld * V) (result A)) m' : lifts m m' → lifts (wrapE msg m) (wrapE msg m').
Proof. intros Hm. apply lifts_bind; [done|]. intros [a|e]; apply lifts_ret. Qed.

Lemma lifts_forE {A} (l : list A) (b : A → M (KubeWorld * V) (result unit)) b' :
  (∀ x, lifts (b x) (b' x)) → lifts (forE l b) (forE l b').
Proof. intros Hb. induction l as [|x l IH]; [apply lifts_ret|]. apply lifts_bindE; [apply Hb|]. by intros _. Qed.
End Lift.

Create HintDb lifts.
#[export] Hint Resolve lifts_ret lifts_bind lifts_bindE lifts_wrapE lifts_forE : lifts.

Section LiftOps.
Context {V : Type} `{!ClusterAdmin V} (cr : ValkeyCluster).

Lemma lifts_findShardPrimaryIn i idx js :
  lifts (V := V) (findShardPrimaryIn cr i idx js) (findShardPrimaryIn cr i idx js).
Proof.
  induction js as [|j js IH]; [apply lifts_ret|]. apply lifts_bind; [done|]. intros [id|e]; [|done].
  destruct (idx !! id) as [n|]; [destruct (ownsSlots n)|]; done.
Qed.

Lemma lifts_attachReplicas st : lifts (V := V) (attachReplicas cr st) (attachReplicas cr st).
Proof.
  apply lifts_forE. intros i. apply lifts_bind.
  - apply lifts_bind; [apply lifts_findShardPrimaryIn|]. intros [p|]; [done|]. apply lifts_bind; [done|]. by intros [|].
  - intros [id ord]. destruct (String.eqb id ""); [done|]. apply lifts_forE. intros j. unfold attachPod.
    destruct (j =? ord); [done|]. apply lifts_bind; [done|]. intros [id'|]; [|done].
    match goal with |- lifts (if ?b then _ else _) _ => destruct b end; [done|]. by apply lifts_wrapE.
Qed.

Lemma lifts_formCluster : lifts (V := V) (formCluster cr) (formCluster cr).
Proof.
  apply lifts_bindE; [apply lifts_forE; intros ep; destruct (String.eqb _ _); auto with lifts; by apply lifts_wrapE|]. intros _.
  apply lifts_bindE; [apply lifts_forE; intros i; by apply lifts_wrapE|]. intros _.
  apply lifts_bindE; [done|]. intros st. apply lifts_attachReplicas.
Qed.
End LiftOps.

(** ** The cluster that is formed *)
Section Formed.
Context (cr : ValkeyCluster) (Hsz : sized cr).
Implicit Types (k : KubeWorld) (f : gmap string NodeInfo).
Local Abbreviation host := (PodFQDN cr).

Lemma formed_members f : podsAre cr (formedAs cr) f → membersOk cr f.
Proof.
  destruct Hsz as (Hs & _). intros Hf. constructor.
  - by apply (formed_inv cr Hs).
  - intros h (i & j & [Hi Hj] & ->)%(proj2 Hf). exists i, j.
    split; [by apply (shard_bounds cr Hsz)|]. split; [by apply (pod_bounds cr Hsz)|done].
  - intros i j n Hi Hj Hn. destruct (proj2 Hf (host i j)) as (i' & j' & [Hi' Hj'] & E); [by eexists|].
    apply (pod_host_inj cr) in E as [<- <-]; [|done|done|by apply (shard_bounds cr Hsz)|by apply (pod_bounds cr Hsz)].
    pose proof (proj1 Hf i j (conj Hi' Hj')) as Hq. unfold formedAs in Hq. rewrite Hn in Hq. injection Hq as ->.
    unfold formedNode. destruct (decide (j = 0)) as [->|Hne]; [by left|right]. split; [done|]. exists 0.
    split; [unfold ordinal; lia|]. split; [done|]. done.
Qed.

Lemma formed_owned f : podsAre cr (formedAs cr) f → ownedBy cr (counts f) (crShards cr) (λ _, 0).
Proof.
  destruct Hsz as (Hs & Hr & _). intros Hf. split; [intros i Hi; lia|]. intros h. unfold counts, Fake.countAt. split.
  - destruct (f !! h) as [n|] eqn:En; [|done]. simpl. intros Hpos.
    destruct (proj2 Hf h) as (i & j & [Hi Hj] & ->); [by eexists|].
    pose proof (proj1 Hf i j (conj Hi Hj)) as Hq. unfold formedAs in Hq. rewrite En in Hq. injection Hq as ->.
    unfold formedNode in Hpos. destruct (decide (j = 0)) as [->|]; [by exists i|]. by rewrite SlotCount_nil in Hpos.
  - intros (i & Hi & ->). rewrite (proj1 Hf i 0) by lia. simpl. apply ownsSlots_count. by apply (pnode_owns cr Hs).
Qed.

Lemma formed_serves k f : setsOk cr k → (∀ i, 0 ≤ i < crShards cr → hasSet cr k i) → podsAre cr (formedAs cr) f → serves cr (k, f).
Proof.
  intros S Hsets Hf. destruct Hsz as (Hs & _ & _). apply (owned_serves cr Hsz k f (counts f) (λ _, 0)); [done|done| | |by apply formed_owned].
  - by apply (formed_assigned cr Hs (sized_replicas cr Hsz)).
  - by apply tracks_self, formed_members.
Qed.

(** The first action: forming an empty cluster. *)
Lemma form_acts k : setsOk cr k → (∀ i, 0 ≤ i < crShards cr → hasSet cr k i) →
  choosePlan cr (summarize (Fake.view ∅)) ((k, ∅) : W) = Some (Ok (planOf ActionForm), (k, ∅)) ∧
  acts cr ActionForm k ∅ (λ k' f', serves cr (k', f')).
Proof.
  intros S Hsets. split; [done|]. intros k1 [E1 E2].
  destruct (form_reaches cr (proj1 Hsz) (sized_replicas cr Hsz)) as (r & f & E & -> & Hf).
  exists k1, f. cbn [action]. rewrite (lifts_formCluster cr k1 ∅). unfold onRight. cbn [snd fst].
  change Fake.NewFake with (∅ : gmap string NodeInfo) in E. rewrite E. split; [done|]. split; [done|].
  intros k3 [E3 E4]. apply formed_serves; [| |done].
  - destruct S as [S1 S2]. by constructor; rewrite E3, E1.
  - intros i Hi. destruct (Hsets i Hi). split; [done|]. by rewrite E3, E1.
Qed.
End Formed.

(** ** Owners after a failover *)
Section Failover.
Context (cr : ValkeyCluster) (Hsz : sized cr) (k : KubeWorld) (L : ledger) (O : ownersOk cr k L).
Context (i j j' : Z) (Hi : ordinal i) (Hj : 0 ≤ j ≤ crReplicas cr) (Hj' : ordinal j') (Hne : j' ≠ j).
Local Abbreviation host := (PodFQDN cr).
Context (Hz : L (host i j) = 0).
Local Abbreviation L' := (moveCount (host i j') (host i j) (L (host i j')) L).

Lemma failover_count a b : ordinal a → ordinal b →
  L' (host a b) = if decide (a = i ∧ b = j) then L (host i j') else if decide (a = i ∧ b = j') then 0 else L (host a b).
Proof.
  intros Ha Hb. unfold moveCount. pose proof (pod_bounds cr Hsz j Hj).
  assert (host a b = host i j ↔ a = i ∧ b = j) as E1 by (split; [intros E; by apply (pod_host_inj cr) in E|by intros [-> ->]]).
  assert (host a b = host i j' ↔ a = i ∧ b = j') as E2 by (split; [intros E; by apply (pod_host_inj cr) in E|by intros [-> ->]]).
  rewrite (decide_ext _ _ _ _ E1), (decide_ext _ _ _ _ E2). destruct (decide (a = i ∧ b = j)); [lia|].
  destruct (decide (a = i ∧ b = j')); [lia|done].
Qed.

(** Another shard owns as before; in this one, whoever owns, it is pod [j]. *)
Lemma failover_owns a b : ordinal a → owns cr L' a b ↔ (a ≠ i ∧ owns cr L a b) ∨ (a = i ∧ b = j ∧ 0 < L (host i j')) ∨
  (a = i ∧ b ≠ j ∧ b ≠ j' ∧ owns cr L i b).
Proof.
  intros Ha. unfold owns. split.
  - intros [Hb Hpos]. rewrite (failover_count a b Ha (pod_bounds cr Hsz b Hb)) in Hpos.
    destruct (decide (a = i ∧ b = j)) as [[-> ->]|N1]; [tauto|]. destruct (decide (a = i ∧ b = j')) as [|N2]; [lia|].
    destruct (decide (a = i)) as [->|]; [right; right; split_and!; try done; naive_solver|left; done].
  - intros [(Hna & Hb & Hpos)|[(-> & -> & Hpos)|(-> & Nb & Nb' & Hb & Hpos)]]; (split; [done|]);
      rewrite failover_count by (done || by apply (pod_bounds cr Hsz)).
    + rewrite !decide_False by tauto. done.
    + by rewrite decide_True.
    + by rewrite !decide_False by tauto.
Qed.

(** An owner that is promoted over was the only one of its shard. *)
Lemma failover_old : 0 < L (host i j') → owns cr L i j'.
Proof.
  intros Hpos. destruct (ow_pod _ _ _ O _ Hpos) as (a & b & [Ha _] & Ho & E).
  apply (pod_host_inj cr) in E as [<- <-]; [done|done|done|done|by apply (pod_bounds cr Hsz), Ho].
Qed.

Lemma failover_shard a : ordinal a → (∃ b, owns cr L' a b) ↔ ∃ b, owns cr L a b.
Proof.
  intros Ha. split.
  - intros (b & [[_ Ho]|[(-> & -> & Hpos)|(-> & _ & _ & Ho)]]%failover_owns); [by exists b| |by exists b|done]. exists j'. by apply failover_old.
  - intros (b & Ho). destruct (decide (a = i)) as [->|Hna]; [|exists b; apply failover_owns; [done|by left]].
    destruct (decide (b = j')) as [->|Hb].
    + exists j. apply failover_owns; [done|]. right. left. split; [done|]. split; [done|]. apply Ho.
    + exists b. apply failover_owns; [done|]. right. right. split; [done|]. split; [|done]. intros ->. destruct Ho as [_ Ho]. lia.
Qed.

Lemma failover_owners : ownersOk cr k L'.
Proof.
  constructor.
  - intros h Hpos. assert (∃ a b, hasSet cr k a ∧ 0 ≤ b ≤ crReplicas cr ∧ h = host a b) as (a & b & Hset & Hb & ->).
    { unfold moveCount in Hpos. destruct (decide (h = host i j)) as [->|].
      - destruct (failover_old ltac:(lia)) as [_ Hold]. destruct (ow_pod _ _ _ O _ Hold) as (a & b & Hset & Ho & E).
        apply (pod_host_inj cr) in E as [<- _]; [|done|done|apply Hset|by apply (pod_bounds cr Hsz), Ho]. by exists i, j.
      - destruct (decide (h = host i j')); [lia|]. destruct (ow_pod _ _ _ O _ Hpos) as (a & b & Hset & Ho & ->).
        exists a, b. split; [done|]. split; [apply Ho|done]. }
    exists a, b. done.
  - intros a b b' Ha. rewrite !failover_owns by done. pose proof (ow_unique _ _ _ O a) as Hu. pose proof failover_old.
    intros [[? ?]|[(-> & -> & ?)|(-> & ? & ? & ?)]] [[? ?]|[(? & -> & ?)|(? & ? & ? & ?)]]; try done; auto.
    + assert (b' = j') by auto. done.
    + assert (b = j') by auto. done.
  - destruct (ow_shards _ _ _ O) as [Hall|(d & Hd & Hfirst)]; [left|right; exists d; split; [done|]].
    + intros a Ha. apply failover_shard; [by apply (shard_bounds cr Hsz)|by apply Hall].
    + intros a Ha. rewrite failover_shard by done. by apply Hfirst.
Qed.
End Failover.

(** ** The transition system *)

(** One resource, named by [key], and the world around it. *)
Definition reqOf (key : string * string) : NamespacedName := mkKey key.1 key.2.

(** What may happen.  An edit may change anything in the spec, within two rules
    for the size: the replicas are not lowered below the ordinal of a pod that
    owns slots, and the shards are not raised while a set of an earlier, larger
    size is left. *)
Inductive step (key : string * string) : W → W → Prop :=
| StepReconcile w r w' : Reconcile (reqOf key) w = Some (r, w') → step key w w'
| StepEdit cr g w :
    kCRs w.1 !! key = Some cr → sized (respec (g (crSpec cr)) cr) →
    (∀ i j, ordinal i → ordinal j → 0 < Fake.countAt (PodFQDN cr i j) w.2 → j ≤ ReplicasPerShard (g (crSpec cr))) →
    (crShards cr < Shards (g (crSpec cr)) → ∀ i, ordinal i → is_Some (kSets w.1 !! setKey cr i) → i < crShards cr) →
    step key w (editWith key g w)
| StepReady set n w : step key w (reportReady set n w)
| StepFailover cr i j w :
    kCRs w.1 !! key = Some cr → ordinal i → 0 ≤ j ≤ crReplicas cr → step key w (failOver cr i j w).

(** The resource is in the server, not being deleted; its cluster is not formed
    yet or safe. *)
Definition operatingAs (key : string * string) (cr : ValkeyCluster) (w : W) : Prop :=
  kCRs w.1 !! key = Some cr ∧ metaKey (crMeta cr) = key ∧ mDeletionTimestamp (crMeta cr) = None ∧ sized cr ∧
    setsOk cr w.1 ∧ (w.2 = ∅ ∨ safe cr w).
Definition operating (key : string * string) (w : W) : Prop := ∃ cr, operatingAs key cr w.

Section Steps.
Context (key : string * string).
Implicit Types (cr : ValkeyCluster) (k : KubeWorld) (f : gmap string NodeInfo).

Lemma setsOk_shape cr k k' : sameShape k k' → setsOk cr k → setsOk cr k'.
Proof. intros [E _] [S1 S2]. by constructor; rewrite E. Qed.

(** A pass with the finalizer in place: whether the cluster is formed or not,
    the declared sets are there afterwards. *)
Lemma pass_begun cr k f : sized cr → mDeletionTimestamp (crMeta cr) = None → finalizer ∈ mFinalizers (crMeta cr) →
  kCRs k !! metaKey (crMeta cr) = Some cr → setsOk cr k → f = ∅ ∨ safe cr (k, f) →
  ∃ n k' f', Reconcile (crKey cr) ((k, f) : W) = Some (Ok n, (k', f')) ∧ storedCR cr k' ∧ setsOk cr k' ∧
    (∀ i, 0 ≤ i < crShards cr → hasSet cr k' i) ∧ (f' = ∅ ∨ safe cr (k', f')).
Proof.
  intros Hsz Ha Hf Hst S [->|Sf].
  - pose proof Hsz as (_ & Hr & Hr32). destruct (Reconcile_acts cr (sized_shards cr Hsz) Hr Hr32 Ha Hf k ∅ Hst) as (k1 & He & Hpass).
    destruct (setsOk_ensured cr Hsz k k1 He S) as (S1 & Hdecl & _). case_decide.
    + destruct (form_acts cr Hsz k1 S1 Hdecl) as [Ep Hacts].
      destruct (Hpass _ _ Ep Hacts) as (k2 & f2 & E & Sv2 & st & Hst2 & _). eexists _, k2, f2. split; [exact E|].
      split; [by exists st|]. split; [apply (sf_sets _ _ (proj1 Sv2))|]. split; [by apply (serves_sets cr Hsz _ Sv2)|right; apply Sv2].
    + destruct Hpass as (k2 & E & Hsh & Hst2). exists requeueAfter, k2, ∅. split; [done|]. split; [done|].
      split; [by apply (setsOk_shape cr k1)|]. split; [|by left]. intros i Hi. apply (hasSet_shape cr k1 k2 i Hsh), Hdecl, Hi.
  - destruct (pass_safe cr Hsz k f Ha Hf Hst Sf) as (n & k2 & f2 & E & Hst2 & Hsets & Sf2). exists n, k2, f2.
    split; [done|]. split; [done|]. split; [apply (sf_sets _ _ Sf2)|]. split; [done|by right].
Qed.

(** Without the finalizer, a pass adds it and goes on as if it had been there. *)
Lemma Reconcile_finalizer cr k f : kCRs k !! metaKey (crMeta cr) = Some cr → mDeletionTimestamp (crMeta cr) = None →
  finalizer ∉ mFinalizers (crMeta cr) →
  let cr' := addFinalizer (W := W) cr finalizer in
  let k' := mkKube (<[metaKey (crMeta cr) := cr']> (kCRs k)) (kConfigMaps k) (kServices k) (kSets k) (kPVCs k) (kClock k) in
  Reconcile (crKey cr) ((k, f) : W) = Reconcile (crKey cr) ((k', f) : W).
Proof.
  intros Hst Ha Hf cr' k'. assert (finalizer ∈ mFinalizers (crMeta cr')) as Hf' by (simpl; set_solver).
  change (crKey cr) with (crKey cr') at 2. rewrite (Reconcile_live cr' Ha Hf' k' f) by apply lookup_insert_eq.
  pose proof (getCR_stored cr k f (crStatus cr)) as Hget. rewrite cluster_eta in Hget. unfold Reconcile, bind. rewrite (Hget Hst), Ha.
  assert (containsFinalizer (W := W) cr finalizer = false) as ->; [|done]. by apply bool_decide_eq_false.
Qed.

(** Every pass succeeds and keeps the invariant.  After it, the finalizer and
    the declared sets are there, and the spec is what it was. *)
Definition begun (cr : ValkeyCluster) (w : W) : Prop :=
  setsOk cr w.1 ∧ (∀ i, 0 ≤ i < crShards cr → hasSet cr w.1 i) ∧ (w.2 = ∅ ∨ safe cr w).

Lemma operatingAs_pass cr w : operatingAs key cr w → ∃ n w' cr', Reconcile (reqOf key) w = Some (Ok n, w') ∧
  operatingAs key cr' w' ∧ crSpec cr' = crSpec cr ∧ finalizer ∈ mFinalizers (crMeta cr') ∧ begun cr' w'.
Proof.
  destruct w as [k f]. intros (Hst & Hkey & Ha & Hsz & S & Hsf). simpl in *. rewrite <- Hkey in Hst |- *.
  change (reqOf (metaKey (crMeta cr))) with (crKey cr).
  assert (∃ cr' k', Reconcile (crKey cr) ((k, f) : W) = Reconcile (crKey cr') ((k', f) : W) ∧ crSpec cr' = crSpec cr ∧
    kCRs k' !! metaKey (crMeta cr') = Some cr' ∧ metaKey (crMeta cr') = metaKey (crMeta cr) ∧ mDeletionTimestamp (crMeta cr') = None ∧
    finalizer ∈ mFinalizers (crMeta cr') ∧ sized cr' ∧ setsOk cr' k' ∧ (f = ∅ ∨ safe cr' (k', f)))
    as (cr' & k' & -> & <- & Hst' & <- & Ha' & Hf' & Hsz' & S' & Hsf').
  { destruct (decide (finalizer ∈ mFinalizers (crMeta cr))) as [Hf|Hf]; [by exists cr, k|].
    exists (addFinalizer (W := W) cr finalizer). eexists. split; [by apply (Reconcile_finalizer cr k f)|]. split; [done|].
    split; [apply lookup_insert_eq|]. split; [done|]. split; [done|]. split; [simpl; set_solver|]. split; [done|].
    split; [destruct S; by constructor|]. destruct Hsf as [|Hsf]; [by left|right]. destruct Hsf as [[] [] ? []].
    constructor; [by constructor|by constructor|done|by constructor]. }
  destruct (pass_begun cr' k' f Hsz' Ha' Hf' Hst' S' Hsf') as (n & k2 & f2 & E & [st Hst2] & S2 & Hsets & Hsf2).
  exists n, (k2, f2), (mkCluster (crMeta cr') (crSpec cr') st).
  assert (setsOk (mkCluster (crMeta cr') (crSpec cr') st) k2) as S2' by (destruct S2; by constructor).
  assert (f2 = ∅ ∨ safe (mkCluster (crMeta cr') (crSpec cr') st) (k2, f2)) as Hsf2' by (destruct Hsf2; [by left|right; by apply safe_status]).
  split; [done|]. split; [|done]. unfold operatingAs. by split_and!.
Qed.

Lemma operating_pass w : operating key w → ∃ n w', Reconcile (reqOf key) w = Some (Ok n, w') ∧ operating key w'.
Proof. intros (cr & (n & w' & cr' & E & Ho & _)%operatingAs_pass). exists n, w'. split; [done|by exists cr']. Qed.

(** The sets with another readiness. *)
Lemma reportReady_sets set n k f i cr : is_Some (kSets (reportReady set n (k, f)).1 !! setKey cr i) ↔ is_Some (kSets k !! setKey cr i).
Proof. simpl. apply lookup_alter_is_Some. Qed.

Lemma setsOk_ready cr set n k f : setsOk cr k → setsOk cr (reportReady set n (k, f)).1.
Proof.
  intros [S1 S2]. constructor; simpl.
  - intros i sts Hi [(_ & s0 & Hs0 & ->)|[_ Hs]]%lookup_alter_Some; [|by apply S1]. by apply (S1 i s0).
  - intros k' sts [(<- & s0 & Hs0 & ->)|[_ Hs]]%lookup_alter_Some; [by apply (S2 set s0)|by apply S2].
Qed.

Lemma operating_ready set n w : operating key w → operating key (reportReady set n w).
Proof.
  destruct w as [k f]. intros (cr & Hst & Hkey & Ha & Hsz & S & Hsf). exists cr. do 4 (split; [done|]).
  pose proof (setsOk_ready cr set n k f S) as S'. split; [done|]. destruct Hsf as [|[_ M C [O1 O2 O3]]]; [by left|right].
  constructor; [done..|]. constructor; [|done..]. intros h (i & j & [Hi Hk] & Ho & ->)%O1. exists i, j. split; [|done].
  split; [done|]. by apply reportReady_sets.
Qed.

(** A failover stays within its shard. *)
Lemma operating_failover cr i j w : kCRs w.1 !! key = Some cr → ordinal i → 0 ≤ j ≤ crReplicas cr → operating key w →
  operating key (failOver cr i j w).
Proof.
  destruct w as [k f]. simpl. intros Hcr Hi Hj (cr' & Hst & Hkey & Ha & Hsz & S & Hsf). simpl in *.
  rewrite Hcr in Hst. injection Hst as <-.
  assert (∀ f', f' = ∅ ∨ safe cr (k, f') → operating key (k, f')) as Hop by (intros f' Hf'; by exists cr).
  destruct Hsf as [->|Sf]; [apply Hop; by left|].
  destruct (tracks_failover cr (counts f) f i j Hi (pod_bounds cr Hsz j Hj) (safe_tracks cr k f Sf)) as (f' & E & Hc & Hcase).
  assert (failOver cr i j ((k, f) : W) = (k, f')) as ->.
  { unfold failOver, worldAfter. change (Failover (endpoint cr i j) ((k, f) : W)) with (onRight (Fake.Failover (endpoint cr i j)) ((k, f) : W)).
    unfold onRight. cbn [fst snd]. by rewrite E. }
  apply Hop. right. destruct Hcase as [->|(j' & Hj' & Hne & Hz & T)]; [done|].
  destruct Sf as [_ M C O]. simpl in *. set (L := counts f) in *. set (L' := moveCount _ _ _ L) in T.
  constructor; simpl; [done|apply T|congruence|]. apply (ownersOk_equiv cr k L'); [intros h; symmetry; apply (tr_count _ _ _ T)|].
  by apply failover_owners.
Qed.

(** An edit within the rules. *)
Lemma edit_owners cr k L spec : sized cr → sized (respec spec cr) → ownersOk cr k L →
  (∀ i j, ordinal i → ordinal j → 0 < L (PodFQDN cr i j) → j ≤ ReplicasPerShard spec) →
  (crShards cr < Shards spec → ∀ i, ordinal i → is_Some (kSets k !! setKey cr i) → i < crShards cr) →
  ownersOk (respec spec cr) k L.
Proof.
  intros Hsz Hsz' O Hrep Hsh. set (cr' := respec spec cr) in *.
  set (shards := Shards spec) in *. set (replicas := ReplicasPerShard spec) in *.
  assert (∀ a b, ordinal a → owns cr' L a b ↔ owns cr L a b) as Howns.
  { intros a b Ha. split; intros [Hb Hpos].
    - pose proof (pod_bounds cr' Hsz' b Hb). destruct (ow_pod _ _ _ O _ Hpos) as (a' & b' & [? _] & [Hb' _] & E).
      apply (pod_host_inj cr) in E as [-> ->]; [by split|done|done|done|by apply (pod_bounds cr Hsz)].
    - split; [|done]. pose proof (Hrep a b Ha (pod_bounds cr Hsz b Hb) Hpos). change (crReplicas cr') with replicas. lia. }
  assert (∀ a, (∃ b, owns cr L a b) → ordinal a → crShards cr < shards → a < crShards cr) as Hin.
  { intros a (b & Hb & Hpos) Ha Hlt. destruct (ow_pod _ _ _ O _ Hpos) as (a' & b' & [Ha' Hset] & [Hb' _] & E).
    apply (pod_host_inj cr) in E as [-> _]; [by apply Hsh|done|by apply (pod_bounds cr Hsz)|done|by apply (pod_bounds cr Hsz)]. }
  constructor.
  - intros h (a & b & Hset & Ho & ->)%(ow_pod _ _ _ O). exists a, b. split; [done|]. split; [|done]. apply Howns; [apply Hset|done].
  - intros a b b' Ha Ho Ho'. apply (ow_unique _ _ _ O a); [done|by apply Howns..].
  - assert (∀ a, ordinal a → (∃ b, owns cr' L a b) ↔ ∃ b, owns cr L a b) as Hsame.
    { intros a Ha. split; intros [b Hb]; exists b; by apply Howns. }
    unfold allOwn, firstOwn. change (crShards cr') with shards. destruct Hsz' as ((Hs1 & Hs2) & _). change (crShards cr') with shards in *.
    pose proof (sized_shards cr Hsz) as Hs. unfold TotalSlots in Hs2.
    destruct (ow_shards _ _ _ O) as [Hall|(d & Hd & Hfirst)].
    + destruct (decide (shards ≤ crShards cr)); [left|right; exists (crShards cr); split; [lia|]].
      * intros a Ha. apply Hsame; [unfold ordinal; lia|]. apply Hall. lia.
      * intros a Ha. rewrite Hsame by done. split; [intros; apply Hin; [done..|lia]|]. intros Hlt. apply Hall. unfold ordinal in Ha. lia.
    + destruct (decide (d < shards)); [right; exists d; split; [lia|]; intros a Ha; rewrite Hsame by done; by apply Hfirst|left].
      intros a Ha. assert (ordinal a) by (unfold ordinal; lia). apply Hsame; [done|]. apply Hfirst; [done|lia].
Qed.

Lemma operating_edit cr g w : kCRs w.1 !! key = Some cr → sized (respec (g (crSpec cr)) cr) →
  (∀ i j, ordinal i → ordinal j → 0 < Fake.countAt (PodFQDN cr i j) w.2 → j ≤ ReplicasPerShard (g (crSpec cr))) →
  (crShards cr < Shards (g (crSpec cr)) → ∀ i, ordinal i → is_Some (kSets w.1 !! setKey cr i) → i < crShards cr) →
  operating key w → operating key (editWith key g w).
Proof.
  destruct w as [k f]. simpl. intros Hcr Hsz' Hrep Hsh (cr0 & Hst & Hkey & Ha & Hsz & S & Hsf). simpl in *.
  rewrite Hcr in Hst. injection Hst as <-. exists (respec (g (crSpec cr)) cr). split; [simpl; by rewrite lookup_alter_eq, Hcr|].
  split; [done|]. split; [done|]. split; [done|]. split; [destruct S; by constructor|].
  destruct Hsf as [|Hsf]; [by left|right]. destruct Hsf as [[] [] C O]. constructor; [by constructor|by constructor|done|].
  apply (edit_owners cr); [done|done|destruct O; by constructor|done|done].
Qed.

Lemma operating_step w w' : step key w w' → operating key w → operating key w'.
Proof.
  intros Hstep Ho. destruct Hstep.
  - destruct (operating_pass w Ho) as (n & w2 & E & Ho2). congruence.
  - by eapply operating_edit.
  - by apply operating_ready.
  - by apply operating_failover.
Qed.

(** A pass is always a step, and so is an edit to fewer shards and no fewer
    replicas. *)
Lemma step_pass w : operating key w → step key w (worldAfter (Reconcile (reqOf key)) w).
Proof. intros (n & w' & E & _)%operating_pass. eapply StepReconcile. unfold worldAfter. by rewrite E. Qed.

Lemma step_edit w a b shards replicas : operating key w →
  (λ cr, (crShards cr, crReplicas cr)) <$> (kCRs w.1 !! key) = Some (a, b) → 0 < shards ≤ a → b ≤ replicas → replicas + 1 < 2 ^ 31 →
  step key w (editSize key shards replicas w).
Proof.
  intros (cr & Hst & _ & _ & Hsz & _ & Hsf) Hab Hs Hr Hr32. rewrite Hst in Hab. simpl in Hab. injection Hab as <- <-.
  pose proof Hsz as ((_ & Hmax) & Hnn & _). apply (StepEdit key cr (resize shards replicas)); [done| | |simpl; intros Hlt; lia].
  - split; [change (0 < shards ≤ TotalSlots)|change (0 ≤ replicas ∧ replicas + 1 < 2 ^ 31)]; lia.
  - intros i j Hi Hj Hpos. destruct Hsf as [E|Sf]; [by rewrite E in Hpos|].
    destruct (ow_pod _ _ _ (sf_owners _ _ Sf) _ Hpos) as (i' & j' & [? _] & [Hj' _] & E).
    apply (pod_host_inj cr) in E as [_ ->]; [simpl; lia|done|done|done|by apply (pod_bounds cr Hsz)].
Qed.

Lemma operating_steps w w' : rtc (step key) w w' → operating key w → operating key w'.
Proof. induction 1; eauto using operating_step. Qed.
End Steps.

(** A resource that has just been created. *)
Definition created (cr : ValkeyCluster) : W := (kubeWith cr, Fake.NewFake).

Lemma operating_created cr : sized cr → mDeletionTimestamp (crMeta cr) = None → operating (metaKey (crMeta cr)) (created cr).
Proof.
  intros Hsz Ha. exists cr. split; [apply lookup_insert_eq|]. split; [done|]. split; [done|]. split; [done|].
  split; [|by left]. by constructor.
Qed.

(** C1: no slot is ever lost.  From the creation of the resource on, let
    passes of the reconciler, edits of the spec, changes of the pods' readiness
    and failovers happen in any order and number, where no edit lowers the
    replicas below a pod that owns slots, and none raises the shards while a
    set beyond the old number is left.  Then in every world reached the
    cluster is empty (not formed yet) or all 16384 slots are assigned, every
    slot owner is a pod that the StatefulSet of its shard runs, and the only
    one of its shard that owns slots; and the next pass succeeds. *)
Theorem slots_never_lost (cr : ValkeyCluster) (w : KubeWorld * gmap string NodeInfo) :
  sized cr → mDeletionTimestamp (crMeta cr) = None → rtc (step (metaKey (crMeta cr))) (created cr) w →
  (w.2 = ∅ ∨ Fake.assignedSlots w.2 = TotalSlots) ∧
  (∃ cur, kCRs w.1 !! metaKey (crMeta cr) = Some cur ∧ ∀ h, 0 < Fake.countAt h w.2 →
     ∃ i j, h = PodFQDN cur i j ∧ is_Some (kSets w.1 !! setKey cur i) ∧ 0 ≤ j ≤ crReplicas cur ∧
       ∀ j', 0 ≤ j' ≤ crReplicas cur → 0 < Fake.countAt (PodFQDN cur i j') w.2 → j' = j) ∧
  ∃ n w', Reconcile (crKey cr) w = Some (Ok n, w').
Proof.
  intros Hsz Ha Hsteps. pose proof (operating_steps _ _ _ Hsteps (operating_created cr Hsz Ha)) as Ho. split_and!.
  - destruct Ho as (cur & _ & _ & _ & _ & _ & [|Sf]); [by left|right; apply Sf].
  - destruct Ho as (cur & Hst & _ & _ & _ & _ & Hsf). exists cur. split; [done|]. intros h Hpos.
    destruct Hsf as [E|Sf]; [by rewrite E in Hpos|].
    destruct (ow_pod _ _ _ (sf_owners _ _ Sf) h Hpos) as (i & j & [Hi Hset] & Ho & ->). exists i, j. split; [done|]. split; [done|].
    split; [apply Ho|]. intros j' Hj' Hpos'. by apply (ow_unique _ _ _ (sf_owners _ _ Sf) i).
  - destruct (operating_pass _ w Ho) as (n & w' & E & _). by exists n, w'.
Qed.

(** A life: three shards are created, come up and are formed, then the spec asks
    for one shard with a replica. *)
Definition lifeCR : ValkeyCluster := sampleCR "life" 3 0.
Local Abbreviation lifeKey := (metaKey (crMeta lifeCR)).
Definition lifePass : W → W := worldAfter (Reconcile (reqOf lifeKey)).
Definition lifeFormed : W :=
  lifePass (reportReady (setKey lifeCR 2) 1 (reportReady (setKey lifeCR 1) 1 (reportReady (setKey lifeCR 0) 1 (lifePass (created lifeCR))))).
Definition lifeWorld : W := lifePass (reportReady (setKey lifeCR 0) 2 (lifePass (editSize lifeKey 1 1 lifeFormed))).

Lemma life_sized : sized lifeCR.
Proof. unfold sized. change (crShards lifeCR) with 3. change (crReplicas lifeCR) with 0. unfold TotalSlots. lia. Qed.

(** Steps from an operating world, appended to a run. *)
Lemma life_step w w' : rtc (step lifeKey) (created lifeCR) w → (operating lifeKey w → step lifeKey w w') →
  rtc (step lifeKey) (created lifeCR) w'.
Proof.
  intros Hrun Hstep. eapply rtc_r; [exact Hrun|]. apply Hstep. eapply operating_steps; [exact Hrun|].
  apply operating_created; [apply life_sized|done].
Qed.

Lemma life_run : rtc (step lifeKey) (created lifeCR) lifeWorld.
Proof.
  eapply life_step; [|apply step_pass]. eapply life_step; [|intros _; apply StepReady].
  eapply life_step; [|apply step_pass]. eapply life_step; [|intros Ho; apply (step_edit _ _ 3 0); [done|vm_compute; reflexivity|lia..]].
  eapply life_step; [|apply step_pass]. do 3 (eapply life_step; [|intros _; apply StepReady]).
  eapply life_step; [|apply step_pass]. apply rtc_refl.
Qed.

Lemma slots_never_lost_witness :
  rtc (step lifeKey) (created lifeCR) lifeWorld ∧
  map (λ i, Fake.countAt (PodFQDN lifeCR i 0) lifeWorld.2) [0; 1; 2] = [6485; 4437; 5462] ∧
  (lifeWorld.2 = ∅ ∨ Fake.assignedSlots lifeWorld.2 = TotalSlots) ∧ ∃ n w', Reconcile (crKey lifeCR) lifeWorld = Some (Ok n, w').
Proof.
  split; [exact life_run|]. split; [vm_compute; reflexivity|].
  destruct (slots_never_lost lifeCR lifeWorld life_sized eq_refl life_run) as (Hc & _ & Hp). by split.
Defined.
