(* ===== verification/Settle.v ===== *)
(** * The operator settles

    Whatever has happened to a cluster, once the edits and the failovers stop
    and the pods of the declared shards come up, finitely many passes bring it
    to the declared shape, and it stays there.  A scale-in under way is measured
    by the slots that are not on shard 0 yet and the sets that have to go. *)

From S2P Require Import Prelude GoStrings Cluster Slots Topology API ResourceBuilders.
From S2P Require Import ResourceProofs Platform Controller Reconcile Fake FakeProofs TestBed.
From S2P Require Import StatusProofs ScaleInProofs Lifecycle Formation SteadyState SlotMover ScaleOutProofs Drain.
From S2P Require Import Converge Passes Hazards Ownership Attach ScaleUp System Operation.
Local Open Scope string_scope.
Local Open Scope list_scope.
Local Open Scope Z_scope.

Local Abbreviation W := (KubeWorld * gmap string NodeInfo)%type.

(** ** Rounds *)

(** The StatefulSet controller brings up all pods of the declared shards. *)
Definition attend (cr : ValkeyCluster) (w : W) : W :=
  foldr (λ i, reportReady (setKey cr i) (1 + crReplicas cr)) w (seqZ 0 (crShards cr)).

(** A pass, after which the pods come up. *)
Definition round (key : string * string) (w : W) : W :=
  let w' := worldAfter (Reconcile (reqOf key)) w in
  match kCRs w'.1 !! key with Some cr => attend cr w' | None => w' end.

Section Attend.
Context (cr : ValkeyCluster).
Implicit Types (k : KubeWorld) (f : gmap string NodeInfo) (w : W).

Lemma attend_frame w : (attend cr w).2 = w.2 ∧ kCRs (attend cr w).1 = kCRs w.1.
Proof. unfold attend. induction (seqZ 0 (crShards cr)) as [|i l IH]; [done|]. exact IH. Qed.

Lemma attend_has w i : hasSet cr (attend cr w).1 i ↔ hasSet cr w.1 i.
Proof.
  unfold attend. induction (seqZ 0 (crShards cr)) as [|a l IH]; [done|]. rewrite <- IH. apply and_iff_compat_l.
  set (w0 := foldr _ w l). exact (reportReady_sets (setKey cr a) _ w0.1 w0.2 i cr).
Qed.

Lemma attend_setsOk cr' w : setsOk cr' w.1 → setsOk cr' (attend cr w).1.
Proof.
  intros S. unfold attend. induction (seqZ 0 (crShards cr)) as [|a l IH]; [done|].
  set (w0 := foldr _ w l) in *. by apply (setsOk_ready cr' (setKey cr a) _ w0.1 w0.2).
Qed.

Lemma attend_ready w : sized cr → (∀ i, 0 ≤ i < crShards cr → hasSet cr w.1 i) → podsReady cr (attend cr w).1.
Proof.
  intros Hsz Hsets i Hi. destruct (Hsets i Hi) as [_ [sts Hk]]. assert (i ∈ seqZ 0 (crShards cr)) as Hin by (apply elem_of_seqZ; lia).
  assert (∀ a, a ∈ seqZ 0 (crShards cr) → ordinal a) as Hord by (intros a Ha%elem_of_seqZ; apply (shard_bounds cr Hsz); lia).
  unfold attend. induction (seqZ 0 (crShards cr)) as [|a l IH]; [by apply not_elem_of_nil in Hin|]. simpl.
  destruct (decide (a = i)) as [->|Hne].
  - rewrite lookup_alter_eq. assert (is_Some (kSets (foldr (λ i, reportReady (setKey cr i) (1 + crReplicas cr)) w l).1 !! setKey cr i)) as [s ->]; [|done].
    clear IH Hin Hord. induction l as [|b l IH]; [by eexists|].
    set (w0 := foldr _ w l) in *. by apply (reportReady_sets (setKey cr b) _ w0.1 w0.2 i cr).
  - rewrite lookup_alter_ne.
    + apply IH; [by apply elem_of_cons in Hin as [|]|]. intros b Hb. apply Hord. by right.
    + intros E. pose proof (Hord a (list_elem_of_here _ _)). pose proof (Hord i Hin). unfold ordinal in *. apply setKey_inj in E; lia.
Qed.
End Attend.

(** A round is made of steps. *)
Lemma attend_steps key cr w : rtc (step key) w (attend cr w).
Proof.
  unfold attend. induction (seqZ 0 (crShards cr)) as [|a l IH]; [done|]. eapply rtc_r; [exact IH|]. apply StepReady.
Qed.

Lemma round_steps key w : operating key w → rtc (step key) w (round key w).
Proof.
  intros Ho. unfold round. eapply rtc_l; [by apply step_pass|]. destruct (kCRs _ !! key); [apply attend_steps|done].
Qed.

(** ** Stages *)

(** The resource is stored with its finalizer, its pods are ready, and [P]. *)
Definition standing (key : string * string) (sp : ValkeyClusterSpec) (P : ValkeyCluster → W → Prop) (w : W) : Prop :=
  ∃ cr, kCRs w.1 !! key = Some cr ∧ metaKey (crMeta cr) = key ∧ crSpec cr = sp ∧ mDeletionTimestamp (crMeta cr) = None ∧
    finalizer ∈ mFinalizers (crMeta cr) ∧ sized cr ∧ podsReady cr w.1 ∧ P cr w.

(** [P] depends on the resource but for its status, on which sets there are and
    on the cluster. *)
Class Portable (P : ValkeyCluster → W → Prop) : Prop := {
  portable cr st k k' f : setsOk cr k' → (∀ i, hasSet cr k' i ↔ hasSet cr k i) →
    P cr (k, f) → P (mkCluster (crMeta cr) (crSpec cr) st) (k', f);
  portable_begun cr w : sized cr → P cr w → begun cr w
}.

Lemma safe_sets cr k k' f : setsOk cr k' → (∀ i, hasSet cr k' i ↔ hasSet cr k i) → safe cr (k, f) → safe cr (k', f).
Proof.
  intros S Hk [_ M C [O1 O2 O3]]. constructor; [done..|]. constructor; [|done..].
  intros h (i & j & Hset & Ho & ->)%O1. exists i, j. split; [by apply Hk|done].
Qed.

#[export] Instance begun_portable : Portable begun.
Proof.
  constructor; [|done]. intros cr st k k' f S' Hk (S & Hsets & Hsf). split; [destruct S'; by constructor|]. split.
  - intros i Hi. apply (Hk i), Hsets, Hi.
  - destruct Hsf as [|Sf]; [by left|right]. apply safe_status. by apply (safe_sets cr k).
Qed.

Lemma serves_portable cr st k k' f : setsOk cr k' → (∀ i, hasSet cr k' i ↔ hasSet cr k i) →
  serves cr (k, f) → serves (mkCluster (crMeta cr) (crSpec cr) st) (k', f).
Proof. intros S' Hk [Sf Hall]. split; [|exact Hall]. apply safe_status. by apply (safe_sets cr k). Qed.

Lemma serves_begun cr w : sized cr → serves cr w → begun cr w.
Proof. intros Hsz Sv. split; [apply (sf_sets _ _ (proj1 Sv))|]. split; [by apply (serves_sets cr Hsz)|right; apply Sv]. Qed.

#[export] Instance serves_Portable : Portable serves.
Proof. constructor; [apply serves_portable|apply serves_begun]. Qed.

#[export] Instance fitted_Portable : Portable fitted.
Proof.
  constructor.
  - intros cr st k k' f S' Hk [Sv Hno]. split; [by apply (serves_portable cr st k)|]. intros i Hi. apply (Hno i), Hk, Hi.
  - intros cr w Hsz [Sv _]. by apply serves_begun.
Qed.

#[export] Instance complete_Portable : Portable complete.
Proof.
  constructor.
  - intros cr st k k' f S' Hk [F A]. split; [by apply (portable cr st k)|exact A].
  - intros cr w Hsz [F _]. by apply (portable_begun cr w).
Qed.

(** A scale-in with less than [n] left to do. *)
Definition shrinking (q n : Z) (cr : ValkeyCluster) (w : W) : Prop := serves cr w ∧ ∃ n', toDo cr q w n' ∧ n' < n.

#[export] Instance shrinking_Portable q n : Portable (shrinking q n).
Proof.
  constructor.
  - intros cr st k k' f S' Hk [Sv (n' & Hn' & Hlt)]. split; [by apply (serves_portable cr st k)|]. exists n'. split; [|done].
    exact (toDo_sets cr q k k' f n' Hk Hn').
  - intros cr w Hsz [Sv _]. by apply serves_begun.
Qed.

(** A scale-in with [n] left to do and a set that has to go. *)
Definition leaving (q n : Z) (cr : ValkeyCluster) (w : W) : Prop :=
  serves cr w ∧ toDo cr q w n ∧ ∃ i, hasSet cr w.1 i ∧ crShards cr ≤ i.

#[export] Instance leaving_Portable q n : Portable (leaving q n).
Proof.
  constructor.
  - intros cr st k k' f S' Hk (Sv & Hn & i & Hi & Hge). split; [by apply (serves_portable cr st k)|].
    split; [exact (toDo_sets cr q k k' f n Hk Hn)|]. exists i. split; [by apply Hk|done].
  - intros cr w Hsz [Sv _]. by apply serves_begun.
Qed.

(** ** One round *)

(** Ensuring the declared sets, where they are, changes no set's existence. *)
Lemma hasSet_ensured cr k k' i : sized cr → ensuredKube cr k k' → (∀ i, 0 ≤ i < crShards cr → hasSet cr k i) →
  hasSet cr k' i ↔ hasSet cr k i.
Proof.
  intros Hsz He Hsets. destruct (decide (0 ≤ i < crShards cr)) as [Hi|Hi].
  - split; intros _; [by apply Hsets|]. split; [by apply (shard_bounds cr Hsz)|].
    destruct (ek_declared _ _ _ He i Hi) as (sts & -> & _). by eexists.
  - unfold hasSet. assert (ordinal i → kSets k' !! setKey cr i = kSets k !! setKey cr i) as Hsame; [|split; intros [Ho H]; (split; [done|]); rewrite (Hsame Ho) in *; done].
    intros Ho. apply (ek_other _ _ _ He). intros a Ha E.
    unfold ordinal in Ho. pose proof (sized_shards cr Hsz). apply setKey_inj in E; lia.
Qed.

(** If the plan of a pass takes [P] to [Q], so does a round; and what is
    published afterwards is the truth. *)
Lemma round_acts (P Q : ValkeyCluster → W → Prop) `{!Portable P} `{!Portable Q} key sp w :
  (∀ cr k f, sized cr → P cr (k, f) → ∃ p, choosePlan cr (summarize (Fake.view f)) ((k, f) : W) = Some (Ok p, (k, f)) ∧
     acts cr (Kind p) k f (λ k' f', Q cr (k', f'))) →
  standing key sp P w →
  standing key sp (λ cr w, Q cr w ∧ (stPhase (crStatus cr) = PhaseReady ↔ serving cr (Fake.view w.2))) (round key w).
Proof.
  intros Hstep (cr & Hst & Hkey & Hsp & Ha & Hf & Hsz & Hrd & HP). destruct w as [k f]. simpl in *.
  destruct (portable_begun cr (k, f) Hsz HP) as (S & Hsets & _). pose proof Hsz as (_ & Hr & Hr32). subst key.
  destruct (Reconcile_acts cr (sized_shards cr Hsz) Hr Hr32 Ha Hf k f Hst) as (k1 & He & Hpass).
  rewrite decide_True in Hpass by (apply Forall_forall; intros i Hi%elem_of_seqZ; apply Hrd; lia).
  assert (P cr (k1, f)) as HP1.
  { rewrite <- (cluster_eta cr). apply (portable cr _ k k1); [by apply (setsOk_ensured cr Hsz k)| |done].
    intros i. by apply hasSet_ensured. }
  destruct (Hstep cr k1 f Hsz HP1) as (p & Ep & Hacts). destruct (Hpass p _ Ep Hacts) as (k2 & f2 & E & HQ & st & Hst2 & Hph).
  set (cr2 := mkCluster (crMeta cr) (crSpec cr) st). destruct (portable_begun cr (k2, f2) Hsz HQ) as (S2 & Hsets2 & _).
  assert (round (metaKey (crMeta cr)) ((k, f) : W) = attend cr2 (k2, f2)) as ->.
  { unfold round, worldAfter. change (reqOf (metaKey (crMeta cr))) with (crKey cr). rewrite E. cbn [fst]. by rewrite Hst2. }
  destruct (attend_frame cr2 (k2, f2)) as [Ef Ec]. simpl in Ef, Ec. exists cr2. rewrite Ec. do 6 (split; [done|]).
  split; [exact (attend_ready cr2 (k2, f2) Hsz Hsets2)|]. split; [|by rewrite Ef].
  rewrite (surjective_pairing (attend cr2 (k2, f2))), Ef. apply (portable cr st k2).
  - by apply (attend_setsOk cr2 cr (k2, f2)).
  - intros i. apply (attend_has cr2 (k2, f2) i).
  - done.
Qed.

(** *** The stages in turn *)

(** The first pass, ready or not: the sets are there, and their pods come up. *)
Lemma round_begins key cr w : operatingAs key cr w → standing key (crSpec cr) begun (round key w) ∧ operating key (round key w).
Proof.
  intros Ho. destruct (operatingAs_pass key cr w Ho) as (n & [k f] & cr' & E & Ho' & Hsp & Hf & HB).
  assert (round key w = attend cr' (k, f)) as ->.
  { unfold round, worldAfter. rewrite E. destruct Ho' as [Hst' _]. cbn [fst] in *. by rewrite Hst'. }
  split; [|eapply operating_steps; [apply attend_steps|by exists cr']].
  destruct Ho' as (Hst & Hkey & Ha & Hsz & _). destruct (attend_frame cr' (k, f)) as [Ef Ec]. exists cr'. rewrite Ec.
  do 6 (split; [done|]). split; [apply attend_ready; [done|apply HB]|].
  rewrite (surjective_pairing (attend cr' (k, f))), Ef. rewrite <- (cluster_eta cr') at 1. apply (portable cr' _ k).
  - apply (attend_setsOk cr' cr' (k, f)), HB.
  - intros i. apply (attend_has cr' (k, f) i).
  - done.
Qed.

(** Then the cluster is formed or grown, or was large enough already. *)
Lemma begun_acts cr k f : sized cr → begun cr (k, f) →
  ∃ p, choosePlan cr (summarize (Fake.view f)) ((k, f) : W) = Some (Ok p, (k, f)) ∧ acts cr (Kind p) k f (λ k' f', serves cr (k', f')).
Proof.
  intros Hsz (S & Hsets & [Ef|Sf]); [simpl in *; subst f|by apply safe_acts].
  destruct (form_acts cr Hsz k S Hsets) as [Ep Ha]. by exists (planOf ActionForm).
Qed.

Lemma standing_mono key sp (P Q : ValkeyCluster → W → Prop) w : (∀ cr, sized cr → P cr w → Q cr w) → standing key sp P w → standing key sp Q w.
Proof. intros HPQ (cr & ? & ? & ? & ? & ? & ? & ? & HP). exists cr. do 7 (split; [done|]). by apply HPQ. Qed.

Lemma round_serves key sp w : standing key sp begun w → standing key sp serves (round key w).
Proof. intros Hw. eapply standing_mono; [|apply (round_acts begun serves key sp w begun_acts Hw)]. by intros cr _ [? _]. Qed.

(** A cluster of the declared shards is completed with its replicas, published
    as Ready, and keeps its shape. *)
Definition fittedReady (cr : ValkeyCluster) (w : W) : Prop := complete cr w ∧ stPhase (crStatus cr) = PhaseReady.

Lemma fitted_serving cr w : sized cr → fitted cr w → serving cr (Fake.view w.2).
Proof.
  destruct w as [k f]. intros Hsz [Sv Hno]. destruct (fitted_owned cr k f Sv Hno) as [o Hown].
  apply (owned_serving cr (sized_shards cr Hsz) (sized_replicas cr Hsz) (counts f) o); [by apply (safe_tracks cr k), Sv|done|apply Sv].
Qed.

Lemma round_fitted key sp w : standing key sp fitted w → standing key sp fittedReady (round key w).
Proof.
  intros Hw. eapply standing_mono; [|apply (round_acts fitted complete key sp w); [|exact Hw]].
  - intros cr Hsz [C Hph]. split; [done|]. apply Hph, fitted_serving; [done|apply C].
  - intros cr k f Hsz F. destruct (fitted_acts cr Hsz k f F) as (p & Ep & Ha). exists p. split; [done|].
    eapply acts_mono; [|exact Ha]. by intros k' f' [? _].
Qed.

(** A scale-in comes to its end. *)
Lemma rounds_shrink key sp q (n : nat) : ∀ w, standing key sp (shrinking q (Z.of_nat n)) w →
  ∃ m, standing key sp fitted (Nat.iter m (round key) w).
Proof.
  induction n as [n IH] using lt_wf_ind. intros w Hw. pose proof Hw as (cr & Hst & Hkey & Hsp & Ha & Hf & Hsz & Hrd & Sv & z & Hz & Hlt).
  pose proof (toDo_nonneg cr q w z (proj1 Sv) Hz) as Hnn. destruct (departing_or_not cr w.1 (sf_sets _ _ (proj1 Sv))) as [Hex|Hno].
  2: { exists 0%nat. exists cr. by do 7 (split; [done|]). }
  destruct (IH (Z.to_nat z) ltac:(lia) (round key w)) as [m Hm]; [|exists (S m); by rewrite Nat.iter_succ_r].
  rewrite Z2Nat.id by done.
  assert (standing key sp (leaving q z) w) as Hw' by (exists cr; by do 7 (split; [done|])).
  eapply standing_mono; [|apply (round_acts (leaving q z) (shrinking q z) key sp w); [|exact Hw']].
  - by intros cr' _ [? _].
  - intros cr' k f Hsz' (Sv' & Hz' & Hex'). eexists. split; [by apply plan_departing|]. by apply departing_acts.
Qed.

(** ** The theorem *)

Lemma rounds_settle key cr w : operatingAs key cr w → ∃ n, standing key (crSpec cr) fittedReady (Nat.iter n (round key) w).
Proof.
  intros Ho. destruct (round_begins key cr w Ho) as [Hb _]. pose proof (round_serves _ _ _ Hb) as Hs.
  assert (∃ q n, standing key (crSpec cr) (shrinking q (Z.of_nat n)) (round key (round key w))) as (q & n & Hq).
  { pose proof Hs as (cr' & Hst & Hkey & Hsp & Ha & Hf & Hsz & Hrd & Sv). destruct (toDo_exists cr' Hsz _ Sv) as (q & z & Hz).
    pose proof (toDo_nonneg cr' q _ z (proj1 Sv) Hz). exists q, (Z.to_nat (z + 1)). exists cr'. do 7 (split; [done|]). split; [done|].
    exists z. split; [done|lia]. }
  destruct (rounds_shrink key _ q n _ Hq) as [m Hm]. exists (S (S (S m))). rewrite 2 Nat.iter_succ_r. by apply round_fitted.
Qed.

Lemma rounds_stay key sp w n m : (n ≤ m)%nat → standing key sp fittedReady (Nat.iter n (round key) w) →
  standing key sp fittedReady (Nat.iter m (round key) w).
Proof.
  induction 1 as [|m Hle IH]; [done|]. intros H%IH. simpl. apply round_fitted. eapply standing_mono; [|exact H]. by intros cr _ [[? _] _].
Qed.

Lemma rounds_steps key w n : operating key w → rtc (step key) w (Nat.iter n (round key) w).
Proof.
  intros Ho. induction n as [|n IH]; [done|]. simpl. etrans; [exact IH|]. apply round_steps. by eapply operating_steps.
Qed.

(** A complete cluster, shard by shard: one owner, and the other pods follow it
    and own nothing. *)
Lemma complete_shard cr w i : sized cr → complete cr w → 0 ≤ i < crShards cr →
  ∃ p, 0 ≤ p ≤ crReplicas cr ∧ 0 < Fake.countAt (PodFQDN cr i p) w.2 ∧ ∀ j, 0 ≤ j ≤ crReplicas cr → j ≠ p →
    ∃ nd, w.2 !! PodFQDN cr i j = Some nd ∧ nMasterID nd = PodFQDN cr i p ∧ nSlots nd = [].
Proof.
  intros Hsz [[[Sf Hall] _] [_ Hrole]] Hi. destruct (Hall i Hi) as (p & Hp & Hpos). exists p. split; [done|]. split; [done|].
  pose proof (shard_bounds cr Hsz i Hi) as Hio. intros j Hj Hne. assert (∀ q, owns cr (counts w.2) i q → q = p) as Huniq.
  { intros q Hq. by apply (ow_unique _ _ _ (sf_owners _ _ Sf) i). }
  destruct (Hrole i j (conj Hi Hj)) as [Hown|(nd & q & Hnd & Hq & Hqpos & Em)]; [by destruct Hne; apply Huniq|].
  assert (q = p) as -> by (by apply Huniq). exists nd. split; [done|]. split; [done|].
  destruct (mo_follows _ _ (sf_members _ _ Sf) i j nd Hio (pod_bounds cr Hsz j Hj) Hnd) as [E|[? _]]; [|done].
  rewrite Em in E. by destruct (PodFQDN_nonempty cr i p).
Qed.

(** C2: the operator settles.  Take any world that passes, edits of the spec
    (within the two rules), readiness changes and failovers have led to since
    the resource was created: before formation, in the middle of a scale-out or
    of a scale-in, after failovers.  If from then on there are only passes, and
    the pods of the declared shards come up after each, then after some number
    of rounds, and for ever after, the cluster is what the spec (unchanged)
    declares: the members are the declared pods, one pod of each shard owns
    slots and the others replicate it, all slots are assigned, the StatefulSets
    are those of the declared shards, and the published phase is Ready. *)
Theorem operator_settles (cr : ValkeyCluster) (w : KubeWorld * gmap string NodeInfo) :
  sized cr → mDeletionTimestamp (crMeta cr) = None → rtc (step (metaKey (crMeta cr))) (created cr) w →
  ∃ cur n, kCRs w.1 !! metaKey (crMeta cr) = Some cur ∧ ∀ m, (n ≤ m)%nat →
    let w' := Nat.iter m (round (metaKey (crMeta cr))) w in
    rtc (step (metaKey (crMeta cr))) w w' ∧
    ∃ cr', kCRs w'.1 !! metaKey (crMeta cr) = Some cr' ∧ crSpec cr' = crSpec cur ∧ stPhase (crStatus cr') = PhaseReady ∧
      Fake.assignedSlots w'.2 = TotalSlots ∧
      (∀ h, is_Some (w'.2 !! h) ↔ ∃ i j, (0 ≤ i < crShards cr' ∧ 0 ≤ j ≤ crReplicas cr') ∧ h = PodFQDN cr' i j) ∧
      (∀ i, 0 ≤ i < crShards cr' → ∃ p, 0 ≤ p ≤ crReplicas cr' ∧ 0 < Fake.countAt (PodFQDN cr' i p) w'.2 ∧
         ∀ j, 0 ≤ j ≤ crReplicas cr' → j ≠ p →
           ∃ nd, w'.2 !! PodFQDN cr' i j = Some nd ∧ nMasterID nd = PodFQDN cr' i p ∧ nSlots nd = []) ∧
      (∀ i, 0 ≤ i < 2 ^ 31 → is_Some (kSets w'.1 !! setKey cr' i) ↔ i < crShards cr').
Proof.
  intros Hsz Ha Hsteps. pose proof (operating_steps _ _ _ Hsteps (operating_created cr Hsz Ha)) as [cur Ho].
  destruct (rounds_settle _ cur w Ho) as [n Hn]. exists cur, n. split; [apply Ho|]. intros m Hm w'.
  split; [apply rounds_steps; by exists cur|]. apply (rounds_stay _ _ _ n m Hm) in Hn. fold w' in Hn.
  destruct Hn as (cr' & Hst & _ & Hsp & _ & _ & Hsz' & _ & C & Hph). exists cr'. do 3 (split; [done|]).
  pose proof C as [[Sv Hno] [Hmem _]]. split; [apply Sv|]. split; [exact Hmem|]. split; [intros i Hi; by apply complete_shard|].
  intros i Hi. split; [intros Hk; apply Hno; by split|]. intros Hlt. apply (serves_sets cr' Hsz' w' Sv). lia.
Qed.

(** The life of [Operation], left in the middle of a scale-in, from
    which the cluster settles. *)
Lemma operator_settles_witness :
  ∃ cur n, kCRs lifeWorld.1 !! metaKey (crMeta lifeCR) = Some cur ∧ crShards cur = 1 ∧ ∀ m, (n ≤ m)%nat →
    Fake.assignedSlots (Nat.iter m (round (metaKey (crMeta lifeCR))) lifeWorld).2 = TotalSlots.
Proof.
  destruct (operator_settles lifeCR lifeWorld life_sized eq_refl life_run) as (cur & n & Hcur & H). exists cur, n.
  split; [exact Hcur|]. split.
  - assert (crShards <$> kCRs lifeWorld.1 !! metaKey (crMeta lifeCR) = Some 1) as E by (vm_compute; reflexivity).
    rewrite Hcur in E. by injection E.
  - intros m Hm. destruct (H m Hm) as (_ & cr' & _ & _ & _ & Hc & _). exact Hc.
Defined.

(** The same by evaluation: the number of slots of each shard's first pod, the
    sets, and the phase after each round. *)
Definition shapeOf (w : W) : list Z * list bool * option ValkeyClusterPhase :=
  (map (λ i, Fake.countAt (PodFQDN lifeCR i 0) w.2) [0; 1; 2],
   map (λ i, bool_decide (is_Some (kSets w.1 !! setKey lifeCR i))) [0; 1; 2],
   (λ cr, stPhase (crStatus cr)) <$> (kCRs w.1 !! metaKey (crMeta lifeCR))).

Example life_settles : shapeOf (Nat.iter 12 (round (metaKey (crMeta lifeCR))) lifeWorld) = ([16384; 0; 0], [true; false; false], Some PhaseReady).
Proof. vm_compute. reflexivity. Qed.
