(* ===== verification/Quiet.v ===== *)
(** * A complete cluster is left alone

    Once the cluster has the declared shape and a pass has brought the objects
    and the status up to date, a pass writes back what is there: the world after
    it is the world before it, the clock aside. *)

From S2P Require Import Prelude GoStrings Cluster Slots Topology API ResourceBuilders.
From S2P Require Import ResourceProofs Platform Controller Reconcile Fake FakeProofs TestBed.
From S2P Require Import StatusProofs ScaleInProofs Lifecycle Formation SteadyState SlotMover ScaleOutProofs Drain.
From S2P Require Import Converge Passes Hazards Ownership Attach ScaleUp System Operation Settle.
Local Open Scope string_scope.
Local Open Scope list_scope.
Local Open Scope Z_scope.

Local Abbreviation W := (KubeWorld * gmap string NodeInfo)%type.

(** The same server at another time. *)
Definition atClock (t : Z) (k : KubeWorld) : KubeWorld :=
  mkKube (kCRs k) (kConfigMaps k) (kServices k) (kSets k) (kPVCs k) t.

Lemma atClock_self k : atClock (kClock k) k = k.
Proof. by destruct k. Qed.

(** ** Objects *)

Definition sameObjects (k k' : KubeWorld) : Prop :=
  kConfigMaps k' = kConfigMaps k ∧ kServices k' = kServices k ∧ kSets k' = kSets k.

#[export] Instance sameObjects_preorder : PreOrder sameObjects.
Proof.
  split; [by intros k|]. intros k1 k2 k3 (E1 & E2 & E3) (E4 & E5 & E6). unfold sameObjects. split_and!; congruence.
Qed.

(** The ensure steps of a pass find their objects as they would write them. *)
Definition upToDate (cr : ValkeyCluster) (k : KubeWorld) : Prop := ∀ k' f, sameObjects k k' →
  ensureConfigMap cr ((k', f) : W) = Some (Ok tt, (k', f)) ∧
  ensureHeadlessService cr ((k', f) : W) = Some (Ok tt, (k', f)) ∧
  ensureStatefulSets cr ((k', f) : W) = Some (Ok tt, (k', f)).

Lemma upToDate_same cr k k' : sameObjects k k' → upToDate cr k → upToDate cr k'.
Proof. intros Hk H k2 f Hk2. apply H. by etrans. Qed.

Lemma upToDate_status cr st k : upToDate cr k → upToDate (mkCluster (crMeta cr) (crSpec cr) st) k.
Proof. exact id. Qed.

Section Ensure.
Context (cr : ValkeyCluster).
Implicit Types (k : KubeWorld) (f : gmap string NodeInfo).

(** Writing an object again. *)
Lemma config_again k k' f f' : ensureConfigMap cr ((k, f) : W) = Some (Ok tt, (k', f)) →
  ∀ k2, kConfigMaps k2 = kConfigMaps k' → ensureConfigMap cr ((k2, f') : W) = Some (Ok tt, (k2, f')).
Proof.
  intros [= <-] k2 E. simpl in *. rewrite E. destruct k2 as [? cm ? ? ? ?]. simpl in E. rewrite lookup_insert_eq. simpl.
  by rewrite E, insert_insert_eq.
Qed.

Lemma service_again k k' f f' : ensureHeadlessService cr ((k, f) : W) = Some (Ok tt, (k', f)) →
  ∀ k2, kServices k2 = kServices k' → ensureHeadlessService cr ((k2, f') : W) = Some (Ok tt, (k2, f')).
Proof.
  intros [= <-] k2 E. simpl in *. rewrite E. destruct k2 as [? ? sv ? ? ?]. simpl in E. rewrite lookup_insert_eq. simpl.
  by rewrite E, insert_insert_eq.
Qed.

Lemma set_again i old sts k f : ensuredSet (sum256 (W := W)) cr i old sts → kSets k !! setKey cr i = Some sts →
  createOrUpdateStatefulSet (mkKey (StatefulSetName cr i) (crNamespace cr))
    (mutateStatefulSet (W := W) cr (StatefulSet (sum256 (W := W)) cr i)) ((k, f) : W) = Some (Ok tt, (k, f)).
Proof.
  intros [Hr Ht Hl _ Ho Hc _ _] Hk. simpl. unfold keyOf. simpl. fold (setKey cr i). rewrite Hk. simpl.
  destruct sts as [[? ? lb ? ow ? ? [ts|] ?] ? rp ? ? tp ? ?]; [|done]. simpl in *. subst lb ow rp tp.
  rewrite insert_id; [by destruct k|]. exact Hk.
Qed.

Lemma sets_again k k' f f' : crShards cr < 2 ^ 63 → ensureStatefulSets cr ((k, f) : W) = Some (Ok tt, (k', f)) →
  ∀ k2, kSets k2 = kSets k' → ensureStatefulSets cr ((k2, f') : W) = Some (Ok tt, (k2, f')).
Proof.
  intros Hmax E k2 E2. destruct (ensureStatefulSets_loop cr ((k, f) : W) Hmax) as (r & w' & E' & -> & _ & Hin & _).
  rewrite E in E'. injection E' as <-. unfold ensureStatefulSets. apply forE_quiet. intros i Hi.
  destruct (Hin i Hi) as (sts & Hk & He). simpl in Hk. rewrite <- E2 in Hk. exact (set_again i _ sts k2 f' He Hk).
Qed.

(** After the ensure steps the objects are up to date. *)
Lemma ensured_upToDate k k1 k2 k3 f : crShards cr < 2 ^ 63 → ensureConfigMap cr ((k, f) : W) = Some (Ok tt, (k1, f)) →
  ensureHeadlessService cr ((k1, f) : W) = Some (Ok tt, (k2, f)) → ensureStatefulSets cr ((k2, f) : W) = Some (Ok tt, (k3, f)) →
  kConfigMaps k3 = kConfigMaps k1 → kServices k3 = kServices k2 → upToDate cr k3.
Proof.
  intros Hmax E1 E2 E3 Hcm Hsv k' f' (H1 & H2 & H3). split_and!.
  - apply (config_again k k1 f f' E1). by rewrite H1, Hcm.
  - apply (service_again k1 k2 f f' E2). by rewrite H2, Hsv.
  - by apply (sets_again k2 k3 f f' Hmax E3).
Qed.
End Ensure.

(** ** Status *)

(** The conditions are in the resource, with any transition time. *)
Definition current (cr : ValkeyCluster) (cs : list (string * ConditionStatus * string * string)) : Prop :=
  ∀ ty st re ms, (ty, st, re, ms) ∈ cs →
    ∃ t, condOf ty (stConditions (crStatus cr)) = Some (mkCondition ty st re ms (mGeneration (crMeta cr)) t).

Lemma replaceCond_same m cs t : condOf (cType m) cs = Some (mkCondition (cType m) (cStatus m) (cReason m) (cMessage m) (cObservedGeneration m) t) →
  replaceCond m cs = cs.
Proof.
  unfold condOf. induction cs as [|c cs IH]; simpl; [done|]. destruct (String.eqb (cType c) (cType m)) eqn:E.
  - intros [= ->]. simpl. by rewrite bool_decide_eq_true_2.
  - intros H. by rewrite IH.
Qed.

Lemma setCond_current t c ty st re ms cs : current c ((ty, st, re, ms) :: cs) → setCondAt t c ty st re ms = c.
Proof.
  intros H. destruct (H ty st re ms (list_elem_of_here _ _)) as [t' Ht]. unfold setCondAt, onStatus, set_stConditions.
  rewrite (replaceCond_same _ _ t') by exact Ht. by destruct c as [? ? []].
Qed.

(** Setting conditions reads the clock, and changes nothing that is current. *)
Lemma setConds_current cs c k f : current c cs →
  setConds (W := W) c cs (k, f) = Some (c, (atClock (kClock k + Z.of_nat (length cs)) k, f)).
Proof.
  revert k. induction cs as [|[[[ty st] re] ms] cs IH]; intros k H.
  - simpl. by rewrite Z.add_0_r, atClock_self.
  - cbn [setConds]. unfold bind at 1. unfold setCond, bind. simpl. rewrite (setCond_current _ _ _ _ _ _ cs H), IH.
    + unfold atClock. simpl. do 4 f_equal. lia.
    + intros ty' st' re' ms' Hin. apply H. by right.
Qed.

Lemma setConds_makes_current cs c k f : NoDup (map (λ x, fst (fst (fst x))) cs) →
  ∃ c' t, setConds (W := W) c cs (k, f) = Some (c', (atClock t k, f)) ∧ current c' cs ∧
    crMeta c' = crMeta c ∧ crSpec c' = crSpec c ∧ set_stConditions [] (crStatus c') = set_stConditions [] (crStatus c) ∧
    ∀ ty, ty ∉ map (λ x, fst (fst (fst x))) cs → condOf ty (stConditions (crStatus c')) = condOf ty (stConditions (crStatus c)).
Proof.
  revert c k. induction cs as [|[[[ty st] re] ms] cs IH]; intros c k Hnd.
  - exists c, (kClock k). simpl. rewrite atClock_self. split_and!; try done. by intros ? ? ? ? ?%elem_of_nil.
  - apply NoDup_cons in Hnd as [Hty Hnd]. cbn [setConds]. unfold bind at 1. unfold setCond, bind. simpl.
    edestruct IH as (c' & t & E & Hc & Hm & Hsp & Hst & Hout); [done|]. rewrite E. exists c', t. split; [done|]. split_and!; try done.
    + intros ty' st' re' ms' [Eq|Hin]%elem_of_cons; [|by apply Hc]. injection Eq as -> -> -> ->. rewrite Hout by done.
      rewrite Hm. simpl. rewrite (condOf_replaceCond_eq (mkCondition ty st re ms _ _)). by eexists.
    + intros ty' [? ?]%not_elem_of_cons. rewrite Hout by done. by apply condOf_replaceCond_ne.
Qed.

(** The status is what [updateStatus] would write. *)
Definition statusCurrent (cr : ValkeyCluster) (state : ClusterState) (st : ValkeyClusterStatus) : Prop :=
  let v := computeStatus cr state in let '(phase, conds) := statusDecision cr state v in
  set_stConditions [] st = mkStatus phase (mGeneration (crMeta cr)) (wrap32 (vReady v)) (vShards v) [] ∧
  current (mkCluster (crMeta cr) (crSpec cr) st) conds.

Section Status.
Context (cr : ValkeyCluster) (state : ClusterState).
Implicit Types (k : KubeWorld) (f : gmap string NodeInfo).

Lemma updateStatus_makes_current k f : storedCR cr k → ∃ st t, statusCurrent cr state st ∧
  updateStatus cr state ((k, f) : W) = Some (Ok tt, (atClock t (mkKube
    (<[metaKey (crMeta cr) := mkCluster (crMeta cr) (crSpec cr) st]> (kCRs k)) (kConfigMaps k) (kServices k) (kSets k) (kPVCs k) 0), f)).
Proof.
  intros [st0 Hst]. destruct (statusDecision cr state (computeStatus cr state)) as [phase conds] eqn:Ed.
  set (latest := onStatus (λ s, mkStatus phase (mGeneration (crMeta cr)) (wrap32 (vReady (computeStatus cr state)))
    (vShards (computeStatus cr state)) (stConditions s)) (mkCluster (crMeta cr) (crSpec cr) st0)).
  destruct (statusDecision_available cr state (computeStatus cr state)) as (? & ? & ? & _ & Hnd & _). rewrite Ed in Hnd.
  destruct (setConds_makes_current conds latest k f Hnd) as (c & t & E & Hc & Hm & Hsp & Hs & _).
  exists (crStatus c), t. unfold statusCurrent. rewrite Ed. assert (mkCluster (crMeta cr) (crSpec cr) (crStatus c) = c) as Ec.
  { destruct c. simpl in *. by subst. }
  rewrite Ec. split; [split; [exact Hs|done]|]. apply (retryN_ok 4). unfold bindE, bind. rewrite (getCR_stored cr k f st0 Hst). cbv iota. rewrite Ed.
  match goal with |- context [setConds ?l conds] => change l with latest end. rewrite E. simpl. unfold kwrite. simpl. by rewrite Hm.
Qed.

Lemma updateStatus_quiet k f st : kCRs k !! metaKey (crMeta cr) = Some (mkCluster (crMeta cr) (crSpec cr) st) →
  statusCurrent cr state st → ∃ t, updateStatus cr state ((k, f) : W) = Some (Ok tt, (atClock t k, f)).
Proof.
  intros Hst. unfold statusCurrent. destruct (statusDecision cr state (computeStatus cr state)) as [phase conds] eqn:Ed. intros [Es Hc].
  eexists. apply (retryN_ok 4). unfold bindE, bind. rewrite (getCR_stored cr k f st Hst). cbv iota. rewrite Ed.
  match goal with |- context [setConds ?l conds] => assert (l = mkCluster (crMeta cr) (crSpec cr) st) as -> end.
  { unfold onStatus. simpl. f_equal. destruct st. unfold set_stConditions in Es. simpl in *. by injection Es as -> -> -> ->. }
  rewrite setConds_current by done. simpl. unfold kwrite, atClock. simpl. by rewrite insert_id.
Qed.
End Status.

(** ** The cluster *)

Lemma NoDup_map_filter {A B} (g : A → B) (P : A → bool) l : NoDup (map g l) → NoDup (map g (List.filter P l)).
Proof.
  induction l as [|x l IH]; simpl; [done|]. intros [Hx Hnd]%NoDup_cons. destruct (P x); [|by apply IH]. simpl.
  apply NoDup_cons. split; [|by apply IH]. intros (y & E & [Hy _]%list_elem_of_In%filter_In)%list_elem_of_fmap. apply Hx.
  rewrite E. apply list_elem_of_fmap. exists y. by rewrite list_elem_of_In.
Qed.

Section Complete.
Context (cr : ValkeyCluster) (Hsz : sized cr).
Implicit Types (k : KubeWorld) (f : gmap string NodeInfo).
Local Abbreviation host := (PodFQDN cr).
Local Abbreviation pod i j := (0 ≤ i < crShards cr ∧ 0 ≤ j ≤ crReplicas cr).

(** A node that names a master is not flagged as one itself. *)
Definition rolesOk (f : gmap string NodeInfo) : Prop := map_Forall (λ _ n, nMasterID n ≠ "" → IsPrimary n = false) f.

(** The owner of each shard, and the others as its followers. *)
Definition roleAs f (i p : Z) : Prop :=
  0 ≤ p ≤ crReplicas cr ∧ 0 < Fake.countAt (host i p) f ∧ ∀ j, 0 ≤ j ≤ crReplicas cr → j ≠ p →
    ∃ nd, f !! host i j = Some nd ∧ nMasterID nd = host i p ∧ nSlots nd = [].

Lemma complete_settled k f : complete cr (k, f) → ∃ prim, settled cr (Fake.view f) ((k, f) : W) (λ i j, nodeAt f (host i j)) prim.
Proof.
  intros C. pose proof (mo_inv _ _ (sf_members _ _ (proj1 (proj1 (proj1 C))))) as Hf. simpl in Hf.
  assert (∀ i, 0 ≤ i < crShards cr → ∃ p, roleAs f i p) as Hrole by (intros i Hi; by apply (complete_shard cr (k, f) i Hsz C)).
  destruct (bounded_choice _ _ Hrole) as [prim Hp]. exists prim.
  assert (∀ i j, pod i j → ∃ n, f !! host i j = Some n) as Hin.
  { intros i j Hij. destruct (proj1 (proj2 C) (host i j)) as [_ H]. destruct H as [n Hn]; [by exists i, j|]. by exists n. }
  assert (∀ i j n, f !! host i j = Some n → nodeAt f (host i j) = n) as Hat by (intros i j n Hn; unfold nodeAt; by rewrite Hn).
  constructor.
  - intros i j Hij. rewrite hostIndex_view by done. by destruct (Hin i j Hij) as [n ->].
  - intros i j Hij. destruct (Hin i j Hij) as [n Hn]. by rewrite (Hat _ _ _ Hn), (MyID_pod cr k f i j n Hf Hn), (ok_id _ _ (Hf _ _ Hn)).
  - intros i j Hij. destruct (Hin i j Hij) as [n Hn]. by rewrite (Hat _ _ _ Hn), byID_view, (ok_id _ _ (Hf _ _ Hn)).
  - intros i Hi. destruct (Hp i Hi) as (Hb & Hpos & _). split; [done|]. destruct (Hin i (prim i) (conj Hi Hb)) as [n Hn].
    rewrite (Hat _ _ _ Hn). by apply (owns_countAt f _ n Hf Hn).
  - intros i j [Hi Hj] Hne. destruct (Hp i Hi) as (Hb & _ & Ho). destruct (Ho j Hj Hne) as (n & Hn & Hm & Hs).
    destruct (Hin i (prim i) (conj Hi Hb)) as [np Hnp]. rewrite (Hat _ _ _ Hn), (Hat _ _ _ Hnp), (ok_id _ _ (Hf _ _ Hnp)). split; [|done].
    unfold ownsSlots. rewrite (SlotCount_nil n Hs). apply andb_false_r.
  - destruct (fitted_hosts cr Hsz k f (proj1 C)) as (hosts & Eh & Hh). exists hosts. split; [done|]. intros n Hn. right.
    simpl in Hn. apply (elem_of_sortedNodes f n Hf) in Hn. rewrite (ok_host _ _ (Hf _ _ Hn)). apply Hh, (proj1 (proj2 C)). by eexists.
Qed.

(** The replicas of the owner of a shard are the other pods of the shard. *)
Lemma complete_replicas k f i p : complete cr (k, f) → rolesOk f → 0 ≤ i < crShards cr → roleAs f i p →
  replicasOf (Fake.view f) (host i p) = crReplicas cr.
Proof.
  intros C Hroles Hi (Hb & Hpos & Ho). pose proof (proj1 (proj1 (proj1 C))) as Sf.
  pose proof (mo_inv _ _ (sf_members _ _ Sf)) as Hf. simpl in Hf. pose proof (shard_bounds cr Hsz i Hi) as Hio.
  set (js := seqZ 0 p ++ seqZ (p + 1) (crReplicas cr - p)).
  assert (∀ j, j ∈ js ↔ 0 ≤ j ≤ crReplicas cr ∧ j ≠ p) as Hjs by (intros j; unfold js; rewrite elem_of_app, !elem_of_seqZ; lia).
  assert (NoDup js) as Hnd.
  { apply NoDup_app. split; [apply NoDup_seqZ|]. split; [|apply NoDup_seqZ]. intros j. rewrite !elem_of_seqZ. lia. }
  unfold replicasOf. simpl csNodes. rewrite <- (length_map nID). set (ids := map nID _).
  assert (ids ≡ₚ map (host i) js) as ->; [|rewrite length_map; unfold js; rewrite length_app, !length_seqZ; lia].
  apply NoDup_Permutation; [apply NoDup_map_filter, sortedNodes_nodup, Hf| |].
  - apply NoDup_fmap_2_strong; [|done]. intros a b [Ha _]%Hjs [Hb' _]%Hjs E.
    by apply (pod_host_inj cr) in E as [_ ?]; [..|apply (pod_bounds cr Hsz)|done|apply (pod_bounds cr Hsz)].
  - intros h. unfold ids. rewrite !list_elem_of_fmap. split.
    + intros (n & -> & [Hn Hb']%list_elem_of_In%filter_In). apply list_elem_of_In, (elem_of_sortedNodes f n Hf) in Hn.
      apply andb_true_iff in Hb' as [_ Em%String.eqb_eq]. destruct (mo_pod _ _ (sf_members _ _ Sf) (nID n)) as (a & b & Ha & Hbo & E); [by eexists|].
      simpl in *. rewrite E in Hn. destruct (mo_follows _ _ (sf_members _ _ Sf) a b n Ha Hbo Hn) as [E0|(_ & b' & Hb' & Hne & Em')].
      { rewrite Em in E0. by destruct (PodFQDN_nonempty cr i p). }
      rewrite Em in Em'. apply (pod_host_inj cr) in Em' as [<- <-]; [|done|by apply (pod_bounds cr Hsz)|done..].
      destruct (proj1 (proj1 (proj2 C) (host i b))) as (a & b' & [Ha' Hb''] & E'); [by eexists|].
      apply (pod_host_inj cr) in E' as [<- <-]; [|done|done|by apply (shard_bounds cr Hsz)|by apply (pod_bounds cr Hsz)].
      exists b. split; [done|]. by apply Hjs.
    + intros (j & -> & [Hj Hne]%Hjs). destruct (Ho j Hj Hne) as (n & Hn & Em & _). exists n.
      split; [by rewrite (ok_id _ _ (Hf _ _ Hn))|]. apply list_elem_of_In, filter_In. rewrite <- list_elem_of_In. split.
      * apply (elem_of_sortedNodes f n Hf). by rewrite (ok_id _ _ (Hf _ _ Hn)).
      * rewrite Em, String.eqb_refl, (Hroles _ _ Hn); [done|]. rewrite Em. apply PodFQDN_nonempty.
Qed.

Lemma complete_plan k f : complete cr (k, f) → rolesOk f →
  ∃ p, choosePlan cr (summarize (Fake.view f)) ((k, f) : W) = Some (Ok p, (k, f)) ∧ Kind p = ActionNone.
Proof.
  intros C Hroles. pose proof (proj1 C) as F. pose proof (proj1 (proj1 F)) as Sf. destruct (plan_fitted cr Hsz k f (proj1 F) (proj2 F)) as (p & Ep & Hk).
  exists p. split; [done|]. apply choosePlan_cases in Ep. cbv zeta in Ep.
  assert (Kind (Decide (desiredOf cr) (summarize (Fake.view f))) = ActionNone) as Hd.
  2: { destruct Ep as [[-> _]|(_ & _ & [[-> _]|[-> _]])]; [done|done|by destruct Hk]. }
  apply Decide_none_iff. rewrite summarize_covered by apply Sf. destruct (fitted_owned cr k f (proj1 F) (proj2 F)) as [o Hown].
  pose proof (owned_count cr (sized_shards cr Hsz) (sized_replicas cr Hsz) _ f _ o (safe_tracks cr k f Sf) Hown ltac:(pose proof (sized_shards cr Hsz); lia)) as Hcount.
  split_and!; [done|done|done|]. apply Forall_forall. simpl. intros rc (n & -> & [Hn Ho]%list_elem_of_In%filter_In)%list_elem_of_fmap.
  pose proof (mo_inv _ _ (sf_members _ _ Sf)) as Hf. simpl in Hf. apply list_elem_of_In, (elem_of_sortedNodes f n Hf) in Hn.
  apply (owns_countAt f _ n Hf Hn) in Ho. apply (proj2 Hown) in Ho as (i & Hi & E). rewrite E in Hn |- *.
  destruct (complete_shard cr (k, f) i Hsz C Hi) as (q & Hq). assert (o i = q) as ->; [|by apply (complete_replicas k f)].
  destruct Hq as (Hb & Hpos & _). apply (ow_unique _ _ _ (sf_owners _ _ Sf) i); [by apply (shard_bounds cr Hsz)| |by split].
  split; [by apply (proj1 Hown)|]. simpl. apply (proj2 Hown). by exists i.
Qed.

(** What a pass does after the gate: it reads, and writes the status. *)
Lemma complete_cluster k f w' : complete cr (k, f) → rolesOk f → updateStatus cr (Fake.view f) ((k, f) : W) = Some (Ok tt, w') →
  reconcileCluster cr ((k, f) : W) = Some (Ok false, w').
Proof.
  intros C Hroles Eu. destruct (complete_plan k f C Hroles) as (p & Ep & Hk). destruct (complete_settled k f C) as [prim Hset].
  unfold reconcileCluster, bindE at 1, bind at 1, wrapE, bind at 1. rewrite State_view. unfold ret at 1.
  unfold bindE at 1, bind at 1. rewrite Ep. unfold bindE at 1, bind at 1. unfold actOn. rewrite Hk, (settled_membership _ _ _ _ _ Hset).
  unfold bindE at 1, bind at 1. unfold bind at 1. rewrite State_view. unfold ret at 1. unfold bindE, bind. by rewrite Eu.
Qed.

(** The gate is open. *)
Lemma ready_gate k f : podsReady cr k → shardsReady cr ((k, f) : W) = Some (Ok true, (k, f)).
Proof.
  intros Hrd. pose proof Hsz as (_ & Hr & Hr32). destruct (shardsReady_decides cr Hr Hr32 k f) as (b & E & Hb).
  by rewrite (proj2 Hb Hrd) in E.
Qed.

Lemma live_pass k k1 k2 k3 f w' : ensureConfigMap cr ((k, f) : W) = Some (Ok tt, (k1, f)) →
  ensureHeadlessService cr ((k1, f) : W) = Some (Ok tt, (k2, f)) → ensureStatefulSets cr ((k2, f) : W) = Some (Ok tt, (k3, f)) →
  podsReady cr k3 → complete cr (k3, f) → rolesOk f →
  updateStatus cr (Fake.view f) ((k3, f) : W) = Some (Ok tt, w') → reconcileLive cr ((k, f) : W) = Some (Ok requeueAfter, w').
Proof.
  intros E1 E2 E3 Hrd C Hroles Eu. unfold reconcileLive, bindE at 1, bind at 1. rewrite E1. cbv iota. unfold bindE at 1, bind at 1.
  rewrite E2. cbv iota. unfold bindE at 1, bind at 1. rewrite E3. cbv iota. unfold bindE at 1, bind at 1.
  rewrite (ready_gate k3 f Hrd). cbn [negb]. cbv iota. unfold bind. by rewrite (complete_cluster k3 f w' C Hroles Eu).
Qed.

Lemma complete_shape k k' f : sameShape k k' → complete cr (k, f) → complete cr (k', f).
Proof. intros Hk [F A]. split; [by apply (fitted_shape cr k)|done]. Qed.

(** Nothing is left to write. *)
Record quietAs (k : KubeWorld) (f : gmap string NodeInfo) : Prop := {
  qa_status : ∃ st, kCRs k !! metaKey (crMeta cr) = Some (mkCluster (crMeta cr) (crSpec cr) st) ∧ statusCurrent cr (Fake.view f) st;
  qa_objects : upToDate cr k;
  qa_ready : podsReady cr k;
  qa_complete : complete cr (k, f)
}.

Lemma quietAs_clock t k f : quietAs k f → quietAs (atClock t k) f.
Proof. intros [Hst Ho Hrd C]. constructor; [done|by apply (upToDate_same cr k)|done|by apply (complete_shape k)]. Qed.

Context (Halive : mDeletionTimestamp (crMeta cr) = None) (Hfin : finalizer ∈ mFinalizers (crMeta cr)).

(** A pass over a complete cluster touches no server of it, and leaves nothing
    to write. *)
Lemma first_pass k f : kCRs k !! metaKey (crMeta cr) = Some cr → podsReady cr k → complete cr (k, f) → rolesOk f →
  ∃ k', Reconcile (crKey cr) ((k, f) : W) = Some (Ok requeueAfter, (k', f)) ∧ quietAs k' f.
Proof.
  intros Hst Hrd C Hroles. pose proof (sized_shards cr Hsz) as Hs. pose proof (proj1 (proj1 (proj1 C))) as Sf.
  destruct (ensure_steps cr Hs k f) as (k1 & k2 & k3 & E1 & E2 & E3 & Hcm & Hsv & He).
  pose proof (ensured_upToDate cr k k1 k2 k3 f ltac:(lia) E1 E2 E3 Hcm Hsv) as Hup. pose proof (podsReady_ensured cr k k3 He Hrd) as Hrd3.
  assert (complete cr (k3, f)) as C3.
  { rewrite <- (cluster_eta cr). apply (portable cr _ k k3); [by apply (setsOk_ensured cr Hsz k), Sf| |done].
    intros i. apply hasSet_ensured; [done..|]. apply (serves_sets cr Hsz (k, f) (proj1 (proj1 C))). }
  assert (storedCR cr k3) as Hst3 by (exists (crStatus cr); by rewrite (ek_crs _ _ _ He), Hst, cluster_eta).
  destruct (updateStatus_makes_current cr (Fake.view f) k3 f Hst3) as (st & t & Hcur & Eu). eexists. split.
  - rewrite (Reconcile_live cr Halive Hfin k f Hst). by apply (live_pass k k1 k2 k3 f).
  - apply quietAs_clock. constructor; [exists st; split; [apply lookup_insert_eq|done]| |done|by apply (complete_shape k3)].
    by apply (upToDate_same cr k3).
Qed.
End Complete.

(** A pass with nothing left to write writes nothing. *)
Lemma quiet_pass cr k f : sized cr → mDeletionTimestamp (crMeta cr) = None → finalizer ∈ mFinalizers (crMeta cr) →
  quietAs cr k f → rolesOk f → ∃ t, Reconcile (crKey cr) ((k, f) : W) = Some (Ok requeueAfter, (atClock t k, f)).
Proof.
  intros Hsz Ha Hf [(st & Hst & Hcur) Hup Hrd C] Hroles. set (cr' := mkCluster (crMeta cr) (crSpec cr) st).
  destruct (updateStatus_quiet cr' (Fake.view f) k f st Hst Hcur) as [t Eu]. exists t.
  destruct (Hup k f) as (E1 & E2 & E3); [done|]. change (crKey cr) with (crKey cr').
  rewrite (Reconcile_live cr' Ha Hf k f Hst). apply (live_pass cr' Hsz k k k k f _ E1 E2 E3); [done| |done..].
  apply (portable cr st k k); [apply (proj1 (proj1 (proj1 C)))|done..].
Qed.

(** C21: a cluster in the declared shape is left alone.  When the members are the
    declared pods, one pod of each shard owns slots and the others follow it (and
    are not flagged as masters), all slots are covered, there is no StatefulSet
    beyond the declared shards and all pods are ready, a pass makes no change to
    the cluster; and from then on every whole pass (the objects it ensures, the
    readiness gate, the plan, the membership and the status write) succeeds, asks
    for the slow requeue and leaves the cluster and every object of the server
    exactly as they are, however many passes there are.  Only the clock moves. *)
Theorem steady_state_quiet (cr : ValkeyCluster) (k : KubeWorld) (f : gmap string NodeInfo) :
  sized cr → mDeletionTimestamp (crMeta cr) = None → finalizer ∈ mFinalizers (crMeta cr) →
  kCRs k !! metaKey (crMeta cr) = Some cr → podsReady cr k → complete cr (k, f) → rolesOk f →
  ∃ k', Reconcile (crKey cr) (k, f) = Some (Ok requeueAfter, (k', f)) ∧
    ∀ n, ∃ t t', Nat.iter n (worldAfter (Reconcile (crKey cr))) (k', f) = (atClock t k', f) ∧
      Reconcile (crKey cr) (atClock t k', f) = Some (Ok requeueAfter, (atClock t' k', f)).
Proof.
  intros Hsz Ha Hf Hst Hrd C Hroles. destruct (first_pass cr Hsz Ha Hf k f Hst Hrd C Hroles) as (k' & E & Q). exists k'. split; [done|].
  assert (∀ t, ∃ t', Reconcile (crKey cr) ((atClock t k', f) : W) = Some (Ok requeueAfter, (atClock t' k', f))) as Hpass.
  { intros t. exact (quiet_pass cr (atClock t k') f Hsz Ha Hf (quietAs_clock cr t k' f Q) Hroles). }
  intros n. induction n as [|n (t & t' & En & Ep)].
  - exists (kClock k'). rewrite atClock_self. destruct (Hpass (kClock k')) as [t' E']. rewrite atClock_self in E'. by exists t'.
  - exists t'. destruct (Hpass t') as [t2 E2]. exists t2. split; [|done]. simpl. rewrite En. unfold worldAfter. by rewrite Ep.
Qed.

(** Two shards with a replica each, three rounds after their creation. *)
Definition calmCR : ValkeyCluster := sampleCR "calm" 2 1.
Local Abbreviation calmKey := (metaKey (crMeta calmCR)).
Definition calmAt (n : nat) : W := Nat.iter n (round calmKey) (created calmCR).

Lemma calm_operating : operatingAs calmKey calmCR (created calmCR).
Proof.
  do 3 (split; [done|]). split; [|split; [by constructor|by left]]. unfold sized. change (crShards calmCR) with 2.
  change (crReplicas calmCR) with 1. unfold TotalSlots. lia.
Qed.

Lemma calm_standing : standing calmKey (crSpec calmCR) fittedReady (calmAt 3).
Proof.
  apply round_fitted. assert (standing calmKey (crSpec calmCR) serves (calmAt 2)) as (cr & Hst & Hkey & Hsp & Ha & Hf & Hsz & Hrd & Sv).
  { apply round_serves. exact (proj1 (round_begins calmKey calmCR _ calm_operating)). }
  exists cr. do 7 (split; [done|]). split; [done|]. intros i Hi.
  destruct (existing_sets cr (calmAt 2).1 (calmAt 2).2 (sf_sets _ _ (proj1 Sv))) as (idxs & E & _ & Hin).
  assert (fst <$> existingShardIndexes cr (calmAt 2) = Some (Ok [0; 1])) as E2.
  { injection Hkey as Hn Hns. unfold existingShardIndexes, crName, crNamespace. rewrite Hn, Hns. vm_compute. reflexivity. }
  rewrite <- surjective_pairing in E. rewrite E in E2. injection E2 as ->. apply Hin in Hi. unfold crShards. rewrite Hsp. change (Shards (crSpec calmCR)) with 2.
  rewrite !elem_of_cons, elem_of_nil in Hi. lia.
Qed.

Lemma steady_state_quiet_witness : ∃ cr k', kCRs (calmAt 3).1 !! calmKey = Some cr ∧
  Reconcile (crKey cr) ((calmAt 3).1, (calmAt 3).2) = Some (Ok requeueAfter, (k', (calmAt 3).2)) ∧
  ∀ n, ∃ t t', Nat.iter n (worldAfter (Reconcile (crKey cr))) (k', (calmAt 3).2) = (atClock t k', (calmAt 3).2) ∧
    Reconcile (crKey cr) (atClock t k', (calmAt 3).2) = Some (Ok requeueAfter, (atClock t' k', (calmAt 3).2)).
Proof.
  destruct calm_standing as (cr & Hst & Hkey & Hsp & Ha & Hf & Hsz & Hrd & C & _). exists cr.
  rewrite <- Hkey in Hst. rewrite (surjective_pairing (calmAt 3)) in C.
  destruct (steady_state_quiet cr (calmAt 3).1 (calmAt 3).2 Hsz Ha Hf Hst Hrd C) as (k' & E & H).
  - apply (bool_decide_unpack _). vm_compute. reflexivity.
  - exists k'. split; [by rewrite <- Hkey|]. split; [exact E|exact H].
Defined.
