(* ===== verification/Shortfall.v ===== *)
(** * An interrupted scale-out is not resumed

    [MoveSlots] may fail after it has moved some slots; [scaleOut] then returns
    with the new shard short of its share.  The shard counts as an owner from
    then on, and the next scale-out starts behind it. *)

From S2P Require Import Prelude GoStrings Cluster Slots Topology API ResourceBuilders.
From S2P Require Import ResourceProofs Platform Controller Reconcile Fake FakeProofs TestBed.
From S2P Require Import StatusProofs ScaleInProofs Lifecycle Formation SteadyState SlotMover ScaleOutProofs Drain.
From S2P Require Import Converge Passes Hazards Ownership Attach ScaleUp System Operation Settle.
Local Open Scope string_scope.
Local Open Scope list_scope.
Local Open Scope Z_scope.

Local Abbreviation W := (KubeWorld * gmap string NodeInfo)%type.

(** The first [d] shards own, shard [a] among them with at most [c] slots on pod
    [p], and no set is beyond the declared shards. *)
Definition pending (d a p c : Z) (cr : ValkeyCluster) (w : W) : Prop :=
  safe cr w ∧ firstOwn cr (counts w.2) d ∧ (∀ i, hasSet cr w.1 i ↔ 0 ≤ i < crShards cr) ∧
  0 ≤ a < d ∧ owns cr (counts w.2) a p ∧ Fake.countAt (PodFQDN cr a p) w.2 ≤ c.

#[export] Instance pending_Portable d a p c : Portable (pending d a p c).
Proof.
  constructor.
  - intros cr st k k' f S' Hk (Sf & Hd & Hsets & Ha & Ho & Hc). split; [apply safe_status; by apply (safe_sets cr k)|]. split; [exact Hd|].
    split; [|done]. intros i. rewrite <- (Hsets i). apply Hk.
  - intros cr w Hsz (Sf & _ & Hsets & _). split; [apply (sf_sets _ _ Sf)|]. split; [intros i Hi; by apply Hsets|by right].
Qed.

(** All declared shards own, and shard [a] still has at most [c] slots there. *)
Definition short (a p c : Z) (cr : ValkeyCluster) (w : W) : Prop := fitted cr w ∧ Fake.countAt (PodFQDN cr a p) w.2 ≤ c.

#[export] Instance short_Portable a p c : Portable (short a p c).
Proof.
  constructor.
  - intros cr st k k' f S' Hk [F Hc]. split; [by apply (portable (P := fitted) cr st k)|exact Hc].
  - intros cr w Hsz [F _]. by apply (portable_begun (P := fitted) cr w).
Qed.

Definition shortReady (a p c : Z) (cr : ValkeyCluster) (w : W) : Prop := short a p c cr w ∧ stPhase (crStatus cr) = PhaseReady.

Lemma published_short key sp a p c w :
  standing key sp (λ cr w, short a p c cr w ∧ (stPhase (crStatus cr) = PhaseReady ↔ serving cr (Fake.view w.2))) w →
  standing key sp (shortReady a p c) w.
Proof. apply standing_mono. intros cr Hsz [S Hph]. split; [done|]. apply Hph, fitted_serving; [done|apply S]. Qed.

Lemma round_pending key sp d a p c w : standing key sp (pending d a p c) w → standing key sp (shortReady a p c) (round key w).
Proof.
  intros Hw. apply published_short, (round_acts (pending d a p c) (short a p c) key sp w); [|done].
  intros cr k f Hsz (Sf & Hd & Hsets & Ha & Ho & Hc). simpl in *.
  destruct (growing_acts cr Hsz k f d Sf Hd) as (pl & Ep & Hacts); [intros i Hi; by apply Hsets|].
  exists pl. split; [done|]. eapply acts_mono; [|exact Hacts]. intros k' f' (Sv & Hs & Hle). split.
  - split; [done|]. intros i Hi%Hs%Hsets. lia.
  - etrans; [|exact Hc]. by apply (Hle a p).
Qed.

Lemma round_short key sp a p c w : standing key sp (shortReady a p c) w → standing key sp (shortReady a p c) (round key w).
Proof.
  intros Hw. apply published_short, (round_acts (short a p c) (short a p c) key sp w); [|eapply standing_mono; [|exact Hw]; by intros cr _ [? _]].
  intros cr k f Hsz [F Hc]. destruct (fitted_acts cr Hsz k f F) as (pl & Ep & Hacts). exists pl. split; [done|].
  eapply acts_mono; [|exact Hacts]. intros k' f' [[F' _] HL]. split; [done|].
  change (counts f' (PodFQDN cr a p) ≤ c). by rewrite HL.
Qed.

Lemma PodFQDN_key cr cr' : metaKey (crMeta cr') = metaKey (crMeta cr) → PodFQDN cr' = PodFQDN cr.
Proof.
  intros [= E1 E2]. unfold PodFQDN, PodName, StatefulSetName, HeadlessServiceName, crName, crNamespace. by rewrite E1, E2.
Qed.

(** C20: an interrupted scale-out is never completed.  Suppose that the first
    [d] of more declared shards own slots, and that shard [a], one of them, has
    been given fewer than its share.  However many rounds follow, the shards
    from [d] on are filled and the cluster is published as Ready, but shard [a]
    never gets a slot more. *)
Theorem interrupted_fill_stays_short (cr : ValkeyCluster) (k : KubeWorld) (f : gmap string NodeInfo) (d a p : Z) (n : nat) :
  sized cr → mDeletionTimestamp (crMeta cr) = None → finalizer ∈ mFinalizers (crMeta cr) →
  kCRs k !! metaKey (crMeta cr) = Some cr → podsReady cr k → (∀ i, hasSet cr k i → i < crShards cr) →
  safe cr (k, f) → firstOwn cr (counts f) d → 0 ≤ a < d → owns cr (counts f) a p →
  Fake.countAt (PodFQDN cr a p) f < TotalSlots `quot` crShards cr →
  let w' := Nat.iter (S n) (round (metaKey (crMeta cr))) (k, f) in
  Fake.countAt (PodFQDN cr a p) w'.2 ≤ Fake.countAt (PodFQDN cr a p) f ∧ Fake.assignedSlots w'.2 = TotalSlots ∧
  (∀ i, 0 ≤ i < crShards cr → ∃ j, 0 ≤ j ≤ crReplicas cr ∧ 0 < Fake.countAt (PodFQDN cr i j) w'.2) ∧
  ∃ cr', kCRs w'.1 !! metaKey (crMeta cr) = Some cr' ∧ crSpec cr' = crSpec cr ∧ stPhase (crStatus cr') = PhaseReady.
Proof.
  intros Hsz Ha Hf Hst Hrd Hno Sf Hd Had Ho Hlt w'.
  assert (standing (metaKey (crMeta cr)) (crSpec cr) (shortReady a p (Fake.countAt (PodFQDN cr a p) f)) w') as Hw'.
  { unfold w'. induction n as [|n IH]; [|by apply round_short]. simpl. apply (round_pending _ _ d). exists cr. do 7 (split; [done|]).
    split; [done|]. split; [done|]. split; [|done]. intros i. split; [intros Hi; split; [apply Hi|by apply Hno]|].
    intros Hi. split; [by apply (shard_bounds cr Hsz)|]. specialize (Hrd i Hi). simpl. by destruct (kSets k !! setKey cr i). }
  destruct Hw' as (cr' & Hst' & Hkey & Hsp & _ & _ & Hsz' & _ & [[[Sf' Hall] _] Hc] & Hph).
  assert (PodFQDN cr' = PodFQDN cr) as Eh by (by apply PodFQDN_key). rewrite Eh in Hc.
  assert (crShards cr' = crShards cr ∧ crReplicas cr' = crReplicas cr) as [Es Er] by (unfold crShards, crReplicas; by rewrite Hsp).
  split; [done|]. split; [apply Sf'|]. split; [|by exists cr']. intros i Hi. rewrite <- Es in Hi. destruct (Hall i Hi) as (j & Hj & Hpos).
  exists j. rewrite <- Er, <- Eh. by split.
Qed.

(** ** How it comes about

    A slot mover that fails after a hundred slots, as [MoveSlots] of the
    production [Admin] does when a MIGRATE times out. *)

Definition failingMover : ClusterAdmin (gmap string NodeInfo) := {|
  State := Fake.State; MyID := Fake.MyID; Meet := Fake.Meet; AddSlots := Fake.AddSlots; Replicate := Fake.Replicate;
  Forget := Fake.Forget; Failover := Fake.Failover; Rebalance := Fake.Rebalance; Reshard := Fake.Reshard;
  MoveSlots seed from to n := λ f,
    match Fake.MoveSlots seed from to (Z.min n 100) f with
    | Some ((moved, _), f') => Some ((moved, Some (ErrText "i/o timeout")), f')
    | None => None
    end;
  Fix := Fake.Fix; RepairSlots := Fake.RepairSlots
|}.

(** Three shards run and five are declared; the pass that adds them is
    interrupted. *)
Definition interrupted : option (result Z * W) :=
  @Reconcile W server_Platform (@right_ClusterAdmin _ failingMover) (crKey fiveCR) (runningKube fiveCR, (runningCluster threeCR).2).
Definition interruptedWorld : W := match interrupted with Some (_, w) => w | None => (emptyKube, ∅) end.

Example interrupted_counts :
  fst <$> interrupted = Some (Ok requeueAfter) ∧
  map (λ i, Fake.countAt (PodFQDN fiveCR i 0) interruptedWorld.2) [0; 1; 2; 3; 4] = [5461; 5461; 5362; 100; 0] ∧
  map (λ i, Fake.countAt (PodFQDN fiveCR i 0) (Nat.iter 3 (round (metaKey (crMeta fiveCR))) interruptedWorld).2) [0; 1; 2; 3; 4]
    = [5461; 2185; 5362; 100; 3276].
Proof. split_and!; vm_compute; reflexivity. Qed.

(** [setsOk] and [safe] by evaluation. *)
Lemma setsOk_check cr k n : 0 ≤ n ≤ 2 ^ 31 →
  map_Forall (λ key sts, Exists (λ i, key = setKey cr i ∧ mNamespace (stsMeta sts) = crNamespace cr ∧
    mLabels (stsMeta sts) !! "app.kubernetes.io/instance" = Some (crName cr) ∧ mLabels (stsMeta sts) !! LabelShard = Some (Itoa i))
    (seqZ 0 n)) (kSets k) → setsOk cr k.
Proof.
  intros Hn H. constructor.
  - intros i sts Hi Hk. apply H, Exists_exists in Hk as (i' & Hi'%elem_of_seqZ & E & Hs). unfold ordinal in Hi.
    apply setKey_inj in E as ->; [exact Hs|lia..].
  - intros key sts Hk _ _. apply H, Exists_exists in Hk as (i & Hi%elem_of_seqZ & E & _). exists i. split; [unfold ordinal; lia|done].
Qed.

Lemma owned_pending cr k L d o : sized cr → ownedBy cr L d o → 0 < d < crShards cr → (∀ i, 0 ≤ i < crShards cr → hasSet cr k i) →
  ownersOk cr k L ∧ firstOwn cr L d.
Proof.
  intros Hsz [Ho Hown] Hd Hsets.
  assert (∀ i j, ordinal i → owns cr L i j → i < d ∧ j = o i) as Honly.
  { intros i j Hi [Hj (i' & Hi' & E)%Hown]. apply (pod_host_inj cr) in E as [-> ->]; [split; [lia|done]|done|by apply (pod_bounds cr Hsz)| |].
    - apply (shard_bounds cr Hsz). lia.
    - apply (pod_bounds cr Hsz), Ho, Hi'. }
  assert (∀ i, 0 ≤ i < d → owns cr L i (o i)) as Hdo by (intros i Hi; split; [by apply Ho|]; apply Hown; by exists i).
  assert (firstOwn cr L d) as HF.
  { split; [done|]. intros i Hi. split; [intros [j Hj]; by apply (Honly i j)|]. intros Hlt. exists (o i). apply Hdo. unfold ordinal in Hi. lia. }
  split; [|done]. constructor; [| |right; by exists d].
  - intros h (i & Hi & ->)%Hown. exists i, (o i). split; [apply Hsets; lia|]. split; [by apply Hdo|done].
  - intros i j j' Hi Hj Hj'. destruct (Honly i j Hi Hj) as [_ ->]. by destruct (Honly i j' Hi Hj') as [_ ->].
Qed.

Definition interruptedCR : ValkeyCluster := default fiveCR (kCRs interruptedWorld.1 !! metaKey (crMeta fiveCR)).

Lemma interrupted_safe : safe interruptedCR interruptedWorld ∧ firstOwn interruptedCR (counts interruptedWorld.2) 4.
Proof.
  assert (ownedBy interruptedCR (counts interruptedWorld.2) 4 (λ _, 0)) as Hown
    by (apply ownedBy_check; apply (bool_decide_unpack _); by vm_compute).
  assert (sized interruptedCR) as Hsz by (split; [split; [by vm_compute|by vm_compute]|by vm_compute]).
  destruct (owned_pending interruptedCR interruptedWorld.1 _ 4 _ Hsz Hown) as [O F]; [by vm_compute| |].
  { assert (Forall (λ i, is_Some (kSets interruptedWorld.1 !! setKey interruptedCR i)) (seqZ 0 (crShards interruptedCR))) as HF
      by (apply (bool_decide_unpack _); by vm_compute).
    rewrite Forall_forall in HF. intros i Hi. split; [by apply (shard_bounds _ Hsz)|]. apply HF, elem_of_seqZ. lia. }
  split; [|done]. constructor; [| |by vm_compute|done].
  - apply (setsOk_check _ _ 5); [lia|]. apply (bool_decide_unpack _). by vm_compute.
  - apply (membersOk_check _ _ [(0, 0); (0, 1); (1, 0); (1, 1); (2, 0); (2, 1); (3, 0); (3, 1); (4, 0); (4, 1)]).
    + unfold ordinal. repeat constructor; simpl; lia.
    + apply (bool_decide_unpack _). by vm_compute.
Qed.

Lemma interrupted_fill_stays_short_witness :
  Fake.countAt (PodFQDN interruptedCR 3 0) interruptedWorld.2 = 100 ∧ TotalSlots `quot` crShards interruptedCR = 3276 ∧
  Fake.countAt (PodFQDN interruptedCR 3 0) (Nat.iter 1000 (round (metaKey (crMeta interruptedCR))) interruptedWorld).2 ≤ 100.
Proof.
  split; [vm_compute; reflexivity|]. split; [vm_compute; reflexivity|]. destruct interrupted_safe as [Sf F].
  destruct (interrupted_fill_stays_short interruptedCR interruptedWorld.1 interruptedWorld.2 4 3 0 999) as [H _].
  - split; [split; [by vm_compute|by vm_compute]|by vm_compute].
  - vm_compute. reflexivity.
  - apply (bool_decide_unpack _). by vm_compute.
  - vm_compute. reflexivity.
  - assert (crShards interruptedCR = 5) as Es by (by vm_compute). intros i Hi. rewrite Es in Hi.
    assert (i = 0 ∨ i = 1 ∨ i = 2 ∨ i = 3 ∨ i = 4) as [-> |[-> |[-> |[-> | ->]]]] by lia; vm_compute; reflexivity.
  - assert (map_Forall (λ key _, Exists (λ i, key = setKey interruptedCR i) (seqZ 0 (crShards interruptedCR))) (kSets interruptedWorld.1)) as Hk
      by (apply (bool_decide_unpack _); by vm_compute).
    intros i [Hi [sts Hs]]. apply Hk, Exists_exists in Hs as (i' & Hi'%elem_of_seqZ & E). unfold ordinal in Hi.
    assert (crShards interruptedCR = 5) as Es by (by vm_compute). rewrite Es in *. apply setKey_inj in E as ->; lia.
  - rewrite <- surjective_pairing. exact Sf.
  - exact F.
  - lia.
  - split; [by vm_compute|]. vm_compute. reflexivity.
  - vm_compute. reflexivity.
  - assert (Fake.countAt (PodFQDN interruptedCR 3 0) interruptedWorld.2 = 100) as E by (vm_compute; reflexivity).
    rewrite <- surjective_pairing, E in H. exact H.
Defined.
