(* ===== verification/GoRedis.v ===== *)
(** * The production [ClusterAdmin]

    Models [internal/cluster/goredis.go] over the commands of the go-redis
    client, which is not part of the repository: class [Redis].  A client is
    identified by the address it dials; [Clients] has the same methods with the
    client objects that they create, cache and close, and proves the two the
    same.  Timeouts have no counterpart.  The pure parsers are in
    [ClusterNodes]. *)

From S2P Require Import Prelude GoStrings Cluster Slots ClusterNodes.
Local Open Scope string_scope.
Local Open Scope list_scope.
Local Open Scope Z_scope.

(** The argument of [CLUSTER SETSLOT <slot>]. *)
Inductive SetSlotArg :=
| SlotImporting (source : string)
| SlotMigrating (target : string)
| SlotStable
| SlotNode (owner : string).

(** Commands sent to the server at an address, name resolution, pod exec, and
    the order in which a Go map is ranged over. *)
Class Redis (W : Type) := {
  clusterInfo : string → M W (result string);
  clusterNodes : string → M W (result string);
  clusterMyID : string → M W (result string);
  clusterMeet : string → string → string → M W (result unit);
  clusterAddSlotsRange : string → Z → Z → M W (result unit);
  clusterReplicate : string → string → M W (result unit);
  clusterForget : string → string → M W (result unit);
  clusterFailover : string → M W (result unit);
  clusterGetKeysInSlot : string → Z → Z → M W (result (list string));
  clusterSetSlot : string → Z → SetSlotArg → M W (result unit);
  (** [MIGRATE ip port "" 0 5000 REPLACE KEYS k...] *)
  migrateKeys : string → string → Z → list string → M W (result unit);
  (** [MIGRATE ip port k 0 10000] *)
  migrateKey : string → string → string → string → M W (result unit);
  parseIP : string → bool;
  lookupHost : string → M W (result (list string));
  podExec : string → string → string → list string → M W (result string);
  slotRange : gset Z → M W (list Z)
}.

(** [fmt.Sprintf("%s:%d", addr, port)] with the IP, or the host without one. *)
Definition nodeAddr (n : NodeInfo) : string :=
  (if String.eqb (nIP n) "" then nHost n else nIP n) +:+ ":" +:+ Itoa (nPort n).

Definition migrateTimeoutMillis := "10000".

(** The slots [MoveSlots] picks: the first [n] of the source's ranges. *)
Fixpoint selectSlots (n : Z) (ranges : list SlotRange) (slots : list Z) : list Z :=
  match ranges with
  | [] => slots
  | r :: ranges' =>
      let slots := slots ++ take (Z.to_nat (n - Z.of_nat (length slots))) (seqZ (rStart r) (rangeCount r)) in
      if n <=? Z.of_nat (length slots) then slots else selectSlots n ranges' slots
  end.

(** [for i := range nodes { if nodes[i].ID == id { p = &nodes[i] } }] *)
Definition lastByID (id : string) (nodes : list NodeInfo) : option NodeInfo :=
  fold_left (λ p n, if String.eqb (nID n) id then Some n else p) nodes None.

(** The first node whose ranges hold the slot. *)
Definition ownerOf (nodes : list NodeInfo) (slot : Z) : option NodeInfo :=
  List.find (λ n, existsb (in_rangeb slot) (nSlots n)) nodes.

(** A node [collectOpenSlots] does not ask. *)
Definition skipped (n : NodeInfo) : bool :=
  negb (nConnected n) || HasFlag n "fail" || HasFlag n "fail?" || HasFlag n "noaddr".

Definition rebalanceArgs (port : Z) (opts : RebalanceOpts) : list string :=
  ["valkey-cli"; "--cluster"; "rebalance"; "127.0.0.1:" +:+ Itoa port; "--cluster-yes";
   "--cluster-timeout"; migrateTimeoutMillis] ++
  (if UseEmptyMasters opts then ["--cluster-use-empty-masters"] else []) ++
  mjoin (map (λ id, ["--cluster-weight"; id +:+ "=0"]) (WeightZeroIDs opts)).

Definition reshardArgs (port : Z) (fromNodeID toNodeID : string) (n : Z) : list string :=
  let from := if String.eqb fromNodeID "" then "all" else fromNodeID in
  ["valkey-cli"; "--cluster"; "reshard"; "127.0.0.1:" +:+ Itoa port;
   "--cluster-from"; from; "--cluster-to"; toNodeID;
   "--cluster-slots"; Itoa n; "--cluster-yes"; "--cluster-timeout"; migrateTimeoutMillis].

Definition fixArgs (port : Z) : list string :=
  ["valkey-cli"; "--cluster"; "fix"; "127.0.0.1:" +:+ Itoa port; "--cluster-yes";
   "--cluster-timeout"; migrateTimeoutMillis].

Module Admin.
Section Admin.
(** [container] is the field of [Admin]; [fuel] bounds the key loop of one
    slot, which in Go runs until the source reports no key. *)
Context {W : Type} `{!Redis W} (fuel : nat) (container : string).

(** [seen] as a set; the caller that depends on the order ranges over it. *)
Fixpoint collectOpenSlots (nodes : list NodeInfo) : M W (gset Z) :=
  match nodes with
  | [] => ret ∅
  | n :: nodes' =>
      if skipped n then collectOpenSlots nodes'
      else
        r <- clusterNodes (nodeAddr n) ;;
        seen <- collectOpenSlots nodes' ;;
        ret match r with
            | Ok raw => parseOpenSlots raw ∪ seen
            | Err _ => seen
            end
  end.

Definition State (seed : Endpoint) : M W (result ClusterState) :=
  info <-? wrapE "cluster info" (clusterInfo (Addr seed)) ;;
  nodesRaw <-? wrapE "cluster nodes" (clusterNodes (Addr seed)) ;;
  let kv := parseInfo info in
  let assigned := fst (Atoi (mapGet kv "cluster_slots_assigned")) in
  let nodes := parseNodes nodesRaw in
  open <- collectOpenSlots nodes ;;
  ret (Ok (mkState
    (negb (String.eqb (mapGet kv "cluster_state") "") && (0 <? assigned))
    (String.eqb (mapGet kv "cluster_state") "ok" && (assigned =? TotalSlots))
    (0 <? Z.of_nat (size open))
    nodes)).

Definition MyID (ep : Endpoint) : M W (result string) := clusterMyID (Addr ep).

Definition resolveHost (host : string) : M W (result string) :=
  if parseIP host then ret (Ok host)
  else
    addrs <-? lookupHost host ;;
    ret match addrs with
        | [] => Err (ErrText ("no addresses for " +:+ host))
        | ip :: _ => Ok ip
        end.

Definition Meet (from target : Endpoint) : M W (result unit) :=
  ip <-? wrapE ("resolve " +:+ epHost target) (resolveHost (epHost target)) ;;
  clusterMeet (Addr from) ip (Itoa (epPort target)).

Definition AddSlots (primary : Endpoint) (ranges : list SlotRange) : M W (result unit) :=
  forE ranges (λ r, clusterAddSlotsRange (Addr primary) (rStart r) (rEnd r)).

Definition Replicate (replica : Endpoint) (primaryID : string) : M W (result unit) :=
  clusterReplicate (Addr replica) primaryID.

Definition Forget (from : Endpoint) (nodeID : string) : M W (result unit) :=
  clusterForget (Addr from) nodeID.

Definition Failover (replica : Endpoint) : M W (result unit) := clusterFailover (Addr replica).

Definition Rebalance (seed : Endpoint) (opts : RebalanceOpts) : M W (result unit) :=
  _ <-? podExec (epNamespace seed) (epPodName seed) container (rebalanceArgs (epPort seed) opts) ;;
  ret (Ok tt).

Definition Reshard (seed : Endpoint) (fromNodeID toNodeID : string) (n : Z) : M W (result unit) :=
  if n <=? 0 then ret (Ok tt)
  else
    _ <-? podExec (epNamespace seed) (epPodName seed) container
            (reshardArgs (epPort seed) fromNodeID toNodeID n) ;;
    ret (Ok tt).

Definition Fix (seed : Endpoint) : M W (result unit) :=
  _ <-? podExec (epNamespace seed) (epPodName seed) container (fixArgs (epPort seed)) ;;
  ret (Ok tt).

(** The key loop of one slot. *)
Fixpoint migrateLoop (fuel : nat) (fromCl : string) (to : NodeInfo) (s : Z) : M W (result unit) :=
  match fuel with
  | O => out_of_fuel
  | S fuel' =>
      keys <-? wrapE ("getkeysinslot " +:+ Itoa s) (clusterGetKeysInSlot fromCl s 128) ;;
      match keys with
      | [] => ret (Ok tt)
      | _ =>
          _ <-? wrapE ("migrate slot " +:+ Itoa s) (migrateKeys fromCl (nIP to) (nPort to) keys) ;;
          migrateLoop fuel' fromCl to s
      end
  end.

Definition assignOwner (masters : list NodeInfo) (to : NodeInfo) (s : Z) : M W (result unit) :=
  forE masters (λ nd, clusterSetSlot (nodeAddr nd) s (SlotNode (nID to))).

(** One iteration of the loop over the slots. *)
Definition moveSlot (masters : list NodeInfo) (from to : NodeInfo) (s : Z) : M W (result unit) :=
  let fromCl := nodeAddr from in
  let toCl := nodeAddr to in
  probe <-? wrapE ("getkeysinslot " +:+ Itoa s) (clusterGetKeysInSlot fromCl s 1) ;;
  _ <-? match probe with
        | [] => ret (Ok tt)
        | _ =>
            _ <-? wrapE ("setslot importing " +:+ Itoa s) (clusterSetSlot toCl s (SlotImporting (nID from))) ;;
            _ <-? wrapE ("setslot migrating " +:+ Itoa s) (clusterSetSlot fromCl s (SlotMigrating (nID to))) ;;
            migrateLoop fuel fromCl to s
        end ;;
  wrapE ("setslot node " +:+ Itoa s) (assignOwner masters to s).

Fixpoint moveEach (masters : list NodeInfo) (from to : NodeInfo) (slots : list Z) (moved : Z) :
    M W (Z * option error) :=
  match slots with
  | [] => ret (moved, None)
  | s :: slots' =>
      r <- moveSlot masters from to s ;;
      match r with
      | Err e => ret (moved, Some e)
      | Ok _ => moveEach masters from to slots' (moved + 1)
      end
  end.

Definition MoveSlots (seed : Endpoint) (fromNodeID toNodeID : string) (n : Z) : M W (Z * option error) :=
  if n <=? 0 then ret (0, None)
  else
    r <- clusterNodes (Addr seed) ;;
    match r with
    | Err e => ret (0, Some e)
    | Ok nodesRaw =>
        let nodes := parseNodes nodesRaw in
        match lastByID fromNodeID nodes, lastByID toNodeID nodes with
        | Some from, Some to =>
            let slots := selectSlots n (nSlots from) [] in
            let masters := List.filter IsPrimary nodes in
            moveEach masters from to slots 0
        | _, _ => ret (0, Some (ErrText "move slots: from/to node not found"))
        end
    end.

(** Stray keys of a slot on node [n], moved one by one; errors are dropped. *)
Definition migrateStray (owner : NodeInfo) (slot : Z) (n : NodeInfo) : M W unit :=
  if String.eqb (nID n) (nID owner) || String.eqb (nIP n) "" || negb (IsPrimary n) then ret tt
  else
    let cn := nIP n +:+ ":" +:+ Itoa (nPort n) in
    r <- clusterGetKeysInSlot cn slot 1000 ;;
    forM match r with Ok keys => keys | Err _ => [] end (λ k,
      _ <- migrateKey cn (nIP owner) (Itoa (nPort owner)) k ;; ret tt).

Definition finalizeSlot (owner : NodeInfo) (slot : Z) (n : NodeInfo) : M W unit :=
  if negb (IsPrimary n) then ret tt
  else
    _ <- clusterSetSlot (nodeAddr n) slot SlotStable ;;
    _ <- clusterSetSlot (nodeAddr n) slot (SlotNode (nID owner)) ;;
    ret tt.

Fixpoint repairEach (nodes : list NodeInfo) (open : list Z) (repaired : Z) : M W (Z * option error) :=
  match open with
  | [] => ret (repaired, None)
  | slot :: open' =>
      match ownerOf nodes slot with
      | None => repairEach nodes open' repaired
      | Some owner =>
          if String.eqb (nIP owner) "" then repairEach nodes open' repaired
          else
            _ <- forM nodes (migrateStray owner slot) ;;
            _ <- forM nodes (finalizeSlot owner slot) ;;
            repairEach nodes open' (repaired + 1)
      end
  end.

Definition RepairSlots (seed : Endpoint) : M W (Z * option error) :=
  r <- clusterNodes (Addr seed) ;;
  match r with
  | Err e => ret (0, Some e)
  | Ok nodesRaw =>
      let nodes := parseNodes nodesRaw in
      open <- collectOpenSlots nodes ;;
      if Nat.eqb (size open) 0 then ret (0, None)
      else
        order <- slotRange open ;;
        repairEach nodes order 0
  end.
End Admin.
End Admin.

(** [Admin] is a [ClusterAdmin]. *)
Definition Admin_ClusterAdmin {W : Type} `{!Redis W} (fuel : nat) (container : string) : ClusterAdmin W := {|
  State := Admin.State;
  MyID := Admin.MyID;
  Meet := Admin.Meet;
  AddSlots := Admin.AddSlots;
  Replicate := Admin.Replicate;
  Forget := Admin.Forget;
  Failover := Admin.Failover;
  Rebalance := Admin.Rebalance container;
  Reshard := Admin.Reshard container;
  MoveSlots := Admin.MoveSlots fuel;
  Fix := Admin.Fix container;
  RepairSlots := Admin.RepairSlots
|}.
