(* ===== verification/RedisBed.v ===== *)
(** * A few Valkey servers in memory

    Instantiates [Redis]: servers that hold keys, answer CLUSTER NODES with a
    fixed text and record the owner they were told for a slot.  The hash slot
    of a key is its length, which puts as many keys as needed into one slot. *)

From S2P Require Import Prelude GoStrings Cluster Slots ClusterNodes GoRedis.
Local Open Scope string_scope.
Local Open Scope list_scope.
Local Open Scope Z_scope.

Record Servers := mkServers {
  svInfo : string;
  svText : gmap string string;
  svKeys : gmap string (gset string);
  svOwner : gmap (string * Z) string
}.

Definition hashSlot (k : string) : Z := Z.of_nat (String.length k) `mod` TotalSlots.

Definition storeOf (w : Servers) (a : string) : gset string := default ∅ (svKeys w !! a).
Definition slotKeys (w : Servers) (a : string) (s : Z) : gset string :=
  filter (λ k, hashSlot k = s) (storeOf w a).
Definition toldOwner (w : Servers) (a : string) (s : Z) : string := default "" (svOwner w !! (a, s)).

Definition set_svKeys (m : gmap string (gset string)) (w : Servers) : Servers :=
  mkServers (svInfo w) (svText w) m (svOwner w).

(** The keys [ks] that are on [a] go to [b]. *)
Definition transfer (a b : string) (ks : gset string) (w : Servers) : Servers :=
  set_svKeys (<[b := storeOf w b ∪ (storeOf w a ∩ ks)]> (<[a := storeOf w a ∖ ks]> (svKeys w))) w.

Definition refused {A} (a : string) : M Servers (result A) :=
  ret (Err (ErrText ("dial " +:+ a +:+ ": connection refused"))).
Definition upAt (w : Servers) (a : string) : bool := bool_decide (is_Some (svText w !! a)).
Definition onServer {A} (a : string) (m : M Servers (result A)) : M Servers (result A) :=
  λ w, if upAt w a then m w else refused a w.

#[export] Instance Servers_Redis : Redis Servers := {|
  clusterInfo a := onServer a (λ w, Some (Ok (svInfo w), w));
  clusterNodes a := onServer a (λ w, Some (Ok (default "" (svText w !! a)), w));
  clusterMyID a := onServer a (ret (Ok a));
  clusterMeet a _ _ := onServer a (ret (Ok tt));
  clusterAddSlotsRange a _ _ := onServer a (ret (Ok tt));
  clusterReplicate a _ := onServer a (ret (Ok tt));
  clusterForget a _ := onServer a (ret (Ok tt));
  clusterFailover a := onServer a (ret (Ok tt));
  clusterGetKeysInSlot a s c := onServer a (λ w, Some (Ok (take (Z.to_nat c) (elements (slotKeys w a s))), w));
  clusterSetSlot a s arg := onServer a (λ w,
    Some (Ok tt, match arg with
                 | SlotNode id => mkServers (svInfo w) (svText w) (svKeys w) (<[(a, s) := id]> (svOwner w))
                 | _ => w
                 end));
  migrateKeys a ip port ks := onServer a (λ w,
    let b := ip +:+ ":" +:+ Itoa port in
    if String.eqb a b || negb (upAt w b) then Some (Err (ErrText "IOERR"), w)
    else Some (Ok tt, transfer a b (list_to_set ks) w));
  migrateKey a ip port k := onServer a (λ w,
    let b := ip +:+ ":" +:+ port in
    if String.eqb a b || negb (upAt w b) then Some (Err (ErrText "IOERR"), w)
    else if bool_decide (k ∈ storeOf w b) then Some (Err (ErrText "BUSYKEY"), w)
    else Some (Ok tt, transfer a b {[ k ]} w));
  parseIP _ := false;
  lookupHost _ := ret (Ok ["10.0.0.1"]);
  podExec _ _ _ _ := ret (Ok "");
  slotRange open := ret (elements open)
|}.
