(* ===== verification/Clients.v ===== *)
(** * Connections of the production [ClusterAdmin]

    [GoRedis] identifies a client with the address it dials.  This file models
    the clients themselves, as [goredis.go] handles them: [NewClient], commands
    through a client, the client cache of [MoveSlots], [Close] and [defer].  It
    is shown to do exactly what [GoRedis] says and to close, on every path,
    every client it opens. *)

From S2P Require Import Prelude GoStrings Cluster Slots ClusterNodes GoRedis.
Local Open Scope string_scope.
Local Open Scope list_scope.
Local Open Scope Z_scope.

(** ** Clients *)

(** The clients that are open, by handle, with the address each dials. *)
Record Conns := mkConns { cnOpen : gmap nat string; cnNext : nat }.

Module Client.
Section Client.
Context {W : Type} `{!Redis W}.
Local Abbreviation CW := (Conns * W)%type.

Definition NewClient (addr : string) : M CW nat :=
  λ cw, Some (cnNext cw.1, (mkConns (<[cnNext cw.1 := addr]> (cnOpen cw.1)) (S (cnNext cw.1)), cw.2)).

Definition Close (h : nat) : M CW unit :=
  λ cw, Some (tt, (mkConns (delete h (cnOpen cw.1)) (cnNext cw.1), cw.2)).

(** What does not go through a client. *)
Definition direct {A} (m : M W A) : M CW A :=
  λ cw, match m cw.2 with Some (a, w) => Some (a, (cw.1, w)) | None => None end.

(** A command through a client; a closed client refuses it. *)
Definition via {A} (h : nat) (cmd : string → M W (result A)) : M CW (result A) :=
  λ cw, match cnOpen cw.1 !! h with
        | Some addr => direct (cmd addr) cw
        | None => Some (Err (ErrText "redis: client is closed"), cw)
        end.

Definition dial (e : Endpoint) : M CW nat := NewClient (Addr e).

(** [c := client; body; c.Close()], the last by a [defer] or after the body. *)
Definition withClient {A} (client : M CW nat) (body : nat → M CW A) : M CW A :=
  c <- client ;; r <- body c ;; _ <- Close c ;; ret r.

(** ** The methods *)

Fixpoint collectOpenSlots (nodes : list NodeInfo) : M CW (gset Z) :=
  match nodes with
  | [] => ret ∅
  | n :: nodes' =>
      if skipped n then collectOpenSlots nodes'
      else
        r <- withClient (NewClient (nodeAddr n)) (λ cn, via cn clusterNodes) ;;
        seen <- collectOpenSlots nodes' ;;
        ret match r with
            | Ok raw => parseOpenSlots raw ∪ seen
            | Err _ => seen
            end
  end.

Definition State (seed : Endpoint) : M CW (result ClusterState) :=
  withClient (dial seed) (λ c,
    info <-? wrapE "cluster info" (via c clusterInfo) ;;
    nodesRaw <-? wrapE "cluster nodes" (via c clusterNodes) ;;
    let kv := parseInfo info in
    let assigned := fst (Atoi (mapGet kv "cluster_slots_assigned")) in
    let nodes := parseNodes nodesRaw in
    open <- collectOpenSlots nodes ;;
    ret (Ok (mkState
      (negb (String.eqb (mapGet kv "cluster_state") "") && (0 <? assigned))
      (String.eqb (mapGet kv "cluster_state") "ok" && (assigned =? TotalSlots))
      (0 <? Z.of_nat (size open))
      nodes))).

Definition MyID (ep : Endpoint) : M CW (result string) := withClient (dial ep) (λ c, via c clusterMyID).

Definition Meet (from target : Endpoint) : M CW (result unit) :=
  withClient (dial from) (λ c,
    ip <-? wrapE ("resolve " +:+ epHost target) (direct (Admin.resolveHost (epHost target))) ;;
    via c (λ a, clusterMeet a ip (Itoa (epPort target)))).

Definition AddSlots (primary : Endpoint) (ranges : list SlotRange) : M CW (result unit) :=
  withClient (dial primary) (λ c,
    forE ranges (λ r, via c (λ a, clusterAddSlotsRange a (rStart r) (rEnd r)))).

Definition Replicate (replica : Endpoint) (primaryID : string) : M CW (result unit) :=
  withClient (dial replica) (λ c, via c (λ a, clusterReplicate a primaryID)).

Definition Forget (from : Endpoint) (nodeID : string) : M CW (result unit) :=
  withClient (dial from) (λ c, via c (λ a, clusterForget a nodeID)).

Definition Failover (replica : Endpoint) : M CW (result unit) := withClient (dial replica) (λ c, via c clusterFailover).

(** *** MoveSlots and its cache *)

(** [clientFor]: the client of the cache, or a new one. *)
Definition clientFor (clients : gmap string nat) (nd : NodeInfo) : M CW (nat * gmap string nat) :=
  let key := nodeAddr nd in
  match clients !! key with
  | Some cl => ret (cl, clients)
  | None => cl <- NewClient key ;; ret (cl, <[key := cl]> clients)
  end.

Fixpoint clientsFor (clients : gmap string nat) (nds : list NodeInfo) : M CW (list nat * gmap string nat) :=
  match nds with
  | [] => ret ([], clients)
  | nd :: nds' =>
      p <- clientFor clients nd ;;
      q <- clientsFor p.2 nds' ;;
      ret (p.1 :: q.1, q.2)
  end.

Definition closeAll (clients : gmap string nat) : M CW unit := forM (map_to_list clients) (λ p, Close p.2).

Fixpoint migrateLoop (fuel : nat) (fromCl : nat) (to : NodeInfo) (s : Z) : M CW (result unit) :=
  match fuel with
  | O => out_of_fuel
  | S fuel' =>
      keys <-? wrapE ("getkeysinslot " +:+ Itoa s) (via fromCl (λ a, clusterGetKeysInSlot a s 128)) ;;
      match keys with
      | [] => ret (Ok tt)
      | _ =>
          _ <-? wrapE ("migrate slot " +:+ Itoa s) (via fromCl (λ a, migrateKeys a (nIP to) (nPort to) keys)) ;;
          migrateLoop fuel' fromCl to s
      end
  end.

Definition assignOwner (masterCls : list nat) (to : NodeInfo) (s : Z) : M CW (result unit) :=
  forE masterCls (λ cl, via cl (λ a, clusterSetSlot a s (SlotNode (nID to)))).

Definition moveSlot (fuel : nat) (fromCl toCl : nat) (masterCls : list nat) (from to : NodeInfo) (s : Z) : M CW (result unit) :=
  probe <-? wrapE ("getkeysinslot " +:+ Itoa s) (via fromCl (λ a, clusterGetKeysInSlot a s 1)) ;;
  _ <-? match probe with
        | [] => ret (Ok tt)
        | _ =>
            _ <-? wrapE ("setslot importing " +:+ Itoa s) (via toCl (λ a, clusterSetSlot a s (SlotImporting (nID from)))) ;;
            _ <-? wrapE ("setslot migrating " +:+ Itoa s) (via fromCl (λ a, clusterSetSlot a s (SlotMigrating (nID to)))) ;;
            migrateLoop fuel fromCl to s
        end ;;
  wrapE ("setslot node " +:+ Itoa s) (assignOwner masterCls to s).

Fixpoint moveEach (fuel : nat) (fromCl toCl : nat) (masterCls : list nat) (from to : NodeInfo) (slots : list Z) (moved : Z) :
    M CW (Z * option error) :=
  match slots with
  | [] => ret (moved, None)
  | s :: slots' =>
      r <- moveSlot fuel fromCl toCl masterCls from to s ;;
      match r with
      | Err e => ret (moved, Some e)
      | Ok _ => moveEach fuel fromCl toCl masterCls from to slots' (moved + 1)
      end
  end.

Definition MoveSlots (fuel : nat) (seed : Endpoint) (fromNodeID toNodeID : string) (n : Z) : M CW (Z * option error) :=
  if n <=? 0 then ret (0, None)
  else
    r <- withClient (dial seed) (λ c, via c clusterNodes) ;;
    match r with
    | Err e => ret (0, Some e)
    | Ok nodesRaw =>
        let nodes := parseNodes nodesRaw in
        match lastByID fromNodeID nodes, lastByID toNodeID nodes with
        | Some from, Some to =>
            f <- clientFor ∅ from ;;
            t <- clientFor f.2 to ;;
            let slots := selectSlots n (nSlots from) [] in
            ms <- clientsFor t.2 (List.filter IsPrimary nodes) ;;
            res <- moveEach fuel f.1 t.1 ms.1 from to slots 0 ;;
            _ <- closeAll ms.2 ;;
            ret res
        | _, _ => ret (0, Some (ErrText "move slots: from/to node not found"))
        end
    end.

(** *** RepairSlots *)

Definition migrateStray (owner : NodeInfo) (slot : Z) (n : NodeInfo) : M CW unit :=
  if String.eqb (nID n) (nID owner) || String.eqb (nIP n) "" || negb (IsPrimary n) then ret tt
  else
    withClient (NewClient (nIP n +:+ ":" +:+ Itoa (nPort n))) (λ cn,
      r <- via cn (λ a, clusterGetKeysInSlot a slot 1000) ;;
      forM match r with Ok keys => keys | Err _ => [] end (λ k,
        _ <- via cn (λ a, migrateKey a (nIP owner) (Itoa (nPort owner)) k) ;; ret tt)).

Definition finalizeSlot (owner : NodeInfo) (slot : Z) (n : NodeInfo) : M CW unit :=
  if negb (IsPrimary n) then ret tt
  else
    withClient (NewClient (nodeAddr n)) (λ cn,
      _ <- via cn (λ a, clusterSetSlot a slot SlotStable) ;;
      _ <- via cn (λ a, clusterSetSlot a slot (SlotNode (nID owner))) ;;
      ret tt).

Fixpoint repairEach (nodes : list NodeInfo) (open : list Z) (repaired : Z) : M CW (Z * option error) :=
  match open with
  | [] => ret (repaired, None)
  | slot :: open' =>
      match ownerOf nodes slot with
      | None => repairEach nodes open' repaired
      | Some owner =>
          if String.eqb (nIP owner) "" then repairEach nodes open' repaired
          else
            _ <- forM nodes (migrateStray owner slot) ;;
            _ <- forM nodes (finalizeSlot owner slot) ;;
            repairEach nodes open' (repaired + 1)
      end
  end.

Definition RepairSlots (seed : Endpoint) : M CW (Z * option error) :=
  withClient (dial seed) (λ c,
    r <- via c clusterNodes ;;
    match r with
    | Err e => ret (0, Some e)
    | Ok nodesRaw =>
        let nodes := parseNodes nodesRaw in
        open <- collectOpenSlots nodes ;;
        if Nat.eqb (size open) 0 then ret (0, None)
        else
          order <- direct (slotRange open) ;;
          repairEach nodes order 0
    end).
End Client.
End Client.

(** ** Refinement *)

Section Refines.
Context {W : Type} `{!Redis W}.
Local Abbreviation CW := (Conns * W)%type.
Implicit Types (H O : gmap nat string) (c : Conns) (w : W).

(** Handles are given out in order. *)
Definition numbered c : Prop := ∀ h, is_Some (cnOpen c !! h) → (h < cnNext c)%nat.

(** With the clients [H] open, [m] gives what [m'] gives, and leaves open
    exactly the clients that were. *)
Definition refines {A} H (m : M CW A) (m' : M W A) : Prop :=
  ∀ c w, numbered c → H ⊆ cnOpen c →
    match m' w with
    | None => m (c, w) = None
    | Some (a, w') => ∃ c', m (c, w) = Some (a, (c', w')) ∧ cnOpen c' = cnOpen c ∧ numbered c'
    end.

Lemma refines_ret {A} H (a : A) : refines H (ret a) (ret a).
Proof. intros c w Hn _. by exists c. Qed.

Lemma refines_fuel {A} H : refines (A := A) H out_of_fuel out_of_fuel.
Proof. done. Qed.

Lemma refines_bind {A B} H (m : M CW A) m' (k : A → M CW B) k' :
  refines H m m' → (∀ a, refines H (k a) (k' a)) → refines H (bind m k) (bind m' k').
Proof.
  intros Hm Hk c w Hn Hin. specialize (Hm c w Hn Hin). unfold bind. destruct (m' w) as [[a w1]|]; [|by rewrite Hm].
  destruct Hm as (c1 & -> & E1 & Hn1). specialize (Hk a c1 w1 Hn1). rewrite E1 in Hk. specialize (Hk Hin).
  destruct (k' a w1) as [[b w2]|]; [|done]. destruct Hk as (c2 & -> & E2 & Hn2). exists c2. split; [done|]. split; [congruence|done].
Qed.

Lemma refines_bindE {A B} H (m : M CW (result A)) m' (k : A → M CW (result B)) k' :
  refines H m m' → (∀ a, refines H (k a) (k' a)) → refines H (bindE m k) (bindE m' k').
Proof. intros Hm Hk. apply refines_bind; [done|]. intros [a|e]; [apply Hk|apply refines_ret]. Qed.

Lemma refines_wrapE {A} H msg (m : M CW (result A)) m' : refines H m m' → refines H (wrapE msg m) (wrapE msg m').
Proof. intros Hm. apply refines_bind; [done|]. intros [a|e]; apply refines_ret. Qed.

Lemma refines_forM {A} H (l : list A) (b : A → M CW unit) b' : (∀ x, refines H (b x) (b' x)) → refines H (forM l b) (forM l b').
Proof. intros Hb. induction l as [|x l IH]; [apply refines_ret|]. apply refines_bind; [apply Hb|]. by intros _. Qed.

Lemma refines_forE {A} H (l : list A) (b : A → M CW (result unit)) b' : (∀ x, refines H (b x) (b' x)) → refines H (forE l b) (forE l b').
Proof. intros Hb. induction l as [|x l IH]; [apply refines_ret|]. apply refines_bindE; [apply Hb|]. by intros _. Qed.

Lemma refines_direct {A} H (m : M W A) : refines H (Client.direct m) m.
Proof. intros c w Hn _. unfold Client.direct. simpl. destruct (m w) as [[a w']|]; [by exists c|done]. Qed.

Lemma refines_via {A} H h addr (cmd : string → M W (result A)) : H !! h = Some addr → refines H (Client.via h cmd) (cmd addr).
Proof.
  intros Hh c w Hn Hin. unfold Client.via. simpl. rewrite (lookup_weaken _ _ _ _ Hh Hin). by apply (refines_direct H).
Qed.

(** A client that is opened, used and closed. *)
Lemma refines_client {A} H addr (body : nat → M CW A) body' :
  (∀ h, H !! h = None → refines (<[h := addr]> H) (body h) body') →
  refines H (Client.withClient (Client.NewClient addr) body) body'.
Proof.
  intros Hb c w Hn Hin. set (h := cnNext c). set (c1 := mkConns (<[h := addr]> (cnOpen c)) (S h)).
  assert (cnOpen c !! h = None) as Hfresh by (destruct (cnOpen c !! h) eqn:E; [|done]; pose proof (Hn h (mk_is_Some _ _ E)); unfold h in *; lia).
  assert (numbered c1) as Hn1.
  { intros h'. cbn [cnOpen cnNext c1]. intros [->|[_ Hs]]%lookup_insert_is_Some; [lia|]. specialize (Hn h' Hs). unfold h. lia. }
  assert (H !! h = None) as HHn by (eapply lookup_weaken_None; eauto).
  specialize (Hb h HHn c1 w Hn1 (insert_mono _ _ _ _ Hin)).
  unfold Client.withClient, bind. change (Client.NewClient addr (c, w)) with (Some (h, (c1, w))). cbv iota beta.
  destruct (body' w) as [[a w1]|]; [|by rewrite Hb]. destruct Hb as (c2 & -> & E2 & Hn2).
  exists (mkConns (delete h (cnOpen c2)) (cnNext c2)). split; [done|]. split.
  - simpl. rewrite E2. simpl. by rewrite delete_insert_id.
  - intros h'. cbn [cnOpen cnNext]. intros [_ Hs]%lookup_delete_is_Some. by apply Hn2.
Qed.

Lemma refines_cmd {A} H h addr (cmd : string → M W (result A)) m' : H !! h = Some addr → m' = cmd addr → refines H (Client.via h cmd) m'.
Proof. intros Hh ->. by apply refines_via. Qed.
End Refines.

Create HintDb refines.
#[export] Hint Resolve refines_ret refines_fuel refines_direct : refines.
#[export] Hint Extern 1 (refines _ (Client.via _ _) _) => (eapply refines_cmd; [first [eassumption|apply lookup_insert_eq]|reflexivity]) : refines.

(** Goes through two computations side by side. *)
Ltac refines_go :=
  repeat first
    [ progress cbv zeta
    | solve [auto with refines]
    | lazymatch goal with
      | |- refines _ (bindE _ _) _ => apply refines_bindE; [|intros ?]
      | |- refines _ (wrapE _ _) _ => apply refines_wrapE
      | |- refines _ (forE _ _) _ => apply refines_forE; intros ?
      | |- refines _ (forM _ _) _ => apply refines_forM; intros ?
      | |- refines _ (bind _ _) _ => apply refines_bind; [|intros ?]
      | |- refines _ (Client.withClient _ _) _ => apply refines_client; intros ? ?
      | |- refines _ (match ?x with _ => _ end) _ => destruct x
      end ].

Section Methods.
Context {W : Type} `{!Redis W}.
Local Abbreviation CW := (Conns * W)%type.
Implicit Types (H O : gmap nat string) (c : Conns) (w : W).

Lemma collectOpenSlots_refines H nodes : refines H (Client.collectOpenSlots nodes) (Admin.collectOpenSlots nodes).
Proof. induction nodes as [|n nodes IH]; cbn [Client.collectOpenSlots Admin.collectOpenSlots]; refines_go. Qed.
Hint Resolve collectOpenSlots_refines : refines.

Lemma State_refines H s : refines H (Client.State s) (Admin.State s).
Proof. unfold Client.State, Admin.State. refines_go. Qed.

Lemma MyID_refines H e : refines H (Client.MyID e) (Admin.MyID e).
Proof. unfold Client.MyID, Admin.MyID. refines_go. Qed.

Lemma Meet_refines H a b : refines H (Client.Meet a b) (Admin.Meet a b).
Proof. unfold Client.Meet, Admin.Meet. refines_go. Qed.

Lemma AddSlots_refines H e rs : refines H (Client.AddSlots e rs) (Admin.AddSlots e rs).
Proof. unfold Client.AddSlots, Admin.AddSlots. refines_go. Qed.

Lemma Replicate_refines H e p : refines H (Client.Replicate e p) (Admin.Replicate e p).
Proof. unfold Client.Replicate, Admin.Replicate. refines_go. Qed.

Lemma Forget_refines H e n : refines H (Client.Forget e n) (Admin.Forget e n).
Proof. unfold Client.Forget, Admin.Forget. refines_go. Qed.

Lemma Failover_refines H e : refines H (Client.Failover e) (Admin.Failover e).
Proof. unfold Client.Failover, Admin.Failover. refines_go. Qed.

Lemma repairEach_refines H nodes open n : refines H (Client.repairEach nodes open n) (Admin.repairEach nodes open n).
Proof.
  revert n. induction open as [|s open IH]; intros n; cbn [Client.repairEach Admin.repairEach]; [apply refines_ret|].
  unfold Client.migrateStray, Admin.migrateStray, Client.finalizeSlot, Admin.finalizeSlot. refines_go.
Qed.
Hint Resolve repairEach_refines : refines.

Lemma RepairSlots_refines H s : refines H (Client.RepairSlots s) (Admin.RepairSlots s).
Proof. unfold Client.RepairSlots, Admin.RepairSlots. refines_go. Qed.

(** *** MoveSlots *)

Lemma migrateLoop_refines H fuel fromCl from to s : H !! fromCl = Some (nodeAddr from) →
  refines H (Client.migrateLoop fuel fromCl to s) (Admin.migrateLoop fuel (nodeAddr from) to s).
Proof.
  intros Hf. induction fuel as [|fuel IH]; cbn [Client.migrateLoop Admin.migrateLoop]; [apply refines_fuel|]. refines_go.
Qed.

(** The clients of the masters. *)
Definition dialled H (nds : list NodeInfo) (hs : list nat) : Prop := Forall2 (λ nd h, H !! h = Some (nodeAddr nd)) nds hs.

Lemma assignOwner_refines H masters hs to s : dialled H masters hs → refines H (Client.assignOwner hs to s) (Admin.assignOwner masters to s).
Proof.
  induction 1 as [|nd h nds hs Hh Hall IH]; [apply refines_ret|]. apply refines_bindE; [|by intros []]. by eapply refines_cmd.
Qed.

Lemma moveEach_refines H fuel fromCl toCl masters hs from to slots moved :
  H !! fromCl = Some (nodeAddr from) → H !! toCl = Some (nodeAddr to) → dialled H masters hs →
  refines H (Client.moveEach fuel fromCl toCl hs from to slots moved) (Admin.moveEach fuel masters from to slots moved).
Proof.
  intros Hf Ht Hm. pose proof (migrateLoop_refines H fuel fromCl from to) as Hl. pose proof (assignOwner_refines H masters hs to) as Ha.
  revert moved. induction slots as [|s slots IH]; intros moved; cbn [Client.moveEach Admin.moveEach]; [apply refines_ret|].
  unfold Client.moveSlot, Admin.moveSlot. refines_go.
Qed.

(** What is open: the clients [O] from before, and those of the cache. *)
Record cached O (clients : gmap string nat) c : Prop := {
  ca_numbered : numbered c;
  ca_before : O ⊆ cnOpen c;
  ca_cache a h : clients !! a = Some h → O !! h = None ∧ cnOpen c !! h = Some a;
  ca_only h a : cnOpen c !! h = Some a → O !! h = Some a ∨ clients !! a = Some h
}.

Lemma clientFor_cached O clients c nd w : cached O clients c →
  ∃ h clients' c', Client.clientFor clients nd (c, w) = Some ((h, clients'), (c', w)) ∧ cached O clients' c' ∧
    clients' !! nodeAddr nd = Some h ∧ clients ⊆ clients'.
Proof.
  intros C. unfold Client.clientFor. destruct (clients !! nodeAddr nd) as [h|] eqn:E; [by exists h, clients, c|].
  set (h := cnNext c). exists h, (<[nodeAddr nd := h]> clients), (mkConns (<[h := nodeAddr nd]> (cnOpen c)) (S h)).
  split; [done|]. split; [|split; [apply lookup_insert_eq|by apply insert_subseteq]]. destruct C as [Hn Hb Hc Ho].
  assert (cnOpen c !! h = None) as Hfresh by (destruct (cnOpen c !! h) eqn:E1; [|done]; pose proof (Hn h (mk_is_Some _ _ E1)); unfold h in *; lia).
  constructor; simpl.
  - intros h'. cbn [cnOpen cnNext]. intros [->|[_ Hs]]%lookup_insert_is_Some; [lia|]. specialize (Hn h' Hs). unfold h. lia.
  - by apply insert_subseteq_r; [eapply lookup_weaken_None|].
  - intros a h' [[<- <-]|[Hne Hh]]%lookup_insert_Some.
    + split; [by eapply lookup_weaken_None|apply lookup_insert_eq].
    + destruct (Hc a h' Hh) as [? Hopen]. split; [done|]. rewrite lookup_insert_ne; [done|]. intros <-. congruence.
  - intros h' a [[<- <-]|[Hne Hh]]%lookup_insert_Some; [right; apply lookup_insert_eq|]. destruct (Ho h' a Hh) as [|Hcl]; [by left|right].
    rewrite lookup_insert_ne; [done|]. intros <-. congruence.
Qed.

Lemma clientsFor_cached O nds clients c w : cached O clients c →
  ∃ hs clients' c', Client.clientsFor clients nds (c, w) = Some ((hs, clients'), (c', w)) ∧ cached O clients' c' ∧
    Forall2 (λ nd h, clients' !! nodeAddr nd = Some h) nds hs ∧ clients ⊆ clients'.
Proof.
  revert clients c. induction nds as [|nd nds IH]; intros clients c C; cbn [Client.clientsFor]; [by exists [], clients, c|].
  destruct (clientFor_cached O clients c nd w C) as (h & cl1 & c1 & E1 & C1 & Hh & Hsub1). unfold bind. rewrite E1.
  destruct (IH cl1 c1 C1) as (hs & cl2 & c2 & E2 & C2 & Hhs & Hsub2). cbn [fst snd]. rewrite E2.
  exists (h :: hs), cl2, c2. split; [done|]. split; [done|]. split; [|by etrans]. constructor; [by eapply lookup_weaken|done].
Qed.

Lemma closes (l : list (string * nat)) c w : ∃ c', forM l (λ p, Client.Close p.2) (c, w) = Some (tt, (c', w)) ∧ cnNext c' = cnNext c ∧
  ∀ h, cnOpen c' !! h = if decide (h ∈ l.*2) then None else cnOpen c !! h.
Proof.
  revert c. induction l as [|[a h] l IH]; intros c; [by exists c|]. cbn [forM]. unfold bind.
  destruct (IH (mkConns (delete h (cnOpen c)) (cnNext c))) as (c' & E & Hnext & Hopen). exists c'. split; [exact E|]. split; [done|].
  intros h'. rewrite Hopen. cbn [cnOpen fmap list_fmap snd]. destruct (decide (h' = h)) as [->|Hne].
  - rewrite (decide_True (P := h ∈ h :: l.*2)) by left. rewrite lookup_delete_eq. by destruct (decide _).
  - rewrite lookup_delete_ne by done. apply decide_ext. rewrite elem_of_cons. tauto.
Qed.

Lemma closeAll_cached O clients c w : cached O clients c →
  ∃ c', Client.closeAll clients (c, w) = Some (tt, (c', w)) ∧ cnOpen c' = O ∧ numbered c'.
Proof.
  intros [Hn Hb Hc Ho]. destruct (closes (map_to_list clients) c w) as (c' & E & Hnext & Hopen). exists c'. split; [exact E|].
  assert (∀ h, h ∈ (map_to_list clients).*2 ↔ ∃ a, clients !! a = Some h) as Hin.
  { intros h. rewrite list_elem_of_fmap. split.
    - intros ([a h'] & -> & Hx%elem_of_map_to_list). by exists a.
    - intros (a & Ha). exists (a, h). by rewrite elem_of_map_to_list. }
  split.
  - apply map_eq. intros h. rewrite Hopen. destruct (decide _) as [(a & Ha)%Hin|Hno]; [symmetry; by apply (Hc a h)|].
    destruct (cnOpen c !! h) as [a|] eqn:Eh.
    + destruct (Ho h a Eh) as [|Hcl]; [done|]. exfalso. apply Hno, Hin. by exists a.
    + symmetry. by eapply lookup_weaken_None.
  - intros h. rewrite Hopen, Hnext. destruct (decide _); [by intros []|apply Hn].
Qed.

Lemma MoveSlots_refines H fuel s a b n : refines H (Client.MoveSlots fuel s a b n) (Admin.MoveSlots fuel s a b n).
Proof.
  unfold Client.MoveSlots, Admin.MoveSlots. destruct (n <=? 0); [apply refines_ret|].
  apply refines_bind; [refines_go|]. intros [raw|e]; [|apply refines_ret]. cbv zeta.
  destruct (lastByID a _) as [from|]; [|apply refines_ret]. destruct (lastByID b _) as [to|]; [|apply refines_ret].
  intros c w Hn _. assert (cached (cnOpen c) ∅ c) as C0 by (constructor; [done|done|done|by left]).
  destruct (clientFor_cached _ _ _ from w C0) as (f & cl1 & c1 & E1 & C1 & Hf & Hs1).
  destruct (clientFor_cached _ _ _ to w C1) as (t & cl2 & c2 & E2 & C2 & Ht & Hs2).
  destruct (clientsFor_cached _ (List.filter IsPrimary (parseNodes raw)) _ _ w C2) as (hs & cl3 & c3 & E3 & C3 & Hhs & Hs3).
  unfold bind. rewrite E1. cbn [fst snd]. rewrite E2. cbn [fst snd]. rewrite E3. cbn [fst snd].
  assert (∀ x h, cl3 !! x = Some h → cnOpen c3 !! h = Some x) as Hopen by (intros x h Hx; by apply (ca_cache _ _ _ C3)).
  pose proof (moveEach_refines (cnOpen c3) fuel f t (List.filter IsPrimary (parseNodes raw)) hs from to (selectSlots n (nSlots from) []) 0) as R.
  specialize (R ltac:(apply Hopen; eapply lookup_weaken; [exact Hf|by etrans]) ltac:(apply Hopen; by eapply lookup_weaken)
    ltac:(eapply Forall2_impl; [exact Hhs|]; intros nd h Hh; by apply Hopen) c3 w (ca_numbered _ _ _ C3) ltac:(done)).
  destruct (Admin.moveEach _ _ _ _ _ _ w) as [[r w']|]; [|by rewrite R]. destruct R as (c4 & -> & E4 & Hn4).
  assert (cached (cnOpen c) cl3 c4) as C4 by (destruct C3; constructor; by rewrite ?E4).
  destruct (closeAll_cached _ _ _ w' C4) as (c5 & -> & E5 & Hn5). by exists c5.
Qed.
End Methods.

(** C18: the production [Admin] leaks no connection, and its clients are what
    [GoRedis] takes them for.  Whatever clients are open when a method is
    called, and whatever the servers answer, the method run on clients gives
    the same result and the same effects on the servers as the method run on
    addresses, and when it returns exactly the clients that were open before
    still are: each one it created, the cached ones of [MoveSlots] included, has
    been closed. *)
Theorem clients_closed {W : Type} `{!Redis W} (H : gmap nat string) (fuel : nat) :
  (∀ s, refines H (Client.State s) (Admin.State s)) ∧
  (∀ e, refines H (Client.MyID e) (Admin.MyID e)) ∧
  (∀ a b, refines H (Client.Meet a b) (Admin.Meet a b)) ∧
  (∀ e rs, refines H (Client.AddSlots e rs) (Admin.AddSlots e rs)) ∧
  (∀ e p, refines H (Client.Replicate e p) (Admin.Replicate e p)) ∧
  (∀ e n, refines H (Client.Forget e n) (Admin.Forget e n)) ∧
  (∀ e, refines H (Client.Failover e) (Admin.Failover e)) ∧
  (∀ s a b n, refines H (Client.MoveSlots fuel s a b n) (Admin.MoveSlots fuel s a b n)) ∧
  (∀ s, refines H (Client.RepairSlots s) (Admin.RepairSlots s)).
Proof.
  split_and!; auto using State_refines, MyID_refines, Meet_refines, AddSlots_refines, Replicate_refines, Forget_refines,
    Failover_refines, MoveSlots_refines, RepairSlots_refines.
Qed.
