(* ===== verification/GoRedisProofs.v ===== *)
(** * The production slot mover

    [Admin.MoveSlots] never loses a key, whatever fails on the way, and hands a
    slot over only when its source holds no key of it; and it terminates. *)

From S2P Require Import Prelude GoStrings Cluster Slots ClusterNodes GoRedis RedisBed.
Local Open Scope string_scope.
Local Open Scope list_scope.
Local Open Scope Z_scope.

(** ** Slot selection *)

Definition slotsOfRanges (rs : list SlotRange) : list Z :=
  mjoin (map (λ r, seqZ (rStart r) (rangeCount r)) rs).

Lemma selectSlots_take n rs acc :
  Z.of_nat (length acc) ≤ n →
  selectSlots n rs acc = acc ++ take (Z.to_nat (n - Z.of_nat (length acc))) (slotsOfRanges rs).
Proof.
  revert acc. induction rs as [|r rs IH]; intros acc Hacc.
  - cbn [selectSlots]. change (slotsOfRanges []) with (@nil Z). by rewrite take_nil, app_nil_r.
  - change (slotsOfRanges (r :: rs)) with (seqZ (rStart r) (rangeCount r) ++ slotsOfRanges rs). cbn [selectSlots].
    set (room := Z.to_nat (n - Z.of_nat (length acc))). set (l := seqZ (rStart r) (rangeCount r)).
    rewrite take_app. destruct (Z.leb_spec n (Z.of_nat (length (acc ++ take room l)))) as [Hge|Hlt];
      rewrite length_app, length_take in *.
    + rewrite (proj2 (Nat.sub_0_le room (length l))) by lia. by rewrite take_0, app_nil_r.
    + rewrite IH by (rewrite length_app, length_take; lia). rewrite <- app_assoc. do 3 f_equal.
      rewrite length_app, length_take. lia.
Qed.

Lemma slotsOfRanges_count n : Forall (λ r, 0 ≤ rangeCount r) (nSlots n) →
  Z.of_nat (length (slotsOfRanges (nSlots n))) = SlotCount n.
Proof.
  intros H. rewrite SlotCount_sum. unfold slotsOfRanges. rewrite length_join. f_equal.
  apply map_ext_in. intros r Hr%list_elem_of_In. rewrite Forall_forall in H. specialize (H r Hr).
  rewrite length_seqZ. lia.
Qed.

(** ** The data plane

    What the commands of a Valkey server do to the keys it holds and to its
    view of who owns a slot.  Nothing is said of what a command does when it
    fails, except that [MIGRATE] never deletes a key from the source before
    the target has it. *)
Class DataPlane (W : Type) `{!Redis W} := {
  keysAt : W → string → Z → gset string;
  ownerAt : W → string → Z → string;
  clusterNodes_keeps a w r w' :
    clusterNodes a w = Some (r, w') → keysAt w' = keysAt w ∧ ownerAt w' = ownerAt w;
  getKeys_reads a s c w r w' :
    clusterGetKeysInSlot a s c w = Some (r, w') →
    keysAt w' = keysAt w ∧ ownerAt w' = ownerAt w ∧
    ∀ ks, r = Ok ks → (∀ k, k ∈ ks → k ∈ keysAt w a s) ∧ (ks = [] → 0 < c → keysAt w a s = ∅);
  setSlot_keys a s arg w r w' : clusterSetSlot a s arg w = Some (r, w') → keysAt w' = keysAt w;
  setSlot_owner a s arg w r w' :
    clusterSetSlot a s arg w = Some (r, w') →
    (∀ b t, ownerAt w' b t = ownerAt w b t ∨ (b = a ∧ t = s ∧ arg = SlotNode (ownerAt w' b t))) ∧
    (∀ id, arg = SlotNode id → r = Ok tt → ownerAt w' a s = id);
  migrate_moves a ip port s ks w r w' :
    migrateKeys a ip port ks w = Some (r, w') → (∀ k, k ∈ ks → k ∈ keysAt w a s) →
    let b := ip +:+ ":" +:+ Itoa port in
    ownerAt w' = ownerAt w ∧
    (∀ c t, (c ≠ a ∧ c ≠ b) ∨ t ≠ s → keysAt w' c t = keysAt w c t) ∧
    keysAt w' a s ⊆ keysAt w a s ∧
    keysAt w' a s ∪ keysAt w' b s = keysAt w a s ∪ keysAt w b s ∧
    (r = Ok tt → keysAt w' a s = keysAt w a s ∖ list_to_set ks)
}.

Section Move.
Context {W : Type} `{!Redis W} `{!DataPlane W}.
Context (from to : NodeInfo) (fuel : nat).
Local Abbreviation a := (nodeAddr from).
Local Abbreviation b := (nodeAddr to).
Context (Hip : nIP to ≠ "").

(** Between two moments of a move of the slots [S]: no key of either end is
    lost, the source only gets fewer, other servers' keys stay, and ownership
    only ever changes to the target. *)
Record moving (S : list Z) (w w' : W) : Prop := {
  mv_union s : keysAt w' a s ∪ keysAt w' b s = keysAt w a s ∪ keysAt w b s;
  mv_source s : keysAt w' a s ⊆ keysAt w a s;
  mv_other c s : c ≠ a → c ≠ b → keysAt w' c s = keysAt w c s;
  mv_owner c s : ownerAt w' c s = ownerAt w c s ∨ (s ∈ S ∧ ownerAt w' c s = nID to)
}.

Lemma moving_refl S w : moving S w w.
Proof. constructor; auto. Qed.

Lemma moving_trans S w1 w2 w3 : moving S w1 w2 → moving S w2 w3 → moving S w1 w3.
Proof.
  intros [U1 R1 O1 N1] [U2 R2 O2 N2]. constructor.
  - intros s. by rewrite U2, U1.
  - intros s. etransitivity; [apply R2|apply R1].
  - intros c s Ha Hb. by rewrite O2, O1.
  - intros c s. destruct (N2 c s) as [->|[? ->]]; [apply N1|by right].
Qed.

Lemma moving_same S w w' : keysAt w' = keysAt w → ownerAt w' = ownerAt w → moving S w w'.
Proof. intros Hk Ho. constructor; rewrite ?Hk, ?Ho; auto. Qed.

Lemma nodeAddr_ip : b = nIP to +:+ ":" +:+ Itoa (nPort to).
Proof. unfold nodeAddr. by rewrite (proj2 (String.eqb_neq _ _) Hip). Qed.

Lemma getKeys_moving S c w s :
  wlp (clusterGetKeysInSlot a s c) (λ r w', moving S w w' ∧ keysAt w' = keysAt w ∧
    ∀ ks, r = Ok ks → (∀ k, k ∈ ks → k ∈ keysAt w a s) ∧ (ks = [] → 0 < c → keysAt w a s = ∅)) w.
Proof.
  intros r w' E. apply getKeys_reads in E as (Hk & Ho & HK). split; [by apply moving_same|done].
Qed.

Lemma migrate_moving S s ks w :
  (∀ k, k ∈ ks → k ∈ keysAt w a s) →
  wlp (migrateKeys a (nIP to) (nPort to) ks) (λ r w', moving S w w' ∧
    (r = Ok tt → keysAt w' a s = keysAt w a s ∖ list_to_set ks)) w.
Proof.
  intros Hks r w' E. apply (migrate_moves a _ _ s) in E as (Ho & Hother & Hsub & Hun & Hok); [|done].
  rewrite <- nodeAddr_ip in *. split; [|done]. constructor.
  - intros t. destruct (decide (t = s)) as [->|Ht]; [done|]. by rewrite !Hother by auto.
  - intros t. destruct (decide (t = s)) as [->|Ht]; [done|]. by rewrite !Hother by auto.
  - intros c t Ha Hb. by apply Hother; left.
  - intros c t. left. by rewrite Ho.
Qed.

(** The key loop ends with no key of the slot on the source. *)
Lemma migrateLoop_moves S n s w :
  wlp (Admin.migrateLoop n a to s) (λ r w', moving S w w' ∧ (r = Ok tt → keysAt w' a s = ∅)) w.
Proof.
  revert w. induction n as [|n IH]; intros w; simpl; [by intros ? ?|].
  wlp_step. wlp_step. eapply wlp_mono; [apply (getKeys_moving S)|].
  intros [keys|e] w1 (H1 & Hk1 & HK); [|by split].
  destruct (HK keys eq_refl) as [Hin Hnil]. destruct keys as [|k keys].
  - wlp_step. split; [done|]. intros _. rewrite Hk1. by apply Hnil.
  - wlp_step. wlp_step. eapply wlp_mono; [apply (migrate_moving S s)|].
    + intros k' Hk'. rewrite Hk1. by apply Hin.
    + intros [[]|e] w2 [H2 _]; [|split; [by eapply moving_trans|done]].
      eapply wlp_mono; [apply IH|]. intros r w3 [H3 Hr]. split; [|done].
      eapply moving_trans; [exact H1|]. by eapply moving_trans.
Qed.

Lemma setSlot_moving S addr s arg w :
  s ∈ S → (∀ id, arg = SlotNode id → id = nID to) →
  wlp (clusterSetSlot addr s arg) (λ r w', moving S w w' ∧ keysAt w' = keysAt w ∧
    (arg = SlotNode (nID to) → r = Ok tt → ownerAt w' addr s = nID to)) w.
Proof.
  intros Hs Harg r w' E. pose proof (setSlot_keys _ _ _ _ _ _ E) as Hk.
  apply setSlot_owner in E as [Ho Hok]. split; [|split; [done|intros; by apply Hok]].
  constructor; rewrite ?Hk; auto.
  intros c t. destruct (Ho c t) as [?|(-> & -> & Ea)]; [by left|]. right. split; [done|]. by apply Harg.
Qed.

(** Ownership of [s] on the masters, once assigned, is kept. *)
Definition assigned (masters : list NodeInfo) (s : Z) (w : W) : Prop :=
  ∀ m, m ∈ masters → ownerAt w (nodeAddr m) s = nID to.

Lemma assigned_stable S masters s w w' : moving S w w' → assigned masters s w → assigned masters s w'.
Proof. intros H Hm m Hin. destruct (mv_owner _ _ _ H (nodeAddr m) s) as [->|[_ ->]]; [by apply Hm|done]. Qed.

Lemma assignOwner_moves S masters s w :
  s ∈ S →
  wlp (Admin.assignOwner masters to s) (λ r w', moving S w w' ∧ keysAt w' = keysAt w ∧
    (r = Ok tt → assigned masters s w')) w.
Proof.
  intros Hs. unfold Admin.assignOwner. revert w. induction masters as [|m ms IH]; intros w; simpl.
  - wlp_step. split; [apply moving_refl|]. split; [done|]. by intros _ m ?%elem_of_nil.
  - wlp_step. eapply wlp_mono; [apply (setSlot_moving S); [done|]|]; [by intros id [= ->]|].
    intros [[]|e] w1 (H1 & Hk1 & Ho1); [|done]. eapply wlp_mono; [apply IH|].
    intros r w2 (H2 & Hk2 & Ho2). split; [by eapply moving_trans|]. split; [congruence|].
    intros Hr m' [->|Hin]%elem_of_cons; [|by apply Ho2].
    apply (assigned_stable S [m] s w1 w2 H2); [|left].
    intros m'' ->%list_elem_of_singleton. by apply Ho1.
Qed.

Lemma moveSlot_moves S masters s w :
  s ∈ S →
  wlp (Admin.moveSlot fuel masters from to s) (λ r w', moving S w w' ∧
    (r = Ok tt → keysAt w' a s = ∅ ∧ assigned masters s w')) w.
Proof.
  intros Hs. unfold Admin.moveSlot. wlp_step. wlp_step. eapply wlp_mono; [apply (getKeys_moving S)|].
  intros [probe|e] w1 (H1 & Hk1 & HK); [|by split]. destruct (HK probe eq_refl) as [_ Hnil].
  wlp_step. eapply (wlp_mono _ (λ r w', moving S w w' ∧ (r = Ok tt → keysAt w' a s = ∅))).
  - destruct probe as [|k probe].
    { wlp_step. split; [done|]. intros _. rewrite Hk1. by apply Hnil. }
    wlp_step. wlp_step. eapply wlp_mono; [by apply (setSlot_moving S)|].
    intros [[]|e] w2 (H2 & _ & _); [|split; [by eapply moving_trans|done]].
    wlp_step. wlp_step. eapply wlp_mono; [by apply (setSlot_moving S)|].
    intros [[]|e] w3 (H3 & _ & _); [|split; [by do 2 (eapply moving_trans; [eassumption|])|done]].
    eapply wlp_mono; [apply (migrateLoop_moves S)|]. intros r w4 [H4 Hr]. split; [|done].
    by do 3 (eapply moving_trans; [eassumption|]).
  - intros [[]|e] w2 [H2 Hempty]; [|by split]. wlp_step.
    eapply wlp_mono; [by apply (assignOwner_moves S)|]. intros r w3 (H3 & Hk3 & Ho3).
    assert (moving S w w3) by (by eapply moving_trans). destruct r as [[]|e]; (split; [done|]); [|done].
    intros _. split; [|by apply Ho3]. rewrite Hk3. by apply Hempty.
Qed.

Lemma moveEach_moves masters slots S moved w :
  (∀ s, s ∈ slots → s ∈ S) →
  wlp (Admin.moveEach fuel masters from to slots moved) (λ '(moved', err) w', moving S w w' ∧
    (moved ≤ moved' ≤ moved + Z.of_nat (length slots)) ∧
    (err = None → moved' = moved + Z.of_nat (length slots)) ∧
    ∀ s, s ∈ take (Z.to_nat (moved' - moved)) slots → keysAt w' a s = ∅ ∧ assigned masters s w') w.
Proof.
  revert moved w. induction slots as [|s slots IH]; intros moved w HS; simpl.
  - wlp_step. split; [apply moving_refl|]. split; [lia|]. split; [lia|].
    intros s. destruct (Z.to_nat _); by intros ?%elem_of_nil.
  - wlp_step. eapply wlp_mono; [apply (moveSlot_moves S); apply HS; left|].
    intros [[]|e] w1 [H1 Hd]; simpl.
    2: { wlp_step. split; [done|]. split; [lia|]. split; [done|]. rewrite Z.sub_diag. simpl.
         by intros ? ?%elem_of_nil. }
    eapply wlp_mono; [apply IH; intros; apply HS; by right|].
    intros [moved' err] w2 (H2 & Hb & He & Hdone). split; [by eapply moving_trans|]. split; [lia|].
    split; [intros; rewrite He by done; lia|].
    replace (Z.to_nat (moved' - moved)) with (Datatypes.S (Z.to_nat (moved' - (moved + 1)))) by lia.
    simpl. intros s' [->|Hin]%elem_of_cons; [|by apply Hdone].
    destruct (Hd eq_refl) as [Hk Ho]. split; [|by eapply assigned_stable].
    pose proof (mv_source _ _ _ H2 s). set_solver.
Qed.

(** ** Termination of the key loop *)

Lemma wp_of_wlp {A} (m : M W A) Q w : (∃ x, m w = Some x) → wlp m Q w → wp m Q w.
Proof. intros [[x w'] E] H. exists x, w'. split; [done|]. by apply H. Qed.
End Move.

(** A server whose commands return, with a result or an error. *)
Class AnsweringRedis (W : Type) `{!Redis W} := {
  clusterNodes_returns a w : ∃ x, clusterNodes a w = Some x;
  getKeys_returns a s c w : ∃ x, clusterGetKeysInSlot a s c w = Some x;
  setSlot_returns a s arg w : ∃ x, clusterSetSlot a s arg w = Some x;
  migrateKeys_returns a ip port ks w : ∃ x, migrateKeys a ip port ks w = Some x
}.

Section Returns.
Context {W : Type} `{!Redis W} `{!DataPlane W} `{!AnsweringRedis W}.
Context (from to : NodeInfo) (fuel : nat) (Hip : nIP to ≠ "").
Local Abbreviation a := (nodeAddr from).

(** Each round of the loop takes at least one key off the source. *)
Lemma migrateLoop_returns n s w :
  (size (keysAt w a s) < n)%nat → ∃ x, Admin.migrateLoop n a to s w = Some x.
Proof.
  revert w. induction n as [|n IH]; intros w Hn; [lia|].
  cut (wp (Admin.migrateLoop (S n) a to s) (λ _ _, True) w); [intros (? & ? & ? & _); eauto|].
  cbn [Admin.migrateLoop]. apply wp_bindE, wp_bind.
  eapply wp_mono; [apply wp_of_wlp; [apply getKeys_returns|apply (getKeys_moving from to [])]|].
  intros [keys|e] w1 (_ & Hk1 & HK); apply wp_ret; [|done]. destruct (HK keys eq_refl) as [Hin _].
  destruct keys as [|k keys]; [by apply wp_ret|]. apply wp_bindE, wp_bind.
  eapply wp_mono; [apply wp_of_wlp; [apply migrateKeys_returns|apply (migrate_moving from to Hip [] s)]|].
  - intros k' Hk'. rewrite Hk1. by apply Hin.
  - intros [[]|e] w2 [_ Hk2]; apply wp_ret; [|done]. destruct (IH w2) as [[x w3] E]; [|by exists x, w3].
    rewrite (Hk2 eq_refl), Hk1.
    enough (size (keysAt w a s ∖ list_to_set (k :: keys)) < size (keysAt w a s))%nat by lia.
    apply subset_size. pose proof (Hin k (list_elem_of_here _ _)). set_solver.
Qed.

Lemma moveSlot_returns masters s w :
  (∀ t, (size (keysAt w a t) < fuel)%nat) → ∃ x, Admin.moveSlot fuel masters from to s w = Some x.
Proof.
  intros Hf. cut (wp (Admin.moveSlot fuel masters from to s) (λ _ _, True) w); [intros (? & ? & ? & _); eauto|].
  unfold Admin.moveSlot. apply wp_bindE, wp_bind.
  eapply wp_mono; [apply wp_of_wlp; [apply getKeys_returns|apply (getKeys_moving from to [s])]|].
  intros [probe|e] w1 (_ & Hk1 & _); apply wp_ret; [|done]. apply wp_bindE.
  assert (∀ w2, wp (wrapE ("setslot node " +:+ Itoa s) (Admin.assignOwner masters to s)) (λ _ _, True) w2) as Hassign.
  { intros w2. apply wp_bind. unfold Admin.assignOwner. revert w2. induction masters as [|m ms IH]; intros w2; simpl.
    - by do 2 apply wp_ret.
    - apply wp_bindE. destruct (setSlot_returns (nodeAddr m) s (SlotNode (nID to)) w2) as [[[[]|e] w3] E];
        eexists _, w3; (split; [exact E|]); [apply IH|by apply wp_ret]. }
  destruct probe as [|k probe]; [apply wp_ret, Hassign|]. apply wp_bindE, wp_bind.
  eapply wp_mono; [apply wp_of_wlp; [apply setSlot_returns|apply (setSlot_moving from to [s]); [left|done]]|].
  intros [[]|e] w2 (_ & Hk2 & _); apply wp_ret; [|done]. apply wp_bindE, wp_bind.
  eapply wp_mono; [apply wp_of_wlp; [apply setSlot_returns|apply (setSlot_moving from to [s]); [left|done]]|].
  intros [[]|e] w3 (_ & Hk3 & _); apply wp_ret; [|done].
  destruct (migrateLoop_returns fuel s w3) as [[r w4] E]; [rewrite Hk3, Hk2, Hk1; apply Hf|].
  exists r, w4. split; [done|]. by destruct r; [apply Hassign|].
Qed.

Lemma moveEach_returns masters slots moved w :
  (∀ t, (size (keysAt w a t) < fuel)%nat) → ∃ x, Admin.moveEach fuel masters from to slots moved w = Some x.
Proof.
  revert moved w. induction slots as [|s slots IH]; intros moved w Hf; [by eexists|]. simpl. unfold bind.
  destruct (moveSlot_returns masters s w Hf) as [[r w1] E]. rewrite E.
  destruct r as [[]|e]; [|by eexists]. apply IH. intros t.
  pose proof (moveSlot_moves from to fuel Hip [s] masters s w ltac:(left) _ _ E) as [Hm _].
  pose proof (subseteq_size _ _ (mv_source _ _ _ _ _ Hm t)). specialize (Hf t). lia.
Qed.
End Returns.

(** ** The in-memory servers behave so *)

Lemma storeOf_transfer x y ks w c : x ≠ y →
  storeOf (transfer x y ks w) c =
  if decide (c = y) then storeOf w y ∪ (storeOf w x ∩ ks)
  else if decide (c = x) then storeOf w x ∖ ks else storeOf w c.
Proof.
  intros Hne. unfold storeOf at 1, transfer. simpl. destruct (decide (c = y)) as [->|Hy].
  - by rewrite lookup_insert_eq.
  - rewrite lookup_insert_ne by done. destruct (decide (c = x)) as [->|Hx].
    + by rewrite lookup_insert_eq.
    + by rewrite lookup_insert_ne.
Qed.

#[export, refine] Instance Servers_DataPlane : DataPlane Servers := {|
  keysAt := slotKeys;
  ownerAt := toldOwner
|}.
Proof.
  - intros a w r w' E. simpl in E. unfold onServer in E. destruct (upAt w a); by injection E as <- <-.
  - intros a s c w r w' E. simpl in E. unfold onServer in E.
    destruct (upAt w a); injection E as <- <-; (split; [done|]); (split; [done|]); [|done].
    intros ks [= <-]. split.
    + intros k Hk. apply elem_of_elements. eapply elem_of_subseteq; [|exact Hk]. intros x.
      rewrite <- (take_drop (Z.to_nat c) (elements (slotKeys w a s))) at 2. rewrite elem_of_app. auto.
    + intros Hnil Hc. apply leibniz_equiv, elements_empty_inv. destruct (elements (slotKeys w a s)) as [|k l]; [done|].
      destruct (Z.to_nat c) eqn:Ec; [lia|]. done.
  - intros a s arg w r w' E. simpl in E. unfold onServer in E. destruct (upAt w a); injection E as <- <-; [|done].
    by destruct arg.
  - intros a s arg w r w' E. simpl in E. unfold onServer in E. destruct (upAt w a); injection E as <- <-.
    2: { split; [by left|done]. }
    destruct arg as [? | ? | | id]; try (split; [by left|done]). split.
    + intros b t. unfold toldOwner. simpl. destruct (decide ((a, s) = (b, t))) as [[= <- <-]|Hne].
      * right. by rewrite lookup_insert_eq.
      * left. by rewrite lookup_insert_ne.
    + intros ? [= <-] _. unfold toldOwner. simpl. by rewrite lookup_insert_eq.
  - intros a ip port s ks w r w' E Hks b. simpl in E. unfold onServer in E.
    destruct (upAt w a); [|injection E as <- <-; by split_and!]. fold b in E.
    destruct (String.eqb_spec a b) as [Eab|Hab]; [injection E as <- <-; by split_and!|].
    destruct (upAt w b); simpl in E; injection E as <- <-; [|by split_and!].
    assert (∀ k, k ∈ ks → hashSlot k = s ∧ k ∈ storeOf w a) as Hslot.
    { intros k Hk. apply Hks in Hk. unfold slotKeys in Hk. by apply elem_of_filter in Hk. }
    unfold slotKeys. split; [done|].
    assert (∀ c, storeOf (transfer a b (list_to_set ks) w) c = _) as Ht by (intros; by apply storeOf_transfer).
    split; [|split; [|split]].
    + intros c t Hct. rewrite Ht. apply set_eq. intros k. rewrite !elem_of_filter.
      destruct (decide (c = b)) as [->|]; [|destruct (decide (c = a)) as [->|]; [|done]].
      * destruct Hct as [[_ ?]|Hts]; [done|]. rewrite elem_of_union, elem_of_intersection, elem_of_list_to_set.
        split; [|tauto]. intros [? [?|[? Hk%Hslot]]]; [done|]. destruct Hk; congruence.
      * destruct Hct as [[? _]|Hts]; [done|]. rewrite elem_of_difference, elem_of_list_to_set.
        split; [tauto|]. intros [? ?]. split_and!; [done..|]. intros Hk%Hslot. destruct Hk; congruence.
    + rewrite Ht. rewrite decide_False, decide_True by done. set_solver.
    + rewrite !Ht. rewrite decide_False, !decide_True by done. apply set_eq. intros k.
      rewrite !elem_of_union, !elem_of_filter, elem_of_union, elem_of_difference, elem_of_intersection.
      destruct (decide (k ∈@{gset string} list_to_set ks)); tauto.
    + intros _. rewrite Ht. rewrite decide_False, decide_True by done. set_solver.
Defined.

#[export] Instance Servers_Answering : AnsweringRedis Servers.
Proof.
  constructor; intros; simpl; unfold onServer, refused, ret; repeat case_match; by eexists.
Qed.

(** ** The slot mover *)

(** C4: [MoveSlots] never loses a key.  However it ends, every key of the
    source and the target is still on one of them, no other server's keys
    change, and ownership only changes to the target, for the first [n] slots
    of the source.  Of those, the first [moved] are complete: the source holds
    no key of them and every master has been told the new owner; and without
    an error [moved] is all that was asked for. *)
Theorem move_slots_preserves_keys {W : Type} `{!Redis W} `{!DataPlane W} (fuel : nat) (seed : Endpoint)
    (fromID toID : string) (n : Z) (w w0 w' : W) (raw : string) (from to : NodeInfo) (moved : Z) (err : option error) :
  0 < n → clusterNodes (Addr seed) w = Some (Ok raw, w0) →
  lastByID fromID (parseNodes raw) = Some from → lastByID toID (parseNodes raw) = Some to →
  nIP to ≠ "" → Forall (λ r, 0 ≤ rangeCount r) (nSlots from) →
  Admin.MoveSlots fuel seed fromID toID n w = Some ((moved, err), w') →
  let a := nodeAddr from in let b := nodeAddr to in
  let picked := take (Z.to_nat n) (slotsOfRanges (nSlots from)) in
  (∀ s, keysAt w' a s ∪ keysAt w' b s = keysAt w a s ∪ keysAt w b s) ∧
  (∀ c s, c ≠ a → c ≠ b → keysAt w' c s = keysAt w c s) ∧
  (∀ c s, ownerAt w' c s = ownerAt w c s ∨ (s ∈ picked ∧ ownerAt w' c s = nID to)) ∧
  0 ≤ moved ≤ Z.min n (SlotCount from) ∧ (err = None → moved = Z.min n (SlotCount from)) ∧
  ∀ s, s ∈ take (Z.to_nat moved) picked →
    keysAt w' a s = ∅ ∧ ∀ m, m ∈ parseNodes raw → IsPrimary m = true → ownerAt w' (nodeAddr m) s = nID to.
Proof.
  intros Hn Hraw Hfrom Hto Hip Hwf. unfold Admin.MoveSlots.
  rewrite (proj2 (Z.leb_gt n 0)) by lia. unfold bind. rewrite Hraw. rewrite Hfrom, Hto.
  rewrite selectSlots_take by (simpl; lia). simpl app. rewrite Z.sub_0_r.
  set (picked := take (Z.to_nat n) (slotsOfRanges (nSlots from))). intros E. cbv zeta.
  apply clusterNodes_keeps in Hraw as [Hk0 Ho0].
  pose proof (moveEach_moves from to fuel Hip _ picked picked 0 w0 (λ _ H, H) _ _ E) as (Hm & Hb & He & Hd).
  destruct Hm as [HU HS HO HN]. rewrite Hk0 in HU, HS, HO. rewrite Ho0 in HN.
  assert (Z.of_nat (length picked) = Z.min n (SlotCount from)) as Hlen.
  { unfold picked. rewrite length_take. pose proof (slotsOfRanges_count from Hwf). lia. }
  split_and!; [done|done|done|lia|lia| |].
  - intros Herr. rewrite He by done. lia.
  - intros s Hs. rewrite Z.sub_0_r in Hd. destruct (Hd s Hs) as [Hempty Has]. split; [done|].
    intros m Hin Hp. apply Has. apply list_elem_of_In, filter_In. by rewrite <- list_elem_of_In.
Qed.

(** C24: [MoveSlots] terminates: with fuel for more rounds than the source has
    keys in any one slot, it returns, since each round that goes on has taken a
    key off the source. *)
Theorem move_slots_terminates {W : Type} `{!Redis W} `{!DataPlane W} (fuel : nat) (seed : Endpoint)
    (fromID toID : string) (n : Z) (w w0 : W) (raw : string) (from to : NodeInfo) :
  AnsweringRedis W →
  clusterNodes (Addr seed) w = Some (Ok raw, w0) →
  lastByID fromID (parseNodes raw) = Some from → lastByID toID (parseNodes raw) = Some to →
  nIP to ≠ "" → (∀ s, (size (keysAt w (nodeAddr from) s) < fuel)%nat) →
  ∃ moved err w', Admin.MoveSlots fuel seed fromID toID n w = Some ((moved, err), w').
Proof.
  intros HA Hraw Hfrom Hto Hip Hf. unfold Admin.MoveSlots. destruct (n <=? 0); [by eexists _, _, _|].
  unfold bind. rewrite Hraw, Hfrom, Hto.
  destruct (moveEach_returns from to fuel Hip (List.filter IsPrimary (parseNodes raw))
    (selectSlots n (nSlots from) []) 0 w0) as [[[moved err] w'] E].
  - apply clusterNodes_keeps in Hraw as [-> _]. done.
  - rewrite E. eauto.
Qed.

(** Two masters; the first holds two keys of slot 3. *)
Definition nodeA : NodeInfo := mkNode "aaa" "10.0.0.1" "10.0.0.1" 6379 ["master"] "" [mkRange 0 5] true.
Definition nodeB : NodeInfo := mkNode "bbb" "10.0.0.2" "10.0.0.2" 6379 ["master"] "" [mkRange 6 16383] true.
Definition lineOf (open : list OpenMark) (n : NodeInfo) : NodeLine :=
  mkLine n "" "16379" "0" "0" "1" "connected" open.
Definition textAB : string := renderNodes [lineOf [] nodeA; lineOf [] nodeB].
Definition epA1 : Endpoint := mkEndpoint "10.0.0.1" 6379 "demo-shard-0-0" "ns".
Definition serversAB : Servers :=
  mkServers "" (<["10.0.0.1:6379" := textAB]> (<["10.0.0.2:6379" := textAB]> ∅))
    (<["10.0.0.1:6379" := {["key"; "foo"]}]> ∅) ∅.

Lemma move_slots_preserves_keys_witness :
  ∃ w', Admin.MoveSlots 3 epA1 "aaa" "bbb" 4 serversAB = Some ((4, None), w') ∧
  let a := nodeAddr nodeA in let b := nodeAddr nodeB in
  let picked := take (Z.to_nat 4) (slotsOfRanges (nSlots nodeA)) in
  (∀ s, keysAt w' a s ∪ keysAt w' b s = keysAt serversAB a s ∪ keysAt serversAB b s) ∧
  (∀ c s, c ≠ a → c ≠ b → keysAt w' c s = keysAt serversAB c s) ∧
  (∀ c s, ownerAt w' c s = ownerAt serversAB c s ∨ (s ∈ picked ∧ ownerAt w' c s = nID nodeB)) ∧
  0 ≤ 4 ≤ Z.min 4 (SlotCount nodeA) ∧ (None = @None error → 4 = Z.min 4 (SlotCount nodeA)) ∧
  ∀ s, s ∈ take (Z.to_nat 4) picked →
    keysAt w' a s = ∅ ∧ ∀ m, m ∈ parseNodes textAB → IsPrimary m = true → ownerAt w' (nodeAddr m) s = nID nodeB.
Proof.
  eexists. split; [vm_compute; reflexivity|].
  eapply (move_slots_preserves_keys 3 epA1 "aaa" "bbb" 4 serversAB serversAB _ textAB nodeA nodeB 4 None);
    [lia|vm_compute; reflexivity|vm_compute; reflexivity|vm_compute; reflexivity|discriminate| |].
  - by repeat constructor.
  - vm_compute. reflexivity.
Defined.

Lemma serversAB_few s : (size (keysAt serversAB (nodeAddr nodeA) s) < 3)%nat.
Proof.
  apply Nat.le_lt_trans with (size (storeOf serversAB (nodeAddr nodeA))); [|vm_compute; lia].
  apply subseteq_size. intros k [_ Hk]%elem_of_filter. done.
Qed.

Lemma move_slots_terminates_witness :
  ∃ moved err w', Admin.MoveSlots 3 epA1 "aaa" "bbb" 4 serversAB = Some ((moved, err), w').
Proof.
  apply (move_slots_terminates 3 epA1 "aaa" "bbb" 4 serversAB serversAB textAB nodeA nodeB);
    [apply _|vm_compute; reflexivity|vm_compute; reflexivity|vm_compute; reflexivity|discriminate|apply serversAB_few].
Defined.
