(* ===== verification/ObserveProofs.v ===== *)
(** * Observation and repair of a live cluster

    What [Admin.State] reports, and what [Admin.RepairSlots] keeps and leaves
    behind. *)

From S2P Require Import Prelude GoStrings Cluster Slots ClusterNodes GoRedis RedisBed.
From S2P Require Import GoRedisProofs.
Local Open Scope string_scope.
Local Open Scope list_scope.
Local Open Scope Z_scope.

(** ** State *)

Section Observe.
Context {W : Type} `{!Redis W}.

(** What each node that is asked answers to CLUSTER NODES: its lines, or an
    error. *)
Context (answer : NodeInfo → option (list NodeLine)) (w : W).

Definition answers (nodes : list NodeInfo) : Prop :=
  ∀ n, n ∈ nodes → skipped n = false →
    match answer n with
    | Some ls => clusterNodes (nodeAddr n) w = Some (Ok (renderNodes ls), w) ∧ Forall line_wf ls
    | None => ∃ e, clusterNodes (nodeAddr n) w = Some (Err e, w)
    end.

(** A slot some asked node shows as migrating or importing. *)
Definition openSlot (nodes : list NodeInfo) (s : Z) : Prop :=
  ∃ n ls l m, n ∈ nodes ∧ skipped n = false ∧ answer n = Some ls ∧ l ∈ ls ∧ m ∈ lnOpen l ∧ omSlot m = s.

Lemma collect_open nodes :
  answers nodes → ∃ open, Admin.collectOpenSlots nodes w = Some (open, w) ∧ ∀ s, s ∈ open ↔ openSlot nodes s.
Proof.
  induction nodes as [|n nodes IH]; intros Ha; simpl.
  { exists ∅. split; [done|]. intros s. split; [set_solver|]. by intros (? & ? & ? & ? & ?%elem_of_nil & _). }
  destruct IH as (open & E & Hopen); [intros m Hm; apply Ha; by right|].
  pose proof (Ha n (list_elem_of_here _ _)) as Hn. unfold openSlot in *.
  assert (∀ s, (∃ n' ls l m, n' ∈ n :: nodes ∧ skipped n' = false ∧ answer n' = Some ls ∧ l ∈ ls ∧ m ∈ lnOpen l ∧ omSlot m = s)
    ↔ (skipped n = false ∧ ∃ ls l m, answer n = Some ls ∧ l ∈ ls ∧ m ∈ lnOpen l ∧ omSlot m = s) ∨ s ∈ open) as Hsplit.
  { intros s. rewrite Hopen. setoid_rewrite elem_of_cons. split.
    - intros (n' & ls & l & m & [->|Hin] & ? & ?); [left; eauto|right; eauto 10].
    - intros [(? & ls & l & m & ?)|(n' & ls & l & m & ? & ?)]; [exists n, ls, l, m; auto|exists n', ls, l, m; auto]. }
  destruct (skipped n) eqn:Es.
  { exists open. split; [done|]. intros s. rewrite Hsplit. split; [auto|]. by intros [[? _]|?]. }
  specialize (Hn eq_refl). unfold bind. destruct (answer n) as [ls|] eqn:Ea.
  - destruct Hn as [En Hwf]. rewrite En, E. eexists. split; [reflexivity|]. intros s.
    rewrite Hsplit, elem_of_union, parseOpenSlots_render, elem_of_list_to_set by done. f_equiv.
    rewrite list_elem_of_fmap. split.
    + intros (m & -> & Hm). split; [done|]. apply list_elem_of_In, in_concat in Hm as (o & Ho & Hm).
      apply in_map_iff in Ho as (l & <- & Hl). exists ls, l, m. by rewrite !list_elem_of_In.
    + intros (_ & ls' & l & m & [= <-] & Hl & Hm & <-). exists m. split; [done|].
      apply list_elem_of_In, in_concat. exists (lnOpen l). split; [|by apply list_elem_of_In].
      apply in_map_iff. exists l. split; [done|by apply list_elem_of_In].
  - destruct Hn as [e En]. rewrite En, E. eexists. split; [reflexivity|]. intros s. rewrite Hsplit.
    split; [auto|]. intros [(_ & ls & l & m & [=] & _)|?]. done.
Qed.
End Observe.

(** C22: [State] reports the cluster as the seed describes it and the open slots
    as the nodes themselves do: the nodes of the seed's CLUSTER NODES, coverage
    from its CLUSTER INFO, and [OpenSlots] exactly when some node that is
    connected and not flagged as failed shows a migrating or importing slot. *)
Theorem state_observes {W : Type} `{!Redis W} (seed : Endpoint) (w : W) (info : string) (ls : list NodeLine)
    (answer : NodeInfo → option (list NodeLine)) (slots : Z) :
  clusterInfo (Addr seed) w = Some (Ok info, w) →
  parseInfo info !! "cluster_slots_assigned" = Some (Itoa slots) → 0 ≤ slots ≤ TotalSlots →
  clusterNodes (Addr seed) w = Some (Ok (renderNodes ls), w) → Forall line_wf ls →
  answers answer w (map lnNode ls) →
  ∃ st, Admin.State seed w = Some (Ok st, w) ∧
    csNodes st = map lnNode ls ∧
    (csFormed st = true ↔ mapGet (parseInfo info) "cluster_state" ≠ "" ∧ 0 < slots) ∧
    (csSlotsCovered st = true ↔ mapGet (parseInfo info) "cluster_state" = "ok" ∧ slots = TotalSlots) ∧
    (csOpenSlots st = true ↔ ∃ s, openSlot answer (map lnNode ls) s).
Proof.
  intros Hinfo Hslots Hrange Hnodes Hwf Ha. destruct (collect_open answer w _ Ha) as (open & Ec & Hopen).
  eexists. split.
  { unfold Admin.State, bindE, wrapE, bind, ret. rewrite Hinfo, Hnodes. rewrite parseNodes_render by done.
    rewrite Ec. reflexivity. }
  assert (mapGet (parseInfo info) "cluster_slots_assigned" = Itoa slots) as ->
    by (unfold mapGet; by rewrite Hslots).
  rewrite Atoi_Itoa by (unfold in_int64, TotalSlots in *; lia). simpl.
  split_and!; [done|..].
  - by rewrite andb_true_iff, negb_true_iff, String.eqb_neq, Z.ltb_lt.
  - by rewrite andb_true_iff, String.eqb_eq, Z.eqb_eq.
  - rewrite Z.ltb_lt. setoid_rewrite <- Hopen. split.
    + intros Hpos. apply set_choose_L. intros E. rewrite E, size_empty in Hpos. done.
    + intros [s Hs]. assert (size open ≠ 0%nat); [|lia]. intros E%size_empty_inv. set_solver.
Qed.

(** ** Repair *)

(** The commands only the repair uses. *)
Class RepairPlane (W : Type) `{!Redis W} `{!DataPlane W} := {
  migrateKey_moves a ip port k w r w' :
    migrateKey a ip port k w = Some (r, w') →
    ownerAt w' = ownerAt w ∧
    ∀ c t x, x ∈ keysAt w c t → x ∈ keysAt w' c t ∨ (c = a ∧ x = k ∧ x ∈ keysAt w' (ip +:+ ":" +:+ port) t);
  getKeys_limit a s c w ks w' :
    clusterGetKeysInSlot a s c w = Some (Ok ks, w') → Z.of_nat (length ks) ≤ Z.max 0 c;
  slotRange_keeps open w l w' :
    slotRange open w = Some (l, w') → w' = w ∧ l ≡ₚ elements open
}.

(** They return, with a result or an error. *)
Class AnsweringRepair (W : Type) `{!Redis W} := {
  migrateKey_returns a ip port k w : ∃ x, migrateKey a ip port k w = Some x;
  slotRange_returns open w : ∃ x, slotRange open w = Some x
}.

(** The hash slot of a key does not depend on where the key is. *)
Class HashSlots (W : Type) `{!Redis W} `{!DataPlane W} := {
  slotOf : string → Z;
  key_slot w c t x : x ∈ keysAt w c t → slotOf x = t
}.

Lemma size_covered (X Y : gset string) (ks : list string) :
  X ⊆ Y ∪ list_to_set ks → (size X ≤ size Y + length ks)%nat.
Proof.
  revert X. induction ks as [|k ks IH]; intros X H; simpl in *.
  - rewrite Nat.add_0_r. apply subseteq_size. set_solver.
  - assert (X ∖ {[k]} ⊆ Y ∪ list_to_set ks) as Hs by set_solver. apply IH in Hs.
    assert (X ⊆ {[k]} ∪ X ∖ {[k]}) as Hsub by (intros x Hx; destruct (decide (x = k)); set_solver).
    apply subseteq_size in Hsub. rewrite size_union, size_singleton in Hsub by set_solver. lia.
Qed.

Section Repair.
Context {W : Type} `{!Redis W} `{!DataPlane W} `{!RepairPlane W}.
Context (nodes : list NodeInfo).

(** Between two moments of a repair: no key of any slot is lost, and a slot's
    owner is only ever set to the first node whose ranges hold it. *)
Record repairing (w w' : W) : Prop := {
  rp_keys c t x : x ∈ keysAt w c t → ∃ c', x ∈ keysAt w' c' t;
  rp_owner c s : ownerAt w' c s = ownerAt w c s ∨
    ∃ owner, ownerOf nodes s = Some owner ∧ ownerAt w' c s = nID owner
}.

Lemma repairing_refl w : repairing w w.
Proof. constructor; eauto. Qed.

Lemma repairing_trans w1 w2 w3 : repairing w1 w2 → repairing w2 w3 → repairing w1 w3.
Proof.
  intros [K1 O1] [K2 O2]. constructor.
  - intros c t x [c1 H1]%K1. by eapply K2.
  - intros c s. destruct (O2 c s) as [->|?]; [apply O1|by right].
Qed.

Lemma repairing_same w w' : keysAt w' = keysAt w → ownerAt w' = ownerAt w → repairing w w'.
Proof. intros Hk Ho. constructor; rewrite ?Hk, ?Ho; eauto. Qed.

Lemma migrateStray_repairs owner slot n w : wlp (Admin.migrateStray owner slot n) (λ _ w', repairing w w') w.
Proof.
  unfold Admin.migrateStray. wlp_step; [wlp_step; apply repairing_refl|]. wlp_step. intros r w1 E.
  apply getKeys_reads in E as (Hk & Ho & _).
  apply (wlp_forM _ _ (repairing w)); [by apply repairing_same|]. intros k _ w2 H2. wlp_step.
  intros r' w3 E. wlp_step. apply migrateKey_moves in E as [Ho3 Hk3].
  eapply repairing_trans; [exact H2|]. constructor.
  - intros c t x [?|(_ & _ & ?)]%Hk3; eauto.
  - intros c s. left. by rewrite Ho3.
Qed.

Lemma finalizeSlot_repairs owner slot n w :
  ownerOf nodes slot = Some owner → wlp (Admin.finalizeSlot owner slot n) (λ _ w', repairing w w') w.
Proof.
  intros Hown. assert (∀ a arg w, (∀ id, arg = SlotNode id → id = nID owner) →
    wlp (clusterSetSlot a slot arg) (λ _ w', repairing w w') w) as Hset.
  { intros a arg w0 Harg r w1 E. pose proof (setSlot_keys _ _ _ _ _ _ E) as Hk.
    apply setSlot_owner in E as [Ho _]. constructor; [rewrite Hk; eauto|].
    intros c s. destruct (Ho c s) as [?|(-> & -> & Ea)]; [by left|]. right. exists owner. split; [done|]. by apply Harg. }
  unfold Admin.finalizeSlot. wlp_step; [wlp_step; apply repairing_refl|].
  wlp_step. eapply wlp_mono; [by apply Hset|]. cbv beta. intros r1 w1 H1.
  wlp_step. eapply wlp_mono; [apply Hset; by intros id [= ->]|]. cbv beta. intros r2 w2 H2.
  wlp_step. exact (repairing_trans _ _ _ H1 H2).
Qed.

Lemma repairEach_repairs open repaired w :
  wlp (Admin.repairEach nodes open repaired) (λ '(n, err) w', repairing w w' ∧ err = None ∧
    n = repaired + Z.of_nat (length (List.filter (λ s,
          match ownerOf nodes s with Some o => negb (String.eqb (nIP o) "") | None => false end) open))) w.
Proof.
  revert repaired w. induction open as [|slot open IH]; intros repaired w; simpl.
  { wlp_step. split; [apply repairing_refl|]. split; [done|lia]. }
  destruct (ownerOf nodes slot) as [owner|] eqn:Eo; [|apply IH].
  destruct (String.eqb (nIP owner) ""); simpl; [apply IH|].
  wlp_step. eapply wlp_mono.
  { apply (wlp_forM _ _ (repairing w)); [apply repairing_refl|]. intros n _ w1 H1.
    eapply wlp_mono; [apply migrateStray_repairs|]. intros [] w2 H2. by eapply repairing_trans. }
  intros [] w1 H1. wlp_step. eapply wlp_mono.
  { apply (wlp_forM _ _ (repairing w)); [exact H1|]. intros n _ w2 H2.
    eapply wlp_mono; [by apply finalizeSlot_repairs|]. intros [] w3 H3. by eapply repairing_trans. }
  intros [] w2 H2. eapply wlp_mono; [apply IH|]. intros [n err] w3 (H3 & -> & ->).
  split; [by eapply repairing_trans|]. split; [done|lia].
Qed.

Lemma collect_keeps ns w :
  wlp (Admin.collectOpenSlots ns) (λ _ w', keysAt w' = keysAt w ∧ ownerAt w' = ownerAt w) w.
Proof.
  revert w. induction ns as [|n ns IH]; intros w; simpl; [by wlp_step|]. destruct (skipped n); [apply IH|].
  wlp_step. intros r w1 [Hk Ho]%clusterNodes_keeps. wlp_step. eapply wlp_mono; [apply IH|].
  intros seen w2 [Hk2 Ho2]. wlp_step. split; congruence.
Qed.
End Repair.

(** *** What one repair can take *)

(** The address stray keys are read from, and the nodes that are asked. *)
Definition strayAddr (n : NodeInfo) : string := nIP n +:+ ":" +:+ Itoa (nPort n).
Definition asked (n : NodeInfo) : bool := negb (String.eqb (nIP n) "") && IsPrimary n.

(** Whether the repair counts a slot: its owner is known, with an address. *)
Definition repairable (nodes : list NodeInfo) (s : Z) : bool :=
  match ownerOf nodes s with Some o => negb (String.eqb (nIP o) "") | None => false end.

Section Limit.
Context {W : Type} `{!Redis W} `{!DataPlane W} `{!RepairPlane W} `{!HashSlots W}.
Context (nodes : list NodeInfo).

Lemma migrateKeys_remain owner cn c slot t ks w : (∀ k, k ∈ ks → slotOf k = slot) →
  wlp (forM ks (λ k, _ <- migrateKey cn (nIP owner) (Itoa (nPort owner)) k ;; ret tt))
    (λ _ w', keysAt w c t ⊆ keysAt w' c t ∪ (if decide (c = cn ∧ slot = t) then list_to_set ks else ∅)) w.
Proof.
  revert w. induction ks as [|k ks IH]; intros w Hks; simpl; [wlp_step; set_solver|].
  wlp_step. wlp_step. intros r w1 E. wlp_step. eapply wlp_mono; [apply IH; intros; apply Hks; by right|]. intros [] w2 H2.
  apply migrateKey_moves in E as [_ Hk]. intros x Hx. pose proof (key_slot _ _ _ _ Hx) as Ht.
  destruct (Hk c t x Hx) as [Hx'|(-> & -> & _)].
  - apply H2 in Hx'. case_decide; set_solver.
  - rewrite (Hks k (list_elem_of_here _ _)) in Ht. rewrite decide_True by done. set_solver.
Qed.

(** A server loses at most 1000 keys of a slot to one visit for this slot, none
    to a visit of another server or for another slot. *)
Lemma migrateStray_limit owner slot n c t w :
  wlp (Admin.migrateStray owner slot n) (λ _ w',
    (size (keysAt w c t) ≤ size (keysAt w' c t) + if decide (asked n = true ∧ strayAddr n = c ∧ slot = t) then 1000 else 0)%nat) w.
Proof.
  unfold Admin.migrateStray. destruct (_ || _ || _) eqn:Eb; [wlp_step; lia|]. wlp_step. intros r w1 E.
  apply orb_false_iff in Eb as [[_ Eip]%orb_false_iff Ep%negb_false_iff].
  assert (asked n = true) as Ha by (unfold asked; by rewrite Eip, Ep). pose proof (getKeys_reads _ _ _ _ _ _ E) as (Hk & _ & Hin).
  assert (length match r with Ok keys => keys | Err _ => [] end ≤ 1000)%nat as Hlen.
  { destruct r as [keys|e]; [|simpl; lia]. apply getKeys_limit in E. lia. }
  eapply wlp_mono; [apply (migrateKeys_remain owner _ c slot t)|].
  { intros k Hks. destruct r as [keys|e]; [|by apply elem_of_nil in Hks]. destruct (Hin keys eq_refl) as [Hin' _]. by eapply key_slot, Hin'. }
  intros [] w2 H2. rewrite Hk in H2. fold (strayAddr n) in H2.
  destruct (decide (c = strayAddr n ∧ slot = t)) as [[-> ->]|E'].
  - apply size_covered in H2. rewrite decide_True by done. lia.
  - apply (size_covered _ _ []) in H2. simpl in H2. lia.
Qed.

Lemma finalizeSlot_keys owner slot n w : wlp (Admin.finalizeSlot owner slot n) (λ _ w', keysAt w' = keysAt w) w.
Proof.
  unfold Admin.finalizeSlot. wlp_step; [by wlp_step|]. wlp_step. intros r1 w1 E1%setSlot_keys.
  wlp_step. intros r2 w2 E2%setSlot_keys. wlp_step. congruence.
Qed.

Lemma strays_limit owner slot c t ns w : NoDup (map strayAddr (List.filter asked ns)) →
  wlp (forM ns (Admin.migrateStray owner slot)) (λ _ w',
    (size (keysAt w c t) ≤ size (keysAt w' c t) +
       if decide (c ∈ map strayAddr (List.filter asked ns) ∧ slot = t) then 1000 else 0)%nat) w.
Proof.
  revert w. induction ns as [|n ns IH]; intros w Hnd; cbn [forM List.filter] in *; [wlp_step; lia|].
  wlp_step. eapply wlp_mono; [apply (migrateStray_limit _ _ _ c t)|]. intros [] w1 H1.
  assert (NoDup (map strayAddr (List.filter asked ns))) as Hnd' by (destruct (asked n); [by apply NoDup_cons in Hnd as [_ ?]|done]).
  eapply wlp_mono; [by apply IH|]. intros [] w2 H2. destruct (asked n) eqn:Ea.
  - apply NoDup_cons in Hnd as [Hn _]. cbn [map]. destruct (decide (slot = t)) as [->|Hst].
    2: { rewrite !decide_False in * by tauto. lia. }
    destruct (decide (strayAddr n = c)) as [<-|Hne].
    + rewrite (decide_False (P := strayAddr n ∈ _ ∧ _)) in H2 by tauto. rewrite decide_True in H1 by done.
      rewrite decide_True by (split; [left|done]). lia.
    + rewrite (decide_False (P := _ ∧ strayAddr n = c ∧ _)) in H1 by tauto.
      destruct (decide (c ∈ map strayAddr (List.filter asked ns) ∧ t = t)) as [[? _]|]; [|lia].
      rewrite decide_True by (split; [by right|done]). lia.
  - rewrite (decide_False (P := false = true ∧ _)) in H1 by (by intros [? _]). lia.
Qed.

Lemma repairEach_limit open repaired c t w : NoDup open → NoDup (map strayAddr (List.filter asked nodes)) →
  wlp (Admin.repairEach nodes open repaired) (λ _ w',
    (size (keysAt w c t) ≤ size (keysAt w' c t) + if decide (t ∈ open) then 1000 else 0)%nat) w.
Proof.
  intros Ho Hnd. revert repaired w. induction open as [|slot open IH]; intros repaired w; cbn [Admin.repairEach]; [wlp_step; lia|].
  apply NoDup_cons in Ho as [Hslot Ho]. specialize (IH Ho).
  assert (∀ w0, wlp (Admin.repairEach nodes open repaired) (λ _ w',
    (size (keysAt w0 c t) ≤ size (keysAt w' c t) + if decide (t ∈ slot :: open) then 1000 else 0)%nat) w0) as Hskip.
  { intros w0. eapply wlp_mono; [apply IH|]. intros [m e] w' H'. destruct (decide (t ∈ open)); [rewrite decide_True by (by right)|]; lia. }
  destruct (ownerOf nodes slot) as [owner|]; [|apply Hskip]. destruct (String.eqb (nIP owner) ""); [apply Hskip|].
  wlp_step. eapply wlp_mono; [by apply (strays_limit owner slot c t)|]. intros [] w1 H1.
  wlp_step. eapply (wlp_mono _ (λ _ w', keysAt w' = keysAt w1)).
  - apply (wlp_forM _ _ (λ w', keysAt w' = keysAt w1)); [done|]. intros n _ w2 H2.
    eapply wlp_mono; [apply finalizeSlot_keys|]. intros [] w3 H3. congruence.
  - intros [] w2 H2. eapply wlp_mono; [apply IH|]. intros [m e] w3 H3. rewrite H2 in H3. destruct (decide (slot = t)) as [->|Hne].
    + rewrite (decide_False (P := t ∈ open)) in H3 by done. rewrite decide_True by left. case_decide; lia.
    + rewrite decide_False in H1 by tauto. destruct (decide (t ∈ open)); [rewrite decide_True by (by right)|]; lia.
Qed.
End Limit.

(** *** The repair returns *)

Section RepairReturns.
Context {W : Type} `{!Redis W} `{!AnsweringRedis W} `{!AnsweringRepair W}.

Lemma wp_returns {A} (m : M W A) w : (∃ x, m w = Some x) → wp m (λ _ _, True) w.
Proof. intros [[x w'] E]. by exists x, w'. Qed.

Lemma repairEach_returns nodes open repaired w : ∃ x, Admin.repairEach nodes open repaired w = Some x.
Proof.
  cut (wp (Admin.repairEach nodes open repaired) (λ _ _, True) w); [intros (? & ? & ? & _); eauto|].
  revert repaired w. induction open as [|slot open IH]; intros repaired w; simpl; [by apply wp_ret|].
  destruct (ownerOf nodes slot) as [owner|]; [|apply IH]. destruct (String.eqb _ _); [apply IH|]. apply wp_bind.
  eapply wp_mono; [apply (wp_forM _ _ (λ _, True)); [done|]|].
  { intros n _ w1 _. unfold Admin.migrateStray. destruct (_ || _ || _); [by apply wp_ret|]. apply wp_bind.
    eapply wp_mono; [apply wp_returns, getKeys_returns|]. intros r w2 _. apply wp_forM; [done|]. intros k _ w3 _.
    apply wp_bind. eapply wp_mono; [apply wp_returns, migrateKey_returns|]. intros r' w4 _. by apply wp_ret. }
  intros [] w1 _. apply wp_bind. eapply wp_mono; [apply (wp_forM _ _ (λ _, True)); [done|]|].
  { intros n _ w2 _. unfold Admin.finalizeSlot. destruct (negb _); [by apply wp_ret|]. apply wp_bind.
    eapply wp_mono; [apply wp_returns, setSlot_returns|]. intros r w3 _. apply wp_bind.
    eapply wp_mono; [apply wp_returns, setSlot_returns|]. intros r' w4 _. by apply wp_ret. }
  intros [] w2 _. apply IH.
Qed.
End RepairReturns.

(** C23: repairing open slots keeps every key: each key of a slot that was on
    some server is on some server after it, ownership is only ever asserted for
    the node that the seed reports as the slot's owner, and an error is
    reported only when the seed cannot be asked, with nothing done. *)
Theorem repair_keeps_keys {W : Type} `{!Redis W} `{!DataPlane W} (seed : Endpoint) (w w' : W) (n : Z) (err : option error) :
  RepairPlane W →
  Admin.RepairSlots seed w = Some ((n, err), w') →
  (∀ c t x, x ∈ keysAt w c t → ∃ c', x ∈ keysAt w' c' t) ∧
  match err with
  | Some e => n = 0 ∧ clusterNodes (Addr seed) w = Some (Err e, w')
  | None => 0 ≤ n ∧ ∃ raw w0, clusterNodes (Addr seed) w = Some (Ok raw, w0) ∧
      ∀ c s, ownerAt w' c s = ownerAt w c s ∨
        ∃ owner, ownerOf (parseNodes raw) s = Some owner ∧ ownerAt w' c s = nID owner
  end.
Proof.
  intros HR. unfold Admin.RepairSlots, bind at 1.
  destruct (clusterNodes (Addr seed) w) as [[[raw|e] w0]|] eqn:En; [| |done].
  2: { intros [= <- <- <-]. apply clusterNodes_keeps in En as [-> _]. eauto. }
  intros E. pose proof (clusterNodes_keeps _ _ _ _ En) as [Hk0 Ho0].
  cut (wlp (open <- Admin.collectOpenSlots (parseNodes raw) ;;
      if Nat.eqb (size open) 0 then ret (0, None)
      else order <- slotRange open ;; Admin.repairEach (parseNodes raw) order 0)
    (λ '(n, err) w', repairing (parseNodes raw) w0 w' ∧ err = None ∧ 0 ≤ n) w0).
  { intros H. destruct (H _ _ E) as ([HK HO] & -> & Hn). rewrite Hk0 in HK. rewrite Ho0 in HO. eauto 10. }
  wlp_step. eapply wlp_mono; [apply collect_keeps|]. intros open w1 [Hk1 Ho1].
  assert (repairing (parseNodes raw) w0 w1) by (by apply repairing_same).
  wlp_step; [by wlp_step|]. wlp_step. intros order w2 [-> _]%slotRange_keeps.
  eapply wlp_mono; [apply repairEach_repairs|]. intros [m err'] w3 (H3 & -> & ->).
  split; [by eapply repairing_trans|]. split; [done|lia].
Qed.

(** ** The in-memory servers *)

#[export] Instance Servers_RepairPlane : RepairPlane Servers.
Proof.
  constructor.
  - intros a ip port k w r w' E. simpl in E. unfold onServer in E.
    destruct (upAt w a); [|injection E as <- <-; auto]. set (b := ip +:+ ":" +:+ port) in *.
    destruct (String.eqb_spec a b) as [|Hab]; [injection E as <- <-; auto|].
    destruct (upAt w b); simpl in E; [|injection E as <- <-; auto].
    destruct (bool_decide (k ∈ storeOf w b)); injection E as <- <-; [auto|]. split; [done|].
    intros c t x [Ht Hx]%elem_of_filter. simpl. unfold slotKeys. rewrite !elem_of_filter, !storeOf_transfer by done.
    destruct (decide (c = b)) as [->|]; [left; set_solver|]. destruct (decide (c = a)) as [->|]; [|by left].
    rewrite decide_True by done. destruct (decide (x = k)) as [->|]; [right|left]; set_solver.
  - intros a s c w ks w' E. simpl in E. unfold onServer in E. destruct (upAt w a); [|done].
    injection E as <- <-. rewrite length_take. lia.
  - intros open w l w' [= <- <-]. done.
Qed.

(** Slot 4 is owned by the first master and being imported from the second,
    where [strays] are left. *)
Definition linesA : list NodeLine := [lineOf [mkMark 4 false "bbb"] nodeA; lineOf [] nodeB].
Definition linesB : list NodeLine := [lineOf [] nodeA; lineOf [] nodeB].
Definition infoOk : string := "cluster_state:ok" +:+ String lf "cluster_slots_assigned:16384".
Definition serversOpen (strays : gset string) : Servers :=
  mkServers infoOk
    (<["10.0.0.1:6379" := renderNodes linesA]> (<["10.0.0.2:6379" := renderNodes linesB]> ∅))
    (<["10.0.0.2:6379" := strays]> ∅) ∅.
Definition answerAB (n : NodeInfo) : option (list NodeLine) :=
  Some (if String.eqb (nID n) "aaa" then linesA else linesB).

Lemma linesA_wf : Forall line_wf linesA.
Proof.
  unfold linesA. repeat apply Forall_cons_2; [..|by apply Forall_nil].
  all: constructor; simpl; try done; try lia; try by left.
  all: try (split; [done|]); repeat constructor; unfold TotalSlots; simpl; lia.
Qed.

Lemma linesB_wf : Forall line_wf linesB.
Proof.
  unfold linesB. repeat apply Forall_cons_2; [..|by apply Forall_nil].
  all: constructor; simpl; try done; try lia; try by left.
  all: try (split; [done|]); repeat constructor; unfold TotalSlots; simpl; lia.
Qed.

Lemma state_observes_witness :
  let w := serversOpen {["abcd"]} in
  ∃ st, Admin.State epA1 w = Some (Ok st, w) ∧
    csNodes st = map lnNode linesA ∧
    (csFormed st = true ↔ mapGet (parseInfo infoOk) "cluster_state" ≠ "" ∧ 0 < 16384) ∧
    (csSlotsCovered st = true ↔ mapGet (parseInfo infoOk) "cluster_state" = "ok" ∧ 16384 = TotalSlots) ∧
    (csOpenSlots st = true ↔ ∃ s, openSlot answerAB (map lnNode linesA) s).
Proof.
  intros w. apply (state_observes epA1 w infoOk linesA answerAB 16384).
  - vm_compute. reflexivity.
  - vm_compute. reflexivity.
  - split; discriminate.
  - vm_compute. reflexivity.
  - apply linesA_wf.
  - intros n [->|[->|[]%elem_of_nil]%elem_of_cons]%elem_of_cons _.
    + split; [vm_compute; reflexivity|apply linesA_wf].
    + split; [vm_compute; reflexivity|apply linesB_wf].
Defined.

Lemma repair_keeps_keys_witness :
  let w := serversOpen {["abcd"]} in
  let w' := mkServers (svInfo w) (svText w) (svKeys (transfer "10.0.0.2:6379" "10.0.0.1:6379" {["abcd"]} w))
              (<[("10.0.0.2:6379", 4) := "aaa"]> (<[("10.0.0.1:6379", 4) := "aaa"]> ∅)) in
  Admin.RepairSlots epA1 w = Some ((1, None), w') ∧
  (∀ c t x, x ∈ keysAt w c t → ∃ c', x ∈ keysAt w' c' t) ∧
  0 ≤ 1 ∧ ∃ raw w0, clusterNodes (Addr epA1) w = Some (Ok raw, w0) ∧
      ∀ c s, ownerAt w' c s = ownerAt w c s ∨
        ∃ owner, ownerOf (parseNodes raw) s = Some owner ∧ ownerAt w' c s = nID owner.
Proof.
  intros w w'. split; [vm_compute; reflexivity|].
  apply (repair_keeps_keys epA1 w w' 1 None); [apply _|]. vm_compute. reflexivity.
Defined.

#[export] Instance Servers_AnsweringRepair : AnsweringRepair Servers.
Proof. constructor; intros; simpl; unfold onServer, refused, ret; repeat case_match; by eexists. Qed.

#[export] Instance Servers_HashSlots : HashSlots Servers.
Proof. exists hashSlot. intros w c t x Hx. simpl in Hx. unfold slotKeys in Hx. by apply elem_of_filter in Hx as [? _]. Defined.

(** C40: the repair can leave keys behind.  Let the masters that the seed reports
    with an address have distinct addresses.  Whatever slots are open, the
    repair returns without an error and counts every open slot whose owner is
    known with an address as repaired; and yet a server loses at most 1000 keys
    of an open slot to the whole repair (each server is asked once for at most
    1000 keys of the slot) and none of a slot that is not open, so a server that
    holds more than 1000 keeps some. *)
Theorem repair_leaves_strays {W : Type} `{!Redis W} `{!DataPlane W} (seed : Endpoint) (w w0 w1 : W) (raw : string)
    (open : gset Z) :
  RepairPlane W → HashSlots W → AnsweringRedis W → AnsweringRepair W →
  clusterNodes (Addr seed) w = Some (Ok raw, w0) →
  Admin.collectOpenSlots (parseNodes raw) w0 = Some (open, w1) →
  NoDup (map strayAddr (List.filter asked (parseNodes raw))) →
  ∃ w', Admin.RepairSlots seed w =
      Some ((Z.of_nat (size (filter (λ s, repairable (parseNodes raw) s = true) open)), None), w') ∧
    ∀ c slot,
      (size (keysAt w c slot) ≤ size (keysAt w' c slot) + if decide (slot ∈ open) then 1000 else 0)%nat ∧
      ((1000 < size (keysAt w c slot))%nat → keysAt w' c slot ≠ ∅).
Proof.
  intros HR HH HA HA' Hraw Hopen Hnd.
  enough (∃ w', Admin.RepairSlots seed w =
      Some ((Z.of_nat (size (filter (λ s, repairable (parseNodes raw) s = true) open)), None), w') ∧
    ∀ c slot, (size (keysAt w c slot) ≤ size (keysAt w' c slot) + if decide (slot ∈ open) then 1000 else 0)%nat) as (w' & E & Hsize).
  { exists w'. split; [done|]. intros c slot. split; [apply Hsize|]. intros Hlt He. specialize (Hsize c slot).
    rewrite He, size_empty in Hsize. case_decide; lia. }
  pose proof (collect_keeps _ _ _ _ Hopen) as [Hk1 _]. pose proof (clusterNodes_keeps _ _ _ _ Hraw) as [Hk0 _].
  rewrite Hk0 in Hk1. rewrite <- Hk1.
  unfold Admin.RepairSlots, bind at 1. rewrite Hraw. unfold bind at 1. rewrite Hopen.
  destruct (Nat.eqb_spec (size open) 0) as [Hz|_].
  { apply size_empty_inv in Hz. assert (open = ∅) as -> by set_solver. exists w1. split.
    { assert (filter (λ s, repairable (parseNodes raw) s = true) (∅ : gset Z) = ∅) as -> by set_solver. by rewrite size_empty. }
    intros c slot. lia. }
  unfold bind at 1. destruct (slotRange_returns open w1) as [[order w2] Es]. rewrite Es. apply slotRange_keeps in Es as [-> Hperm].
  assert (NoDup order) as Ho by (rewrite Hperm; apply NoDup_elements).
  destruct (repairEach_returns (parseNodes raw) order 0 w1) as [[[n err] w'] E]. rewrite E. exists w'.
  destruct (repairEach_repairs (parseNodes raw) order 0 w1 _ _ E) as (_ & -> & ->). split.
  - do 3 f_equal. rewrite Z.add_0_l. f_equal. fold (repairable (parseNodes raw)).
    rewrite <- (size_list_to_set (C := gset Z) (List.filter _ order)) by (apply NoDup_ListNoDup, List.NoDup_filter, NoDup_ListNoDup, Ho).
    f_equal. apply set_eq. intros s. rewrite elem_of_list_to_set, list_elem_of_In, filter_In, <- list_elem_of_In, Hperm, elem_of_elements, elem_of_filter.
    unfold repairable. tauto.
  - intros c slot. pose proof (repairEach_limit (parseNodes raw) order 0 c slot w1 Ho Hnd _ _ E) as Hlim.
    assert (slot ∈ order ↔ slot ∈ open) as Hin by (by rewrite Hperm, elem_of_elements). by rewrite (decide_ext _ _ _ _ Hin) in Hlim.
Qed.

(** More stray keys of slot 4 than one visit takes. *)
Definition strayKeys : gset string := list_to_set (map (λ i, Itoa (1000 + Z.of_nat i)) (seq 0 1001)).

Lemma strayKeys_size : (1000 < size (filter (λ k, hashSlot k = 4%Z) strayKeys))%nat.
Proof.
  assert (forallb (λ i, hashSlot (Itoa (1000 + Z.of_nat i)) =? 4) (seq 0 1001) = true) as H4 by (vm_compute; reflexivity).
  assert (filter (λ k, hashSlot k = 4%Z) strayKeys = strayKeys) as ->.
  { apply set_eq. intros k. rewrite elem_of_filter. split; [by intros [_ ?]|]. intros Hk. split; [|done].
    apply elem_of_list_to_set, list_elem_of_fmap in Hk as (i & -> & Hi). rewrite forallb_forall in H4.
    by apply Z.eqb_eq, H4, list_elem_of_In. }
  unfold strayKeys. rewrite size_list_to_set, length_map, length_seq; [lia|].
  apply NoDup_fmap_2_strong; [|apply NoDup_seq]. intros i j Hi%elem_of_seq Hj%elem_of_seq Hij.
  apply Itoa_inj in Hij; unfold in_int64; lia.
Qed.

Lemma serversOpen_keys (X : gset string) : keysAt (serversOpen X) (nodeAddr nodeB) 4 = filter (λ k, hashSlot k = 4) X.
Proof. reflexivity. Qed.

Lemma serversOpen_nodes (X : gset string) :
  clusterNodes (Addr epA1) (serversOpen X) = Some (Ok (renderNodes linesA), serversOpen X).
Proof. vm_compute. reflexivity. Qed.

Lemma serversOpen_open (X : gset string) :
  Admin.collectOpenSlots (parseNodes (renderNodes linesA)) (serversOpen X) = Some ({[4]}, serversOpen X).
Proof. vm_compute. reflexivity. Qed.

Lemma repair_leaves_strays_witness :
  let w := serversOpen strayKeys in
  (1000 < size (keysAt w (nodeAddr nodeB) 4))%nat ∧
  ∃ w', Admin.RepairSlots epA1 w = Some ((1, None), w') ∧
    (size (keysAt w (nodeAddr nodeB) 4) ≤ size (keysAt w' (nodeAddr nodeB) 4) + 1000)%nat ∧
    keysAt w' (nodeAddr nodeB) 4 ≠ ∅.
Proof.
  pose proof strayKeys_size as Hsize. rewrite <- serversOpen_keys in Hsize. generalize strayKeys Hsize. clear Hsize.
  intros X Hsize w. split; [exact Hsize|].
  destruct (repair_leaves_strays epA1 w w w (renderNodes linesA) {[4]}) as (w' & E & Hw').
  - apply _.
  - apply _.
  - apply _.
  - apply _.
  - apply serversOpen_nodes.
  - apply serversOpen_open.
  - apply (bool_decide_unpack _). vm_compute. exact I.
  - exists w'. destruct (Hw' (nodeAddr nodeB) 4) as [Hle Hne]. split; [exact E|].
    rewrite decide_True in Hle by (by apply elem_of_singleton). split; [exact Hle|]. exact (Hne Hsize).
Defined.
