(* ===== verification/KeySpace.v ===== *)
(** * The keyspace, and the slot mover as an implementation of it

    The abstract specification of a sharded keyspace: every slot has one owner,
    and the keys of a slot are on its owner and nowhere else.  Handing slots
    over changes the owner and nothing else.

    [Admin.MoveSlots] implements that by a protocol of commands to several
    servers (importing, migrating, key by key, then telling every master), in
    the middle of which servers disagree.  [represents] relates the servers to
    the keyspace they stand for, and the refinement theorem says that on a
    healthy cluster the protocol runs to its end and amounts to one
    hand-over. *)

From S2P Require Import Prelude GoStrings Cluster Slots ClusterNodes GoRedis RedisBed.
From S2P Require Import GoRedisProofs.
Local Open Scope string_scope.
Local Open Scope list_scope.
Local Open Scope Z_scope.

(** ** The specification *)

Record keyspace := mkKeyspace {
  owner : Z → string;
  data : Z → gset string
}.

(** The slots of a node, and how many. *)
Definition ownedSlots (ks : keyspace) (id : string) : list Z :=
  List.filter (λ s, String.eqb (owner ks s) id) (seqZ 0 TotalSlots).
Definition held (ks : keyspace) (id : string) : Z := Z.of_nat (length (ownedSlots ks id)).

Definition give (to : string) (S : list Z) (ks : keyspace) : keyspace :=
  mkKeyspace (λ s, if bool_decide (s ∈ S) then to else owner ks s) (data ks).

(** Up to [n] slots of [from], as many as it has, go to [to]. *)
Inductive handOver (from to : string) (n : Z) (ks : keyspace) : Z → keyspace → Prop :=
| HandOver S :
    NoDup S → (∀ s, s ∈ S → s ∈ ownedSlots ks from) → Z.of_nat (length S) = Z.min n (held ks from) →
    handOver from to n ks (Z.min n (held ks from)) (give to S ks).

Lemma elem_of_ownedSlots ks id s : s ∈ ownedSlots ks id ↔ 0 ≤ s < TotalSlots ∧ owner ks s = id.
Proof.
  unfold ownedSlots. rewrite list_elem_of_In, filter_In, <- list_elem_of_In, elem_of_seqZ, String.eqb_eq. intuition lia.
Qed.

Lemma NoDup_ownedSlots ks id : NoDup (ownedSlots ks id).
Proof. apply NoDup_ListNoDup, List.NoDup_filter, NoDup_ListNoDup, NoDup_seqZ. Qed.

(** A list without duplicates that has the same members has the same length. *)
Lemma length_ownedSlots ks id l : NoDup l → (∀ s, s ∈ l ↔ s ∈ ownedSlots ks id) → Z.of_nat (length l) = held ks id.
Proof.
  intros Hnd Hin. unfold held. f_equal. apply Permutation_length, NoDup_Permutation; [done|apply NoDup_ownedSlots|done].
Qed.

(** A key that is unique in a list determines the element. *)
Lemma NoDup_key {A B} (key : A → B) l x y : NoDup (map key l) → x ∈ l → y ∈ l → key x = key y → x = y.
Proof.
  induction l as [|z l IH]; simpl; [by intros _ ?%elem_of_nil|]. intros [Hz Hnd]%NoDup_cons Hx Hy E.
  apply elem_of_cons in Hx as [->|Hx], Hy as [->|Hy]; [done| | |by apply IH];
    (exfalso; apply Hz; apply list_elem_of_fmap; eauto).
Qed.

(** [lastByID] finds a node that is there. *)
Lemma lastByID_found id nodes n : n ∈ nodes → nID n = id →
  ∃ n', lastByID id nodes = Some n' ∧ n' ∈ nodes ∧ nID n' = id.
Proof.
  unfold lastByID. intros Hin Hid.
  assert (∀ l p, (∀ x, p = Some x → nID x = id ∧ x ∈ nodes) → (∀ x, x ∈ l → x ∈ nodes) →
    is_Some p ∨ (∃ x, x ∈ l ∧ nID x = id) →
    ∃ n', fold_left (λ p n, if String.eqb (nID n) id then Some n else p) l p = Some n' ∧ n' ∈ nodes ∧ nID n' = id) as Hgen.
  { induction l as [|x l IH]; intros p Hp Hl Hex; simpl.
    - destruct Hex as [[x ->]|(x & ?%elem_of_nil & _)]; [|done]. destruct (Hp x eq_refl). eauto.
    - apply IH; [|intros; apply Hl; by right|].
      + intros y. destruct (String.eqb_spec (nID x) id); [|apply Hp]. intros [= <-]. split; [done|]. apply Hl. left.
      + destruct (String.eqb_spec (nID x) id) as [|Hne]; [left; by eexists|].
        destruct Hex as [?|(y & [->|Hy]%elem_of_cons & ?)]; [by left|done|right; eauto]. }
  apply Hgen; [done|done|eauto].
Qed.

(** Keyspaces are compared slot by slot. *)
#[export] Instance keyspace_equiv : Equiv keyspace := λ ks ks', ∀ s, owner ks s = owner ks' s ∧ data ks s = data ks' s.

#[export] Instance keyspace_equivalence : Equivalence (≡@{keyspace}).
Proof.
  split; [by intros ks|by intros ks ks' H s; destruct (H s)|].
  intros k1 k2 k3 H1 H2 s. destruct (H1 s), (H2 s). split; congruence.
Qed.

Lemma give_nil to ks : give to [] ks ≡ ks.
Proof. done. Qed.

Lemma give_cons to s S ks : give to S (give to [s] ks) ≡ give to (s :: S) ks.
Proof.
  intros t. split; [|done]. simpl. destruct (decide (t ∈ S)).
  - by rewrite !bool_decide_eq_true_2 by set_solver.
  - rewrite bool_decide_eq_false_2 by done. apply (f_equal (λ b : bool, if b then to else owner ks t)).
    apply bool_decide_ext. set_solver.
Qed.

(** ** Healthy servers

    What Valkey documents of its commands when they reach a server that can
    execute them: CLUSTER NODES, which only reads, lists every peer with the
    slots this server believes it owns; CLUSTER MYID is the server's own id; SETSLOT IMPORTING is refused by the owner of the slot and
    MIGRATING by any other, SETSLOT NODE by a server that would give away a slot
    of which it holds keys; MIGRATE succeeds between two servers. *)
Class LiveRedis (W : Type) `{!Redis W} `{!DataPlane W} := {
  peers : W → list NodeInfo;
  reachable : W → string → Prop;
  linesAt : W → string → list NodeLine;
  live_nodes a w : reachable w a →
    clusterNodes a w = Some (Ok (renderNodes (linesAt w a)), w) ∧ Forall line_wf (linesAt w a) ∧
    map (λ l, set_nSlots [] (lnNode l)) (linesAt w a) = peers w;
  live_slots a w l : reachable w a → l ∈ linesAt w a →
    NoDup (slotsOfRanges (nSlots (lnNode l))) ∧
    ∀ s, s ∈ slotsOfRanges (nSlots (lnNode l)) ↔ 0 ≤ s < TotalSlots ∧ ownerAt w a s = nID (lnNode l);
  live_info a w : reachable w a → ∃ info, clusterInfo a w = Some (Ok info, w);
  live_myID n w : n ∈ peers w → reachable w (nodeAddr n) → clusterMyID (nodeAddr n) w = Some (Ok (nID n), w);
  nodes_read a w : ∃ r, clusterNodes a w = Some (r, w);
  live_getKeys a s c w : reachable w a → ∃ ks, clusterGetKeysInSlot a s c w = Some (Ok ks, w);
  live_setSlot n s arg w : n ∈ peers w → reachable w (nodeAddr n) →
    match arg with
    | SlotImporting _ => ownerAt w (nodeAddr n) s ≠ nID n
    | SlotMigrating _ => ownerAt w (nodeAddr n) s = nID n
    | SlotStable => True
    | SlotNode id => id = nID n ∨ keysAt w (nodeAddr n) s = ∅
    end → ∃ w', clusterSetSlot (nodeAddr n) s arg w = Some (Ok tt, w');
  live_migrate a ip port s ks w : let b := ip +:+ ":" +:+ Itoa port in
    reachable w a → reachable w b → a ≠ b → (∀ k, k ∈ ks → k ∈ keysAt w a s) →
    ∃ w', migrateKeys a ip port ks w = Some (Ok tt, w');
  setSlot_members a s arg w r w' : clusterSetSlot a s arg w = Some (r, w') →
    peers w' = peers w ∧ ∀ c, reachable w c → reachable w' c;
  migrate_members a ip port ks w r w' : migrateKeys a ip port ks w = Some (r, w') →
    peers w' = peers w ∧ ∀ c, reachable w c → reachable w' c
}.

Section Refinement.
Context {W : Type} `{!Redis W} `{!DataPlane W} `{!LiveRedis W}.
Implicit Types (w : W) (ks : keyspace) (m : NodeInfo).

(** A primary of the cluster; its slots, which each server sees in its own
    way, aside. *)
Definition master w m : Prop := set_nSlots [] m ∈ peers w ∧ IsPrimary m = true.

Record healthy w : Prop := {
  h_ids : NoDup (map nID (peers w));
  h_reach m : master w m → reachable w (nodeAddr m) ∧ nIP m ≠ "";
  h_addr m m' : master w m → master w m' → nodeAddr m = nodeAddr m' → nID m = nID m'
}.

(** A peer is known by its id, and a primary by its address too. *)
Lemma h_peer w m m' : healthy w → set_nSlots [] m ∈ peers w → set_nSlots [] m' ∈ peers w → nID m = nID m' →
  set_nSlots [] m = set_nSlots [] m'.
Proof. intros H Hm Hm' E. by apply (NoDup_key nID (peers w) _ _ (h_ids _ H)). Qed.

Lemma h_distinct w m m' : healthy w → master w m → master w m' → nodeAddr m = nodeAddr m' ∨ nID m = nID m' →
  set_nSlots [] m = set_nSlots [] m'.
Proof. intros H Hm Hm' E. apply (h_peer w); [done|apply Hm|apply Hm'|]. destruct E; [by apply (h_addr _ H)|done]. Qed.

(** The servers agree on the owner of every slot, and its keys are there. *)
Record represents w ks : Prop := {
  rp_healthy : healthy w;
  rp_owner m s : master w m → ownerAt w (nodeAddr m) s = owner ks s;
  rp_keys m s : master w m → keysAt w (nodeAddr m) s = if decide (owner ks s = nID m) then data ks s else ∅
}.

#[export] Instance represents_proper : Proper ((=) ==> (≡) ==> iff) represents.
Proof.
  assert (∀ w ks ks', ks ≡ ks' → represents w ks → represents w ks') as Himp.
  { intros w ks ks' E [Hh Ho Hk]. constructor; [done|..]; intros m s Hm; destruct (E s) as [E1 E2]; rewrite <- E1, <- ?E2; auto. }
  intros w _ <- ks ks' E. split; apply Himp; done.
Qed.

Definition sameMembers w w' : Prop := peers w' = peers w ∧ ∀ c, reachable w c → reachable w' c.

#[export] Instance sameMembers_preorder : PreOrder sameMembers.
Proof. split; [by split|]. intros w1 w2 w3 [H1 R1] [H2 R2]. split; [congruence|auto]. Qed.

Lemma sameMembers_master w w' m : sameMembers w w' → master w' m ↔ master w m.
Proof. intros [E _]. unfold master. by rewrite E. Qed.

Lemma sameMembers_healthy w w' : sameMembers w w' → healthy w → healthy w'.
Proof.
  intros Hs [Hid Hr Hd]. constructor; [by rewrite (proj1 Hs)|..].
  - intros m Hm%(sameMembers_master w w' m Hs). destruct (Hr m Hm) as [? ?]. split; [by apply Hs|done].
  - intros m m' Hm%(sameMembers_master w w' m Hs) Hm'%(sameMembers_master w w' m' Hs). by apply Hd.
Qed.

(** Telling every master the owner of a slot. *)
Lemma assignOwner_live masters to s w : healthy w → (∀ m, m ∈ masters → master w m) →
  (∀ m, m ∈ masters → nID to = nID m ∨ keysAt w (nodeAddr m) s = ∅) →
  ∃ w', Admin.assignOwner masters to s w = Some (Ok tt, w') ∧ sameMembers w w' ∧ keysAt w' = keysAt w ∧
    (∀ m, m ∈ masters → ownerAt w' (nodeAddr m) s = nID to) ∧
    ∀ c t, ownerAt w' c t = ownerAt w c t ∨ (t = s ∧ ownerAt w' c t = nID to).
Proof.
  unfold Admin.assignOwner. revert w. induction masters as [|m ms IH]; intros w Hh Hm Hk.
  { exists w. split; [done|]. split; [done|]. split; [done|]. split; [by intros ? ?%elem_of_nil|]. by left. }
  destruct (Hm m (list_elem_of_here _ _)) as [Hp Hprim].
  destruct (h_reach _ Hh m (conj Hp Hprim)) as [Hreach _].
  destruct (live_setSlot (set_nSlots [] m) s (SlotNode (nID to)) w Hp Hreach) as [w1 E]; [apply (Hk m), list_elem_of_here|].
  change (nodeAddr (set_nSlots [] m)) with (nodeAddr m) in E.
  pose proof (setSlot_members _ _ _ _ _ _ E) as Hs1. pose proof (setSlot_keys _ _ _ _ _ _ E) as Hk1.
  pose proof (setSlot_owner _ _ _ _ _ _ E) as [Ho1 Ho1m].
  destruct (IH w1) as (w' & E' & Hs' & Hk' & Ho' & Hc').
  - by eapply sameMembers_healthy.
  - intros m' Hm'. apply (sameMembers_master w w1); [done|]. apply Hm. by right.
  - intros m' Hm'. rewrite Hk1. apply Hk. by right.
  - exists w'. split; [cbn [forE]; unfold bindE, bind; by rewrite E|]. split; [by etrans|]. split; [congruence|].
    assert (∀ c t, ownerAt w' c t = ownerAt w1 c t ∨ t = s ∧ ownerAt w' c t = nID to) as Hc by done. split.
    + intros m' [->|Hm']%elem_of_cons; [|by apply Ho'].
      destruct (Hc' (nodeAddr m) s) as [->|[_ ->]]; [by apply Ho1m|done].
    + intros c t. destruct (Hc c t) as [->|?]; [|by right]. destruct (Ho1 c t) as [?|(-> & -> & [= <-])]; [by left|].
      right. split; done.
Qed.

Section Slot.
Context (from to : NodeInfo) (fuel : nat).
Local Abbreviation a := (nodeAddr from).
Local Abbreviation b := (nodeAddr to).

(** The key loop: all keys of the slot are on the target. *)
Lemma migrateLoop_live n s w : reachable w a → reachable w b → a ≠ b → nIP to ≠ "" → (size (keysAt w a s) < n)%nat →
  ∃ w', Admin.migrateLoop n a to s w = Some (Ok tt, w') ∧ sameMembers w w' ∧ ownerAt w' = ownerAt w ∧
    keysAt w' a s = ∅ ∧ keysAt w' b s = keysAt w a s ∪ keysAt w b s ∧
    ∀ c t, (c ≠ a ∧ c ≠ b) ∨ t ≠ s → keysAt w' c t = keysAt w c t.
Proof.
  intros Ha Hb Hne Hip. revert w Ha Hb. induction n as [|n IH]; intros w Ha Hb Hn; [lia|].
  cbn [Admin.migrateLoop]. unfold bindE, bind at 1, wrapE, bind at 1.
  destruct (live_getKeys a s 128 w Ha) as [l E]. rewrite E. unfold ret at 1.
  pose proof (getKeys_reads _ _ _ _ _ _ E) as (_ & _ & HK). destruct (HK l eq_refl) as [Hin Hnil].
  destruct l as [|k l].
  { exists w. split; [done|]. split; [done|]. split; [done|]. rewrite Hnil by done. split; [done|]. split; [set_solver|done]. }
  destruct (live_migrate a (nIP to) (nPort to) s (k :: l) w) as [w1 E1]; [done| | |done|];
    [by rewrite <- (nodeAddr_ip to Hip)..|]. unfold bind at 1, bind at 1. rewrite E1. unfold ret at 1.
  pose proof (migrate_members _ _ _ _ _ _ _ E1) as Hs1.
  pose proof (migrate_moves _ _ _ s _ _ _ _ E1 Hin) as (Ho1 & Hother & _ & Hun & Hok).
  rewrite <- (nodeAddr_ip to Hip) in Hother, Hun. specialize (Hok eq_refl).
  destruct (IH w1) as (w' & E' & Hs' & Ho' & Hka & Hkb & Hk'); [by apply Hs1|by apply Hs1| |].
  { rewrite Hok. enough (size (keysAt w a s ∖ list_to_set (k :: l)) < size (keysAt w a s))%nat by lia.
    apply subset_size. pose proof (Hin k (list_elem_of_here _ _)). set_solver. }
  exists w'. split; [exact E'|]. split; [by etrans|]. split; [congruence|]. split; [done|].
  split; [by rewrite Hkb, Hun|]. intros c t Hct. by rewrite Hk', Hother.
Qed.

(** Where the keys of a slot are when they have left the source. *)
Record cleared (s : Z) w w' : Prop := {
  cl_members : sameMembers w w';
  cl_owner c t : ownerAt w' c t = ownerAt w c t;
  cl_source : keysAt w' a s = ∅;
  cl_target : keysAt w' b s = keysAt w a s ∪ keysAt w b s;
  cl_other c t : (c ≠ a ∧ c ≠ b) ∨ t ≠ s → keysAt w' c t = keysAt w c t
}.

(** IMPORTING and MIGRATING on a healthy server only open the slot. *)
Lemma openSlot_live n s arg w : master w n → healthy w → (∀ id, arg ≠ SlotNode id) →
  match arg with
  | SlotImporting _ => ownerAt w (nodeAddr n) s ≠ nID n
  | SlotMigrating _ => ownerAt w (nodeAddr n) s = nID n
  | _ => True
  end →
  ∃ w', clusterSetSlot (nodeAddr n) s arg w = Some (Ok tt, w') ∧ sameMembers w w' ∧ keysAt w' = keysAt w ∧
    ∀ c t, ownerAt w' c t = ownerAt w c t.
Proof.
  intros Hm Hh Harg Hpre. destruct (live_setSlot (set_nSlots [] n) s arg w (proj1 Hm)) as [w' E].
  - by apply (h_reach _ Hh n).
  - destruct arg; [done..|]. by destruct (Harg owner0).
  - exists w'. split; [exact E|]. split; [by eapply setSlot_members|]. split; [by eapply setSlot_keys|].
    intros c t. apply setSlot_owner in E as [Ho _]. destruct (Ho c t) as [?|(_ & _ & Ea)]; [done|]. by apply Harg in Ea.
Qed.

Lemma clearSlot_live s w : healthy w → master w from → master w to → a ≠ b →
  ownerAt w a s = nID from → ownerAt w b s ≠ nID to → (size (keysAt w a s) < fuel)%nat →
  wp (bindE (wrapE ("setslot importing " +:+ Itoa s) (clusterSetSlot b s (SlotImporting (nID from)))) (λ _,
      bindE (wrapE ("setslot migrating " +:+ Itoa s) (clusterSetSlot a s (SlotMigrating (nID to)))) (λ _,
      Admin.migrateLoop fuel a to s))) (λ r w', r = Ok tt ∧ cleared s w w') w.
Proof.
  intros Hh Hf Ht Hab Hoa Hob Hn.
  destruct (openSlot_live to s (SlotImporting (nID from)) w Ht Hh) as (w1 & E1 & M1 & K1 & O1); [done..|].
  destruct (openSlot_live from s (SlotMigrating (nID to)) w1) as (w2 & E2 & M2 & K2 & O2);
    [by apply (sameMembers_master w)|by eapply sameMembers_healthy|done|by rewrite O1|].
  assert (sameMembers w w2) as M by (by etrans). pose proof (sameMembers_healthy w w2 M Hh) as Hh2.
  destruct (h_reach _ Hh2 from) as [Ra _]; [by apply (sameMembers_master w)|].
  destruct (h_reach _ Hh2 to) as [Rb Hip]; [by apply (sameMembers_master w)|].
  destruct (migrateLoop_live fuel s w2 Ra Rb Hab Hip) as (w3 & E3 & M3 & O3 & Ka & Kb & Kr); [by rewrite K2, K1|].
  exists (Ok tt), w3. split; [unfold bindE, wrapE, bind, ret; by rewrite E1, E2, E3|]. split; [done|].
  rewrite K2, K1 in Kb, Kr. constructor; [by etrans| |done..]. intros c t. by rewrite O3, O2, O1.
Qed.

(** Once the source is clear and every master has been told, the servers
    represent the keyspace after the hand-over. *)
Lemma represents_give s w w1 w2 ks : represents w ks → master w from → master w to → nID from ≠ nID to → a ≠ b →
  owner ks s = nID from → cleared s w w1 → sameMembers w1 w2 → keysAt w2 = keysAt w1 →
  (∀ m, master w m → ownerAt w2 (nodeAddr m) s = nID to) →
  (∀ c t, ownerAt w2 c t = ownerAt w1 c t ∨ (t = s ∧ ownerAt w2 c t = nID to)) →
  represents w2 (give (nID to) [s] ks).
Proof.
  intros R Hf Ht Hne Hab Hown [M1 O1 Ka Kb Kr] M2 K2 Htold Ho. assert (sameMembers w w2) as M by (by etrans).
  constructor; [eapply sameMembers_healthy; [exact M|apply (rp_healthy _ _ R)]|..].
  - intros m t Hm%(sameMembers_master w w2 m M). simpl. destruct (decide (t = s)) as [->|Hts].
    + rewrite bool_decide_eq_true_2 by set_solver. by apply Htold.
    + rewrite bool_decide_eq_false_2 by set_solver. destruct (Ho (nodeAddr m) t) as [->|[? _]]; [|done].
      rewrite O1. by apply (rp_owner _ _ R).
  - intros m t Hm%(sameMembers_master w w2 m M). simpl. rewrite K2. destruct (decide (t = s)) as [->|Hts].
    + rewrite bool_decide_eq_true_2 by set_solver. pose proof (λ m m', h_distinct w m m' (rp_healthy _ _ R)) as Hd.
      destruct (decide (nodeAddr m = b)) as [Eb|Nb].
      { rewrite Eb, Kb. pose proof (f_equal nID (Hd m to Hm Ht (or_introl Eb))) as Em. simpl in Em.
        rewrite !(rp_keys _ _ R) by done. rewrite Em, Hown.
        rewrite (decide_True (P := nID from = nID from)), (decide_False (P := nID from = nID to)), decide_True by done. set_solver. }
      rewrite decide_False. 2: { intros E. destruct Nb. symmetry. exact (f_equal nodeAddr (Hd to m Ht Hm (or_intror E))). }
      destruct (decide (nodeAddr m = a)) as [Ea|Na]; [by rewrite Ea|].
      rewrite Kr by (by left). rewrite (rp_keys _ _ R) by done. rewrite decide_False; [done|]. rewrite Hown.
      intros E. destruct Na. symmetry. exact (f_equal nodeAddr (Hd from m Hf Hm (or_intror E))).
    + rewrite bool_decide_eq_false_2 by set_solver. rewrite Kr by (by right). by apply (rp_keys _ _ R).
Qed.

(** The hand-over of one slot. *)
Lemma moveSlot_live masters s w ks : represents w ks → master w from → master w to → nID from ≠ nID to →
  (∀ m, m ∈ masters → master w m) → (∀ m, master w m → ∃ m', m' ∈ masters ∧ nodeAddr m' = nodeAddr m) →
  owner ks s = nID from → (size (data ks s) < fuel)%nat →
  ∃ w', Admin.moveSlot fuel masters from to s w = Some (Ok tt, w') ∧ sameMembers w w' ∧ represents w' (give (nID to) [s] ks).
Proof.
  intros R Hf Ht Hne Hms Hall Hown Hfuel. pose proof (rp_healthy _ _ R) as Hh.
  destruct (h_reach _ Hh from Hf) as [Ra _].
  assert (a ≠ b) as Hab.
  { intros E. apply Hne. exact (f_equal nID (h_distinct w from to Hh Hf Ht (or_introl E))). }
  assert (keysAt w a s = data ks s) as Hka by (rewrite (rp_keys _ _ R) by done; by rewrite decide_True).
  destruct (live_getKeys a s 1 w Ra) as [probe E]. pose proof (getKeys_reads _ _ _ _ _ _ E) as (_ & _ & HK).
  destruct (HK probe eq_refl) as [_ Hnil].
  assert (wp (match probe with
    | [] => ret (Ok tt)
    | _ => _ <-? wrapE ("setslot importing " +:+ Itoa s) (clusterSetSlot b s (SlotImporting (nID from))) ;;
           _ <-? wrapE ("setslot migrating " +:+ Itoa s) (clusterSetSlot a s (SlotMigrating (nID to))) ;;
           Admin.migrateLoop fuel a to s
    end) (λ r w', r = Ok tt ∧ cleared s w w') w) as (r & w1 & E1 & -> & C).
  { destruct probe as [|k probe].
    - apply wp_ret. split; [done|]. specialize (Hnil eq_refl eq_refl). constructor; [done..|set_solver|done].
    - apply clearSlot_live; [done..| | |by rewrite Hka]; rewrite (rp_owner _ _ R) by done; [done|congruence]. }
  destruct (assignOwner_live masters to s w1) as (w2 & E2 & M2 & K2 & T2 & O2).
  - eapply sameMembers_healthy; [apply C|done].
  - intros m Hm%Hms. by apply (sameMembers_master w w1 m (cl_members _ _ _ C)).
  - intros m Hm%Hms. destruct (decide (nID to = nID m)) as [?|Hto]; [by left|right].
    destruct (decide (nodeAddr m = a)) as [->|Na]; [apply C|].
    rewrite (cl_other _ _ _ C), (rp_keys _ _ R), decide_False; [done| |done|].
    + rewrite Hown. intros Ei. destruct Na. symmetry.
      exact (f_equal nodeAddr (h_distinct w from m Hh Hf Hm (or_intror Ei))).
    + left. split; [done|]. intros Eb. apply Hto.
      exact (f_equal nID (h_distinct w to m Hh Ht Hm (or_introl (eq_sym Eb)))).
  - exists w2. split.
    { cut (wp (Admin.moveSlot fuel masters from to s) (λ r w', r = Ok tt ∧ w' = w2) w); [by intros (? & ? & ? & -> & ->)|].
      unfold Admin.moveSlot. apply wp_bindE, wp_bind. exists (Ok probe), w. split; [exact E|]. apply wp_ret, wp_bindE.
      exists (Ok tt), w1. split; [exact E1|]. apply wp_bind. exists (Ok tt), w2. split; [exact E2|]. by apply wp_ret. }
    split; [etrans; [apply C|done]|]. eapply (represents_give s w w1); try done.
    intros m Hm. destruct (Hall m Hm) as (m' & Hm' & <-). by apply T2.
Qed.

Lemma moveEach_live masters slots moved w ks : represents w ks → master w from → master w to → nID from ≠ nID to →
  (∀ m, m ∈ masters → master w m) → (∀ m, master w m → ∃ m', m' ∈ masters ∧ nodeAddr m' = nodeAddr m) →
  NoDup slots → (∀ s, s ∈ slots → owner ks s = nID from) → (∀ s, (size (data ks s) < fuel)%nat) →
  ∃ w', Admin.moveEach fuel masters from to slots moved w = Some ((moved + Z.of_nat (length slots), None), w') ∧
    sameMembers w w' ∧ represents w' (give (nID to) slots ks).
Proof.
  intros R Hf Ht Hne Hms Hall Hnd Hown Hfuel. revert w ks moved R Hf Ht Hms Hall Hown Hfuel.
  induction Hnd as [|s slots Hs Hnd IH]; intros w ks moved R Hf Ht Hms Hall Hown Hfuel.
  { exists w. rewrite Z.add_0_r. split; [done|]. split; [done|]. by rewrite give_nil. }
  destruct (moveSlot_live masters s w ks) as (w1 & E1 & M1 & R1); [done..|apply Hown; left|done|].
  destruct (IH w1 (give (nID to) [s] ks) (moved + 1)) as (w' & E' & M' & R').
  - done.
  - by apply (sameMembers_master w).
  - by apply (sameMembers_master w).
  - intros m Hm. by apply (sameMembers_master w), Hms.
  - intros m Hm%(sameMembers_master w w1 m M1). by apply Hall.
  - intros t Ht'. simpl. rewrite bool_decide_eq_false_2 by set_solver. apply Hown. by right.
  - done.
  - exists w'. split; [simpl; unfold bind; rewrite E1, E'; do 3 f_equal; lia|]. split; [by etrans|]. by rewrite <- give_cons.
Qed.
End Slot.
End Refinement.

(** What [MoveSlots] reads from the server it asks: the two nodes, and all
    masters. *)
Section Read.
Context {W : Type} `{!Redis W} `{!DataPlane W} `{!LiveRedis W} (w : W) (server : NodeInfo).
Context (Hh : healthy w) (Hserver : master w server).
Local Abbreviation nodes := (map lnNode (linesAt w (nodeAddr server))).

Lemma peers_read m : set_nSlots [] m ∈ peers w ↔ ∃ m', m' ∈ nodes ∧ set_nSlots [] m' = set_nSlots [] m.
Proof.
  destruct (live_nodes (nodeAddr server) w) as (_ & _ & Hp); [by apply h_reach|]. rewrite <- Hp, list_elem_of_fmap. split.
  - intros (l & E & Hl). exists (lnNode l). split; [apply list_elem_of_fmap; eauto|done].
  - intros (m' & (l & -> & Hl)%list_elem_of_fmap & E). exists l. done.
Qed.

Lemma node_peer m : m ∈ nodes → set_nSlots [] m ∈ peers w.
Proof. intros Hm. apply peers_read. eauto. Qed.

Lemma lastByID_peer m : set_nSlots [] m ∈ peers w →
  ∃ m', lastByID (nID m) nodes = Some m' ∧ m' ∈ nodes ∧ set_nSlots [] m' = set_nSlots [] m.
Proof.
  intros Hm. pose proof Hm as (n & Hn & E)%peers_read.
  destruct (lastByID_found (nID m) nodes n Hn) as (m' & E' & Hm' & Hid); [exact (f_equal nID E)|].
  exists m'. split; [done|]. split; [done|]. apply (h_peer w); [done|by apply node_peer|done|done].
Qed.

Lemma masters_read m : m ∈ List.filter IsPrimary nodes → master w m.
Proof. intros [Hm%list_elem_of_In Hp]%list_elem_of_In%filter_In. split; [by apply node_peer|done]. Qed.

Lemma masters_all m : master w m → ∃ m', m' ∈ List.filter IsPrimary nodes ∧ nodeAddr m' = nodeAddr m.
Proof.
  intros [(m' & Hm' & E)%peers_read Hp]. exists m'. split; [|exact (f_equal nodeAddr E)].
  apply list_elem_of_In, filter_In. rewrite <- list_elem_of_In. split; [done|]. rewrite <- Hp. exact (f_equal IsPrimary E).
Qed.

(** Its slots are those the keyspace gives it. *)
Lemma slots_read ks m : represents w ks → m ∈ nodes →
  NoDup (slotsOfRanges (nSlots m)) ∧ (∀ s, s ∈ slotsOfRanges (nSlots m) ↔ s ∈ ownedSlots ks (nID m)).
Proof.
  intros R (l & -> & Hl)%list_elem_of_fmap.
  destruct (live_slots (nodeAddr server) w l) as [Hnd Hs]; [by apply h_reach|done|]. split; [done|].
  intros s. rewrite Hs, elem_of_ownedSlots. by rewrite (rp_owner _ _ R).
Qed.
End Read.

(** The whole move: its slots are the first of the source's. *)
Lemma MoveSlots_live {W : Type} `{!Redis W} `{!DataPlane W} `{!LiveRedis W} (fuel : nat) (seed : Endpoint)
    (server from to : NodeInfo) (n : Z) (w : W) (ks : keyspace) :
  represents w ks → master w server → clusterNodes (Addr seed) w = clusterNodes (nodeAddr server) w →
  master w from → master w to → nID from ≠ nID to → 0 ≤ n → (∀ s, (size (data ks s) < fuel)%nat) →
  ∃ S w', Admin.MoveSlots fuel seed (nID from) (nID to) n w = Some ((Z.of_nat (length S), None), w') ∧
    sameMembers w w' ∧ NoDup S ∧ (∀ s, s ∈ S → s ∈ ownedSlots ks (nID from)) ∧
    Z.of_nat (length S) = Z.min n (held ks (nID from)) ∧ represents w' (give (nID to) S ks).
Proof.
  intros R Hserver Hseed Hf Ht Hne Hn Hfuel. pose proof (rp_healthy _ _ R) as Hh.
  unfold Admin.MoveSlots. destruct (Z.leb_spec n 0) as [Hn0|Hpos].
  { assert (n = 0) as -> by lia. assert (Z.min 0 (held ks (nID from)) = 0) as Hz by (unfold held; lia).
    exists [], w. split; [done|]. split; [done|]. split; [apply NoDup_nil_2|]. split; [by intros ? ?%elem_of_nil|].
    split; [done|]. by rewrite give_nil. }
  destruct (live_nodes (nodeAddr server) w) as (Eraw & Hwf & _); [by apply h_reach|].
  unfold bind at 1. rewrite Hseed, Eraw, parseNodes_render by done. cbv zeta.
  destruct (lastByID_peer w server Hh Hserver from (proj1 Hf)) as (from' & E1 & Hin1 & Eq1).
  destruct (lastByID_peer w server Hh Hserver to (proj1 Ht)) as (to' & E2 & _ & Eq2). rewrite E1, E2.
  destruct (slots_read w server Hh Hserver ks from' R Hin1) as [Hnd Hslots].
  rewrite selectSlots_take by (simpl; lia). rewrite Z.sub_0_r. cbn [app].
  set (S := take (Z.to_nat n) (slotsOfRanges (nSlots from'))).
  pose proof (f_equal nID Eq1) as Id1. pose proof (f_equal nID Eq2) as Id2. simpl in Id1, Id2. rewrite Id1 in Hslots.
  assert (NoDup S) as HndS by (eapply sublist_NoDup; [exact Hnd|apply sublist_take]).
  assert (∀ s, s ∈ S → s ∈ ownedSlots ks (nID from)) as HS by (intros s Hs; apply Hslots; by apply (subseteq_take (Z.to_nat n))).
  assert (Z.of_nat (length S) = Z.min n (held ks (nID from))) as Hlen.
  { unfold S. rewrite length_take. rewrite <- (length_ownedSlots ks (nID from) _ Hnd Hslots). lia. }
  destruct (moveEach_live from' to' fuel (List.filter IsPrimary (map lnNode (linesAt w (nodeAddr server)))) S 0 w ks)
    as (w' & E & M & R').
  - done.
  - split; [by rewrite Eq1; apply Hf|]. rewrite <- (proj2 Hf). exact (f_equal IsPrimary Eq1).
  - split; [by rewrite Eq2; apply Ht|]. rewrite <- (proj2 Ht). exact (f_equal IsPrimary Eq2).
  - congruence.
  - intros m. by apply masters_read.
  - intros m. by apply masters_all.
  - exact HndS.
  - intros s Hs%HS%elem_of_ownedSlots. rewrite Id1. apply Hs.
  - done.
  - rewrite E. exists S, w'. rewrite Id2 in R'. by split_and!.
Qed.

(** C5: [MoveSlots] implements the hand-over of slots.  On a healthy cluster,
    whose servers represent a keyspace, it returns (with fuel for the keys of
    any one slot) the number of slots moved and no error, the servers then
    represent the keyspace in which up to [n] slots, as many as the source has,
    belong to the target, every key is where its slot is, and no other slot
    changed. *)
Theorem move_slots_refines {W : Type} `{!Redis W} `{!DataPlane W} `{!LiveRedis W} (fuel : nat) (seed : Endpoint)
    (server from to : NodeInfo) (n : Z) (w : W) (ks : keyspace) :
  represents w ks → master w server → clusterNodes (Addr seed) w = clusterNodes (nodeAddr server) w →
  master w from → master w to → nID from ≠ nID to → 0 ≤ n → (∀ s, (size (data ks s) < fuel)%nat) →
  ∃ moved w' ks', Admin.MoveSlots fuel seed (nID from) (nID to) n w = Some ((moved, None), w') ∧
    handOver (nID from) (nID to) n ks moved ks' ∧ represents w' ks'.
Proof.
  intros R Hserver Hseed Hf Ht Hne Hn Hfuel.
  destruct (MoveSlots_live fuel seed server from to n w ks) as (S & w' & E & _ & Hnd & HS & Hlen & R'); [done..|].
  exists (Z.of_nat (length S)), w', (give (nID to) S ks). split; [done|]. split; [|done]. rewrite Hlen. by apply HandOver.
Qed.

(** ** Servers that describe themselves

    The in-memory servers again, whose CLUSTER NODES now shows what each of
    them has been told. *)
Record Live := mkLive { lvServers : Servers; lvPeers : list NodeInfo }.

Definition onServers {A} (m : M Servers A) : M Live A :=
  λ w, match m (lvServers w) with Some (x, v) => Some (x, mkLive v (lvPeers w)) | None => None end.

Definition shownSlots (w : Live) (a id : string) : list SlotRange :=
  map (λ s, mkRange s s) (List.filter (λ s, String.eqb (toldOwner (lvServers w) a s) id) (seqZ 0 TotalSlots)).
Definition liveLines (w : Live) (a : string) : list NodeLine :=
  map (λ p, lineOf [] (set_nSlots (shownSlots w a (nID p)) p)) (lvPeers w).

#[export] Instance Live_Redis : Redis Live := {|
  clusterInfo a := onServers (clusterInfo a);
  clusterNodes a := λ w,
    if upAt (lvServers w) a then Some (Ok (renderNodes (liveLines w a)), w) else Some (Err (ErrText "EOF"), w);
  clusterMyID a := λ w,
    match List.find (λ p, String.eqb (nodeAddr p) a) (lvPeers w) with
    | Some p => Some (Ok (nID p), w)
    | None => Some (Err (ErrText "EOF"), w)
    end;
  clusterMeet a i p := onServers (clusterMeet a i p);
  clusterAddSlotsRange a x y := onServers (clusterAddSlotsRange a x y);
  clusterReplicate a i := onServers (clusterReplicate a i);
  clusterForget a i := onServers (clusterForget a i);
  clusterFailover a := onServers (clusterFailover a);
  clusterGetKeysInSlot a s c := onServers (clusterGetKeysInSlot a s c);
  clusterSetSlot a s arg := onServers (clusterSetSlot a s arg);
  migrateKeys a i p ks := onServers (migrateKeys a i p ks);
  migrateKey a i p k := onServers (migrateKey a i p k);
  parseIP := parseIP (W := Servers);
  lookupHost h := onServers (lookupHost h);
  podExec n p c l := onServers (podExec n p c l);
  slotRange open := onServers (slotRange open)
|}.

Lemma onServers_inv {A} (m : M Servers A) w r w' :
  onServers m w = Some (r, w') → m (lvServers w) = Some (r, lvServers w') ∧ lvPeers w' = lvPeers w.
Proof. unfold onServers. destruct (m _) as [[x v]|]; [|done]. by intros [= <- <-]. Qed.

#[export, refine] Instance Live_DataPlane : DataPlane Live := {|
  keysAt w := keysAt (lvServers w);
  ownerAt w := ownerAt (lvServers w)
|}.
Proof.
  - intros a w r w' E. simpl in E. destruct (upAt _ _); by injection E as _ <-.
  - intros a s c w r w' [E _]%onServers_inv. by apply getKeys_reads in E.
  - intros a s arg w r w' [E _]%onServers_inv. by apply setSlot_keys in E.
  - intros a s arg w r w' [E _]%onServers_inv. by apply setSlot_owner in E.
  - intros a ip port s ks w r w' [E _]%onServers_inv. by apply migrate_moves.
Defined.

(** Peers that CLUSTER NODES can show, at addresses of their own. *)
Definition showable (w : Live) : Prop :=
  Forall (λ p, line_wf (lineOf [] (set_nSlots [] p))) (lvPeers w) ∧ NoDup (map nodeAddr (lvPeers w)).

Lemma slots_singletons l : slotsOfRanges (map (λ s, mkRange s s) l) = l.
Proof.
  induction l as [|s l IH]; [done|]. unfold slotsOfRanges in *. simpl. rewrite IH. unfold rangeCount. simpl.
  replace (s - s + 1) with 1 by lia. by rewrite seqZ_cons, seqZ_nil by lia.
Qed.

#[export, refine] Instance Live_LiveRedis : LiveRedis Live := {|
  peers w := map (set_nSlots []) (lvPeers w);
  reachable w a := upAt (lvServers w) a = true ∧ showable w;
  linesAt := liveLines
|}.
Proof.
  - intros a w [Hup [Hw _]]. split; [simpl; by rewrite Hup|]. unfold liveLines. split; [|by rewrite map_map].
    apply Forall_map. eapply Forall_impl; [exact Hw|]. intros p [? ? ? ? ? ? ? ? ? ? ? _ _]. constructor; try done.
    apply Forall_map, Forall_forall. intros s [Hs%list_elem_of_In%elem_of_seqZ _]%list_elem_of_In%filter_In.
    unfold range_wf, TotalSlots in *. simpl. lia.
  - intros a w l _ (p & -> & Hp)%list_elem_of_fmap. simpl nSlots. unfold shownSlots. rewrite slots_singletons. split.
    + apply NoDup_ListNoDup, List.NoDup_filter, NoDup_ListNoDup, NoDup_seqZ.
    + intros s. rewrite list_elem_of_In, filter_In, <- list_elem_of_In, elem_of_seqZ, String.eqb_eq.
      change (ownerAt w a s) with (toldOwner (lvServers w) a s). intuition lia.
  - intros a [v ps] [Hup _]. simpl in *. unfold onServers, onServer. simpl. rewrite Hup. eauto.
  - intros n w (p & -> & Hp)%list_elem_of_fmap [_ [_ Hnd]]. simpl. change (nodeAddr (set_nSlots [] p)) with (nodeAddr p).
    destruct (List.find _ _) as [q|] eqn:E.
    + apply find_some in E as [Hq%list_elem_of_In Eq%String.eqb_eq]. by rewrite (NoDup_key nodeAddr (lvPeers w) q p).
    + pose proof (find_none _ _ E p (proj1 (list_elem_of_In _ _) Hp)) as Hn. cbv beta in Hn. by rewrite String.eqb_refl in Hn.
  - intros a w. simpl. destruct (upAt _ _); eauto.
  - intros a s c [v ps] [Hup _]. simpl in *. unfold onServers, onServer. simpl. rewrite Hup. eauto.
  - intros n s arg [v ps] _ [Hup _] _. simpl in *. unfold onServers, onServer. simpl. rewrite Hup. eauto.
  - intros a ip port s ks [v ps] b [Ha _] [Hb _] Hne _. simpl in *. fold b in Hb.
    unfold onServers, onServer. simpl. fold b. rewrite Ha, (proj2 (String.eqb_neq a b)), Hb by done. simpl. eauto.
  - intros a s arg w r w' [E Hp]%onServers_inv. simpl in E. unfold showable. rewrite Hp. split; [done|].
    intros c. unfold onServer, refused, ret in E. repeat case_match; by injection E as _ <-.
  - intros a ip port ks w r w' [E Hp]%onServers_inv. simpl in E. unfold showable. rewrite Hp. split; [done|].
    intros c. unfold onServer, refused, ret in E. repeat case_match; by injection E as _ <-.
Defined.

(** Two masters that own slot 3 and slot 4; the first holds two keys of slot 3. *)
Definition bareA : NodeInfo := set_nSlots [] nodeA.
Definition bareB : NodeInfo := set_nSlots [] nodeB.
Definition told34 : list (string * Z * string) :=
  [("10.0.0.1:6379", 3, "aaa"); ("10.0.0.2:6379", 3, "aaa"); ("10.0.0.1:6379", 4, "bbb"); ("10.0.0.2:6379", 4, "bbb")].
Definition liveAB : Live :=
  mkLive (mkServers "" (<["10.0.0.1:6379" := ""]> (<["10.0.0.2:6379" := ""]> ∅))
    (<["10.0.0.1:6379" := {["key"; "foo"]}]> ∅) (list_to_map told34)) [bareA; bareB].
Definition keyspaceAB : keyspace :=
  mkKeyspace (λ s, if s =? 3 then "aaa" else if s =? 4 then "bbb" else "") (λ s, if s =? 3 then {["key"; "foo"]} else ∅).

Lemma liveAB_master m : master liveAB m ↔ set_nSlots [] m = bareA ∨ set_nSlots [] m = bareB.
Proof.
  unfold master. change (peers liveAB) with [bareA; bareB]. rewrite !elem_of_cons, elem_of_nil. split; [tauto|].
  intros [E|E]; (split; [tauto|]); exact (f_equal IsPrimary E).
Qed.

Lemma liveAB_told a s : a = "10.0.0.1:6379" ∨ a = "10.0.0.2:6379" → ownerAt liveAB a s = owner keyspaceAB s.
Proof.
  intros Ha. simpl. destruct (Z.eqb_spec s 3) as [->|H3]; [by destruct Ha as [-> | ->]|].
  destruct (Z.eqb_spec s 4) as [->|H4]; [by destruct Ha as [-> | ->]|]. unfold toldOwner.
  replace (svOwner (lvServers liveAB) !! (a, s)) with (@None string); [done|]. symmetry. apply not_elem_of_list_to_map.
  simpl. rewrite !not_elem_of_cons. split_and!; [congruence..|]. apply not_elem_of_nil.
Qed.

Lemma liveAB_represents : represents liveAB keyspaceAB.
Proof.
  assert (∀ m, master liveAB m → (nodeAddr m = "10.0.0.1:6379" ∧ nID m = "aaa") ∨ (nodeAddr m = "10.0.0.2:6379" ∧ nID m = "bbb")) as Haddr.
  { intros m [E|E]%liveAB_master; [left|right]; (split; [exact (f_equal nodeAddr E)|exact (f_equal nID E)]). }
  constructor; [constructor|..].
  - apply (bool_decide_unpack _). by vm_compute.
  - intros m Hm. split.
    + split; [by destruct (Haddr m Hm) as [[-> _]|[-> _]]|].
      split; [|apply (bool_decide_unpack _); by vm_compute].
      repeat (constructor; [constructor; try done; try (by repeat constructor); by left|]). constructor.
    + intros E. apply liveAB_master in Hm as [H|H]; apply (f_equal nIP) in H; simpl in H; congruence.
  - intros m m' Hm Hm' E. destruct (Haddr m Hm) as [[? ?]|[? ?]], (Haddr m' Hm') as [[? ?]|[? ?]]; congruence.
  - intros m s Hm. apply liveAB_told. destruct (Haddr m Hm) as [[-> _]|[-> _]]; auto.
  - intros m s Hm. change (keysAt liveAB) with (slotKeys (lvServers liveAB)). unfold slotKeys.
    assert (∀ k : string, k ∈ ({["key"; "foo"]} : gset string) → hashSlot k = 3) as Hk.
    { intros k [->%elem_of_singleton | ->%elem_of_singleton]%elem_of_union; reflexivity. }
    destruct (Haddr m Hm) as [[-> ->]|[-> ->]]; unfold keyspaceAB; simpl.
    + change (storeOf _ _) with ({["key"; "foo"]} : gset string). apply set_eq. intros k. rewrite elem_of_filter.
      destruct (Z.eqb_spec s 3) as [->|H3]; [rewrite decide_True by done; naive_solver|].
      destruct (s =? 4); rewrite decide_False by done; (split; [|set_solver]); intros [? ?%Hk]; congruence.
    + change (storeOf _ _) with (∅ : gset string). apply set_eq. intros k. rewrite elem_of_filter.
      destruct (s =? 3); [rewrite decide_False by done|destruct (decide _)]; set_solver.
Qed.

Lemma move_slots_refines_witness :
  ∃ moved w' ks', Admin.MoveSlots 3 epA1 "aaa" "bbb" 2 liveAB = Some ((moved, None), w') ∧
    handOver "aaa" "bbb" 2 keyspaceAB moved ks' ∧ represents w' ks'.
Proof.
  apply (move_slots_refines 3 epA1 bareA bareA bareB 2 liveAB keyspaceAB).
  - apply liveAB_represents.
  - apply liveAB_master. by left.
  - reflexivity.
  - apply liveAB_master. by left.
  - apply liveAB_master. by right.
  - discriminate.
  - discriminate.
  - intros s. unfold keyspaceAB. simpl. destruct (s =? 3); vm_compute; lia.
Defined.
