(* ===== verification/LiveScaling.v ===== *)
(** * Scaling on live servers

    The production [Admin] on healthy servers is a [SlotMover]: its ledger is
    how many slots the represented keyspace gives to each node.  So what
    [SlotMover] proves of filling and draining a shard holds of the operator and
    Valkey together, and no key is lost on the way. *)

From S2P Require Import Prelude GoStrings Cluster Slots ClusterNodes API ResourceBuilders Platform Controller Reconcile.
From S2P Require Import ResourceProofs TestBed StatusProofs SlotMover GoRedis RedisBed GoRedisProofs KeySpace.
Local Open Scope string_scope.
Local Open Scope list_scope.
Local Open Scope Z_scope.

(** ** Counting a hand-over *)

Lemma held_perm ks ks' id id' S : NoDup S → (∀ s, s ∈ S → s ∉ ownedSlots ks' id') →
  (∀ s, s ∈ ownedSlots ks id ↔ s ∈ S ∨ s ∈ ownedSlots ks' id') → held ks id = Z.of_nat (length S) + held ks' id'.
Proof.
  intros Hnd Hdis Hin. unfold held. rewrite <- Nat2Z.inj_add, <- length_app. f_equal.
  apply Permutation_length, NoDup_Permutation; [apply NoDup_ownedSlots| |].
  - apply NoDup_app. split; [done|]. split; [done|apply NoDup_ownedSlots].
  - intros s. rewrite elem_of_app. apply Hin.
Qed.

Lemma elem_of_give to S ks id s : s ∈ ownedSlots (give to S ks) id ↔
  0 ≤ s < TotalSlots ∧ ((s ∈ S ∧ to = id) ∨ (s ∉ S ∧ owner ks s = id)).
Proof.
  rewrite elem_of_ownedSlots. simpl. destruct (decide (s ∈ S)).
  - rewrite bool_decide_eq_true_2 by done. naive_solver.
  - rewrite bool_decide_eq_false_2 by done. naive_solver.
Qed.

Lemma held_give from to S ks : NoDup S → (∀ s, s ∈ S → s ∈ ownedSlots ks from) → from ≠ to →
  held (give to S ks) ≡ moveCount from to (Z.of_nat (length S)) (held ks).
Proof.
  intros Hnd HS Hne id.
  assert (∀ s, s ∈ S → 0 ≤ s < TotalSlots ∧ owner ks s = from) as HS' by (intros s Hs; by apply elem_of_ownedSlots, HS).
  unfold moveCount. destruct (decide (id = to)) as [->|Hto]; [|destruct (decide (id = from)) as [->|Hfrom]].
  - rewrite (held_perm (give to S ks) ks to to S), Z.add_comm; [done|done|..]; intros s.
    + rewrite elem_of_ownedSlots. intros Hs%HS'. naive_solver.
    + rewrite elem_of_give, elem_of_ownedSlots. destruct (decide (s ∈ S)); naive_solver.
  - rewrite (held_perm ks (give to S ks) from from S); [lia|done|..]; intros s.
    + rewrite elem_of_give. naive_solver.
    + rewrite elem_of_give, elem_of_ownedSlots. destruct (decide (s ∈ S)); naive_solver.
  - rewrite (held_perm (give to S ks) ks id id []); [simpl; lia|apply NoDup_nil_2|by intros ? ?%elem_of_nil|].
    intros s. rewrite elem_of_give, elem_of_ownedSlots. destruct (decide (s ∈ S)); set_solver.
Qed.

Lemma filter_rejects {A} (P : A → bool) l : (length (List.filter P l) < length l)%nat → ∃ x, x ∈ l ∧ P x = false.
Proof.
  induction l as [|x l IH]; simpl; [lia|]. destruct (P x) eqn:E; simpl; intros H; [|exists x; split; [left|done]].
  destruct IH as (y & ? & ?); [lia|]. exists y. split; [by right|done].
Qed.

Lemma held_total ks id : held ks id < TotalSlots → ∃ s, 0 ≤ s < TotalSlots ∧ owner ks s ≠ id.
Proof.
  unfold held, ownedSlots. generalize TotalSlots. intros T Hlt.
  destruct (filter_rejects (λ s, String.eqb (owner ks s) id) (seqZ 0 T)) as (s & Hs%elem_of_seqZ & Hne%String.eqb_neq).
  - rewrite length_seqZ. lia.
  - exists s. split; [lia|done].
Qed.

Lemma held_pos ks id : 0 < held ks id ↔ ∃ s, 0 ≤ s < TotalSlots ∧ owner ks s = id.
Proof.
  unfold held. setoid_rewrite <- elem_of_ownedSlots. destruct (ownedSlots ks id) as [|s l].
  - simpl. split; [lia|]. by intros (? & ?%elem_of_nil).
  - simpl. split; [|lia]. intros _. exists s. left.
Qed.

(** ** The production [Admin] reports a covered cluster as formed *)

Lemma admin_ReportsFormed {W : Type} `{!Redis W} (fuel : nat) (container : string) :
  @ReportsFormed W (Admin_ClusterAdmin fuel container).
Proof.
  intros e w st w'. simpl. unfold Admin.State, bindE, wrapE, bind, ret.
  destruct (clusterInfo (Addr e) w) as [[[info|] w1]|]; [|done..].
  destruct (clusterNodes (Addr e) w1) as [[[raw|] w2]|]; [|done..].
  destruct (Admin.collectOpenSlots _ w2) as [[open w3]|]; [|done]. intros [= <- <-]. simpl.
  rewrite !andb_true_iff, Z.eqb_eq, Z.ltb_lt. intros [Es%String.eqb_eq ->]. by rewrite Es.
Qed.

(** ** The production [Admin] as a slot mover *)
Section Live.
Context {W : Type} `{!Redis W} `{!DataPlane W} `{!LiveRedis W} (fuel : nat) (container : string).
Context (seed : Endpoint) (server : NodeInfo) (keys : Z → gset string).
(** The seed endpoint is the host name of the server. *)
Context (Hdial : ∀ w : W, clusterNodes (Addr seed) w = clusterNodes (nodeAddr server) w ∧
  clusterInfo (Addr seed) w = clusterInfo (nodeAddr server) w).
Context (Hfuel : ∀ s, (size (keys s) < fuel)%nat).
#[local] Instance admin : ClusterAdmin W := Admin_ClusterAdmin fuel container.

(** The servers represent a keyspace with these keys in which every slot
    belongs to a primary. *)
Record liveAs (w : W) (ks : keyspace) : Prop := {
  sv_represents : represents w ks;
  sv_server : master w server;
  sv_covered s : 0 ≤ s < TotalSlots → ∃ m, master w m ∧ owner ks s = nID m;
  sv_keys s : data ks s = keys s
}.

Lemma collect_reads nodes (w : W) : ∃ open, Admin.collectOpenSlots nodes w = Some (open, w).
Proof.
  induction nodes as [|n nodes [open IH]]; simpl; [by eexists|]. destruct (skipped n); [by eexists|].
  unfold bind. destruct (nodes_read (nodeAddr n) w) as [r E]. rewrite E, IH. by eexists.
Qed.

Lemma State_live w ks : liveAs w ks →
  ∃ st, Admin.State seed w = Some (Ok st, w) ∧ csNodes st = map lnNode (linesAt w (nodeAddr server)).
Proof.
  intros [R Hs _ _]. destruct (h_reach _ (rp_healthy _ _ R) server Hs) as [Hr _].
  destruct (live_info (nodeAddr server) w Hr) as [info Ei]. destruct (live_nodes (nodeAddr server) w Hr) as (En & Hwf & _).
  destruct (Hdial w) as [Dn Di].
  destruct (collect_reads (map lnNode (linesAt w (nodeAddr server))) w) as [open Eo].
  eexists. split; [unfold Admin.State, bindE, wrapE, bind, ret; rewrite Di, Ei, Dn, En, parseNodes_render, Eo by done; reflexivity|done].
Qed.

(** The nodes of the state are the peers, each with its slots. *)
Section Shown.
Context (w : W) (ks : keyspace) (st : ClusterState) (Hsv : liveAs w ks).
Context (Hst : csNodes st = map lnNode (linesAt w (nodeAddr server))).

Lemma shown_ids : NoDup (map nID (csNodes st)).
Proof.
  destruct Hsv as [R Hs _ _]. pose proof (h_ids _ (rp_healthy _ _ R)) as Hnd.
  destruct (live_nodes (nodeAddr server) w) as (_ & _ & Hp); [by apply (h_reach _ (rp_healthy _ _ R))|].
  rewrite <- Hp, map_map in Hnd. by rewrite Hst, map_map.
Qed.

Lemma shown_count n : n ∈ csNodes st → SlotCount n = held ks (nID n).
Proof.
  destruct Hsv as [R Hs _ _]. pose proof (rp_healthy _ _ R) as Hh. rewrite Hst. intros Hn.
  destruct (slots_read w server Hh Hs ks n R Hn) as [Hnd Hin]. rewrite <- (length_ownedSlots ks (nID n) _ Hnd Hin).
  symmetry. apply slotsOfRanges_count. apply list_elem_of_fmap in Hn as (l & -> & Hl).
  destruct (live_nodes (nodeAddr server) w) as (_ & Hwf & _); [by apply (h_reach _ Hh)|].
  rewrite Forall_forall in Hwf. eapply Forall_impl; [apply (wf_slots _ (Hwf l Hl))|].
  intros r Hr. unfold range_wf, rangeCount in *. lia.
Qed.

(** Only primaries own slots. *)
Lemma held_master id : 0 < held ks id → ∃ m, master w m ∧ nID m = id.
Proof. intros (s & Hs & <-)%held_pos. destruct (sv_covered _ _ Hsv s Hs) as (m & Hm & ->). by exists m. Qed.

Lemma held_nonneg id : 0 ≤ held ks id.
Proof. unfold held. lia. Qed.

Lemma state_reports : reports st (held ks).
Proof.
  pose proof (rp_healthy _ _ (sv_represents _ _ Hsv)) as Hh. pose proof (sv_server _ _ Hsv) as Hs. split.
  - intros id. unfold nodeAt. destruct (byID st !! id) as [n|] eqn:E; simpl.
    + apply byID_sound in E as [Hn <-]. by apply shown_count.
    + change (SlotCount NodeInfo_zero) with 0. destruct (decide (0 < held ks id)) as [Hpos|]; [|pose proof (held_nonneg id); lia].
      exfalso. destruct (held_master id Hpos) as (m & [Hm _] & <-).
      destruct (lastByID_peer w server Hh Hs m Hm) as (m' & _ & Hin & Eq). rewrite <- Hst in Hin.
      pose proof (byID_complete st m' shown_ids Hin) as Hl. pose proof (f_equal nID Eq) as Ei. simpl in Ei. congruence.
  - intros id n [Hn <-]%byID_sound Hp. rewrite shown_count by done.
    destruct (decide (0 < held ks (nID n))) as [Hpos|]; [|pose proof (held_nonneg (nID n)); lia].
    exfalso. destruct (held_master (nID n) Hpos) as (m & [Hm Hpm] & Hid). rewrite Hst in Hn.
    pose proof (h_peer w m n Hh Hm (node_peer w server Hh Hs n Hn) Hid) as Eq. apply (f_equal IsPrimary) in Eq.
    change (IsPrimary m = IsPrimary n) in Eq. congruence.
Qed.

Lemma held_balanced : balanced (held ks).
Proof.
  pose proof (rp_healthy _ _ (sv_represents _ _ Hsv)) as Hh. pose proof (sv_server _ _ Hsv) as Hs. constructor.
  - apply held_nonneg.
  - destruct (decide (0 < held ks "")) as [Hpos|]; [|pose proof (held_nonneg ""); lia]. exfalso.
    destruct (held_master "" Hpos) as (m & [Hm _] & Hid).
    destruct (lastByID_peer w server Hh Hs m Hm) as (m' & _ & (l & -> & Hl)%list_elem_of_fmap & Eq).
    destruct (live_nodes (nodeAddr server) w) as (_ & Hwf & _); [by apply (h_reach _ Hh)|].
    rewrite Forall_forall in Hwf. pose proof (wf_id _ (Hwf l Hl)) as Hw. pose proof (f_equal nID Eq) as Ei. simpl in Ei.
    rewrite Ei, Hid in Hw. done.
  - intros id (s & Hsr & Hne)%held_total. exists (owner ks s). split; [done|]. apply held_pos. eauto.
Qed.
End Shown.

#[refine] Instance Admin_SlotMover : SlotMover W seed := {|
  keeps w L := ∃ ks, liveAs w ks ∧ held ks ≡ L;
  target w id := ∃ m, master w m ∧ nID m = id;
  steady := sameMembers
|}.
Proof.
  - intros w w' id M (m & Hm & ?). exists m. split; [by apply (sameMembers_master w)|done].
  - intros w L (ks & Hsv & HL). rewrite <- HL. by apply (held_balanced w).
  - intros w L id (ks & Hsv & HL) Hpos. apply (held_master w ks Hsv). by rewrite HL.
  - intros w L (ks & Hsv & HL). destruct (State_live w ks Hsv) as (st & E & Hst). exists st. split; [exact E|].
    destruct (state_reports w ks st Hsv Hst) as [H1 H2]. split; [|done]. intros id. by rewrite H1, HL.
  - intros w L from to n (ks & Hsv & HL) Hne Hpos (mt & Hmt & <-) Hn. rewrite <- (HL from) in Hpos |- *.
    destruct (held_master w ks Hsv from Hpos) as (mf & Hmf & <-). destruct Hsv as [R Hs Hcov Hk].
    destruct (MoveSlots_live fuel seed server mf mt n w ks) as (S & w' & E & M & Hnd & HS & Hlen & R');
      [done|done|apply Hdial|done|done|done|done|intros s; by rewrite Hk|].
    exists w'. rewrite <- Hlen. split; [exact E|]. split.
    + exists (give (nID mt) S ks). split; [|rewrite held_give by done; by apply moveCount_proper].
      constructor; [done|by apply (sameMembers_master w)| |done]. intros s Hr. simpl.
      destruct (bool_decide_reflect (s ∈ S)); [exists mt; split; [by apply (sameMembers_master w)|done]|].
      destruct (Hcov s Hr) as (m & Hm & ?). exists m. split; [by apply (sameMembers_master w)|done].
    + done.
Defined.
End Live.

(** C13: scale-out on live servers.  When the servers represent a keyspace in
    which every slot belongs to a primary, filling a new shard through the
    production [Admin] succeeds: the new primary ends up with exactly [share]
    slots (or what it had, if more), no other node gains one, every slot still
    belongs to a primary, and every key of every slot is still there, on the
    owner of its slot. *)
Theorem fill_shard_on_servers {W : Type} `{!Redis W} `{!DataPlane W} `{!LiveRedis W} (fuel : nat) (container : string)
    (cr : ValkeyCluster) (server new : NodeInfo) (i share : Z) (k : KubeWorld) (w : W) (ks : keyspace) :
  0 ≤ share ≤ TotalSlots →
  (∀ w : W, clusterNodes (Addr (seed cr)) w = clusterNodes (nodeAddr server) w ∧
    clusterInfo (Addr (seed cr)) w = clusterInfo (nodeAddr server) w) →
  clusterMyID (Addr (endpoint cr i 0)) w = Some (Ok (nID new), w) → nID new ≠ "" → master w new →
  liveAs server (data ks) w ks → (∀ s, (size (data ks s) < fuel)%nat) →
  ∃ w' ks', @fillShard (KubeWorld * W) server_Platform (@right_ClusterAdmin W (Admin_ClusterAdmin fuel container))
      cr share i (k, w) = Some (Ok tt, (k, w')) ∧
    liveAs server (data ks) w' ks' ∧ held ks' (nID new) = Z.max share (held ks (nID new)) ∧
    ∀ o, o ≠ nID new → held ks' o ≤ held ks o.
Proof.
  intros Hshare Hdial Hmy Hid Hnew Hsv Hfuel.
  destruct (@fillShard_fills W (Admin_ClusterAdmin fuel container) cr
    (Admin_SlotMover fuel container (seed cr) server (data ks) Hdial Hfuel) i (nID new) share k Hshare w (held ks))
    as (w' & L' & E & (ks' & Hsv' & HL) & Hmax & Hle); [by exists ks|by exists new|done|exact Hmy|].
  exists w', ks'. split; [exact E|]. split; [done|]. split; [by rewrite HL|]. intros o Ho. rewrite HL. by apply Hle.
Qed.

(** C14: scale-in on live servers drains.  Let a departing shard have one pod
    that owns slots, on healthy servers whose seed and pods answer.  After as
    many visits of [scaleIn] through the production [Admin] as its slots make
    batches of [drainBatchSlots], each of which succeeds and deletes nothing,
    the departing pod owns no slot, only shard 0 has gained any, every slot
    still belongs to a primary, and every key of every slot is still there, on
    the owner of its slot. *)
Theorem drain_on_servers {W : Type} `{!Redis W} `{!DataPlane W} `{!LiveRedis W} (fuel : nat) (container : string)
    (cr : ValkeyCluster) (server : NodeInfo) (podNode : Z → Z → NodeInfo) (i j0 : Z) (k : KubeWorld) (w : W) (ks : keyspace) :
  0 < crShards cr →
  (∀ w : W, clusterNodes (Addr (seed cr)) w = clusterNodes (nodeAddr server) w ∧
    clusterInfo (Addr (seed cr)) w = clusterInfo (nodeAddr server) w) →
  (∀ (w : W) s j, clusterMyID (Addr (endpoint cr s j)) w = clusterMyID (nodeAddr (podNode s j)) w) →
  (∀ s j, s = 0 ∨ s = i → 0 ≤ j ≤ crReplicas cr →
    set_nSlots [] (podNode s j) ∈ peers w ∧ reachable w (nodeAddr (podNode s j))) →
  (∀ j j', 0 ≤ j ≤ crReplicas cr → 0 ≤ j' ≤ crReplicas cr → nID (podNode i j) ≠ nID (podNode 0 j')) →
  0 ≤ j0 ≤ crReplicas cr → (∀ j, 0 ≤ j ≤ crReplicas cr → 0 < held ks (nID (podNode i j)) → j = j0) →
  (∃ j, 0 ≤ j ≤ crReplicas cr ∧ 0 < held ks (nID (podNode 0 j))) →
  liveAs server (data ks) w ks → (∀ s, (size (data ks s) < fuel)%nat) →
  ∃ w' ks', @drainVisits W (Admin_ClusterAdmin fuel container) cr i
      (Z.to_nat (batches (held ks (nID (podNode i j0))))) (k, w) = Some (Ok false, (k, w')) ∧
    liveAs server (data ks) w' ks' ∧ held ks' (nID (podNode i j0)) = 0 ∧
    ∀ o, o ≠ nID (podNode i j0) → (∀ j, 0 ≤ j ≤ crReplicas cr → o ≠ nID (podNode 0 j)) → held ks' o = held ks o.
Proof.
  intros Hs Hdial Hpod Hpeer Hdisj Hj0 Hu H0 Hsv Hfuel.
  assert (∀ w' : W, sameMembers w w' →
    @answering W (Admin_ClusterAdmin fuel container) cr i (λ s j, nID (podNode s j)) w') as Hans.
  { intros w' [Mp Mr] s j Hsh Hj. destruct (Hpeer s j Hsh Hj) as [Hin Hr].
    change (clusterMyID (Addr (endpoint cr s j)) w' = Some (Ok (nID (podNode s j)), w')). rewrite Hpod.
    apply (live_myID (set_nSlots [] (podNode s j))); [by rewrite Mp|by apply Mr]. }
  destruct (@drainVisits_empty W (Admin_ClusterAdmin fuel container) cr
    (Admin_SlotMover fuel container (seed cr) server (data ks) Hdial Hfuel) k Hs i (λ s j, nID (podNode s j)) Hdisj
    (sameMembers w) (Z.to_nat (batches (held ks (nID (podNode i j0))))) w (held ks) j0)
    as (w' & L' & E & _ & (ks' & Hsv' & HL) & Hz & Hrest); [exact Hans|intros ? ? ? ?; by etrans|by exists ks|done|done|done|done| |].
  - pose proof (batches_nonneg (held ks (nID (podNode i j0))) (held_nonneg ks _)). lia.
  - exists w', ks'. split; [exact E|]. split; [done|]. split; [by rewrite HL|]. intros o Ho1 Ho2. rewrite HL. by apply Hrest.
Qed.

(** ** Two shards

    The pods of shard 0 and shard 1 are masters; the one of shard 0 holds a key
    of slot 3. *)
Definition growCR : ValkeyCluster := sampleCR "grow" 2 0.
Definition growAddr (i : Z) : string := Addr (endpoint growCR i 0).
Definition growPod (i j : Z) : NodeInfo :=
  mkNode (Addr (endpoint growCR i j)) (PodFQDN growCR i j) (PodFQDN growCR i j) 6379 ["master"] "" [] true.
Definition growNode (i : Z) : NodeInfo := growPod i 0.
Definition growKeys (s : Z) : gset string := if s =? 3 then {["foo"]} else ∅.

(** Both servers have been told that shard 0 owns the slots [S0] and shard 1
    the slots [S1]. *)
Definition toBoth (S : list Z) : gset (string * Z) := list_to_set (map (pair (growAddr 0)) S ++ map (pair (growAddr 1)) S).
Definition growing (S0 S1 : list Z) : Live :=
  mkLive (mkServers "" (<[growAddr 0 := ""]> (<[growAddr 1 := ""]> ∅)) (<[growAddr 0 := {["foo"]}]> ∅)
    (gset_to_gmap (growAddr 0) (toBoth S0) ∪ gset_to_gmap (growAddr 1) (toBoth S1))) [growNode 0; growNode 1].
Definition growSpace (S0 S1 : list Z) : keyspace :=
  mkKeyspace (λ s, if bool_decide (s ∈ S0) then growAddr 0 else if bool_decide (s ∈ S1) then growAddr 1 else "") growKeys.

Section Growing.
Context (S0 S1 : list Z).

Lemma growing_master m : master (growing S0 S1) m ↔ set_nSlots [] m = growNode 0 ∨ set_nSlots [] m = growNode 1.
Proof.
  unfold master. change (peers (growing S0 S1)) with [growNode 0; growNode 1]. rewrite !elem_of_cons, elem_of_nil. split; [tauto|].
  intros [E|E]; (split; [tauto|]); exact (f_equal IsPrimary E).
Qed.

Lemma growing_addr m : master (growing S0 S1) m → ∃ i, (i = 0 ∨ i = 1) ∧ nodeAddr m = growAddr i ∧ nID m = growAddr i.
Proof.
  intros [E|E]%growing_master; [exists 0|exists 1]; (split; [auto|]);
    (split; [exact (f_equal nodeAddr E)|exact (f_equal nID E)]).
Qed.

Lemma toBoth_lookup i s x S : i = 0 ∨ i = 1 →
  (gset_to_gmap x (toBoth S) : gmap (string * Z) string) !! (growAddr i, s) = if bool_decide (s ∈ S) then Some x else None.
Proof.
  intros Hi. rewrite lookup_gset_to_gmap.
  assert ((growAddr i, s) ∈ toBoth S ↔ s ∈ S) as Hin.
  { unfold toBoth. rewrite elem_of_list_to_set, elem_of_app, !list_elem_of_fmap. split; [by intros [(? & [= _ <-] & ?)|(? & [= _ <-] & ?)]|].
    intros Hs. destruct Hi as [-> | ->]; [left|right]; by exists s. }
  destruct (decide (s ∈ S)) as [Hs|Hs].
  - rewrite option_guard_True by (by apply Hin). by rewrite bool_decide_eq_true_2.
  - rewrite option_guard_False by (by rewrite Hin). by rewrite bool_decide_eq_false_2.
Qed.

Lemma growing_told i s : i = 0 ∨ i = 1 → ownerAt (growing S0 S1) (growAddr i) s = owner (growSpace S0 S1) s.
Proof.
  intros Hi. change (ownerAt (growing S0 S1) (growAddr i) s)
    with (default "" ((gset_to_gmap (growAddr 0) (toBoth S0) ∪ gset_to_gmap (growAddr 1) (toBoth S1)
      : gmap (string * Z) string) !! (growAddr i, s))).
  rewrite lookup_union, !toBoth_lookup by done. unfold growSpace. simpl. by repeat destruct (bool_decide _).
Qed.

Context (H3 : 3 ∈ S0).

Lemma growing_reachable i : i = 0 ∨ i = 1 → reachable (growing S0 S1) (growAddr i).
Proof.
  intros Hi. split; [by destruct Hi as [-> | ->]|]. split; [|apply (bool_decide_unpack _); by vm_compute].
  repeat (constructor; [constructor; try done; try (by repeat constructor); by left|]). constructor.
Qed.

Lemma growing_represents : represents (growing S0 S1) (growSpace S0 S1).
Proof.
  constructor; [constructor|..].
  - apply (bool_decide_unpack _). by vm_compute.
  - intros m Hm. split; [destruct (growing_addr m Hm) as (i & Hi & -> & _); by apply growing_reachable|].
    intros E. apply growing_master in Hm as [H|H]; apply (f_equal nIP) in H; simpl in H; rewrite E in H; done.
  - intros m m' Hm Hm' E. destruct (growing_addr m Hm) as (i & _ & ? & ?), (growing_addr m' Hm') as (i' & _ & ? & ?). congruence.
  - intros m s Hm. destruct (growing_addr m Hm) as (i & Hi & -> & _). by apply growing_told.
  - intros m s Hm. change (keysAt (growing S0 S1)) with (slotKeys (lvServers (growing S0 S1))). unfold slotKeys.
    assert (∀ k : string, k ∈ ({["foo"]} : gset string) → hashSlot k = 3) as Hk by (intros k ->%elem_of_singleton; reflexivity).
    destruct (growing_addr m Hm) as (i & Hi & -> & ->). unfold growSpace, growKeys. simpl. apply set_eq. intros k. rewrite elem_of_filter.
    destruct (Z.eqb_spec s 3) as [->|Hne].
    + rewrite bool_decide_eq_true_2 by done. destruct Hi as [-> | ->].
      * change (storeOf _ _) with ({["foo"]} : gset string). rewrite decide_True by done. naive_solver.
      * change (storeOf _ _) with (∅ : gset string). rewrite decide_False by done. set_solver.
    + transitivity (k ∈ (∅ : gset string)); [|by destruct (decide _)]. split; [|set_solver]. intros [Eh Hin]. exfalso.
      destruct Hi as [-> | ->]; [change (storeOf _ _) with ({["foo"]} : gset string) in Hin; apply Hk in Hin; congruence|].
      change (storeOf _ _) with (∅ : gset string) in Hin. set_solver.
Qed.

Lemma growing_live : (∀ s, 0 ≤ s < TotalSlots → s ∈ S0 ∨ s ∈ S1) →
  liveAs (growNode 0) growKeys (growing S0 S1) (growSpace S0 S1).
Proof.
  intros HS. constructor; [by apply growing_represents|apply growing_master; by left| |done].
  intros s Hs. unfold growSpace. simpl. destruct (bool_decide_reflect (s ∈ S0)) as [|Hn].
  - exists (growNode 0). split; [apply growing_master; by left|done].
  - destruct (HS s Hs) as [|Hin]; [done|]. rewrite bool_decide_eq_true_2 by done.
    exists (growNode 1). split; [apply growing_master; by right|done].
Qed.
End Growing.

Lemma elem_of_slots a n s : s ∈ seqZ a n ↔ a ≤ s < a + n.
Proof. apply elem_of_seqZ. Qed.

(** Shard 1 is new. *)
Lemma fill_shard_on_servers_witness :
  ∃ w' ks', @fillShard (KubeWorld * Live) server_Platform (@right_ClusterAdmin Live (Admin_ClusterAdmin 2 "valkey"))
      growCR 8192 1 (emptyKube, growing (seqZ 0 TotalSlots) []) = Some (Ok tt, (emptyKube, w')) ∧
    liveAs (growNode 0) growKeys w' ks' ∧
    held ks' (growAddr 1) = Z.max 8192 (held (growSpace (seqZ 0 TotalSlots) []) (growAddr 1)) ∧
    ∀ o, o ≠ growAddr 1 → held ks' o ≤ held (growSpace (seqZ 0 TotalSlots) []) o.
Proof.
  apply (fill_shard_on_servers 2 "valkey" growCR (growNode 0) (growNode 1) 1 8192 emptyKube
    (growing (seqZ 0 TotalSlots) []) (growSpace (seqZ 0 TotalSlots) [])).
  - split; discriminate.
  - intros w. split; reflexivity.
  - reflexivity.
  - discriminate.
  - apply growing_master. by right.
  - apply growing_live; [apply elem_of_slots; done|]. intros s Hs. left. apply elem_of_slots. lia.
  - intros s. simpl. unfold growKeys. destruct (s =? 3); vm_compute; lia.
Defined.

(** Shard 1 owns half of the slots and goes. *)
Lemma drain_on_servers_witness :
  let w := growing (seqZ 0 8192) (seqZ 8192 8192) in
  let ks := growSpace (seqZ 0 8192) (seqZ 8192 8192) in
  ∃ w' ks', @drainVisits Live (Admin_ClusterAdmin 2 "valkey") (sampleCR "grow" 1 0) 1
      (Z.to_nat (batches (held ks (growAddr 1)))) (emptyKube, w) = Some (Ok false, (emptyKube, w')) ∧
    liveAs (growNode 0) growKeys w' ks' ∧ held ks' (growAddr 1) = 0 ∧
    ∀ o, o ≠ growAddr 1 → (∀ j, 0 ≤ j ≤ 0 → o ≠ nID (growPod 0 j)) → held ks' o = held ks o.
Proof.
  intros w ks. assert (∀ j, 0 ≤ j ≤ crReplicas (sampleCR "grow" 1 0) → j = 0) as Hj
    by (intros j; change (crReplicas (sampleCR "grow" 1 0)) with 0; lia).
  apply (drain_on_servers 2 "valkey" (sampleCR "grow" 1 0) (growNode 0) growPod 1 0 emptyKube w ks).
  - reflexivity.
  - intros w'. split; reflexivity.
  - intros w' s j. reflexivity.
  - intros s j Hs ->%Hj. split; [|by apply growing_reachable].
    destruct Hs as [-> | ->]; [apply (growing_master (seqZ 0 8192) (seqZ 8192 8192) (growNode 0)); by left|].
    apply (growing_master (seqZ 0 8192) (seqZ 8192 8192) (growNode 1)). by right.
  - intros j j' ->%Hj ->%Hj. discriminate.
  - by vm_compute.
  - intros j Hj0 _. by apply Hj.
  - exists 0. split; [by vm_compute|]. apply held_pos. exists 0. split; [by vm_compute|].
    unfold ks, growSpace. cbn [owner]. rewrite bool_decide_eq_true_2; [done|]. by apply elem_of_slots.
  - apply growing_live; [by apply elem_of_slots|]. unfold TotalSlots. intros s Hs. rewrite !elem_of_slots. lia.
  - intros s. simpl. unfold growKeys. destruct (s =? 3); vm_compute; lia.
Defined.
