(* ===== verification/PodExec.v ===== *)
(** * Commands in pods

    Models [internal/cluster/exec.go]: a command is run in a container through
    the exec subresource of the API server.  client-go and its SPDY transport
    are not part of the repository: class [ClientGo].  [asClusterAdmin] is the
    [Admin] of the operator, whose valkey-cli commands go through [Exec]. *)

From S2P Require Import Prelude GoStrings Cluster Slots ClusterNodes GoRedis RedisBed.
Local Open Scope string_scope.
Local Open Scope list_scope.
Local Open Scope Z_scope.

(** The part of [corev1.PodExecOptions] that is set. *)
Record PodExecOptions := mkExecOptions {
  eoContainer : string; eoCommand : list string; eoStdout : bool; eoStderr : bool }.

(** The request that the builder chain describes. *)
Record ExecRequest := mkExecRequest {
  erVerb : string; erResource : string; erName : string; erNamespace : string; erSubResource : string;
  erOptions : PodExecOptions }.

Class ClientGo (W : Type) := {
  restConfig : Type;
  clientset : Type;
  spdyExecutor : Type;
  (** [kubernetes.NewForConfig] *)
  NewForConfig : restConfig → M W (result clientset);
  (** [req.URL()] *)
  requestURL : clientset → ExecRequest → string;
  (** [remotecommand.NewSPDYExecutor(cfg, method, url)] *)
  NewSPDYExecutor : restConfig → string → string → M W (result spdyExecutor);
  (** [exec.StreamWithContext]: what it wrote to stdout and stderr, and its error *)
  StreamWithContext : spdyExecutor → M W (string * string * option error)
}.

Section Exec.
Context {W : Type} `{!ClientGo W}.

Record PodExec := mkPodExec { peCfg : restConfig; peClientset : clientset }.

Definition NewPodExec (cfg : restConfig) : M W (result PodExec) :=
  cs <-? NewForConfig cfg ;; ret (Ok (mkPodExec cfg cs)).

Definition execRequest (namespace pod container : string) (command : list string) : ExecRequest :=
  mkExecRequest "POST" "pods" pod namespace "exec" (mkExecOptions container command true true).

(** [%v] of a string slice. *)
Definition showSlice (l : list string) : string := "[" +:+ Join l " " +:+ "]".

Definition Exec (p : PodExec) (namespace pod container : string) (command : list string) :
    M W (string * option error) :=
  r <- NewSPDYExecutor (peCfg p) "POST" (requestURL (peClientset p) (execRequest namespace pod container command)) ;;
  match r with
  | Err e => ret ("", Some e)
  | Ok exec =>
      s <- StreamWithContext exec ;;
      let '(stdout, stderr, err) := s in
      match err with
      | Some e => ret (stdout, Some (ErrWrapAround
                    ("exec " +:+ showSlice command +:+ " in " +:+ namespace +:+ "/" +:+ pod) e stderr))
      | None => ret (stdout, None)
      end
  end.

(** A [PodExec] as the [PodExecutor] of an [Admin], whose methods drop the
    output when there is an error. *)
Definition asExecutor (p : PodExec) (namespace pod container : string) (command : list string) : M W (result string) :=
  r <- Exec p namespace pod container command ;;
  ret match snd r with Some e => Err e | None => Ok (fst r) end.

Definition withPodExec (R : Redis W) (p : PodExec) : Redis W := {|
  clusterInfo := clusterInfo; clusterNodes := clusterNodes; clusterMyID := clusterMyID; clusterMeet := clusterMeet;
  clusterAddSlotsRange := clusterAddSlotsRange; clusterReplicate := clusterReplicate; clusterForget := clusterForget;
  clusterFailover := clusterFailover; clusterGetKeysInSlot := clusterGetKeysInSlot; clusterSetSlot := clusterSetSlot;
  migrateKeys := migrateKeys; migrateKey := migrateKey; parseIP := parseIP; lookupHost := lookupHost;
  podExec := asExecutor p; slotRange := slotRange |}.

(** The struct [Admin], [NewAdmin(exec, container)], and the interface it implements. *)
Record AdminStruct := mkAdmin { adExec : PodExec; adContainer : string }.

Definition NewAdmin (exec : PodExec) (container : string) : AdminStruct := mkAdmin exec container.

Definition asClusterAdmin (R : Redis W) (fuel : nat) (a : AdminStruct) : ClusterAdmin W :=
  @Admin_ClusterAdmin W (withPodExec R (adExec a)) fuel (adContainer a).

(** The executor for a command in the pod of an endpoint. *)
Definition executorFor (a : AdminStruct) (e : Endpoint) (command : list string) : M W (result spdyExecutor) :=
  NewSPDYExecutor (peCfg (adExec a)) "POST"
    (requestURL (peClientset (adExec a)) (execRequest (epNamespace e) (epPodName e) (adContainer a) command)).

(** A command of which only the error is used, by the outcome of its executor
    and of its stream. *)
Lemma exec_outcomes (a : AdminStruct) (e : Endpoint) (command : list string) (w w1 : W) :
  let m := _ <-? asExecutor (adExec a) (epNamespace e) (epPodName e) (adContainer a) command ;; ret (Ok tt) in
  (∀ err, executorFor a e command w = Some (Err err, w1) → m w = Some (Err err, w1)) ∧
  (∀ ex out errout r w2, executorFor a e command w = Some (Ok ex, w1) →
     StreamWithContext ex w1 = Some ((out, errout, r), w2) →
     m w = Some (match r with
                 | None => Ok tt
                 | Some err => Err (ErrWrapAround ("exec " +:+ showSlice command +:+ " in " +:+ epNamespace e +:+ "/"
                                 +:+ epPodName e) err errout)
                 end, w2)).
Proof.
  unfold executorFor, asExecutor, Exec, bindE, bind. split.
  - intros err ->. done.
  - intros ex out errout r w2 -> ->. by destruct r.
Qed.

End Exec.

(** C31: a failed valkey-cli command is reported, and a successful one is not.
    [Fix], [Rebalance] and [Reshard] of the operator's [Admin] run their command
    in the named container of the pod of the seed endpoint.  When the executor
    of the request cannot be made, the method returns that error as it is;
    otherwise it succeeds exactly when the remote process did, and a failure
    wraps the cause and carries the command, the pod and all that was written
    to stderr.  Only [Reshard] of no slots or fewer runs nothing: it succeeds
    and leaves the world as it was. *)
Theorem cli_failure_reported {W : Type} `{!ClientGo W} (R : Redis W) (a : AdminStruct) (fuel : nat)
    (seed : Endpoint) (opts : RebalanceOpts) (from to : string) (n : Z) :
  let I := asClusterAdmin R fuel a in
  (∀ w, n ≤ 0 → @Reshard W I seed from to n w = Some (Ok tt, w)) ∧
  (∀ m args,
     (m, args) = (@Fix W I seed, fixArgs (epPort seed)) ∨
     (m, args) = (@Rebalance W I seed opts, rebalanceArgs (epPort seed) opts) ∨
     (0 < n ∧ (m, args) = (@Reshard W I seed from to n, reshardArgs (epPort seed) from to n)) →
   ∀ w w1,
     (∀ err, executorFor a seed args w = Some (Err err, w1) → m w = Some (Err err, w1)) ∧
     (∀ ex out errout r w2, executorFor a seed args w = Some (Ok ex, w1) →
        StreamWithContext ex w1 = Some ((out, errout, r), w2) →
        m w = Some (match r with
                    | None => Ok tt
                    | Some err => Err (ErrWrapAround ("exec " +:+ showSlice args +:+ " in " +:+ epNamespace seed
                                    +:+ "/" +:+ epPodName seed) err errout)
                    end, w2))).
Proof.
  intros I. split.
  - intros w Hn. simpl. unfold Admin.Reshard. by rewrite (proj2 (Z.leb_le n 0)).
  - intros m args [[= -> ->]|[[= -> ->]|[Hn [= -> ->]]]] w w1.
    + apply (exec_outcomes a seed (fixArgs (epPort seed))).
    + apply (exec_outcomes a seed (rebalanceArgs (epPort seed) opts)).
    + simpl. unfold Admin.Reshard. rewrite (proj2 (Z.leb_gt n 0)) by done.
      apply (exec_outcomes a seed (reshardArgs (epPort seed) from to n)).
Qed.

(** An API server whose exec requests reach a process that fails. *)
Definition failingClient : ClientGo Servers := {|
  restConfig := unit;
  clientset := unit;
  spdyExecutor := string;
  NewForConfig _ := ret (Ok tt);
  requestURL _ r := "/api/v1/namespaces/" +:+ erNamespace r +:+ "/pods/" +:+ erName r +:+ "/exec";
  NewSPDYExecutor _ _ url := ret (Ok url);
  StreamWithContext url := ret ("checking", "slot 7 is open", Some (ErrText "exit code 1"))
|}.

Lemma cli_failure_reported_witness :
  let w := mkServers "" ∅ ∅ ∅ in
  let seed := mkEndpoint "pair-shard-0-0" 6379 "pair-shard-0-0" "ns" in
  let a := @NewAdmin Servers failingClient (@mkPodExec Servers failingClient tt tt) "valkey" in
  let I := @asClusterAdmin Servers failingClient Servers_Redis 0 a in
  (∃ e, @Fix Servers I seed w = Some (Err e, w) ∧
    e = ErrWrapAround "exec [valkey-cli --cluster fix 127.0.0.1:6379 --cluster-yes --cluster-timeout 10000] in ns/pair-shard-0-0"
          (ErrText "exit code 1") "slot 7 is open") ∧
  @Reshard Servers I seed "a" "b" 0 w = Some (Ok tt, w).
Proof.
  intros w seed a I.
  destruct (@cli_failure_reported Servers failingClient Servers_Redis a 0 seed (mkRebalanceOpts false []) "a" "b" 0)
    as [Hzero Hrun].
  split; [|apply Hzero; done]. eexists. split.
  - apply (proj2 (Hrun _ _ (or_introl eq_refl) w w) "/api/v1/namespaces/ns/pods/pair-shard-0-0/exec" "checking"
      "slot 7 is open" (Some (ErrText "exit code 1")) w); reflexivity.
  - vm_compute. reflexivity.
Defined.
