(* ===== verification/Main.v ===== *)
(** * The manager process

    Models [cmd/main.go], [SetupWithManager] and the registration of the API
    group ([groupversion_info.go], [init] of [valkeycluster_types.go]): the
    flags as package [flag] parses them, the options of the manager, and the
    start-up sequence with its exit codes.  controller-runtime is class
    [CtrlRuntime]; the flags that zap and controller-runtime add to the command
    line are an argument. *)

From S2P Require Import Prelude GoStrings Cluster Slots ClusterNodes GoRedis PodExec API ResourceBuilders.
From Stdlib Require Import Ascii.
Local Open Scope string_scope.
Local Open Scope list_scope.
Local Open Scope Z_scope.

(** ** Flags *)

Record Flags := mkFlags {
  metricsAddr : string;
  metricsCertPath : string; metricsCertName : string; metricsCertKey : string;
  webhookCertPath : string; webhookCertName : string; webhookCertKey : string;
  enableLeaderElection : bool;
  probeAddr : string;
  secureMetrics : bool;
  enableHTTP2 : bool
}.

Definition defaultFlags : Flags :=
  mkFlags "0" "" "tls.crt" "tls.key" "" "tls.crt" "tls.key" false ":8081" true false.

(** Assignments to the flag variables. *)
Definition set_metricsAddr v f := mkFlags v (metricsCertPath f) (metricsCertName f) (metricsCertKey f)
  (webhookCertPath f) (webhookCertName f) (webhookCertKey f) (enableLeaderElection f) (probeAddr f) (secureMetrics f) (enableHTTP2 f).
Definition set_metricsCertPath v f := mkFlags (metricsAddr f) v (metricsCertName f) (metricsCertKey f)
  (webhookCertPath f) (webhookCertName f) (webhookCertKey f) (enableLeaderElection f) (probeAddr f) (secureMetrics f) (enableHTTP2 f).
Definition set_metricsCertName v f := mkFlags (metricsAddr f) (metricsCertPath f) v (metricsCertKey f)
  (webhookCertPath f) (webhookCertName f) (webhookCertKey f) (enableLeaderElection f) (probeAddr f) (secureMetrics f) (enableHTTP2 f).
Definition set_metricsCertKey v f := mkFlags (metricsAddr f) (metricsCertPath f) (metricsCertName f) v
  (webhookCertPath f) (webhookCertName f) (webhookCertKey f) (enableLeaderElection f) (probeAddr f) (secureMetrics f) (enableHTTP2 f).
Definition set_webhookCertPath v f := mkFlags (metricsAddr f) (metricsCertPath f) (metricsCertName f) (metricsCertKey f)
  v (webhookCertName f) (webhookCertKey f) (enableLeaderElection f) (probeAddr f) (secureMetrics f) (enableHTTP2 f).
Definition set_webhookCertName v f := mkFlags (metricsAddr f) (metricsCertPath f) (metricsCertName f) (metricsCertKey f)
  (webhookCertPath f) v (webhookCertKey f) (enableLeaderElection f) (probeAddr f) (secureMetrics f) (enableHTTP2 f).
Definition set_webhookCertKey v f := mkFlags (metricsAddr f) (metricsCertPath f) (metricsCertName f) (metricsCertKey f)
  (webhookCertPath f) (webhookCertName f) v (enableLeaderElection f) (probeAddr f) (secureMetrics f) (enableHTTP2 f).
Definition set_enableLeaderElection v f := mkFlags (metricsAddr f) (metricsCertPath f) (metricsCertName f) (metricsCertKey f)
  (webhookCertPath f) (webhookCertName f) (webhookCertKey f) v (probeAddr f) (secureMetrics f) (enableHTTP2 f).
Definition set_probeAddr v f := mkFlags (metricsAddr f) (metricsCertPath f) (metricsCertName f) (metricsCertKey f)
  (webhookCertPath f) (webhookCertName f) (webhookCertKey f) (enableLeaderElection f) v (secureMetrics f) (enableHTTP2 f).
Definition set_secureMetrics v f := mkFlags (metricsAddr f) (metricsCertPath f) (metricsCertName f) (metricsCertKey f)
  (webhookCertPath f) (webhookCertName f) (webhookCertKey f) (enableLeaderElection f) (probeAddr f) v (enableHTTP2 f).
Definition set_enableHTTP2 v f := mkFlags (metricsAddr f) (metricsCertPath f) (metricsCertName f) (metricsCertKey f)
  (webhookCertPath f) (webhookCertName f) (webhookCertKey f) (enableLeaderElection f) (probeAddr f) (secureMetrics f) v.

(** A flag of a library: whether it needs no value, and its check of one. *)
Record LibFlag := mkLibFlag { lfIsBool : bool; lfCheck : string → option string }.

(** A defined flag: [StringVar], [BoolVar], or one a library has defined on the
    same flag set, with its own check of the value. *)
Inductive FlagValue :=
| StringVar (set : string → Flags → Flags)
| BoolVar (set : bool → Flags → Flags)
| LibVar (isBool : bool) (check : string → option string).

Definition ownFlags : list (string * FlagValue) := [
  ("metrics-bind-address", StringVar set_metricsAddr);
  ("health-probe-bind-address", StringVar set_probeAddr);
  ("leader-elect", BoolVar set_enableLeaderElection);
  ("metrics-secure", BoolVar set_secureMetrics);
  ("webhook-cert-path", StringVar set_webhookCertPath);
  ("webhook-cert-name", StringVar set_webhookCertName);
  ("webhook-cert-key", StringVar set_webhookCertKey);
  ("metrics-cert-path", StringVar set_metricsCertPath);
  ("metrics-cert-name", StringVar set_metricsCertName);
  ("metrics-cert-key", StringVar set_metricsCertKey);
  ("enable-http2", BoolVar set_enableHTTP2)].

(** [strconv.ParseBool] *)
Definition ParseBool (s : string) : option bool :=
  if existsb (String.eqb s) ["1"; "t"; "T"; "TRUE"; "true"; "True"] then Some true
  else if existsb (String.eqb s) ["0"; "f"; "F"; "FALSE"; "false"; "False"] then Some false
  else None.

Inductive Parsed :=
| ParsedArgs (f : Flags) (rest : list string)
| ParsedHelp
| ParsedError (msg : string).

(** The name and the value after an equals sign that is not the first byte. *)
Definition splitFlag (name : string) : string * option string :=
  match name with
  | EmptyString => (EmptyString, None)
  | String c t => let '(a, b, ok) := Cut t "=" in (String c a, if ok : bool then Some b else None)
  end.

(** What one argument is to [FlagSet.parseOne]. *)
Inductive ArgShape :=
| NotAFlag
| Terminator
| BadSyntax
| FlagArg (name : string) (value : option string).

Definition shapeOf (s : string) : ArgShape :=
  match s with
  | String "-" (String "-" EmptyString) => Terminator
  | String "-" (String c t) =>
      let name := if Ascii.eqb c "-" then t else String c t in
      match name with
      | EmptyString => BadSyntax
      | String d _ => if Ascii.eqb d "-" || Ascii.eqb d "=" then BadSyntax
                      else let '(n, v) := splitFlag name in FlagArg n v
      end
  | _ => NotAFlag
  end.

Section Parse.
Context (libFlags : list (string * LibFlag)).

Definition formal (name : string) : option FlagValue :=
  match List.find (λ p, String.eqb (fst p) name) ownFlags with
  | Some p => Some (snd p)
  | None => (λ p, LibVar (lfIsBool (snd p)) (lfCheck (snd p))) <$> List.find (λ p, String.eqb (fst p) name) libFlags
  end.

(** [FlagSet.Parse]; the texts of the errors are abbreviated. *)
Fixpoint parseFlags (args : list string) (f : Flags) : Parsed :=
  match args with
  | [] => ParsedArgs f []
  | s :: rest =>
      match shapeOf s with
      | NotAFlag => ParsedArgs f args
      | Terminator => ParsedArgs f rest
      | BadSyntax => ParsedError ("bad flag syntax: " +:+ s)
      | FlagArg name value =>
          match formal name with
          | None => if String.eqb name "help" || String.eqb name "h" then ParsedHelp
                    else ParsedError ("flag provided but not defined: -" +:+ name)
          | Some (BoolVar set) =>
              match ParseBool (default "true" value) with
              | Some b => parseFlags rest (set b f)
              | None => ParsedError ("invalid boolean value for -" +:+ name)
              end
          | Some (LibVar true check) =>
              match check (default "true" value) with
              | None => parseFlags rest f
              | Some e => ParsedError ("invalid boolean value for -" +:+ name +:+ ": " +:+ e)
              end
          | Some (StringVar set) =>
              match value, rest with
              | Some v, _ => parseFlags rest (set v f)
              | None, v :: rest' => parseFlags rest' (set v f)
              | None, [] => ParsedError ("flag needs an argument: -" +:+ name)
              end
          | Some (LibVar false check) =>
              match value, rest with
              | Some v, _ =>
                  match check v with
                  | None => parseFlags rest f
                  | Some e => ParsedError ("invalid value for flag -" +:+ name +:+ ": " +:+ e)
                  end
              | None, v :: rest' =>
                  match check v with
                  | None => parseFlags rest' f
                  | Some e => ParsedError ("invalid value for flag -" +:+ name +:+ ": " +:+ e)
                  end
              | None, [] => ParsedError ("flag needs an argument: -" +:+ name)
              end
          end
      end
  end.
End Parse.

(** ** Options *)

(** A function on a TLS configuration, of which only [NextProtos] is set. *)
Record TLSConfig := mkTLS { NextProtos : list string }.
Definition disableHTTP2 (c : TLSConfig) : TLSConfig := mkTLS ["http/1.1"].

Record ServerCerts := mkCerts { CertDir : string; CertName : string; KeyName : string }.
Definition noCerts : ServerCerts := mkCerts "" "" "".

Record WebhookOptions := mkWebhook { whTLSOpts : list (TLSConfig → TLSConfig); whCerts : ServerCerts }.
Inductive FilterProvider := NoFilter | WithAuthenticationAndAuthorization.
Record MetricsOptions := mkMetrics {
  BindAddress : string; SecureServing : bool; mTLSOpts : list (TLSConfig → TLSConfig);
  Filter : FilterProvider; mCerts : ServerCerts }.

Definition tlsOptsOf (f : Flags) : list (TLSConfig → TLSConfig) :=
  if negb (enableHTTP2 f) then [disableHTTP2] else [].
Definition webhookOptionsOf (f : Flags) : WebhookOptions :=
  mkWebhook (tlsOptsOf f)
    (if (0 <? Z.of_nat (String.length (webhookCertPath f)))
     then mkCerts (webhookCertPath f) (webhookCertName f) (webhookCertKey f) else noCerts).
Definition metricsOptionsOf (f : Flags) : MetricsOptions :=
  mkMetrics (metricsAddr f) (secureMetrics f) (tlsOptsOf f)
    (if secureMetrics f then WithAuthenticationAndAuthorization else NoFilter)
    (if (0 <? Z.of_nat (String.length (metricsCertPath f)))
     then mkCerts (metricsCertPath f) (metricsCertName f) (metricsCertKey f) else noCerts).

(** *** The scheme: the kinds it knows, as (group, version, kind) *)

Definition GVK : Type := string * string * string.
Definition SchemeGroupVersion : string * string := ("cache.razkevich.dev", "v1alpha1").

(** What a function of a [SchemeBuilder] adds. *)
Definition baseRegistration (metaKinds : list string) : list GVK :=
  map (λ k, (SchemeGroupVersion, k)) metaKinds.
Definition typesRegistration : list GVK :=
  map (λ k, (SchemeGroupVersion, k)) ["ValkeyCluster"; "ValkeyClusterList"].

(** [SchemeBuilder.AddToScheme], after the [init] that registers the types. *)
Definition AddToScheme (metaKinds : list string) (scheme : gset GVK) : gset GVK :=
  fold_left (λ s reg, list_to_set reg ∪ s) [baseRegistration metaKinds; typesRegistration] scheme.

(** [init] of package main, from what client-go registers. *)
Definition managerScheme (clientGoKinds : list GVK) (metaKinds : list string) : gset GVK :=
  AddToScheme metaKinds (list_to_set clientGoKinds).

Record ManagerOptions := mkManagerOptions {
  Scheme : gset GVK; Metrics : MetricsOptions; Webhook : WebhookOptions; HealthProbeBindAddress : string;
  LeaderElection : bool; LeaderElectionID : string }.

Definition managerOptionsOf (scheme : gset GVK) (f : Flags) : ManagerOptions :=
  mkManagerOptions scheme (metricsOptionsOf f) (webhookOptionsOf f) (probeAddr f)
    (enableLeaderElection f) "75190610.razkevich.dev".

(** ** Start-up *)

(** What [SetupWithManager] declares to the builder. *)
Record ControllerSpec := mkController { ctlFor : GVK; ctlOwns : list GVK; ctlName : string }.

Definition controllerSpec : ControllerSpec :=
  mkController (SchemeGroupVersion, "ValkeyCluster")
    [("apps", "v1", "StatefulSet"); ("", "v1", "Service"); ("", "v1", "ConfigMap")]
    "valkeycluster".

(** The reconciler: the client and the scheme of the manager, and the [Admin]. *)
Record ValkeyClusterReconciler (client scheme admin : Type) := mkReconciler {
  rcClient : client; rcScheme : scheme; rcAdmin : admin }.
Arguments mkReconciler {_ _ _} _ _ _.
Arguments rcClient {_ _ _} _.
Arguments rcScheme {_ _ _} _.
Arguments rcAdmin {_ _ _} _.

(** How the process ends. *)
Inductive Outcome := Returned | Exited (code : Z).

Class CtrlRuntime (W : Type) `{!ClientGo W} := {
  manager : Type;
  client : Type;
  runtimeScheme : Type;
  (** [ctrl.GetConfigOrDie]: without a configuration it exits with 1 *)
  GetConfigOrDie : M W (option restConfig);
  NewManager : restConfig → ManagerOptions → M W (result manager);
  GetConfig : manager → restConfig;
  GetClient : manager → client;
  GetScheme : manager → runtimeScheme;
  (** the builder chain ending in [Complete(r)] *)
  Complete : manager → ControllerSpec → ValkeyClusterReconciler client runtimeScheme (AdminStruct (W := W)) →
    M W (result unit);
  AddHealthzCheck : manager → string → M W (result unit);
  AddReadyzCheck : manager → string → M W (result unit);
  (** [mgr.Start], which blocks until the process is asked to stop *)
  Start : manager → M W (result unit)
}.

Section Startup.
Context {W : Type} `{!ClientGo W} `{!CtrlRuntime W}.
Context (clientGoKinds : list GVK) (metaKinds : list string) (libFlags : list (string * LibFlag)).

Definition SetupWithManager (r : ValkeyClusterReconciler client runtimeScheme AdminStruct) (mgr : manager) :
    M W (result unit) :=
  Complete mgr controllerSpec r.

(** [if err := m; err != nil { setupLog.Error(...); os.Exit(1) }] *)
Definition orExit {A} (m : M W (result A)) (k : A → M W Outcome) : M W Outcome :=
  r <- m ;; match r with Ok a => k a | Err _ => ret (Exited 1) end.

Definition run (f : Flags) : M W Outcome :=
  cfg <- GetConfigOrDie ;;
  match cfg with
  | None => ret (Exited 1)
  | Some cfg =>
      orExit (NewManager cfg (managerOptionsOf (managerScheme clientGoKinds metaKinds) f)) (λ mgr,
      orExit (NewPodExec (GetConfig mgr)) (λ podExec,
      orExit (SetupWithManager (mkReconciler (GetClient mgr) (GetScheme mgr) (NewAdmin podExec "valkey")) mgr) (λ _,
      orExit (AddHealthzCheck mgr "healthz") (λ _,
      orExit (AddReadyzCheck mgr "readyz") (λ _,
      orExit (Start mgr) (λ _, ret Returned))))))
  end.

(** The flag set exits by itself: 0 for help, 2 for an error. *)
Definition main (args : list string) : M W Outcome :=
  match parseFlags libFlags args defaultFlags with
  | ParsedHelp => ret (Exited 0)
  | ParsedError _ => ret (Exited 2)
  | ParsedArgs f _ => run f
  end.
End Startup.

(** ** Flags: proofs *)

(** [s] is a flag argument that names [name], with or without a value. *)
Definition mentions (name s : string) : Prop := ∃ v, shapeOf s = FlagArg name v.

Lemma formal_cases libFlags name v :
  formal libFlags name = Some v → (name, v) ∈ ownFlags ∨ ∃ b c, v = LibVar b c.
Proof.
  unfold formal. destruct (List.find _ ownFlags) as [[n v']|] eqn:E.
  - intros [= <-]. left. apply find_some in E as [Hin Hn]. simpl in Hn.
    apply String.eqb_eq in Hn as ->. by apply list_elem_of_In.
  - destruct (List.find _ libFlags) as [[n l]|]; [|done]. intros [= <-]. eauto.
Qed.

(** What the flags other than [name] do not touch changes only if an argument
    names [name]. *)
Definition keptBy {A} (P : Flags → A) (v : FlagValue) : Prop :=
  match v with
  | StringVar set => ∀ x f, P (set x f) = P f
  | BoolVar set => ∀ x f, P (set x f) = P f
  | LibVar _ _ => True
  end.

Lemma parse_keeps {A} (P : Flags → A) name libFlags args f0 f rest :
  Forall (λ p, fst p ≠ name → keptBy P (snd p)) ownFlags →
  parseFlags libFlags args f0 = ParsedArgs f rest →
  P f = P f0 ∨ Exists (mentions name) args.
Proof.
  intros Hown. rewrite Forall_forall in Hown.
  cut (∀ n args f0, (length args ≤ n)%nat → parseFlags libFlags args f0 = ParsedArgs f rest →
    P f = P f0 ∨ Exists (mentions name) args); [by eauto|].
  induction n as [|n IH]; intros [|s args'] g Hlen; simpl in Hlen; try lia; cbn [parseFlags];
    [by intros [= <- _]; left..|].
  destruct (shapeOf s) as [| | |nm value] eqn:Es; try done; try (intros [= <- _]; by left).
  assert (∀ l g', (length l ≤ n)%nat → (∀ x, x ∈ l → x ∈ args') → P g' = P g ∨ nm = name →
    parseFlags libFlags l g' = ParsedArgs f rest → P f = P g ∨ Exists (mentions name) (s :: args')) as Hgo.
  { intros l g' Hl Hsub Hkeep Hp. destruct Hkeep as [Hkeep| ->]; [|right; left; by exists value].
    destruct (IH l g' Hl Hp) as [E|(x & Hx & Hm)%Exists_exists]; [left; congruence|].
    right. apply Exists_exists. exists x. split; [right; by apply Hsub|done]. }
  destruct (formal libFlags nm) as [v|] eqn:Ef; [|by destruct (_ || _)].
  assert (keptBy P v ∨ nm = name) as Hv.
  { destruct (decide (nm = name)); [by right|]. left.
    apply formal_cases in Ef as [Hin|(? & ? & ->)]; [exact (Hown _ Hin ltac:(done))|done]. }
  assert (∀ v' l', args' = v' :: l' → ∀ x, x ∈ l' → x ∈ args') as Htail by (intros ? ? -> ? ?; by right).
  destruct v as [set|set|isB check]; simpl in Hv.
  - destruct value as [v|]; [apply Hgo; [lia|done|destruct Hv; auto]|].
    destruct args' as [|v args'']; [done|]. apply Hgo; [simpl in *; lia|by eapply Htail|destruct Hv; auto].
  - destruct (ParseBool _) as [b|]; [|done]. apply Hgo; [lia|done|destruct Hv; auto].
  - destruct isB.
    + destruct (check _); [done|]. apply Hgo; [lia|done|by left].
    + destruct value as [v|]; [destruct (check v); [done|]; apply Hgo; [lia|done|by left]|].
      destruct args' as [|v args'']; [done|]. destruct (check v); [done|].
      apply Hgo; [simpl in *; lia|by eapply Htail|by left].
Qed.

(** The command line that sets every flag explicitly. *)
Definition boolText (b : bool) : string := if b then "true" else "false".
Definition renderFlags (f : Flags) : list string := [
  "--metrics-bind-address=" +:+ metricsAddr f;
  "--metrics-cert-path=" +:+ metricsCertPath f;
  "--metrics-cert-name=" +:+ metricsCertName f;
  "--metrics-cert-key=" +:+ metricsCertKey f;
  "--webhook-cert-path=" +:+ webhookCertPath f;
  "--webhook-cert-name=" +:+ webhookCertName f;
  "--webhook-cert-key=" +:+ webhookCertKey f;
  "--leader-elect=" +:+ boolText (enableLeaderElection f);
  "--health-probe-bind-address=" +:+ probeAddr f;
  "--metrics-secure=" +:+ boolText (secureMetrics f);
  "--enable-http2=" +:+ boolText (enableHTTP2 f)].

(** The TLS configuration a server ends up with. *)
Definition configured (opts : list (TLSConfig → TLSConfig)) (c : TLSConfig) : TLSConfig :=
  fold_left (λ c o, o c) opts c.

(** C30: the manager is locked down unless the command line says otherwise.
    Whatever else is on it, unless an argument names [-enable-http2] both
    servers offer HTTP/1.1 only, whatever their TLS configuration was; and
    unless an argument names [-metrics-secure] the metrics are served over
    HTTPS behind authentication and authorization. *)
Theorem insecure_needs_flag (libFlags : list (string * LibFlag)) (args rest : list string) (f : Flags)
    (scheme : gset GVK) :
  parseFlags libFlags args defaultFlags = ParsedArgs f rest →
  let o := managerOptionsOf scheme f in
  (Exists (mentions "enable-http2") args ∨
   ∀ c, configured (mTLSOpts (Metrics o)) c = mkTLS ["http/1.1"] ∧
        configured (whTLSOpts (Webhook o)) c = mkTLS ["http/1.1"]) ∧
  (Exists (mentions "metrics-secure") args ∨
   (SecureServing (Metrics o) = true ∧ Filter (Metrics o) = WithAuthenticationAndAuthorization)).
Proof.
  intros Hp. cbv zeta. split.
  - destruct (parse_keeps enableHTTP2 "enable-http2" libFlags args _ _ _ ltac:(by repeat constructor) Hp) as [E|]; [|by left].
    right. intros c. unfold managerOptionsOf, metricsOptionsOf, webhookOptionsOf, tlsOptsOf. simpl. by rewrite E.
  - destruct (parse_keeps secureMetrics "metrics-secure" libFlags args _ _ _ ltac:(by repeat constructor) Hp) as [E|]; [|by left].
    right. simpl. by rewrite E.
Qed.

Lemma insecure_needs_flag_witness :
  let args := ["--leader-elect"; "-metrics-bind-address"; ":8443"; "--zap-devel=false"; "serve"] in
  let lib := [("zap-devel", mkLibFlag true (λ _, None))] in
  ∃ f, parseFlags lib args defaultFlags = ParsedArgs f ["serve"] ∧
    metricsAddr f = ":8443" ∧ enableLeaderElection f = true ∧
    ((Exists (mentions "enable-http2") args ∨
      ∀ c, configured (mTLSOpts (Metrics (managerOptionsOf ∅ f))) c = mkTLS ["http/1.1"] ∧
           configured (whTLSOpts (Webhook (managerOptionsOf ∅ f))) c = mkTLS ["http/1.1"]) ∧
     (Exists (mentions "metrics-secure") args ∨
      (SecureServing (Metrics (managerOptionsOf ∅ f)) = true ∧
       Filter (Metrics (managerOptionsOf ∅ f)) = WithAuthenticationAndAuthorization))).
Proof.
  intros args lib. eexists. split; [reflexivity|]. split; [reflexivity|]. split; [reflexivity|].
  exact (insecure_needs_flag lib args ["serve"] _ ∅ eq_refl).
Defined.

(** The command line that spells every flag out is read back exactly, for
    all values of the flags, whatever the libraries define and whatever follows
    the terminator; so no flag shadows another and every value can be given. *)
Lemma parse_render_flags libFlags f0 f rest :
  parseFlags libFlags (renderFlags f ++ "--" :: rest) f0 = ParsedArgs f rest.
Proof. destruct f as [? ? ? ? ? ? ? [] ? [] []]; reflexivity. Qed.

(** ** The start-up sequence: proofs *)

(** What the process has asked of the libraries, with the answers. *)
Section Calls.
Context {W : Type} `{!ClientGo W} `{!CtrlRuntime W}.

Inductive Call :=
| CalledGetConfig (r : option restConfig)
| CalledNewManager (c : restConfig) (o : ManagerOptions) (r : option manager)
| CalledNewForConfig (c : restConfig) (r : option clientset)
| CalledComplete (m : manager) (c : ControllerSpec) (r : ValkeyClusterReconciler client runtimeScheme (AdminStruct (W := W))) (ok : bool)
| CalledHealthz (m : manager) (name : string) (ok : bool)
| CalledReadyz (m : manager) (name : string) (ok : bool)
| CalledStart (m : manager) (ok : bool).

(** The same libraries, with a record of the calls beside the world. *)
Definition noting {A} (note : A → list Call) (m : M W A) : M (W * list Call) A :=
  λ w, match m w.1 with Some (a, w') => Some (a, (w', w.2 ++ note a)) | None => None end.

Definition answer {A} (r : result A) : option A := match r with Ok a => Some a | Err _ => None end.

#[export] Instance traced_ClientGo : ClientGo (W * list Call) := {|
  restConfig := restConfig (W := W); clientset := clientset (W := W); spdyExecutor := spdyExecutor (W := W);
  NewForConfig c := noting (λ r, [CalledNewForConfig c (answer r)]) (NewForConfig (W := W) c);
  requestURL := requestURL (W := W);
  NewSPDYExecutor c v u := noting (λ _, []) (NewSPDYExecutor (W := W) c v u);
  StreamWithContext e := noting (λ _, []) (StreamWithContext (W := W) e) |}.

(** The reconciler as the libraries beneath the record see it: the same fields. *)
Definition untraced (r : ValkeyClusterReconciler (client (W := W)) (runtimeScheme (W := W)) (AdminStruct (W := W * list Call))) :
    ValkeyClusterReconciler (client (W := W)) (runtimeScheme (W := W)) (AdminStruct (W := W)) :=
  let a := rcAdmin r in
  mkReconciler (rcClient r) (rcScheme r)
    (mkAdmin (mkPodExec (W := W) (peCfg (adExec a)) (peClientset (adExec a))) (adContainer a)).

#[export] Instance traced_CtrlRuntime : CtrlRuntime (W * list Call) := {|
  manager := manager (W := W); client := client (W := W); runtimeScheme := runtimeScheme (W := W);
  GetConfigOrDie := noting (λ r, [CalledGetConfig r]) (GetConfigOrDie (W := W));
  NewManager c o := noting (λ r, [CalledNewManager c o (answer r)]) (NewManager (W := W) c o);
  GetConfig := GetConfig (W := W); GetClient := GetClient (W := W); GetScheme := GetScheme (W := W);
  Complete m c r := noting (λ a, [CalledComplete m c (untraced r) (is_ok a)]) (Complete (W := W) m c (untraced r));
  AddHealthzCheck m n := noting (λ r, [CalledHealthz m n (is_ok r)]) (AddHealthzCheck (W := W) m n);
  AddReadyzCheck m n := noting (λ r, [CalledReadyz m n (is_ok r)]) (AddReadyzCheck (W := W) m n);
  Start m := noting (λ r, [CalledStart m (is_ok r)]) (Start (W := W) m) |}.

Lemma wlp_noting {A} note (m : M W A) Q w t :
  (∀ a w', Q a (w', t ++ note a)) → wlp (noting note m) Q (w, t).
Proof.
  intros HQ a wt E. unfold noting in E. simpl in E. destruct (m w) as [[a' w']|]; [|done]. by injection E as <- <-.
Qed.

Lemma wlp_orExit {A} (m : M (W * list Call) (result A)) k Q w :
  wlp m (λ r w', match r with Ok a => wlp (k a) Q w' | Err _ => Q (Exited 1) w' end) w → wlp (orExit m k) Q w.
Proof.
  intros H. apply wlp_bind. eapply wlp_mono; [exact H|]. intros [a|e] w' HQ; [done|]. by apply wlp_ret.
Qed.

(** The reconciler of manager [m] whose pod executor has clientset [cs]. *)
Definition wiredReconciler (m : manager (W := W)) (cs : clientset (W := W)) :
    ValkeyClusterReconciler (client (W := W)) (runtimeScheme (W := W)) (AdminStruct (W := W)) :=
  mkReconciler (GetClient (W := W) m) (GetScheme (W := W) m)
    (mkAdmin (W := W) (mkPodExec (W := W) (GetConfig (W := W) m) cs) "valkey").

(** The calls of a start-up that gets as far as [Start]. *)
Definition fullStart (o : ManagerOptions) (cfg : restConfig (W := W)) (m : manager (W := W)) (cs : clientset (W := W)) (ok : bool) :
    list Call :=
  [CalledGetConfig (Some cfg); CalledNewManager cfg o (Some m); CalledNewForConfig (GetConfig (W := W) m) (Some cs);
   CalledComplete m controllerSpec (wiredReconciler m cs) true; CalledHealthz m "healthz" true;
   CalledReadyz m "readyz" true; CalledStart m ok].

(** The calls of a start-up that does not: the same sequence, up to the first
    call that fails. *)
Inductive stoppedStart (o : ManagerOptions) : list Call → Prop :=
| stopped_config : stoppedStart o [CalledGetConfig None]
| stopped_manager cfg : stoppedStart o [CalledGetConfig (Some cfg); CalledNewManager cfg o None]
| stopped_podExec cfg m :
    stoppedStart o [CalledGetConfig (Some cfg); CalledNewManager cfg o (Some m); CalledNewForConfig (GetConfig (W := W) m) None]
| stopped_controller cfg m cs :
    stoppedStart o (take 3 (fullStart o cfg m cs true) ++ [CalledComplete m controllerSpec (wiredReconciler m cs) false])
| stopped_healthz cfg m cs : stoppedStart o (take 4 (fullStart o cfg m cs true) ++ [CalledHealthz m "healthz" false])
| stopped_readyz cfg m cs : stoppedStart o (take 5 (fullStart o cfg m cs true) ++ [CalledReadyz m "readyz" false]).

Definition startedOnlyIf (o : ManagerOptions) (out : Outcome) (t : list Call) : Prop :=
  (∃ cfg m cs ok, t = fullStart o cfg m cs ok ∧ out = if ok then Returned else Exited 1) ∨
  (stoppedStart o t ∧ out = Exited 1).

Lemma run_starts clientGoKinds metaKinds f w :
  wlp (run (W := W * list Call) clientGoKinds metaKinds f)
    (λ out w', startedOnlyIf (managerOptionsOf (managerScheme clientGoKinds metaKinds) f) out w'.2) (w, []).
Proof.
  unfold run. set (o := managerOptionsOf _ f).
  assert (∀ t, stoppedStart o t → startedOnlyIf o (Exited 1) t) as Hstop by (intros; by right).
  apply wlp_bind, wlp_noting. intros [cfg|] w1; [|apply wlp_ret, Hstop; constructor].
  apply wlp_orExit, wlp_noting. intros [m|e] w2; [|apply Hstop; constructor].
  apply wlp_orExit. unfold NewPodExec. apply wlp_bindE, wlp_noting. intros [cs|e] w3; simpl; [|apply Hstop; constructor].
  apply wlp_ret, wlp_orExit, wlp_noting. intros [[]|e] w4; [|apply Hstop, (stopped_controller o cfg m cs)].
  apply wlp_orExit, wlp_noting. intros [[]|e] w5; [|apply Hstop, (stopped_healthz o cfg m cs)].
  apply wlp_orExit, wlp_noting. intros [[]|e] w6; [|apply Hstop, (stopped_readyz o cfg m cs)].
  apply wlp_orExit, wlp_noting. intros [[]|e] w7; simpl; [apply wlp_ret|]; left; eauto 8.
Qed.
End Calls.

(** C29: the manager is started only when it is completely wired.  Whatever the
    libraries answer, [Start] is asked for exactly when the command line was
    read, the configuration was found, the manager was made with it and the
    options of the flags, the clientset of the pod executor was made from the
    configuration of the manager, the controller was registered with the
    reconciler that has the client and the scheme of the manager and an [Admin]
    on exactly that pod executor, and both probes were added, in this order;
    the first step that fails is the last one, and the process then exits with
    1.  It returns exactly when [Start] did, exits with 2 on a bad command line
    and with 0 for help.  The reconciler execs into a container that the pods
    of every shard have, and every kind it watches is in the scheme of the
    manager. *)
Theorem main_starts_wired {W : Type} `{!ClientGo W} `{!CtrlRuntime W} (clientGoKinds : list GVK)
    (metaKinds : list string) (libFlags : list (string * LibFlag)) (args : list string) (w w' : W)
    (out : Outcome) (t : list Call) :
  (∀ k, k ∈ [("apps", "v1", "StatefulSet"); ("", "v1", "Service"); ("", "v1", "ConfigMap")] → k ∈ clientGoKinds) →
  main clientGoKinds metaKinds libFlags args (w, []) = Some (out, (w', t)) →
  (match parseFlags libFlags args defaultFlags with
   | ParsedArgs f _ => startedOnlyIf (managerOptionsOf (managerScheme clientGoKinds metaKinds) f) out t
   | ParsedHelp => t = [] ∧ out = Exited 0
   | ParsedError _ => t = [] ∧ out = Exited 2
   end) ∧
  (∀ m cs sha cr i, adContainer (rcAdmin (wiredReconciler m cs)) ∈ ctName <$> ptContainers (stsTemplate (StatefulSet sha cr i))) ∧
  (∀ k, k = ctlFor controllerSpec ∨ k ∈ ctlOwns controllerSpec → k ∈ managerScheme clientGoKinds metaKinds).
Proof.
  intros Hkinds E. split_and!.
  - unfold main in E. destruct (parseFlags libFlags args defaultFlags) as [f rest| |msg].
    + exact (run_starts clientGoKinds metaKinds f w _ _ E).
    + by injection E as <- <- <-.
    + by injection E as <- <- <-.
  - intros m cs sha cr i. apply list_elem_of_singleton. reflexivity.
  - intros k Hk. unfold managerScheme, AddToScheme. simpl. rewrite !elem_of_union, !elem_of_list_to_set.
    destruct Hk as [->|Hk]; [left; set_solver|right; right; by apply Hkinds].
Qed.

(** Libraries that answer every call, on a world that only counts starts. *)
#[local] Instance demo_ClientGo : ClientGo nat := {|
  restConfig := unit; clientset := unit; spdyExecutor := unit;
  NewForConfig _ := ret (Ok tt); requestURL _ _ := ""; NewSPDYExecutor _ _ _ := ret (Ok tt);
  StreamWithContext _ := ret ("", "", None) |}.
#[local] Instance demo_CtrlRuntime : CtrlRuntime nat := {|
  manager := unit; client := unit; runtimeScheme := unit;
  GetConfigOrDie := ret (Some tt); NewManager _ _ := ret (Ok tt); GetConfig _ := tt; GetClient _ := tt; GetScheme _ := tt;
  Complete _ _ _ := ret (Ok tt); AddHealthzCheck _ _ := ret (Ok tt); AddReadyzCheck _ _ := ret (Ok tt);
  Start _ := λ n, Some (Ok tt, S n) |}.

Lemma main_starts_wired_witness :
  let kinds := [("apps", "v1", "StatefulSet"); ("", "v1", "Service"); ("", "v1", "ConfigMap")] in
  ∃ t, main kinds ["WatchEvent"] [] ["--leader-elect"] (0%nat, []) = Some (Returned, (1%nat, t)) ∧
    startedOnlyIf (managerOptionsOf (managerScheme kinds ["WatchEvent"]) (set_enableLeaderElection true defaultFlags))
      Returned t.
Proof.
  intros kinds. eexists. split; [reflexivity|].
  exact (proj1 (main_starts_wired kinds ["WatchEvent"] [] ["--leader-elect"] 0%nat 1%nat Returned _ (λ _ H, H) eq_refl)).
Defined.
